(* ===== verification/_CoqProject ===== *)
-Q . S2P
Prelude.v
Memory.v
Memlib.v
Contract.v
Sizes.v
Blocks.v
FreeList.v
Heap.v
HeapRules.v
Coalesce.v
Alloc.v
Malloc.v
MmCheck.v
MmAllocator.v
MmChecked.v
Debug.v
Ranges.v
Driver.v
Replay.v
DriverSpec.v
DriverUtil.v
TraceFile.v
Demo.v
Doubles.v
ExactDoubles.v
Clock.v
Counters.v
Calibrate.v
Fcyc.v
FcycSpec.v
Ftimer.v
Fsecs.v
ErrorCount.v
Stats.v
Options.v
Main.v
MainSpec.v
MmTheorems.v
DriverTheorems.v
TimingTheorems.v
MainTheorems.v
