(* ===== verification/Prelude.v ===== *)
(** * cso_malloc: a verification of the segregated-fit allocator

    The program (src/) is a dynamic storage allocator with the test driver
    around it:

    - src/memlib.c simulates [sbrk] in an arena of [MAX_HEAP] bytes;
    - src/mm.c is the allocator, [mm_init], [mm_malloc], [mm_free] and
      [mm_realloc], over a heap of blocks with boundary tags and 17 doubly
      linked free lists segregated by powers of two;
    - src/mdriver.c reads trace files, replays them against the allocator,
      checks every payload it is given, measures space utilization and
      throughput and prints tables and a performance index;
    - src/fsecs.c measures running times for it with src/ftimer.c, or with
      the K-best scheme of src/fcyc.c over the cycle counter of src/clock.c,
      depending on src/config.h.

    ** Files

    - [Prelude]: results of C computations ([res], [err]), the state and
      error monad [M], the total-correctness predicate [wp] and its variant
      [wpx] for runs that may stop with an allowed error, with their rules
      and tactics; 32-bit and 8-bit integers.
    - [Memory]: the process state [st]: bytes, the arenas obtained from the C
      library and the static variables of memlib.c and mm.c; checked loads
      and stores.  The C library is the class [Libc]; what is relied on of it
      is [LibcOk].
    - [Memlib] (src/memlib.c): every function, and the invariant [memlib_ok].
    - [Contract]: the interface of src/mm.h as the class [Allocator], its
      contract as the class [AllocatorLaws], and client programs that use it
      ([client_reach]).
    - [Sizes], [Blocks] (macros of src/mm.c): size arithmetic and size
      classes; boundary tags.
    - [FreeList] (src/mm.c, [find_end_of_list], [get_node_listindex],
      [remove_from_list], [add_to_list]): the lists, their representation
      [lists_ok] and the rules of the operations.
    - [Heap]: the abstract heap, a list of blocks ([blk]) and the lists of
      the free ones, and the representation invariant: [irep] within an
      operation, [rep] between two calls.  [HeapRules]: rules for the tag
      macros and for the list operations on a represented heap.
    - [Coalesce] (src/mm.c, [free_block], [coalesce]), [Alloc] ([allocate],
      [find_fit], [extend_heap]), [Malloc] ([mm_init], [mm_malloc],
      [mm_free], [mm_realloc]): the code, what it does to the blocks as the
      relations [coalesced], [allocated], [malloced] and [freed], and the
      refinement lemmas.
    - [MmCheck] (src/mm.c, [mm_check]): the heap checker.  [Debug]
      (src/mm.c, [debuggable_memset], [test_main]): the code under [_DEBUG],
      which is a build with checks.
    - [MmAllocator]: the allocator of src/mm.c as an instance of the
      interface and the proof of the contract.  [MmChecked]: the build with
      [DO_MM_CHECK], which clears the arena and checks the heap, and its
      relation to the default one.
    - [Ranges] (src/mdriver.c, [add_range], [remove_range], [clear_ranges],
      [malloc_error]), [Driver] ([eval_mm_valid], [eval_mm_util],
      [eval_mm_speed], [eval_libc_valid], [eval_libc_speed]), [TraceFile]
      ([read_trace]): the driver.  [Replay]: a trace replayed on an allocator
      alone, which says when memory runs out.  [DriverSpec] and [DriverUtil]:
      what the interpreters compute, for any lawful allocator.
    - [Doubles]: binary64 arithmetic, from the specification of the Standard
      Library.  [ExactDoubles]: integers below 2^53 are exact, and bounds on
      the magnitude of results.
    - [Clock] (src/clock.c: the i386 counter and the machine-independent
      functions), [Counters] (the counters of other processors), [Fcyc]
      (src/fcyc.c), [Ftimer] (src/ftimer.c and [fsecs] as configured),
      [Fsecs] (src/fsecs.c in its other configurations, [init_fsecs]): the
      counters and timers.  The processor and the operating system they read
      are the classes [Machine], [AlphaMachine] and [Timers].
      [Calibrate] and [FcycSpec]: calibration and the measuring loop on a
      machine with a steady clock ([steady]): the ticks that are observed
      ([seen]), the ratio that is kept ([smallest]), and what a reading is
      ([compensated_reading]).
    - [Stats] ([sumresults], [printresults], the index), [Options] (the
      options and the team), [Main] ([main]): the main program.  Its state
      [proc] is that of the driver with the one of the timers.
      [ErrorCount] and [MainSpec]: which calls add to the error counter, what
      [main] does with lawful allocators and with arbitrary ones, and what it
      asks of them ([memory_run]).
    - [Demo]: a concrete C library and the states the allocator reaches in
      it, at which the theorems are instantiated.
    - [MmTheorems], [DriverTheorems], [TimingTheorems], [MainTheorems]: the
      properties.

    ** How the model corresponds to the code

    The code is 32-bit C with a 4-byte [unsigned], [size_t], [long] and
    pointer and a signed [char].  Unsigned and pointer arithmetic wraps
    ([add32], [sub32], [mul32]); signed overflow, an access outside the
    arenas, a list index outside the array and the use of an indeterminate
    cell of a trace array are [Err UB]; a failing [assert] is
    [Err AssertFail]; [exit(n)] is [Err (Exit n)].  Functions of the source
    are definitions of the same name in the monad [M st] (driver: [M dst]),
    with one load for each evaluation of a macro.  The bytes of an arena
    nobody has written are those the C library left there ([libc_junk]).

    A loop over a linked list has fuel: a list of blocks at least 16 bytes
    long in a heap of n bytes has at most n / 16 nodes, which [list_fuel]
    exceeds; [find_fit] looks at no more than 17 lists; the trace reader gets
    one more step than the file has characters and each line takes at least
    one.  The measuring loop of [fcyc] takes at most [maxsamples]
    samples, or one.  [Err OutOfFuel] is excluded by every total-correctness
    theorem, so the fuel is enough.  Only the calibration of [callibrate]
    waits for a number of clock ticks, which is up to the machine; its fuel
    is an argument, and [enough] says how much a steady machine needs: the
    loop reads the counter until [NEVENT] ticks passed, and each reading
    takes at least one cycle.

    A [double] is a binary64 number and each operation is rounded once, as
    with SSE2 arithmetic; x87 registers would keep more digits.
    The variable [avg_mm_throughput] of [main], which [sumresults] reads
    before anything is stored in it, may hold any double: the argument
    [stale] of [main].

    ** What is shown

    - The allocator ([mm_malloc_correct], [mm_free_correct],
      [mm_realloc_correct], [mm_init_correct]): on a represented heap each
      entry point returns, its result and the new live payloads are as
      documented, and the heap is represented again; NULL leaves the heap as
      it was.  No byte outside the heap is written ([grown], [only_upd]).
      [mm_client_safe]: a client that only uses what it was given is
      safe for ever.  [mm_checked_build]: with the checks compiled in it runs
      alike or stops at an assertion, and it does not stop while the heap is
      small.
    - The routines under them: each implements its relation
      ([coalesce_correct] to [mm_check_decides]); sizes, classes, tags and
      the simulated break ([adjust_bytesize_least] to [mem_sbrk_correct]).
    - The interpreters: [eval_mm_valid_correct] (no false alarm),
      [eval_mm_util_correct] (the high-water mark over the heap size, at most
      one), [eval_mm_speed_correct] and [eval_libc_valid_correct], for every
      disciplined trace and every allocator with the contract.  Each gives up
      exactly if the replay of the trace on the allocator alone meets a NULL,
      and otherwise ends with the same pointers and the same heap.  What the
      checks decide ([add_range_decides], [remove_range_correct],
      [check_bytes_decides]).
    - The trace reader: it reads back what is printed
      ([read_trace_roundtrip]), ends on every file and only accepts files
      that agree with their header ([read_trace_accepts]).
    - The main program: [main_correct] composes all of this, from the options
      and the files to the index, for two allocators with the contract: an
      error exit means that [memory_run], the requests of the whole program,
      runs out of memory, and the traces that count as valid are those it
      says.  [main_counts_errors] relates the error counter and the verdict
      to the traces for every allocator; [statistics_correct],
      [read_options_correct].
    - Measuring: [add_sample_kbest], [fcyc_correct] (with or without
      clearing the cache), [get_counter_difference], the calibration, which
      observes [NEVENT] ticks and keeps the smallest ratio
      ([callibrate_correct]), and all of it together with compensation for
      timer interrupts as the timing method of [USE_FCYC], with the clock
      rate and every reading characterised ([fsecs_fcyc_correct]).
    - Where the code does not do what it means to: wrapping in [mem_sbrk] and
      in the size adjustment ([mem_sbrk_wraps], [mm_malloc_huge]), the
      failure of [mem_sbrk] that [mm_init] misses ([mm_init_never_fails]),
      NULL arguments ([null_pointer_undefined]), a list index that is never
      found ([get_node_listindex_misses]), free blocks that stay adjacent
      ([adjacent_free_blocks]), the two checks of the driver that miss an
      overlap and report a correct allocator ([add_range_misses_enclosed],
      [eval_mm_valid_false_alarm]), the summary after a failed trace
      ([main_counts_errors]), and the Alpha's counter when it wraps around
      ([alpha_counter]).

    The hypotheses of the allocator's theorems are the representation
    invariant and [no_wrap]: the pointer sum in [mem_sbrk] does not pass the
    end of the address space ([mem_sbrk_wraps] shows why it is needed).

    ** What is not modelled

    The layout of what is printed, and messages on the standard streams (the
    tables are lists of rows with their numbers); [usage]; the instructions
    of the array [counterRoutine]; the variables set for the debugger.  The result of
    [getopt] is an input, the files are a function of their names, and the
    memory of the host is a predicate on sizes.  The array of requests of a
    trace has [num_ops] entries, which [read_trace] asserts, and the loops of
    the interpreters run over that list. *)

From Stdlib Require Import ZArith Lia.
From stdpp Require Import base gmap numbers list.

#[global] Open Scope Z_scope.

(** ** Results of a C computation

    [Err] collects every way a run can stop without returning to its caller:
    an access outside every live object or another undefined behaviour
    ([UB]), a failing [assert] ([AssertFail]), a call of [exit] ([Exit]) and
    the exhaustion of the fuel of a modelled loop ([OutOfFuel], which the
    theorems show never happens). *)
Inductive err :=
  | UB
  | AssertFail
  | Exit (code : Z)
  | OutOfFuel.

Inductive res (A : Type) :=
  | Ok (a : A)
  | Err (e : err).
Arguments Ok {A} a.
Arguments Err {A} e.

(** Whether a run returned. *)
Definition returned {A} (r : res A) : bool :=
  match r with
  | Ok _ => true
  | Err _ => false
  end.

(** ** The state and error monad of the C code *)
Definition M (S A : Type) : Type := S → res (A * S).

#[global] Instance M_ret {S} : MRet (M S) := λ A a s, Ok (a, s).
#[global] Instance M_bind {S} : MBind (M S) := λ A B k c s,
  match c s with
  | Ok (a, s') => k a s'
  | Err e => Err e
  end.

Definition fail {S A} (e : err) : M S A := λ _, Err e.
Definition gets {S A} (f : S → A) : M S A := λ s, Ok (f s, s).
Definition modify {S} (f : S → S) : M S unit := λ s, Ok (tt, f s).

(** [assert(b)]: [abort] unless [b] holds. *)
Definition assert_c {S} (b : bool) : M S unit :=
  if b then mret tt else fail AssertFail.

(** Total correctness: the run returns, and its result and final state
    satisfy [Q]. *)
Definition wp {S A} (c : M S A) (s : S) (Q : A → S → Prop) : Prop :=
  match c s with
  | Ok (a, s') => Q a s'
  | Err _ => False
  end.

(** The same for runs that may stop at an error of [E]. *)
Definition wpx {S A} (E : err → Prop) (c : M S A) (s : S) (Q : A → S → Prop) : Prop :=
  match c s with
  | Ok (a, s') => Q a s'
  | Err e => E e
  end.

(** ** 32-bit machine integers (the Makefile compiles with -m32) *)
Definition W32 : Z := 4294967296.
Definition u32 (z : Z) : Z := z mod W32.
(** Conversion of an unsigned 32-bit value to [int]. *)
Definition s32 (z : Z) : Z :=
  if u32 z <? 2147483648 then u32 z else u32 z - W32.
(** Conversion to [unsigned char], and the value of a plain [char], which is
    signed on this target. *)
Definition u8 (z : Z) : Z := z mod 256.
Definition s8 (z : Z) : Z := if u8 z <? 128 then u8 z else u8 z - 256.

Definition add32 (x y : Z) : Z := u32 (x + y).
Definition sub32 (x y : Z) : Z := u32 (x - y).
Definition mul32 (x y : Z) : Z := u32 (x * y).

(** Arithmetic of [int] and [long]: overflow is undefined. *)
Definition int_range (z : Z) : bool := (-2147483648 <=? z) && (z <? 2147483648).
Definition int_result {S} (z : Z) : M S Z := if int_range z then mret z else fail UB.

(** The truth value of a C comparison. *)
Definition b2z (b : bool) : Z := if b then 1 else 0.

(** ** Rules of the monad *)
Lemma wp_ret {S A} (a : A) (s : S) (Q : A → S → Prop) :
  Q a s → wp (mret a) s Q.
Proof. done. Qed.

Lemma wp_bind {S A B} (c : M S A) (k : A → M S B) s (Q : B → S → Prop) :
  wp c s (λ a s', wp (k a) s' Q) → wp (c ≫= k) s Q.
Proof. unfold wp, mbind, M_bind. destruct (c s) as [[a s']|]; done. Qed.

(** Back to the sequence, for a tail with a rule of its own. *)
Lemma wp_unbind {S A B} (c : M S A) (k : A → M S B) s (Q : B → S → Prop) :
  wp (c ≫= k) s Q → wp c s (λ a s', wp (k a) s' Q).
Proof. unfold wp, mbind, M_bind. destruct (c s) as [[a s']|]; done. Qed.

Lemma wp_mono {S A} (c : M S A) s (P Q : A → S → Prop) :
  wp c s P → (∀ a s', P a s' → Q a s') → wp c s Q.
Proof. unfold wp. destruct (c s) as [[a s']|]; auto. Qed.

Lemma wp_gets {S A} (f : S → A) s (Q : A → S → Prop) :
  Q (f s) s → wp (gets f) s Q.
Proof. done. Qed.

Lemma wp_modify {S} (f : S → S) s (Q : unit → S → Prop) :
  Q tt (f s) → wp (modify f) s Q.
Proof. done. Qed.

Lemma wp_assert {S} (b : bool) (s : S) (Q : unit → S → Prop) :
  b = true → Q tt s → wp (assert_c b) s Q.
Proof. by intros ->. Qed.

Lemma wp_run {S A} (c : M S A) s (Q : A → S → Prop) :
  wp c s Q ↔ ∃ a s', c s = Ok (a, s') ∧ Q a s'.
Proof.
  unfold wp. destruct (c s) as [[a s']|e]; split.
  - eauto.
  - intros (? & ? & [= -> ->] & ?). done.
  - done.
  - by intros (? & ? & ? & ?).
Qed.

(** The run itself may be used to show what holds after it. *)
Lemma wp_eqn {S A} (c : M S A) s (Q : A → S → Prop) :
  wp c s (λ a s', c s = Ok (a, s') → Q a s') → wp c s Q.
Proof. unfold wp. destruct (c s) as [[a s']|]; auto. Qed.

(** A run whose result and final state are known. *)
Lemma wp_exact {S A} (c : M S A) s r s1 : wp c s (λ a s', a = r ∧ s' = s1) → c s = Ok (r, s1).
Proof. intros (a & s' & E & -> & ->)%wp_run. exact E. Qed.

Lemma wpx_bind {S A B} E (c : M S A) (k : A → M S B) s (Q : B → S → Prop) :
  wpx E c s (λ a s', wpx E (k a) s' Q) → wpx E (c ≫= k) s Q.
Proof. unfold wpx, mbind, M_bind. destruct (c s) as [[a s']|]; done. Qed.

Lemma wp_wpx {S A} E (c : M S A) s (Q : A → S → Prop) : wp c s Q → wpx E c s Q.
Proof. unfold wp, wpx. by destruct (c s) as [[a s']|]. Qed.

(** A step that returns, then one that may stop. *)
Lemma wpx_bind_wp {S A B} E (c : M S A) (k : A → M S B) s (Q : B → S → Prop) :
  wp c s (λ a s', wpx E (k a) s' Q) → wpx E (c ≫= k) s Q.
Proof. intros H. by apply wpx_bind, wp_wpx. Qed.

Lemma wpx_ret {S A} E (a : A) (s : S) (Q : A → S → Prop) : Q a s → wpx E (mret a) s Q.
Proof. done. Qed.

(** Partial correctness knows nothing about an arbitrary step. *)
Lemma wpx_any {S A} (E : err → Prop) (c : M S A) (s : S) (Q : A → S → Prop) :
  (∀ e, E e) → (∀ a s', Q a s') → wpx E c s Q.
Proof. intros HE HQ. unfold wpx. destruct (c s) as [[a s']|e]; auto. Qed.

Lemma wpx_mono {S A} E (c : M S A) s (P Q : A → S → Prop) :
  wpx E c s P → (∀ a s', P a s' → Q a s') → wpx E c s Q.
Proof. unfold wpx. destruct (c s) as [[a s']|]; auto. Qed.

(** The one way a run may stop early: [exit(1)]. *)
Definition exits (e : err) : Prop := e = Exit 1.

Lemma wpx_more {S A} (E E' : err → Prop) (c : M S A) s (Q : A → S → Prop) :
  wpx E c s Q → (∀ e, E e → E' e) → wpx E' c s Q.
Proof. unfold wpx. destruct (c s) as [[a s']|]; auto. Qed.

Lemma wpx_fail {S A} (E : err → Prop) e (s : S) (Q : A → S → Prop) : E e → wpx E (fail e) s Q.
Proof. done. Qed.

(** ** Quantities of the state that a run leaves alone *)
Definition pres {S X A} (f : S → X) (c : M S A) : Prop :=
  ∀ s a s', c s = Ok (a, s') → f s' = f s.

Section Pres.
Context {S X : Type} (f : S → X).

Lemma pres_ret {A} (a : A) : pres f (mret a).
Proof. by intros s a' s' [= <- <-]. Qed.

Lemma pres_bind {A B} (c : M S A) (k : A → M S B) :
  pres f c → (∀ a, pres f (k a)) → pres f (c ≫= k).
Proof.
  intros Hc Hk s b s'. unfold mbind, M_bind. destruct (c s) as [[a s1]|e] eqn:E; [|done].
  intros E2. apply Hk in E2. apply Hc in E. congruence.
Qed.

Lemma pres_fail {A} e : pres f (fail (A := A) e).
Proof. done. Qed.

Lemma pres_gets {A} (g : S → A) : pres f (gets g).
Proof. by intros s a s' [= <- <-]. Qed.

Lemma pres_modify g : (∀ s, f (g s) = f s) → pres f (modify g).
Proof. intros Hg s a s' [= <- <-]. apply Hg. Qed.

Lemma pres_assert b : pres f (assert_c b).
Proof. unfold assert_c. intros s a s'. destruct b; [|done]. by intros [= <- <-]. Qed.

Lemma pres_int_result z : pres f (int_result z).
Proof. unfold int_result. destruct (int_range z); [apply pres_ret|apply pres_fail]. Qed.
End Pres.

(** Step through the head of a computation. *)
Ltac wp_bind := apply wp_bind.
Ltac wp_pure :=
  repeat lazymatch goal with
    | |- wp (_ ≫= _) _ _ => apply wp_bind
    | |- wp (mret _) _ _ => apply wp_ret; cbv beta
    | |- wp (gets _) _ _ => apply wp_gets; cbv beta
    | |- wp (modify _) _ _ => apply wp_modify; cbv beta
    end.

(** ** Machine arithmetic in range *)
Lemma u32_small z : 0 ≤ z < W32 → u32 z = z.
Proof. apply Z.mod_small. Qed.

Lemma u32_range z : 0 ≤ u32 z < W32.
Proof. apply Z.mod_pos_bound. done. Qed.

Lemma u8_range z : 0 ≤ u8 z < 256.
Proof. apply Z.mod_pos_bound. done. Qed.

Lemma u8_small z : 0 ≤ z < 256 → u8 z = z.
Proof. apply Z.mod_small. Qed.

Lemma u8_idem z : u8 (u8 z) = u8 z.
Proof. apply u8_small, u8_range. Qed.

Lemma s32_small z : 0 ≤ z < 2147483648 → s32 z = z.
Proof.
  intros Hz. unfold s32. rewrite u32_small by (unfold W32; lia).
  destruct (Z.ltb_spec z 2147483648); lia.
Qed.

Lemma s32_neg z : 2147483648 ≤ z < W32 → s32 z < 0.
Proof.
  unfold W32. intros Hz. unfold s32. rewrite u32_small by (unfold W32; lia).
  destruct (Z.ltb_spec z 2147483648); unfold W32; lia.
Qed.

Lemma add32_small x y : 0 ≤ x + y < W32 → add32 x y = x + y.
Proof. apply u32_small. Qed.

Lemma sub32_small x y : 0 ≤ x - y < W32 → sub32 x y = x - y.
Proof. apply u32_small. Qed.

Lemma mul32_small x y : 0 ≤ x * y < W32 → mul32 x y = x * y.
Proof. apply u32_small. Qed.

Create Rewrite HintDb word.
#[export] Hint Rewrite add32_small sub32_small mul32_small u32_small
  using (unfold W32 in *; lia) : word.

(** Remove every wrap-around whose argument is known to be in range. *)
Ltac word := autorewrite with word in *.
