(* ===== verification/Memory.v ===== *)
(** * The memory of the process and the static variables of the program

    The bytes of the process are a finite map [ram]; a byte nobody has
    written yet is the indeterminate byte the C library left there
    ([libc_junk]).  The only objects the allocator dereferences are the
    arenas obtained by [malloc(MAX_HEAP)] in [mem_init] (src/memlib.c), so
    [arenas] lists their base addresses and every access is checked against
    them: an access outside is undefined behaviour.  The record [st] adds
    the static variables of src/memlib.c and src/mm.c. *)

From Stdlib Require Import ZArith Lia.
From stdpp Require Import base gmap numbers list.
From S2P Require Import Prelude.

(** config.h: maximum heap size in bytes, and the alignment requirement. *)
Definition MAX_HEAP : Z := 20 * Z.shiftl 1 20.
Definition ALIGNMENT : Z := 8.

(** The C library, which is not part of the repository: the address of a
    new object of [malloc(n)] (0 for NULL), given the objects already
    handed out; the bytes found in fresh memory; and [getpagesize()]. *)
Class Libc := {
  libc_malloc : list Z → Z → Z;
  libc_junk : Z → Z;
  libc_getpagesize : Z
}.

(** What the program relies on: [malloc] aligns its result for any object,
    an object does not wrap around the address space, and a page is
    positive and no larger than 64 KiB. *)
Class LibcOk (L : Libc) : Prop := {
  malloc_aligned l : (8 | libc_malloc l MAX_HEAP);
  malloc_fits l : 0 ≤ libc_malloc l MAX_HEAP ∧ libc_malloc l MAX_HEAP + MAX_HEAP < W32;
  page_positive : 0 < libc_getpagesize ≤ 65536
}.

(** The state: process memory, then the statics of memlib.c and mm.c. *)
Record st := St {
  ram : gmap Z Z;
  arenas : list Z;
  errno : Z;
  mem_start_brk : Z;
  mem_brk : Z;
  mem_max_addr : Z;
  free_lists : list Z;
  PAGE_SIZE : Z;
  ADJUSTED_PAGESIZE : Z;
  heap_start : Z;
  heap_end : Z
}.

Definition set_ram (m : gmap Z Z) (s : st) : st :=
  St m (arenas s) (errno s) (mem_start_brk s) (mem_brk s) (mem_max_addr s)
     (free_lists s) (PAGE_SIZE s) (ADJUSTED_PAGESIZE s) (heap_start s) (heap_end s).
Definition set_arenas (l : list Z) (s : st) : st :=
  St (ram s) l (errno s) (mem_start_brk s) (mem_brk s) (mem_max_addr s)
     (free_lists s) (PAGE_SIZE s) (ADJUSTED_PAGESIZE s) (heap_start s) (heap_end s).
Definition set_errno (e : Z) (s : st) : st :=
  St (ram s) (arenas s) e (mem_start_brk s) (mem_brk s) (mem_max_addr s)
     (free_lists s) (PAGE_SIZE s) (ADJUSTED_PAGESIZE s) (heap_start s) (heap_end s).
Definition set_mem_start_brk (p : Z) (s : st) : st :=
  St (ram s) (arenas s) (errno s) p (mem_brk s) (mem_max_addr s)
     (free_lists s) (PAGE_SIZE s) (ADJUSTED_PAGESIZE s) (heap_start s) (heap_end s).
Definition set_mem_brk (p : Z) (s : st) : st :=
  St (ram s) (arenas s) (errno s) (mem_start_brk s) p (mem_max_addr s)
     (free_lists s) (PAGE_SIZE s) (ADJUSTED_PAGESIZE s) (heap_start s) (heap_end s).
Definition set_mem_max_addr (p : Z) (s : st) : st :=
  St (ram s) (arenas s) (errno s) (mem_start_brk s) (mem_brk s) p
     (free_lists s) (PAGE_SIZE s) (ADJUSTED_PAGESIZE s) (heap_start s) (heap_end s).
Definition set_free_lists (l : list Z) (s : st) : st :=
  St (ram s) (arenas s) (errno s) (mem_start_brk s) (mem_brk s) (mem_max_addr s)
     l (PAGE_SIZE s) (ADJUSTED_PAGESIZE s) (heap_start s) (heap_end s).
Definition set_PAGE_SIZE (n : Z) (s : st) : st :=
  St (ram s) (arenas s) (errno s) (mem_start_brk s) (mem_brk s) (mem_max_addr s)
     (free_lists s) n (ADJUSTED_PAGESIZE s) (heap_start s) (heap_end s).
Definition set_ADJUSTED_PAGESIZE (n : Z) (s : st) : st :=
  St (ram s) (arenas s) (errno s) (mem_start_brk s) (mem_brk s) (mem_max_addr s)
     (free_lists s) (PAGE_SIZE s) n (heap_start s) (heap_end s).
Definition set_heap_start (p : Z) (s : st) : st :=
  St (ram s) (arenas s) (errno s) (mem_start_brk s) (mem_brk s) (mem_max_addr s)
     (free_lists s) (PAGE_SIZE s) (ADJUSTED_PAGESIZE s) p (heap_end s).
Definition set_heap_end (p : Z) (s : st) : st :=
  St (ram s) (arenas s) (errno s) (mem_start_brk s) (mem_brk s) (mem_max_addr s)
     (free_lists s) (PAGE_SIZE s) (ADJUSTED_PAGESIZE s) (heap_start s) p.

(** Before [main]: no arena, every static zero. *)
Definition st0 : st := St ∅ [] 0 0 0 0 (replicate 17 0) 0 0 0 0.

Section Memory.
Context {L : Libc}.

(** ** Bytes and 32-bit little-endian words *)
Definition rdb (m : gmap Z Z) (p : Z) : Z :=
  u8 (match m !! p with Some b => b | None => libc_junk p end).
Definition wrb (m : gmap Z Z) (p b : Z) : gmap Z Z := <[p := u8 b]> m.

Definition rdw (m : gmap Z Z) (p : Z) : Z :=
  rdb m p + 256 * rdb m (p + 1) + 65536 * rdb m (p + 2) + 16777216 * rdb m (p + 3).
Definition wrw (m : gmap Z Z) (p v : Z) : gmap Z Z :=
  wrb (wrb (wrb (wrb m p v) (p + 1) (v / 256)) (p + 2) (v / 65536)) (p + 3) (v / 16777216).

Definition rdbs (m : gmap Z Z) (p : Z) (n : nat) : list Z :=
  map (λ i, rdb m (p + Z.of_nat i)) (seq 0 n).
Fixpoint wrbs (m : gmap Z Z) (p : Z) (l : list Z) : gmap Z Z :=
  match l with
  | [] => m
  | b :: l' => wrbs (wrb m p b) (p + 1) l'
  end.

(** ** Accesses of the program *)
Definition valid (s : st) (p n : Z) : bool :=
  existsb (λ a, (a <=? p) && (p + n <=? a + MAX_HEAP)) (arenas s).

Definition load32 (p : Z) : M st Z := λ s,
  if valid s p 4 then Ok (rdw (ram s) p, s) else Err UB.
Definition store32 (p v : Z) : M st unit := λ s,
  if valid s p 4 then Ok (tt, set_ram (wrw (ram s) p v) s) else Err UB.
Definition load8 (p : Z) : M st Z := λ s,
  if valid s p 1 then Ok (rdb (ram s) p, s) else Err UB.
Definition store8 (p v : Z) : M st unit := λ s,
  if valid s p 1 then Ok (tt, set_ram (wrb (ram s) p v) s) else Err UB.

(** [memset] and [memcpy] of the C standard; copying between overlapping
    objects is undefined. *)
Definition memset (p c n : Z) : M st unit := λ s,
  if n =? 0 then Ok (tt, s)
  else if valid s p n
  then Ok (tt, set_ram (wrbs (ram s) p (replicate (Z.to_nat n) c)) s)
  else Err UB.
Definition memcpy (dst src n : Z) : M st unit := λ s,
  if n =? 0 then Ok (tt, s)
  else if valid s dst n && valid s src n &&
          ((dst + n <=? src) || (src + n <=? dst))
  then Ok (tt, set_ram (wrbs (ram s) dst (rdbs (ram s) src (Z.to_nat n))) s)
  else Err UB.

(** ** Frames *)

(** The two memories hold the same bytes at every address of [P]. *)
Definition same_on (P : Z → Prop) (m m' : gmap Z Z) : Prop :=
  ∀ q, P q → rdb m' q = rdb m q.
(** They differ at most in the interval [lo, hi). *)
Definition outside (lo hi : Z) (m m' : gmap Z Z) : Prop :=
  same_on (λ q, q < lo ∨ hi ≤ q) m m'.
(** They cannot be told apart by reading. *)
Definition mem_eq (m m' : gmap Z Z) : Prop := same_on (λ _, True) m m'.

End Memory.

(** The value of the constant, for [lia]. *)
Lemma MAX_HEAP_eq : MAX_HEAP = 20971520.
Proof. done. Qed.

Section MemoryFacts.
Context {L : Libc}.
Implicit Types (m : gmap Z Z) (s : st).

(** ** Bytes *)
Lemma rdb_range m p : 0 ≤ rdb m p < 256.
Proof. apply u8_range. Qed.

Lemma rdb_wrb m p b q : rdb (wrb m p b) q = if decide (p = q) then u8 b else rdb m q.
Proof.
  unfold rdb, wrb. rewrite lookup_insert.
  case_decide; [apply u8_idem | done].
Qed.

Lemma rdb_wrb_eq m p b : rdb (wrb m p b) p = u8 b.
Proof. rewrite rdb_wrb. by rewrite decide_True. Qed.

Lemma rdb_wrb_ne m p b q : p ≠ q → rdb (wrb m p b) q = rdb m q.
Proof. intros. rewrite rdb_wrb. by rewrite decide_False. Qed.

(** ** Words *)
Lemma rdw_range m p : 0 ≤ rdw m p < W32.
Proof.
  unfold rdw, W32.
  pose proof (rdb_range m p). pose proof (rdb_range m (p + 1)).
  pose proof (rdb_range m (p + 2)). pose proof (rdb_range m (p + 3)). lia.
Qed.

Lemma rdw_same m m' p :
  same_on (λ q, p ≤ q < p + 4) m m' → rdw m' p = rdw m p.
Proof. intros H. unfold rdw. rewrite !H by lia. done. Qed.

Lemma rdb_wrw_out m p v q : q < p ∨ p + 4 ≤ q → rdb (wrw m p v) q = rdb m q.
Proof. intros. unfold wrw. rewrite !rdb_wrb_ne by lia. done. Qed.

Lemma wrw_outside m p v : outside p (p + 4) m (wrw m p v).
Proof. intros q Hq. by apply rdb_wrw_out. Qed.

Lemma rdw_wrw_ne m p v q : q + 4 ≤ p ∨ p + 4 ≤ q → rdw (wrw m p v) q = rdw m q.
Proof. intros. apply rdw_same. intros x Hx. apply rdb_wrw_out. lia. Qed.

Lemma rdb_wrw m p v :
  rdb (wrw m p v) p = u8 v ∧ rdb (wrw m p v) (p + 1) = u8 (v / 256) ∧
  rdb (wrw m p v) (p + 2) = u8 (v / 65536) ∧
  rdb (wrw m p v) (p + 3) = u8 (v / 16777216).
Proof.
  unfold wrw. repeat split;
    repeat first [rewrite rdb_wrb_eq; done | rewrite rdb_wrb_ne by lia].
Qed.

(** A stored word is read back. *)
Lemma rdw_wrw_eq m p v : 0 ≤ v < W32 → rdw (wrw m p v) p = v.
Proof.
  unfold W32. intros Hv. unfold rdw.
  destruct (rdb_wrw m p v) as (-> & -> & -> & ->). unfold u8.
  Z.to_euclidean_division_equations. lia.
Qed.

(** Storing a word that is already there changes nothing. *)
Lemma wrw_id m p : mem_eq m (wrw m p (rdw m p)).
Proof.
  intros q _.
  destruct (decide (q < p ∨ p + 4 ≤ q)) as [Hq|Hq]; [by apply rdb_wrw_out|].
  pose proof (rdb_range m p). pose proof (rdb_range m (p + 1)).
  pose proof (rdb_range m (p + 2)). pose proof (rdb_range m (p + 3)).
  destruct (rdb_wrw m p (rdw m p)) as (E0 & E1 & E2 & E3).
  assert (q = p ∨ q = p + 1 ∨ q = p + 2 ∨ q = p + 3) as [-> | [-> | [-> | ->]]] by lia;
    rewrite ?E0, ?E1, ?E2, ?E3; unfold u8, rdw; clear E0 E1 E2 E3 Hq;
    Z.to_euclidean_division_equations; lia.
Qed.

(** ** Byte strings *)
Lemma rdbs_length m p n : length (rdbs m p n) = n.
Proof. unfold rdbs. by rewrite length_map, length_seq. Qed.

Lemma rdbs_lookup m p n i : (i < n)%nat → rdbs m p n !! i = Some (rdb m (p + Z.of_nat i)).
Proof.
  intros Hi. unfold rdbs. rewrite list_lookup_fmap, lookup_seq_lt by done. done.
Qed.

Lemma rdbs_same m m' p n :
  same_on (λ q, p ≤ q < p + Z.of_nat n) m m' → rdbs m' p n = rdbs m p n.
Proof.
  intros H. unfold rdbs. apply map_ext_in. intros i Hi%in_seq.
  apply H. lia.
Qed.

Lemma rdb_wrbs_out m p l q :
  q < p ∨ p + Z.of_nat (length l) ≤ q → rdb (wrbs m p l) q = rdb m q.
Proof.
  revert m p. induction l as [|b l IH]; intros m p Hq; [done|]. simpl in *.
  rewrite IH by lia. apply rdb_wrb_ne. lia.
Qed.

Lemma rdb_wrbs_in m p l (i : nat) b :
  l !! i = Some b → rdb (wrbs m p l) (p + Z.of_nat i) = u8 b.
Proof.
  revert m p i. induction l as [|c l IH]; intros m p i Hi; [done|].
  destruct i as [|i]; cbn in Hi |- *.
  - injection Hi as ->. rewrite rdb_wrbs_out by lia.
    rewrite Z.add_0_r. apply rdb_wrb_eq.
  - replace (p + Z.of_nat (S i)) with (p + 1 + Z.of_nat i) by lia. by apply IH.
Qed.

Lemma wrbs_outside m p l : outside p (p + Z.of_nat (length l)) m (wrbs m p l).
Proof. intros q Hq. by apply rdb_wrbs_out. Qed.

(** A stored byte string is read back. *)
Lemma rdbs_wrbs m p l : rdbs (wrbs m p l) p (length l) = map u8 l.
Proof.
  apply list_eq. intros i. destruct (l !! i) as [b|] eqn:Hi.
  - pose proof (lookup_lt_Some _ _ _ Hi).
    rewrite rdbs_lookup by done. rewrite (rdb_wrbs_in _ _ _ _ b) by done.
    rewrite list_lookup_fmap, Hi. done.
  - apply lookup_ge_None in Hi.
    rewrite list_lookup_fmap. rewrite (lookup_ge_None_2 l) by done.
    apply lookup_ge_None. by rewrite rdbs_length.
Qed.

Lemma rdbs_app m p n k : rdbs m p (n + k) = rdbs m p n ++ rdbs m (p + Z.of_nat n) k.
Proof.
  apply list_eq. intros i.
  destruct (decide (i < n + k)%nat) as [Hi|Hi].
  - rewrite rdbs_lookup by done. destruct (decide (i < n)%nat).
    + rewrite lookup_app_l, rdbs_lookup by (rewrite ?rdbs_length; lia). done.
    + rewrite lookup_app_r, rdbs_length, rdbs_lookup by (rewrite ?rdbs_length; lia).
      do 2 f_equal. lia.
  - rewrite !lookup_ge_None_2; [done | |]; rewrite ?length_app, ?rdbs_length; lia.
Qed.

Lemma rdbs_S m p n : rdbs m p (S n) = rdb m p :: rdbs m (p + 1) n.
Proof.
  change (S n) with (1 + n)%nat. rewrite (rdbs_app m p 1 n). unfold rdbs at 1. cbn.
  by rewrite Z.add_0_r.
Qed.

Lemma rdbs_u8 m p n : map u8 (rdbs m p n) = rdbs m p n.
Proof.
  unfold rdbs. rewrite map_map. apply map_ext. intros i. apply u8_small, rdb_range.
Qed.

Lemma rdbs_take m p n k : take k (rdbs m p n) = rdbs m p (k `min` n)%nat.
Proof.
  assert (H : rdbs m p n = rdbs m p (k `min` n) ++ rdbs m (p + Z.of_nat (k `min` n)) (n - k)).
  { rewrite <- rdbs_app. f_equal. lia. }
  rewrite H, take_app, take_ge by (rewrite rdbs_length; lia).
  rewrite rdbs_length. destruct (decide (k ≤ n)%nat).
  - replace (k - k `min` n)%nat with 0%nat by lia. by rewrite take_0, app_nil_r.
  - replace (n - k)%nat with 0%nat by lia. cbn. by rewrite take_nil, app_nil_r.
Qed.

(** ** Frames *)
Lemma outside_trans lo hi m1 m2 m3 :
  outside lo hi m1 m2 → outside lo hi m2 m3 → outside lo hi m1 m3.
Proof. intros H1 H2 q Hq. rewrite H2 by done. by apply H1. Qed.

Lemma same_on_weaken (P P' : Z → Prop) m m' :
  (∀ q, P' q → P q) → same_on P m m' → same_on P' m m'.
Proof. intros HP H q Hq. apply H. auto. Qed.

Lemma same_on_trans P m1 m2 m3 :
  same_on P m1 m2 → same_on P m2 m3 → same_on P m1 m3.
Proof. intros H1 H2 q Hq. rewrite H2 by done. by apply H1. Qed.

#[global] Instance mem_eq_equivalence : Equivalence mem_eq.
Proof.
  split.
  - intros m q _. done.
  - intros m m' H q _. symmetry. by apply H.
  - intros m1 m2 m3 H1 H2 q _. rewrite H2 by done. by apply H1.
Qed.

#[global] Instance rdw_proper : Proper (mem_eq ==> (=) ==> (=)) rdw.
Proof. intros m m' H p ? <-. symmetry. apply rdw_same. intros q _. by apply H. Qed.

#[global] Instance rdb_proper : Proper (mem_eq ==> (=) ==> (=)) rdb.
Proof. intros m m' H p ? <-. symmetry. by apply H. Qed.

#[global] Instance rdbs_proper : Proper (mem_eq ==> (=) ==> (=) ==> (=)) rdbs.
Proof. intros m m' H p ? <- n ? <-. symmetry. apply rdbs_same. intros q _. by apply H. Qed.

(** ** Accesses *)
Lemma valid_arena s a p n :
  a ∈ arenas s → a ≤ p → p + n ≤ a + MAX_HEAP → valid s p n = true.
Proof.
  intros Ha Hp Hn. unfold valid. apply existsb_exists. exists a.
  split; [by apply list_elem_of_In|]. apply andb_true_intro. lia.
Qed.

Lemma wp_load32 s p (Q : Z → st → Prop) :
  valid s p 4 = true → Q (rdw (ram s) p) s → wp (load32 p) s Q.
Proof. intros Hv HQ. unfold wp, load32. by rewrite Hv. Qed.

Lemma wp_store32 s p v (Q : unit → st → Prop) :
  valid s p 4 = true → Q tt (set_ram (wrw (ram s) p v) s) → wp (store32 p v) s Q.
Proof. intros Hv HQ. unfold wp, store32. by rewrite Hv. Qed.

Lemma wp_load8 s p (Q : Z → st → Prop) :
  valid s p 1 = true → Q (rdb (ram s) p) s → wp (load8 p) s Q.
Proof. intros Hv HQ. unfold wp, load8. by rewrite Hv. Qed.

Lemma wp_memcpy s d p n (Q : unit → st → Prop) :
  0 < n → valid s d n = true → valid s p n = true → d + n ≤ p ∨ p + n ≤ d →
  Q tt (set_ram (wrbs (ram s) d (rdbs (ram s) p (Z.to_nat n))) s) →
  wp (memcpy d p n) s Q.
Proof.
  intros Hn Hd Hp Hdis HQ. unfold wp, memcpy.
  destruct (Z.eqb_spec n 0); [lia|]. rewrite Hd, Hp. simpl.
  destruct (Z.leb_spec (d + n) p), (Z.leb_spec (p + n) d); simpl; (done || lia).
Qed.

Lemma wp_memset s p c n (Q : unit → st → Prop) :
  0 < n → valid s p n = true →
  Q tt (set_ram (wrbs (ram s) p (replicate (Z.to_nat n) c)) s) →
  wp (memset p c n) s Q.
Proof.
  intros Hn Hp HQ. unfold wp, memset. destruct (Z.eqb_spec n 0); [lia|]. by rewrite Hp.
Qed.
End MemoryFacts.
