(* ===== verification/Memlib.v ===== *)
(** * src/memlib.c: the simulated [sbrk]

    The six operations of memlib.c on its three static pointers, and the
    facts that make it an [sbrk]: a request that fits moves the break up by
    exactly that much and returns the old break, one that does not fit
    returns [(void * )-1] and leaves the break alone, and the break never
    leaves the arena.  The pointer comparison in [mem_sbrk] is done on the
    wrapped 32-bit sum. *)

From Stdlib Require Import ZArith Lia.
From stdpp Require Import base gmap numbers list.
From S2P Require Import Prelude Memory.

Definition ENOMEM : Z := 12.

(** [(void * )-1]. *)
Definition SBRK_FAILED : Z := u32 (-1).

Section Memlib.
Context {L : Libc}.

Definition mem_init : M st unit :=
  l ← gets arenas;
  let p := libc_malloc l MAX_HEAP in
  modify (set_mem_start_brk p);;
  if p =? 0 then fail (Exit 1)
  else
    modify (set_arenas (p :: l));;
    start ← gets mem_start_brk;
    modify (set_mem_max_addr (add32 start MAX_HEAP));;
    modify (set_mem_brk start).

(** [free(mem_start_brk)]: freeing NULL does nothing, freeing something that
    is not a live object is undefined. *)
Definition mem_deinit : M st unit :=
  p ← gets mem_start_brk;
  l ← gets arenas;
  if p =? 0 then mret tt
  else if bool_decide (p ∈ l)
  then modify (set_arenas (filter (λ q, q ≠ p) l))
  else fail UB.

Definition mem_reset_brk : M st unit :=
  start ← gets mem_start_brk;
  modify (set_mem_brk start).

(** [incr] is an [int]; the [unsigned] arguments of the callers are
    converted by [s32] at the call. *)
Definition mem_sbrk (incr : Z) : M st Z :=
  old_brk ← gets mem_brk;
  max_addr ← gets mem_max_addr;
  if (incr <? 0) || (max_addr <? add32 old_brk incr) then
    modify (set_errno ENOMEM);;
    mret SBRK_FAILED
  else
    modify (set_mem_brk (add32 old_brk incr));;
    mret old_brk.

Definition mem_heap_lo : M st Z := gets mem_start_brk.
Definition mem_heap_hi : M st Z := gets (λ s, sub32 (mem_brk s) 1).
Definition mem_heapsize : M st Z := gets (λ s, sub32 (mem_brk s) (mem_start_brk s)).
Definition mem_pagesize : M st Z := gets (λ _, u32 libc_getpagesize).

(** The break lies in the arena memlib works on, and that arena is a live
    object that does not wrap around. *)
Record memlib_ok (s : st) : Prop := {
  mo_live : mem_start_brk s ∈ arenas s;
  mo_start : 0 < mem_start_brk s;
  mo_aligned : (8 | mem_start_brk s);
  mo_max : mem_max_addr s = mem_start_brk s + MAX_HEAP;
  mo_top : mem_max_addr s < W32;
  mo_brk : mem_start_brk s ≤ mem_brk s ≤ mem_max_addr s
}.

(** ** Rules used by the callers *)
Lemma wp_mem_init (HL : LibcOk L) s (Q : unit → st → Prop) :
  libc_malloc (arenas s) MAX_HEAP ≠ 0 →
  (∀ s', memlib_ok s' → mem_brk s' = mem_start_brk s' →
         mem_start_brk s' = libc_malloc (arenas s) MAX_HEAP →
         arenas s' = mem_start_brk s' :: arenas s →
         ram s' = ram s → length (free_lists s') = length (free_lists s) →
         Q tt s') →
  wp mem_init s Q.
Proof.
  intros Hp HQ.
  pose proof (malloc_fits (arenas s)) as [Hlo Hhi].
  pose proof (malloc_aligned (arenas s)) as Hal.
  unfold mem_init. wp_pure.
  destruct (Z.eqb_spec (libc_malloc (arenas s) MAX_HEAP) 0) as [?|_]; [done|].
  wp_pure. rewrite MAX_HEAP_eq in *.
  apply HQ; cbn -[Z.add]; try done. rewrite add32_small by lia.
  split; cbn -[Z.add]; rewrite ?MAX_HEAP_eq; try done; try lia.
  apply list_elem_of_here.
Qed.

(** Without memory it stops the program. *)
Lemma wpx_mem_init s (Q : unit → st → Prop) : (∀ s', Q tt s') → wpx exits mem_init s Q.
Proof.
  intros HQ. unfold mem_init, wpx, mbind, M_bind, gets, modify.
  by destruct (libc_malloc (arenas s) MAX_HEAP =? 0); cbn.
Qed.

Lemma wp_mem_sbrk s incr (Q : Z → st → Prop) :
  memlib_ok s → mem_brk s + incr < W32 →
  (0 ≤ incr → mem_brk s + incr ≤ mem_max_addr s →
   Q (mem_brk s) (set_mem_brk (mem_brk s + incr) s)) →
  (incr < 0 ∨ mem_max_addr s < mem_brk s + incr →
   Q SBRK_FAILED (set_errno ENOMEM s)) →
  wp (mem_sbrk incr) s Q.
Proof.
  intros [Hlive Hst Hal Hmax Htop Hbrk] Hw Hok Hbad. unfold mem_sbrk. wp_pure.
  destruct (Z.ltb_spec incr 0) as [Hn|Hn]; cbn [orb].
  { wp_pure. apply Hbad. lia. }
  rewrite add32_small by lia.
  destruct (Z.ltb_spec (mem_max_addr s) (mem_brk s + incr)); wp_pure.
  - apply Hbad. lia.
  - apply Hok; lia.
Qed.

Lemma memlib_ok_brk s b :
  memlib_ok s → mem_start_brk s ≤ b ≤ mem_max_addr s → memlib_ok (set_mem_brk b s).
Proof. intros [] ?. by split. Qed.

Lemma memlib_ok_valid s p n :
  memlib_ok s → mem_start_brk s ≤ p → p + n ≤ mem_max_addr s → valid s p n = true.
Proof. intros [] ??. eapply valid_arena; [done|lia..]. Qed.

End Memlib.
