(* ===== verification/Contract.v ===== *)
(** * What an allocator promises to its clients

    The four entry points declared in src/mm.h as a class of operations
    ([Allocator]), and the contract the driver relies on as a class of laws
    ([AllocatorLaws]): the payloads handed out and not yet given back are
    aligned, lie in the heap, do not overlap and keep their contents.  The
    clients (src/mdriver.c, [Driver]) are verified against the laws; the
    allocator of src/mm.c is shown to satisfy them in [MmAllocator].  The
    file also has the client discipline itself: the states a program can
    reach that only gives back what it was given, and the theorem that such
    a program never runs into undefined behaviour. *)

From Stdlib Require Import ZArith Lia.
From stdpp Require Import base gmap numbers list.
From S2P Require Import Prelude Memory Memlib.

(** The four functions of mm.h. *)
Class Allocator := {
  a_init : M st Z;
  a_malloc : Z → M st Z;
  a_free : Z → M st unit;
  a_realloc : Z → Z → M st Z
}.

(** The statics an entry point leaves alone; the break only moves up. *)
Definition frame (s s' : st) : Prop :=
  arenas s' = arenas s ∧ mem_start_brk s' = mem_start_brk s ∧
  mem_max_addr s' = mem_max_addr s ∧ PAGE_SIZE s' = PAGE_SIZE s ∧
  ADJUSTED_PAGESIZE s' = ADJUSTED_PAGESIZE s ∧ mem_brk s ≤ mem_brk s'.

Lemma frame_refl s : frame s s.
Proof. unfold frame. split_and!; done || lia. Qed.

Lemma frame_trans s1 s2 s3 : frame s1 s2 → frame s2 s3 → frame s1 s3.
Proof. unfold frame. intros. destruct_and!. split_and!; (congruence || lia). Qed.

Lemma frame_errno s e : frame s (set_errno e s).
Proof. unfold frame. cbn. split_and!; done || lia. Qed.

Lemma frame_ram s m : frame s (set_ram m s).
Proof. unfold frame. cbn. split_and!; done || lia. Qed.

(** Two payloads share no byte. *)
Definition apart_payloads (p : Z) (d : list Z) (q : Z) (e : list Z) : Prop :=
  p + Z.of_nat (length d) ≤ q ∨ q + Z.of_nat (length e) ≤ p.

(** The number of bytes of all payloads. *)
Definition total_bytes (μ : gmap Z (list Z)) : Z :=
  map_fold (λ _ d n, Z.of_nat (length d) + n) 0 μ.

Section Contract.
Context {L : Libc}.

(** A payload is aligned, lies in the heap and reads as its contents. *)
Definition payload_ok (s : st) (p : Z) (d : list Z) : Prop :=
  (ALIGNMENT | p) ∧ mem_start_brk s ≤ p ∧ p + Z.of_nat (length d) ≤ mem_brk s ∧
  d = rdbs (ram s) p (length d).

(** [holds s μ]: the client of the allocator in state [s] holds the payloads
    [μ], a map from pointers to contents.
    [may_request s n]: requests of up to [n] bytes do not wrap around the
    address space; [may_init s n]: nor will they after initialisation. *)
Class AllocatorLaws (A : Allocator) := {
  holds : st → gmap Z (list Z) → Prop;
  may_request : st → Z → Prop;
  may_init : st → Z → Prop;
  law_request s s' n k : frame s s' → k ≤ n → may_request s n → may_request s' k;
  law_memlib s μ : holds s μ → memlib_ok s;
  law_payload s μ p d : holds s μ → μ !! p = Some d → payload_ok s p d;
  law_apart s μ p d q e :
    holds s μ → μ !! p = Some d → μ !! q = Some e → p ≠ q → apart_payloads p d q e;
  law_total s μ : holds s μ → total_bytes μ ≤ mem_brk s - mem_start_brk s;
  law_write s μ p d m :
    holds s μ → μ !! p = Some d → outside p (p + Z.of_nat (length d)) (ram s) m →
    holds (set_ram m s) (<[p := rdbs m p (length d)]> μ);
  law_init s n (Q : Z → st → Prop) :
    may_init s n →
    (∀ s', holds s' ∅ → may_request s' n → Q 0 s') →
    wp a_init s Q;
  law_malloc s μ n (Q : Z → st → Prop) :
    holds s μ → 0 < n → may_request s n →
    (∀ s' p d, frame s s' → holds s' (<[p := d]> μ) → μ !! p = None →
       n ≤ Z.of_nat (length d) → Q p s') →
    (∀ s', frame s s' → holds s' μ → Q 0 s') →
    wp (a_malloc n) s Q;
  law_free s μ p d (Q : unit → st → Prop) :
    holds s μ → μ !! p = Some d →
    (∀ s', frame s s' → holds s' (delete p μ) → Q tt s') →
    wp (a_free p) s Q;
  law_realloc s μ p d n (Q : Z → st → Prop) :
    holds s μ → μ !! p = Some d → 0 < n → may_request s n →
    (∀ s' q e, frame s s' → holds s' (<[q := e]> (delete p μ)) → μ !! q = None →
       n ≤ Z.of_nat (length e) →
       (let k := Z.to_nat n `min` length d in take k e = take k d)%nat → Q q s') →
    (∀ s', frame s s' → holds s' μ → Q 0 s') →
    wp (a_realloc p n) s Q
}.

(** Initialisation succeeds or stops the process. *)
Definition starts {A : Allocator} {AL : AllocatorLaws A} (N : Z) (s : st) : Prop :=
  wpx exits a_init s (λ r s', r = 0 ∧ holds s' ∅ ∧ may_request s' N).

Lemma may_init_starts {A : Allocator} {AL : AllocatorLaws A} N s : may_init s N → starts N s.
Proof. intros Hi. apply wp_wpx, (law_init _ N); [done|]. by intros. Qed.

(** ** Client programs *)
Section Client.
Context {A : Allocator}.

(** What a well-behaved client can do; [μ] maps each pointer it holds to
    the number of bytes it asked for.  Requests are positive and at most
    [N]; only pointers it holds are freed, reallocated and written through. *)
Inductive request :=
  | Malloc (n : Z)
  | Free (p : Z)
  | Realloc (p n : Z)
  | Write (p : Z) (l : list Z).

Definition allowed (N : Z) (σ : gmap Z Z) (r : request) : Prop :=
  match r with
  | Malloc n => 0 < n ≤ N
  | Free p => is_Some (σ !! p)
  | Realloc p n => is_Some (σ !! p) ∧ 0 < n ≤ N
  | Write p l => ∃ n, σ !! p = Some n ∧ Z.of_nat (length l) ≤ n
  end.

(** Carrying out a request; NULL leaves the pointers as they were. *)
Definition perform (r : request) (σ : gmap Z Z) : M st (gmap Z Z) :=
  match r with
  | Malloc n => p ← a_malloc n; mret (if p =? 0 then σ else <[p := n]> σ)
  | Free p => a_free p;; mret (delete p σ)
  | Realloc p n => q ← a_realloc p n; mret (if q =? 0 then σ else <[q := n]> (delete p σ))
  | Write p l => modify (λ s, set_ram (wrbs (ram s) p l) s);; mret σ
  end.

(** The states a client reaches after [a_init] by allowed requests. *)
Inductive client_reach (N : Z) (s0 : st) : st → gmap Z Z → Prop :=
  | reach_init s : a_init s0 = Ok (0, s) → client_reach N s0 s ∅
  | reach_step s σ r s' σ' :
      client_reach N s0 s σ → allowed N σ r → perform r σ s = Ok (σ', s') →
      client_reach N s0 s' σ'.

Context {AL : AllocatorLaws A}.

(** The payloads behind the pointers. *)
Definition backs (σ : gmap Z Z) (μ : gmap Z (list Z)) : Prop :=
  dom σ = dom μ ∧ ∀ p n d, σ !! p = Some n → μ !! p = Some d → n ≤ Z.of_nat (length d).

Lemma backs_lookup σ μ p n :
  backs σ μ → σ !! p = Some n → ∃ d, μ !! p = Some d ∧ n ≤ Z.of_nat (length d).
Proof.
  intros [Hd Hl] Hp. assert (Hin : p ∈ dom μ) by (rewrite <- Hd; by eapply elem_of_dom_2).
  apply elem_of_dom in Hin as [d Hd']. eauto.
Qed.

Lemma backs_insert σ μ p n d :
  backs σ μ → n ≤ Z.of_nat (length d) → backs (<[p := n]> σ) (<[p := d]> μ).
Proof.
  intros [Hd Hl] Hn. split; [by rewrite !dom_insert_L, Hd|].
  intros q k e. rewrite !lookup_insert. case_decide; naive_solver.
Qed.

Lemma backs_delete σ μ p : backs σ μ → backs (delete p σ) (delete p μ).
Proof.
  intros [Hd Hl]. split; [by rewrite !dom_delete_L, Hd|].
  intros q k e. rewrite !lookup_delete. case_decide; naive_solver.
Qed.

Lemma payload_pos s μ p d : holds s μ → μ !! p = Some d → 0 < p.
Proof.
  intros Hh Hp. destruct (law_payload _ _ _ _ Hh Hp) as (_ & ? & _).
  pose proof (mo_start _ (law_memlib _ _ Hh)). lia.
Qed.

(** The invariant of a client. *)
Definition client_inv (N : Z) (s : st) (σ : gmap Z Z) : Prop :=
  may_request s N ∧ ∃ μ, holds s μ ∧ backs σ μ.

(** A request runs to its end and preserves the invariant. *)
Lemma perform_ok N s σ r :
  client_inv N s σ → allowed N σ r → wp (perform r σ) s (λ σ' s', client_inv N s' σ').
Proof.
  intros (Hm & μ & Hh & Hb) Ha.
  assert (Hreq : ∀ s' k, frame s s' → k ≤ N → may_request s' k).
  { intros s' k Hf Hk. by eapply law_request. }
  assert (Hsame : ∀ s' μ' σ', frame s s' → holds s' μ' → backs σ' μ' → client_inv N s' σ').
  { intros s' μ' σ' Hf Hh' Hb'. split; [by apply Hreq|eauto]. }
  destruct r as [n|p|p n|p l]; cbn [allowed perform] in *.
  - wp_bind. apply (law_malloc s μ n); [done|lia|apply Hreq; [apply frame_refl|lia]| |].
    + intros s' p d Hf Hh' Hp Hn. apply wp_ret.
      assert (0 < p) by (eapply payload_pos; [done|apply lookup_insert_eq]).
      destruct (Z.eqb_spec p 0); [lia|]. eapply Hsame; [done..|by apply backs_insert].
    + intros s' Hf Hh'. apply wp_ret. cbn. by eapply Hsame.
  - destruct Ha as [n Hp]. destruct (backs_lookup _ _ _ _ Hb Hp) as (d & Hd & _).
    wp_bind. eapply law_free; [done..|]. intros s' Hf Hh'. apply wp_ret.
    eapply Hsame; [done..|by apply backs_delete].
  - destruct Ha as [[k Hp] Hn]. destruct (backs_lookup _ _ _ _ Hb Hp) as (d & Hd & _).
    wp_bind. eapply law_realloc; [done|done|lia|apply Hreq; [apply frame_refl|lia]| |].
    + intros s' q e Hf Hh' Hq Hle _. apply wp_ret.
      assert (0 < q) by (eapply payload_pos; [done|apply lookup_insert_eq]).
      destruct (Z.eqb_spec q 0); [lia|]. eapply Hsame; [done..|].
      by apply backs_insert; [apply backs_delete|].
    + intros s' Hf Hh'. apply wp_ret. cbn. by eapply Hsame.
  - destruct Ha as (n & Hp & Hl). destruct (backs_lookup _ _ _ _ Hb Hp) as (d & Hd & Hle).
    wp_pure. eapply Hsame; [apply frame_ram|eapply law_write; [done..|]|].
    + intros q Hq. apply rdb_wrbs_out. lia.
    + destruct Hb as [Hdom Hb]. split.
      * rewrite dom_insert_lookup_L; [done|eauto].
      * intros q k e Hq. rewrite lookup_insert. case_decide; [|by apply Hb].
        intros [= <-]. subst. rewrite rdbs_length. simplify_eq. by eapply Hb.
Qed.

Lemma client_reach_inv N s0 s σ :
  may_init s0 N → client_reach N s0 s σ → client_inv N s σ.
Proof.
  intros Hi. induction 1 as [s E|s σ r s' σ' _ IH Ha E].
  - assert (H : wp a_init s0 (λ _ s', client_inv N s' ∅)).
    { apply (law_init s0 N); [done|]. intros s' Hh Hm. split; [done|].
      exists ∅. split; [done|]. split; [by rewrite !dom_empty_L|]. intros p n d Hp. by rewrite lookup_empty in Hp. }
    unfold wp in H. by rewrite E in H.
  - pose proof (perform_ok _ _ _ _ IH Ha) as H. unfold wp in H. by rewrite E in H.
Qed.
End Client.
End Contract.
