(* ===== verification/Sizes.v ===== *)
(** * Block sizes and size classes (src/mm.c)

    The macros [ALIGN], [ADJUST_WORDCOUNT] and [ADJUST_BYTESIZE], which turn
    a request into the size of the block that serves it, and
    [calc_list_index], which chooses the free list of a block.  All of it is
    [size_t] arithmetic on 32 bits. *)

From Stdlib Require Import ZArith Lia.
From stdpp Require Import base numbers list.
From S2P Require Import Prelude.

Definition WSIZE : Z := 4.
Definition DSIZE : Z := 8.
Definition MIN_SIZE : Z := 4 * WSIZE.
Definition FREELIST_COUNT : Z := 17.

(** [#define ALIGN(size) (((size) + (ALIGNMENT-1)) & ~0x7)], with
    mm.c's [ALIGNMENT], which is [DSIZE]. *)
Definition ALIGN (size : Z) : Z := Z.land (add32 size (DSIZE - 1)) (Z.lnot 7).

Definition ADJUST_WORDCOUNT (size : Z) : Z :=
  if size <? 3 then 3 else add32 size (Z.lxor (size mod 2) 1).

Definition ADJUST_BYTESIZE (size : Z) : Z :=
  ALIGN (mul32 (ADJUST_WORDCOUNT (sub32 (add32 size WSIZE) 1 / WSIZE)) WSIZE).

(** The loop of [calc_list_index]; it runs at most [FREELIST_COUNT] times,
    which is the fuel it is given. *)
Fixpoint calc_list_index_loop (fuel : nat) (size bits : Z) : Z :=
  match fuel with
  | O => bits
  | S fuel' =>
      if (1 <? Z.shiftr size bits) && (bits + 1 <? FREELIST_COUNT)
      then calc_list_index_loop fuel' size (bits + 1)
      else bits
  end.

Definition calc_list_index (size : Z) : Z :=
  calc_list_index_loop (Z.to_nat FREELIST_COUNT) size 0.

(** ** Helpers *)

(** The least multiple of 8 that is at least [n]. *)
Definition round_up_8 (n : Z) : Z := (n + 7) / 8 * 8.

Lemma land_lnot_7 n : Z.land n (Z.lnot 7) = n / 8 * 8.
Proof.
  change 7 with (Z.ones 3). rewrite <- Z.ldiff_land, Z.ldiff_ones_r by lia.
  rewrite Z.shiftr_div_pow2, Z.shiftl_mul_pow2 by lia. done.
Qed.

Lemma lxor_mod2 n : Z.lxor (n mod 2) 1 = 1 - n mod 2.
Proof.
  assert (n mod 2 = 0 ∨ n mod 2 = 1) as [-> | ->]; [|done..].
  pose proof (Z.mod_pos_bound n 2). lia.
Qed.

Lemma ADJUST_BYTESIZE_eq size :
  0 ≤ size ≤ 4294967284 → ADJUST_BYTESIZE size = Z.max 16 (round_up_8 (size + 4)).
Proof.
  intros Hs. unfold ADJUST_BYTESIZE, ALIGN, ADJUST_WORDCOUNT, WSIZE, DSIZE, round_up_8.
  rewrite (add32_small size 4), (sub32_small (size + 4) 1) by (unfold W32; lia).
  replace (size + 4 - 1) with (size + 3) by lia.
  set (w := (size + 3) / 4).
  assert (Hw : 4 * w ≤ size + 3 < 4 * w + 4)
    by (subst w; Z.to_euclidean_division_equations; lia).
  clearbody w. rewrite lxor_mod2, land_lnot_7.
  destruct (Z.ltb_spec w 3).
  - rewrite mul32_small, add32_small by (unfold W32; lia).
    Z.to_euclidean_division_equations. lia.
  - pose proof (Z.mod_pos_bound w 2 ltac:(lia)).
    rewrite (add32_small w), mul32_small, add32_small
      by (unfold W32; Z.to_euclidean_division_equations; lia).
    Z.to_euclidean_division_equations. lia.
Qed.

Lemma ADJUST_BYTESIZE_bounds size :
  0 ≤ size ≤ 4294967284 →
  (8 | ADJUST_BYTESIZE size) ∧ 16 ≤ ADJUST_BYTESIZE size ∧
  size + 4 ≤ ADJUST_BYTESIZE size ∧ ADJUST_BYTESIZE size < Z.max 17 (size + 12) ∧
  ADJUST_BYTESIZE size < W32.
Proof.
  intros Hs. rewrite ADJUST_BYTESIZE_eq by done. unfold round_up_8, W32.
  split; [|Z.to_euclidean_division_equations; lia].
  destruct (Z.max_spec 16 ((size + 4 + 7) / 8 * 8)) as [[_ ->] | [_ ->]].
  - apply Z.divide_factor_r.
  - by exists 2.
Qed.

Lemma calc_loop_spec fuel size bits :
  0 < size → 0 ≤ bits ≤ 16 → bits ≤ Z.log2 size → 16 - bits < Z.of_nat fuel →
  calc_list_index_loop fuel size bits = Z.min 16 (Z.log2 size).
Proof.
  intros Hsize. revert bits. induction fuel as [|fuel IH]; intros bits Hb Hl Hf; [lia|].
  cbn [calc_list_index_loop]. unfold FREELIST_COUNT.
  assert (Hsh : 1 < Z.shiftr size bits ↔ bits < Z.log2 size).
  { rewrite Z.shiftr_div_pow2 by lia.
    pose proof (Z.log2_spec size Hsize) as [H1 H2].
    split; intros H.
    - destruct (Z.eq_dec bits (Z.log2 size)) as [->|]; [|lia].
      assert (size / 2 ^ Z.log2 size < 2); [|lia].
      apply Z.div_lt_upper_bound; [lia|]. rewrite Z.pow_succ_r in H2; lia.
    - assert (2 ≤ size / 2 ^ bits); [|lia].
      apply Z.div_le_lower_bound; [lia|].
      rewrite Z.mul_comm, <- Z.pow_succ_r by lia.
      etrans; [|exact H1]. apply Z.pow_le_mono_r; lia. }
  destruct (Z.ltb_spec 1 (Z.shiftr size bits)), (Z.ltb_spec (bits + 1) 17);
    cbn [andb]; try lia.
  apply IH; lia.
Qed.

Lemma calc_list_index_eq size :
  0 < size → calc_list_index size = Z.min 16 (Z.log2 size).
Proof.
  intros Hs. apply calc_loop_spec; try done; cbn; try lia.
  apply Z.log2_nonneg.
Qed.

Lemma calc_list_index_range size :
  0 < size → 0 ≤ calc_list_index size < FREELIST_COUNT.
Proof.
  intros Hs. rewrite calc_list_index_eq by done. unfold FREELIST_COUNT.
  pose proof (Z.log2_nonneg size). lia.
Qed.
