(* ===== verification/Blocks.v ===== *)
(** * Block headers and footers (src/mm.c, macros)

    Every macro of mm.c that reads or writes a boundary tag, as a function
    of the monad: each use loads the word again, as the expanded macro does.
    Pointer arithmetic wraps at 32 bits. *)

From Stdlib Require Import ZArith Lia.
From stdpp Require Import base gmap numbers list.
From S2P Require Import Prelude Memory Sizes.

(** Bit flags of the alloc field of a header. *)
Definition THISALLOC : Z := 1.
Definition PREVALLOC : Z := 2.

(** The size field of the epilogue header and the first word of the heap. *)
Definition EPILOGUE : Z := 3934191824. (* 0xEA7F00D0 *)
Definition ALIGN_WORD : Z := 2343432205. (* 0x8BADF00D *)

Definition MAX (x y : Z) : Z := if y <? x then x else y.

Definition PACK (size alloc : Z) : Z := Z.lor size alloc.

(** [&bp-header] and payload arithmetic. *)
Definition GET_BLOCKHDR (bp : Z) : Z := sub32 bp WSIZE.
Definition GET_PAYLOAD (hp : Z) : Z := add32 hp WSIZE.
Definition MEMHEADER_FROM_PAYLOAD (p : Z) : Z := GET_BLOCKHDR p.

(** [struct mem_header] has three 4-byte fields; [(mh) + WSIZE] on a
    [mem_header *] advances by [WSIZE] structures. *)
Definition sizeof_mem_header : Z := 12.
Definition PAYLOAD_FROM_MEMHEADER (mh : Z) : Z := add32 mh (WSIZE * sizeof_mem_header).
Definition next_free (mh : Z) : Z := add32 mh 4.
Definition prev_free (mh : Z) : Z := add32 mh 8.

Section Blocks.
Context {L : Libc}.

Definition GETW (p : Z) : M st Z := load32 p.
Definition PUTW (p v : Z) : M st unit := store32 p v.

Definition GET_SIZE (p : Z) : M st Z :=
  w ← GETW p;
  mret (Z.land w (Z.lnot (Z.lor THISALLOC PREVALLOC))).
Definition GET_ALLOC (p : Z) : M st Z :=
  w ← GETW p;
  mret (Z.land w THISALLOC).

Definition GET_BLOCKFTR (bp : Z) : M st Z :=
  size ← GET_SIZE (GET_BLOCKHDR bp);
  mret (sub32 (add32 bp size) DSIZE).
Definition GET_PREVALLOC (bp : Z) : M st Z :=
  w ← GETW (GET_BLOCKHDR bp);
  mret (Z.land w PREVALLOC).
Definition GET_NEXTBLOCK (bp : Z) : M st Z :=
  size ← GET_SIZE (sub32 bp WSIZE);
  mret (add32 bp size).
Definition GET_PREVBLOCK (bp : Z) : M st Z :=
  size ← GET_SIZE (sub32 bp DSIZE);
  mret (sub32 bp size).
Definition GET_NEXTALLOC (bp : Z) : M st Z :=
  next ← GET_NEXTBLOCK bp;
  GET_ALLOC (GET_BLOCKHDR next).
Definition GET_THISALLOC (bp : Z) : M st Z := GET_ALLOC (GET_BLOCKHDR bp).
Definition GET_THISSIZE (bp : Z) : M st Z := GET_SIZE (GET_BLOCKHDR bp).

(** ** What a header word says *)

(** The flag bits of a header, from the two booleans they stand for. *)
Definition flags (this prev : bool) : Z :=
  Z.lor (if this then THISALLOC else 0) (if prev then PREVALLOC else 0).

(** The header word of a block. *)
Definition tag (size : Z) (this prev : bool) : Z := PACK size (flags this prev).

(** ** Round trips *)
Lemma flags_range a p : 0 ≤ flags a p < 4.
Proof. destruct a, p; done. Qed.

Lemma land_low size n : (4 | size) → 0 ≤ n < 4 → Z.land size n = 0.
Proof.
  intros [q ->] Hn. apply Z.bits_inj'. intros i Hi.
  rewrite Z.land_spec, Z.bits_0. change 4 with (2 ^ 2).
  destruct (decide (i < 2)) as [Hlt|Hge].
  - rewrite Z.mul_pow2_bits_low by lia. done.
  - replace (Z.testbit n i) with false; [apply andb_false_r|].
    symmetry. destruct (decide (n = 0)) as [->|]; [apply Z.bits_0|].
    apply Z.bits_above_log2; [lia|].
    assert (Z.log2 n < 2); [|lia]. apply Z.log2_lt_pow2; lia.
Qed.

Lemma lor_low size k : (4 | size) → 0 ≤ k < 4 → Z.lor size k = size + k.
Proof.
  intros Hs Hk. pose proof (Z.add_lor_land size k) as H.
  rewrite (land_low size k Hs Hk) in H. lia.
Qed.

Lemma tag_eq size a p : (4 | size) → tag size a p = size + flags a p.
Proof. intros. apply lor_low; [done|apply flags_range]. Qed.

Lemma tag_range size a p : (4 | size) → 0 ≤ size < W32 → 0 ≤ tag size a p < W32.
Proof.
  intros [q ->] Hs. rewrite tag_eq by (by exists q).
  pose proof (flags_range a p). unfold W32 in *. lia.
Qed.

(** The size field of a header is the size that was packed. *)
Lemma tag_size size a p :
  (4 | size) → Z.land (tag size a p) (Z.lnot (Z.lor THISALLOC PREVALLOC)) = size.
Proof.
  intros Hs. change (Z.lor THISALLOC PREVALLOC) with (Z.ones 2).
  rewrite <- Z.ldiff_land, Z.ldiff_ones_r by lia.
  rewrite Z.shiftr_div_pow2, Z.shiftl_mul_pow2 by lia.
  rewrite tag_eq by done. pose proof (flags_range a p). destruct Hs as [q ->].
  change (2 ^ 2) with 4. Z.to_euclidean_division_equations. lia.
Qed.

(** The flag bits are the flags that were packed. *)
Lemma tag_flag size a p n :
  (4 | size) → 0 ≤ n < 4 → Z.land (tag size a p) n = Z.land (flags a p) n.
Proof.
  intros Hs Hn. unfold tag, PACK. rewrite Z.land_lor_distr_l, land_low by done. done.
Qed.

Lemma tag_this size a p : (4 | size) → Z.land (tag size a p) THISALLOC = b2z a.
Proof. intros. rewrite tag_flag by done. by destruct a, p. Qed.

Lemma tag_prev size a p : (4 | size) → Z.land (tag size a p) PREVALLOC = 2 * b2z p.
Proof. intros. rewrite tag_flag by done. by destruct a, p. Qed.

(** Setting the [PREVALLOC] bit of a header. *)
Lemma tag_set_prev size a p : Z.lor (tag size a p) PREVALLOC = tag size a true.
Proof. unfold tag, PACK. rewrite <- Z.lor_assoc. by destruct a, p. Qed.

Lemma divide_8_4 n : (8 | n) → (4 | n).
Proof. intros [q ->]. exists (2 * q). lia. Qed.

(** ** Rules for the macros, given the header word they load *)
Lemma wp_GET_SIZE s p size a b (Q : Z → st → Prop) :
  valid s p 4 = true → rdw (ram s) p = tag size a b → (4 | size) →
  Q size s → wp (GET_SIZE p) s Q.
Proof.
  intros Hv Hr Hs HQ. unfold GET_SIZE. wp_pure. apply wp_load32; [done|].
  wp_pure. by rewrite Hr, tag_size.
Qed.

Lemma wp_GET_ALLOC s p size a b (Q : Z → st → Prop) :
  valid s p 4 = true → rdw (ram s) p = tag size a b → (4 | size) →
  Q (b2z a) s → wp (GET_ALLOC p) s Q.
Proof.
  intros Hv Hr Hs HQ. unfold GET_ALLOC. wp_pure. apply wp_load32; [done|].
  wp_pure. by rewrite Hr, tag_this.
Qed.

End Blocks.

#[export] Hint Resolve divide_8_4 : core.
