(* ===== verification/FreeList.v ===== *)
(** * The segregated free lists (src/mm.c)

    [free_lists] is a static array of list heads; the links live in the
    payloads of the free blocks.  This file has the four list routines of
    mm.c and the representation predicate of the array ([lists_ok]): it
    shows that [remove_from_list] and [add_to_list] implement removing an
    element from, and appending an element to, one of the lists, and that
    [find_end_of_list] returns the last element. *)

From Stdlib Require Import ZArith Lia.
From stdpp Require Import base gmap numbers list.
From S2P Require Import Prelude Memory Sizes Blocks.

Section FreeList.
Context {L : Libc}.

(** [free_lists[i]]: indexing outside the array is undefined. *)
Definition get_free_list (i : Z) : M st Z := λ s,
  if i <? 0 then Err UB
  else match free_lists s !! Z.to_nat i with
       | Some p => Ok (p, s)
       | None => Err UB
       end.
Definition set_free_list (i p : Z) : M st unit := λ s,
  if i <? 0 then Err UB
  else match free_lists s !! Z.to_nat i with
       | Some _ => Ok (tt, set_free_lists (<[Z.to_nat i := p]> (free_lists s)) s)
       | None => Err UB
       end.

(** Fuel of the loops that follow the links of a list: one step for each
    block of the heap, each of which takes at least 16 bytes. *)
Definition list_fuel (s : st) : nat :=
  S (S (Z.to_nat ((mem_brk s - mem_start_brk s) / 16))).

Fixpoint find_end_of_list_loop (fuel : nat) (bp next_bp : Z) : M st Z :=
  match fuel with
  | O => fail OutOfFuel
  | S fuel' =>
      if next_bp =? 0 then mret bp
      else
        next ← load32 next_bp;
        find_end_of_list_loop fuel' next_bp next
  end.

Definition find_end_of_list (list_index : Z) : M st Z :=
  bp ← get_free_list list_index;
  fuel ← gets list_fuel;
  find_end_of_list_loop fuel bp bp.

Definition remove_from_list (bp list_index : Z) : M st unit :=
  let header := MEMHEADER_FROM_PAYLOAD bp in
  next ← load32 (next_free header);
  (if next =? 0 then mret tt
   else
     next ← load32 (next_free header);
     let next_header := MEMHEADER_FROM_PAYLOAD next in
     prev ← load32 (prev_free header);
     store32 (prev_free next_header) prev);;
  prev ← load32 (prev_free header);
  (if prev =? 0 then mret tt
   else
     prev ← load32 (prev_free header);
     let prev_header := MEMHEADER_FROM_PAYLOAD prev in
     next ← load32 (next_free header);
     store32 (next_free prev_header) next);;
  head ← get_free_list list_index;
  if head =? bp then
    next ← load32 (next_free header);
    set_free_list list_index next
  else mret tt.

Definition add_to_list (bp list_index : Z) : M st unit :=
  let current := MEMHEADER_FROM_PAYLOAD bp in
  store32 (next_free current) 0;;
  tail_payload ← find_end_of_list list_index;
  if tail_payload =? 0 then
    set_free_list list_index bp;;
    store32 (prev_free current) 0
  else
    let tail_node := MEMHEADER_FROM_PAYLOAD tail_payload in
    store32 (next_free tail_node) bp;;
    store32 (prev_free current) tail_payload.

(** [get_node_listindex]: back to the head of the list, then a search of the
    array for that head. *)
Fixpoint node_head_loop (fuel : nat) (header : Z) : M st Z :=
  match fuel with
  | O => fail OutOfFuel
  | S fuel' =>
      prev ← load32 (prev_free header);
      if prev =? 0 then mret header
      else
        prev ← load32 (prev_free header);
        node_head_loop fuel' (MEMHEADER_FROM_PAYLOAD prev)
  end.

Fixpoint listindex_loop (fuel : nat) (header i : Z) : M st Z :=
  match fuel with
  | O => mret (u32 (-1))
  | S fuel' =>
      p ← get_free_list i;
      if p =? PAYLOAD_FROM_MEMHEADER header then mret i
      else listindex_loop fuel' header (i + 1)
  end.

Definition get_node_listindex (bp : Z) : M st Z :=
  fuel ← gets list_fuel;
  header ← node_head_loop fuel (MEMHEADER_FROM_PAYLOAD bp);
  listindex_loop (Z.to_nat FREELIST_COUNT) header 0.

(** ** Representation *)

(** The first element of a list of payload pointers, or [q] if there is
    none; NULL ends a list. *)
Definition hd_or (q : Z) (l : list Z) : Z :=
  match l with
  | [] => q
  | x :: _ => x
  end.
Definition last_or (p : Z) (l : list Z) : Z := default p (last l).

(** A doubly linked segment: [p] precedes the first node, [q] follows the
    last one. *)
Fixpoint dseg (m : gmap Z Z) (p : Z) (l : list Z) (q : Z) : Prop :=
  match l with
  | [] => True
  | x :: l' => rdw m x = hd_or q l' ∧ rdw m (x + 4) = p ∧ dseg m x l' q
  end.

Definition in_lists (fls : list (list Z)) (x : Z) : Prop :=
  ∃ i l, fls !! i = Some l ∧ x ∈ l.

(** The two link words of a node of [x] do not overlap those of [y]. *)
Definition apart (x y : Z) : Prop := x + 8 ≤ y ∨ y + 8 ≤ x.

Record lists_ok (m : gmap Z Z) (heads : list Z) (fls : list (list Z)) : Prop := {
  lo_heads : heads = hd_or 0 <$> fls;
  lo_dseg i l : fls !! i = Some l → dseg m 0 l 0;
  lo_nodup i l : fls !! i = Some l → NoDup l;
  lo_inj i j l l' x : fls !! i = Some l → fls !! j = Some l' → x ∈ l → x ∈ l' → i = j;
  lo_apart x y : in_lists fls x → in_lists fls y → x ≠ y → apart x y;
  lo_range x : in_lists fls x → 4 ≤ x ∧ x + 8 < W32
}.

(** The state with new memory and new list heads. *)
Definition upd (m : gmap Z Z) (heads : list Z) (s : st) : st :=
  set_free_lists heads (set_ram m s).

(** ** Segments *)
Lemma hd_or_app q l1 l2 : hd_or q (l1 ++ l2) = hd_or (hd_or q l2) l1.
Proof. by destruct l1. Qed.

Lemma last_or_snoc p l x : last_or p (l ++ [x]) = x.
Proof. unfold last_or. by rewrite last_snoc. Qed.

Lemma last_or_cons p x l : last_or p (x :: l) = last_or x l.
Proof. unfold last_or. rewrite last_cons. by destruct (last l). Qed.

Lemma last_or_in p l : l ≠ [] → last_or p l ∈ l.
Proof.
  intros Hl. unfold last_or. destruct (last l) as [z|] eqn:E.
  - by apply last_Some_elem_of in E.
  - by apply last_None in E.
Qed.

Lemma dseg_app m p l1 l2 q :
  dseg m p (l1 ++ l2) q ↔ dseg m p l1 (hd_or q l2) ∧ dseg m (last_or p l1) l2 q.
Proof.
  revert p. induction l1 as [|x l1 IH]; intros p; [naive_solver|].
  cbn [app dseg]. rewrite IH, hd_or_app, last_or_cons. tauto.
Qed.

Lemma dseg_same m m' p l q :
  (∀ x, x ∈ l → rdw m' x = rdw m x ∧ rdw m' (x + 4) = rdw m (x + 4)) →
  dseg m p l q → dseg m' p l q.
Proof.
  revert p. induction l as [|x l IH]; intros p Hx; [done|]. cbn [dseg].
  intros (H1 & H2 & H3). destruct (Hx x) as [-> ->]; [by left|].
  split_and!; [done..|]. apply IH; [|done]. intros y Hy. apply Hx. by right.
Qed.

(** Redirecting the last link forwards. *)
Lemma dseg_set_last m m' p l q q' :
  (∀ x, x ∈ l → rdw m' x = (if decide (x = last_or p l) then q' else rdw m x) ∧
                rdw m' (x + 4) = rdw m (x + 4)) →
  NoDup l → dseg m p l q → dseg m' p l q'.
Proof.
  revert p. induction l as [|x l IH]; intros p Hx Hnd; [done|]. cbn [dseg].
  intros (H1 & H2 & H3). apply NoDup_cons in Hnd as [Hni Hnd].
  destruct (Hx x) as [Ha ->]; [by left|].
  assert (Hl : ∀ y, y ∈ l → last_or p (x :: l) = last_or x l) by (intros; apply last_or_cons).
  split_and!; [|done|].
  - rewrite Ha, H1. destruct l as [|y l]; [by rewrite decide_True|].
    rewrite decide_False; [done|]. rewrite last_or_cons.
    intros Ex. apply Hni. rewrite Ex. apply last_or_in. done.
  - apply IH; [|done..]. intros y Hy. rewrite <- (Hl y Hy). apply Hx. by right.
Qed.

(** Redirecting the first link backwards. *)
Lemma dseg_set_first m m' p p' l q :
  (∀ x, x ∈ l → rdw m' x = rdw m x ∧
                rdw m' (x + 4) = (if decide (x = hd_or 0 l) then p' else rdw m (x + 4))) →
  NoDup l → dseg m p l q → dseg m' p' l q.
Proof.
  destruct l as [|x l]; [done|]. intros Hx Hnd (H1 & H2 & H3).
  apply NoDup_cons in Hnd as [Hni Hnd]. cbn [hd_or] in Hx.
  destruct (Hx x) as [Ha Hb]; [by left|]. rewrite decide_True in Hb by done.
  split_and!; [by rewrite Ha|done|].
  eapply dseg_same; [|done]. intros y Hy. destruct (Hx y) as [-> ->]; [by right|].
  rewrite decide_False; [done|]. by intros ->.
Qed.

(** ** Updating one list *)
Lemma in_lists_intro fls i l x : fls !! i = Some l → x ∈ l → in_lists fls x.
Proof. intros. by exists i, l. Qed.

Lemma in_lists_insert fls i l l' x :
  fls !! i = Some l → in_lists (<[i := l']> fls) x →
  x ∈ l' ∨ in_lists fls x.
Proof.
  intros Hi (j & k & Hj & Hx). rewrite list_lookup_insert in Hj.
  case_decide; [simplify_eq; by left | right; by exists j, k].
Qed.

(** Replacing list [i] by a list [l'] of the same nodes and possibly [b]. *)
Lemma lists_ok_insert m m' heads fls i l l' :
  lists_ok m heads fls → fls !! i = Some l →
  NoDup l' → dseg m' 0 l' 0 →
  (∀ x, in_lists fls x → x ∉ l → rdw m' x = rdw m x ∧ rdw m' (x + 4) = rdw m (x + 4)) →
  (∀ x, x ∈ l' → x ∈ l ∨ (¬ in_lists fls x ∧ 4 ≤ x ∧ x + 8 < W32 ∧
                          ∀ y, in_lists fls y → apart x y)) →
  (∀ x y, x ∈ l' → y ∈ l' → x ∉ l → y ∉ l → x = y) →
  lists_ok m' (<[i := hd_or 0 l']> heads) (<[i := l']> fls).
Proof.
  intros [Hh Hd Hn Hinj Ha Hr] Hi Hnd' Hd' Hsame Hnew Huniq.
  assert (Hlt : (i < length fls)%nat) by by eapply lookup_lt_Some.
  assert (Hold : ∀ x, x ∈ l' → in_lists fls x → x ∈ l).
  { intros x Hx Hin. destruct (Hnew x Hx) as [|[? _]]; done. }
  split.
  - rewrite list_fmap_insert, Hh. done.
  - intros j k Hj. rewrite list_lookup_insert in Hj. case_decide; [naive_solver|].
    eapply dseg_same; [|by eapply Hd]. intros x Hx. apply Hsame.
    + by eapply in_lists_intro.
    + intros Hxl. assert (i = j) by (by eapply Hinj). naive_solver.
  - intros j k Hj. rewrite list_lookup_insert in Hj. case_decide; naive_solver.
  - assert (Hx' : ∀ j k x, fls !! j = Some k → x ∈ k → x ∈ l' → i = j).
    { intros j k x Hj Hx Hx'. eapply (Hinj i j l k x); try done.
      apply Hold; [done|]. by eapply in_lists_intro. }
    intros j1 j2 k1 k2 x H1 H2 Hx1 Hx2. rewrite list_lookup_insert in H1, H2.
    repeat case_decide; simplify_eq; naive_solver.
  - intros x y Hx Hy Hne.
    destruct (in_lists_insert _ _ _ _ _ Hi Hx) as [Hx'|Hx'];
      destruct (in_lists_insert _ _ _ _ _ Hi Hy) as [Hy'|Hy']; [| | |by apply Ha].
    + destruct (Hnew x Hx') as [Hxl|(Hxn & _ & _ & Hxa)];
        destruct (Hnew y Hy') as [Hyl|(Hyn & _ & _ & Hya)].
      * apply Ha; [by eapply in_lists_intro..|done].
      * specialize (Hya x ltac:(by eapply in_lists_intro)). unfold apart in *. lia.
      * apply Hxa. by eapply in_lists_intro.
      * destruct Hne. apply Huniq; [done..| |]; intros ?; [destruct Hxn|destruct Hyn];
          by eapply in_lists_intro.
    + destruct (Hnew x Hx') as [Hxl|(_ & _ & _ & Hxa)]; [|by apply Hxa].
      apply Ha; [by eapply in_lists_intro|done..].
    + destruct (Hnew y Hy') as [Hyl|(_ & _ & _ & Hya)].
      * apply Ha; [done|by eapply in_lists_intro|done].
      * specialize (Hya x Hx'). unfold apart in *. lia.
  - intros x Hx. destruct (in_lists_insert _ _ _ _ _ Hi Hx) as [Hx'|Hx']; [|by apply Hr].
    destruct (Hnew x Hx') as [Hxl|(_ & ? & ? & _)]; [|done].
    apply Hr. by eapply in_lists_intro.
Qed.

(** ** The memory after unlinking or linking a node *)

(** [m'] is [m] with the forward link of [p] set to [n] and the backward
    link of [n] set to [p], as far as the nodes satisfying [P] go; 0 is not
    a node. *)
Definition relinked (P : Z → Prop) (m m' : gmap Z Z) (p n : Z) : Prop :=
  ∀ y, P y → rdw m' y = (if decide (y = p) then n else rdw m y) ∧
             rdw m' (y + 4) = (if decide (y = n) then p else rdw m (y + 4)).

Definition relink (m : gmap Z Z) (p n : Z) : gmap Z Z :=
  let m1 := if n =? 0 then m else wrw m (n + 4) p in
  if p =? 0 then m1 else wrw m1 p n.

Lemma relink_relinked (P : Z → Prop) m p n :
  (∀ y, P y → 4 ≤ y) → (∀ x y, P x → P y → x ≠ y → apart x y) →
  0 ≤ p < W32 → 0 ≤ n < W32 → (p = 0 ∨ P p) → (n = 0 ∨ P n) → (p ≠ n ∨ p = 0) →
  relinked P m (relink m p n) p n.
Proof.
  intros Hpos Hap Hpw Hnw Hp Hn Hpn y Hy. pose proof (Hpos y Hy).
  assert (Hyp : y = p ∨ p = 0 ∨ apart y p).
  { destruct Hp as [|Hp]; [lia|]. destruct (Z.eq_dec y p); [lia|]. right; right. by apply Hap. }
  assert (Hyn : y = n ∨ n = 0 ∨ apart y n).
  { destruct Hn as [|Hn]; [lia|]. destruct (Z.eq_dec y n); [lia|]. right; right. by apply Hap. }
  assert (Hpna : p = 0 ∨ n = 0 ∨ apart p n).
  { destruct Hp as [|Hp]; [lia|]. destruct Hn as [|Hn]; [lia|].
    destruct Hpn; [|lia]. right; right. by apply Hap. }
  unfold apart in *. unfold relink.
  destruct (Z.eqb_spec n 0) as [->|Hn0], (Z.eqb_spec p 0) as [->|Hp0].
  - rewrite !decide_False by lia. done.
  - rewrite (decide_False (P := y = 0)) by lia.
    rewrite (rdw_wrw_ne _ _ _ (y + 4)) by lia. split; [|done].
    case_decide; [subst; by apply rdw_wrw_eq|]. apply rdw_wrw_ne. lia.
  - rewrite (decide_False (P := y = 0)) by lia.
    rewrite (rdw_wrw_ne _ _ _ y) by lia. split; [done|].
    case_decide; [subst; by apply rdw_wrw_eq|]. apply rdw_wrw_ne. lia.
  - split.
    + case_decide; [subst; by apply rdw_wrw_eq|]. rewrite !rdw_wrw_ne by lia. done.
    + rewrite (rdw_wrw_ne _ p) by lia.
      case_decide; [subst; by apply rdw_wrw_eq|]. apply rdw_wrw_ne. lia.
Qed.

Lemma relink_same m p n :
  same_on (λ q, (q < p ∨ p + 4 ≤ q ∨ p = 0) ∧ (q < n + 4 ∨ n + 8 ≤ q ∨ n = 0)) m (relink m p n).
Proof.
  intros q [Hp Hn]. unfold relink.
  destruct (Z.eqb_spec n 0), (Z.eqb_spec p 0); rewrite ?rdb_wrw_out by lia; done.
Qed.

(** ** The nodes of a list *)
Lemma dseg_node m p l1 x l2 q :
  dseg m p (l1 ++ x :: l2) q → rdw m x = hd_or q l2 ∧ rdw m (x + 4) = last_or p l1.
Proof. rewrite dseg_app. cbn [dseg]. tauto. Qed.

Lemma NoDup_mid (l1 l2 : list Z) x :
  NoDup (l1 ++ x :: l2) → NoDup (l1 ++ l2) ∧ (x ∉ l1) ∧ (x ∉ l2) ∧
  (∀ y, y ∈ l1 → y ∈ l2 → False).
Proof.
  rewrite !NoDup_app, NoDup_cons. intros (H1 & H2 & H3 & H4). split_and!; try done.
  - intros y Hy Hy2. apply (H2 y Hy). by right.
  - intros Hx. apply (H2 x Hx). by left.
  - intros y Hy Hy2. apply (H2 y Hy). by right.
Qed.

Lemma last_or_cases p l : (l = [] ∧ last_or p l = p) ∨ last_or p l ∈ l.
Proof. destruct l; [by left|]. right. by apply last_or_in. Qed.

Lemma hd_or_cases q l : (l = [] ∧ hd_or q l = q) ∨ hd_or q l ∈ l.
Proof. destruct l; [by left|]. right. by left. Qed.

(** Unlinking [x] from its list. *)
Lemma lists_ok_remove m m' heads fls i l1 x l2 :
  lists_ok m heads fls → fls !! i = Some (l1 ++ x :: l2) →
  relinked (in_lists fls) m m' (last_or 0 l1) (hd_or 0 l2) →
  lists_ok m' (<[i := hd_or 0 (l1 ++ l2)]> heads) (<[i := l1 ++ l2]> fls).
Proof.
  intros Hok Hi Hre. pose proof Hok as [Hh Hd Hn Hinj Ha Hr].
  destruct (NoDup_mid _ _ _ (Hn _ _ Hi)) as (Hnd & Hx1 & Hx2 & Hdis).
  assert (Hin : ∀ y, y ∈ l1 ++ l2 → in_lists fls y).
  { intros y Hy. eapply in_lists_intro; [done|]. set_solver. }
  assert (H0 : ∀ y, in_lists fls y → y ≠ 0) by (intros y Hy; specialize (Hr y Hy); lia).
  specialize (Hd _ _ Hi). apply dseg_app in Hd as [Hd1 [_ [_ Hd2]]].
  apply NoDup_app in Hnd as Hnd'. destruct Hnd' as (Hnd1 & _ & Hnd2).
  eapply lists_ok_insert; try done.
  - apply dseg_app. split.
    + eapply dseg_set_last; [|done..]. intros y Hy.
      assert (Hyin : y ∈ (l1 ++ l2)) by set_solver.
      destruct (Hre y (Hin y Hyin)) as [-> ->]. split; [done|].
      rewrite decide_False; [done|]. intros E.
      destruct (hd_or_cases 0 l2) as [[_ ?]|?]; [|set_solver].
      apply (H0 y); [auto|congruence].
    + eapply dseg_set_first; [|done..]. intros y Hy.
      assert (Hyin : y ∈ (l1 ++ l2)) by set_solver.
      destruct (Hre y (Hin y Hyin)) as [-> ->]. split; [|done].
      rewrite decide_False; [done|]. intros E.
      destruct (last_or_cases 0 l1) as [[_ ?]|?]; [|set_solver].
      apply (H0 y); [auto|congruence].
  - intros y Hy Hyl. destruct (Hre y Hy) as [-> ->].
    rewrite !decide_False; [done| |]; intros E.
    + destruct (hd_or_cases 0 l2) as [[_ ?]|?]; [|set_solver].
      apply (H0 y); [done|congruence].
    + destruct (last_or_cases 0 l1) as [[_ ?]|?]; [|set_solver].
      apply (H0 y); [done|congruence].
  - intros y Hy. left. set_solver.
  - intros y z Hy _ Hy'. set_solver.
Qed.

(** ** Execution of the list routines *)
Lemma header_fields x :
  4 ≤ x → x + 8 < W32 →
  next_free (MEMHEADER_FROM_PAYLOAD x) = x ∧ prev_free (MEMHEADER_FROM_PAYLOAD x) = x + 4.
Proof.
  intros. unfold next_free, prev_free, MEMHEADER_FROM_PAYLOAD, GET_BLOCKHDR, WSIZE.
  unfold W32 in *. rewrite sub32_small, !add32_small by (unfold W32; lia). lia.
Qed.

Lemma wp_get_free_list s (i : nat) h (Q : Z → st → Prop) :
  free_lists s !! i = Some h → Q h s → wp (get_free_list (Z.of_nat i)) s Q.
Proof.
  intros Hi HQ. unfold wp, get_free_list.
  destruct (Z.ltb_spec (Z.of_nat i) 0); [lia|]. by rewrite Nat2Z.id, Hi.
Qed.

Lemma wp_set_free_list s (i : nat) h p (Q : unit → st → Prop) :
  free_lists s !! i = Some h → Q tt (set_free_lists (<[i := p]> (free_lists s)) s) →
  wp (set_free_list (Z.of_nat i) p) s Q.
Proof.
  intros Hi HQ. unfold wp, set_free_list.
  destruct (Z.ltb_spec (Z.of_nat i) 0); [lia|]. by rewrite Nat2Z.id, Hi.
Qed.

(** The link words of a node can be accessed. *)
Definition node_valid (s : st) (x : Z) : Prop :=
  4 ≤ x ∧ x + 8 < W32 ∧ valid s x 4 = true ∧ valid s (x + 4) 4 = true.

(** What the code does, whatever the links of [x] are: it links its two
    neighbours, which must be nodes apart from [x] or NULL. *)
Lemma wp_remove_raw s (i : nat) x p n h (Q : unit → st → Prop) :
  rdw (ram s) x = n → rdw (ram s) (x + 4) = p → node_valid s x →
  (n = 0 ∨ (node_valid s n ∧ apart x n)) → (p = 0 ∨ (node_valid s p ∧ apart x p)) →
  free_lists s !! i = Some h →
  Q tt (upd (relink (ram s) p n) (if h =? x then <[i := n]> (free_lists s) else free_lists s) s) →
  wp (remove_from_list x (Z.of_nat i)) s Q.
Proof.
  intros Hn Hp (Hx1 & Hx2 & Hx3 & Hx4) Hnv Hpv Hi HQ.
  destruct (header_fields x) as [Ef Eb]; [done..|].
  pose proof (rdw_range (ram s) x) as Hnr. rewrite Hn in Hnr.
  pose proof (rdw_range (ram s) (x + 4)) as Hpr. rewrite Hp in Hpr.
  unfold remove_from_list. rewrite Ef, Eb. unfold upd, relink in HQ.
  wp_bind. apply wp_load32; [done|]. rewrite Hn. wp_bind.
  apply (wp_mono _ _ (λ _ s', s' = set_ram (if n =? 0 then ram s else wrw (ram s) (n + 4) p) s)).
  { destruct (Z.eqb_spec n 0) as [->|Hn0]; [apply wp_ret; by destruct s|].
    destruct Hnv as [|[(? & ? & ? & ?) Hax]]; [done|].
    destruct (header_fields n) as [_ En]; [done..|].
    wp_bind. apply wp_load32; [done|]. wp_bind. apply wp_load32; [done|].
    rewrite Hn, Hp, En. by apply wp_store32. }
  intros [] s1 ->. set (m1 := if n =? 0 then _ else _) in *.
  assert (rdw m1 x = n ∧ rdw m1 (x + 4) = p) as [En1 Ep1].
  { subst m1. destruct (Z.eqb_spec n 0) as [->|Hn0]; [done|].
    destruct Hnv as [|[_ Hax]]; [done|]. unfold apart in Hax.
    rewrite !rdw_wrw_ne by lia. done. }
  wp_bind. apply wp_load32; [done|]. cbn [ram set_ram]. rewrite Ep1. wp_bind.
  set (m2 := if p =? 0 then m1 else wrw m1 p n) in *.
  apply (wp_mono _ _ (λ _ s', s' = set_ram m2 s)).
  { subst m2. destruct (Z.eqb_spec p 0) as [->|Hp0]; [by apply wp_ret|].
    destruct Hpv as [|[(? & ? & ? & ?) Hax]]; [done|].
    destruct (header_fields p) as [Ep _]; [done..|].
    wp_bind. apply wp_load32; [done|]. wp_bind. apply wp_load32; [done|].
    cbn [ram set_ram]. rewrite En1, Ep1, Ep. by apply wp_store32. }
  intros [] s2 ->.
  assert (E2 : rdw m2 x = n).
  { subst m2. destruct (Z.eqb_spec p 0) as [->|Hp0]; [done|].
    destruct Hpv as [|[_ Hax]]; [done|]. unfold apart in Hax.
    rewrite rdw_wrw_ne by lia. done. }
  wp_bind. eapply wp_get_free_list; [done|].
  destruct (Z.eqb_spec h x) as [->|Hh]; [|apply wp_ret; by destruct s].
  wp_bind. apply wp_load32; [done|]. cbn [ram set_ram]. rewrite E2.
  eapply wp_set_free_list; [done|]. exact HQ.
Qed.

(** [remove_from_list] removes a node from the list it is in. *)
Lemma wp_remove_from_list s fls i l1 x l2 (Q : unit → st → Prop) :
  lists_ok (ram s) (free_lists s) fls → (∀ y, in_lists fls y → node_valid s y) →
  fls !! i = Some (l1 ++ x :: l2) →
  (∀ m' heads',
     m' = relink (ram s) (last_or 0 l1) (hd_or 0 l2) →
     lists_ok m' heads' (<[i := l1 ++ l2]> fls) → Q tt (upd m' heads' s)) →
  wp (remove_from_list x (Z.of_nat i)) s Q.
Proof.
  intros Hok Hv Hi HQ. pose proof Hok as [Hh Hd Hn Hinj Ha Hr].
  destruct (NoDup_mid _ _ _ (Hn _ _ Hi)) as (Hnd & Hx1 & Hx2 & Hdis).
  destruct (dseg_node _ _ _ _ _ _ (Hd _ _ Hi)) as [Hnx Hpx].
  assert (Hin : ∀ y, y ∈ l1 ++ x :: l2 → in_lists fls y).
  { intros y Hy. by eapply in_lists_intro. }
  assert (Hxin : in_lists fls x) by (apply Hin; set_solver).
  assert (Hnode : ∀ y, y ∈ l1 ∨ y ∈ l2 → node_valid s y ∧ apart x y).
  { intros y Hy. assert (in_lists fls y) by (apply Hin; set_solver).
    split; [by apply Hv|]. apply Ha; [done..|]. intros ->. naive_solver. }
  eapply (wp_remove_raw _ _ x (last_or 0 l1) (hd_or 0 l2)); try done.
  - by apply Hv.
  - destruct (hd_or_cases 0 l2) as [[_ ?]|?]; [by left|right; apply Hnode; by right].
  - destruct (last_or_cases 0 l1) as [[_ ?]|?]; [by left|right; apply Hnode; by left].
  - rewrite Hh, list_lookup_fmap, Hi. done.
  - apply HQ; [done|].
    replace (if _ =? x then _ else _) with (<[i := hd_or 0 (l1 ++ l2)]> (free_lists s)).
    + eapply lists_ok_remove; [done..|]. apply relink_relinked.
      * intros y Hy. by apply Hr.
      * by apply Ha.
      * rewrite <- Hpx. apply rdw_range.
      * rewrite <- Hnx. apply rdw_range.
      * destruct (last_or_cases 0 l1) as [[_ ?]|?]; [by left|right; apply Hin; set_solver].
      * destruct (hd_or_cases 0 l2) as [[_ ?]|?]; [by left|right; apply Hin; set_solver].
      * destruct (last_or_cases 0 l1) as [[_ ?]|?]; [by right|left].
        destruct (hd_or_cases 0 l2) as [[_ E]|?]; [|intros E; apply (Hdis (hd_or 0 l2)); congruence].
        rewrite E. assert (in_lists fls (last_or 0 l1)) as Hl%Hr by (apply Hin; set_solver). lia.
    + destruct l1 as [|y l1]; cbn [app hd_or].
      * by rewrite Z.eqb_refl.
      * destruct (Z.eqb_spec y x); [set_solver|]. apply list_insert_id.
        rewrite Hh, list_lookup_fmap, Hi. done.
Qed.

(** [find_end_of_list] returns the last node, or NULL for the empty list. *)
Lemma wp_find_end_loop s l fuel bp p (Q : Z → st → Prop) :
  dseg (ram s) p l 0 → (∀ y, y ∈ l → node_valid s y) → (length l < fuel)%nat →
  Q (last_or bp l) s → wp (find_end_of_list_loop fuel bp (hd_or 0 l)) s Q.
Proof.
  revert fuel bp p. induction l as [|x l IH]; intros fuel bp p Hd Hv Hf HQ;
    destruct fuel as [|fuel]; cbn [length] in Hf; try lia; [by apply wp_ret|].
  destruct Hd as (Hx & _ & Hd). destruct (Hv x) as (H4 & _ & Hvx & _); [by left|].
  cbn [find_end_of_list_loop hd_or]. destruct (Z.eqb_spec x 0); [lia|].
  wp_bind. apply wp_load32; [done|]. rewrite Hx.
  eapply IH; [done| |lia|by rewrite last_or_cons in HQ]. intros y Hy. apply Hv. by right.
Qed.

Lemma wp_find_end_of_list s fls i l (Q : Z → st → Prop) :
  lists_ok (ram s) (free_lists s) fls → fls !! i = Some l →
  (∀ y, y ∈ l → node_valid s y) → (length l < list_fuel s)%nat →
  Q (last_or 0 l) s → wp (find_end_of_list (Z.of_nat i)) s Q.
Proof.
  intros Hok Hi Hv Hf HQ. unfold find_end_of_list. wp_bind.
  apply (wp_get_free_list _ _ (hd_or 0 l)); [by rewrite (lo_heads _ _ _ Hok), list_lookup_fmap, Hi|].
  wp_pure. eapply wp_find_end_loop; [by eapply lo_dseg|done|done|].
  destruct l; [done|]. by rewrite last_or_cons in *.
Qed.

(** Following the [prev_free] links from any node leads to the head. *)
Lemma wp_node_head_loop s x l (Q : Z → st → Prop) :
  dseg (ram s) 0 (x :: l) 0 → (∀ z, z ∈ x :: l → node_valid s z) →
  Q (MEMHEADER_FROM_PAYLOAD x) s → ∀ fuel l1 l2,
  l = l1 ++ l2 → (length l1 < fuel)%nat →
  wp (node_head_loop fuel (MEMHEADER_FROM_PAYLOAD (last_or x l1))) s Q.
Proof.
  intros Hd Hv HQ. induction fuel as [|fuel IH]; intros l1 l2 -> Hf; [lia|].
  cbn [node_head_loop].
  assert (Hin : last_or x l1 ∈ x :: l1 ++ l2).
  { destruct (last_or_cases x l1) as [[-> ->]|?]; [by left|]. right. apply elem_of_app. by left. }
  destruct (Hv _ Hin) as (H4 & HW & _ & Hvp).
  destruct (header_fields (last_or x l1)) as [_ ->]; [done..|].
  wp_bind. apply wp_load32; [done|].
  destruct l1 as [|y l1 _] using rev_ind.
  - destruct Hd as (_ & Hp & _). change (last_or x []) with x. rewrite Hp. by apply wp_ret.
  - rewrite last_or_snoc in *. rewrite <- app_assoc in Hd. cbn [app] in Hd.
    destruct (dseg_node _ 0 (x :: l1) y l2 0 Hd) as [_ Hp]. rewrite last_or_cons in Hp. rewrite Hp.
    assert (Hin' : last_or x l1 ∈ x :: (l1 ++ [y]) ++ l2).
    { destruct (last_or_cases x l1) as [[-> ->]|?]; [by left|]. right. rewrite !elem_of_app. auto. }
    destruct (Hv _ Hin') as (H4' & _). destruct (Z.eqb_spec (last_or x l1) 0); [lia|].
    wp_bind. apply wp_load32; [done|]. rewrite Hp. eapply (IH l1 (y :: l2)).
    + by rewrite <- app_assoc.
    + rewrite length_app in Hf. cbn in Hf. lia.
Qed.

(** The search of the array fails if no head is the address compared with. *)
Lemma wp_listindex_loop s header : ∀ fuel (i : nat) (Q : Z → st → Prop),
  (i + fuel ≤ length (free_lists s))%nat →
  (∀ j p, free_lists s !! j = Some p → p ≠ PAYLOAD_FROM_MEMHEADER header) →
  Q (u32 (-1)) s → wp (listindex_loop fuel header (Z.of_nat i)) s Q.
Proof.
  induction fuel as [|fuel IH]; intros i Q Hl Hne HQ; cbn [listindex_loop]; [by apply wp_ret|].
  destruct (lookup_lt_is_Some_2 (free_lists s) i) as [p Hp]; [lia|].
  wp_bind. apply (wp_get_free_list _ _ _ _ Hp).
  destruct (Z.eqb_spec p (PAYLOAD_FROM_MEMHEADER header)) as [E|_]; [by destruct (Hne _ _ Hp)|].
  replace (Z.of_nat i + 1) with (Z.of_nat (S i)) by lia. apply IH; [lia|done|done].
Qed.

(** The memory after appending the node [x] behind the node [t]; [t] is 0
    when the list is empty. *)
Definition appended (m : gmap Z Z) (x t : Z) : gmap Z Z :=
  let m0 := wrw m x 0 in
  wrw (if t =? 0 then m0 else wrw m0 t x) (x + 4) t.

Lemma appended_same m x t :
  same_on (λ q, (q < x ∨ x + 8 ≤ q) ∧ (q < t ∨ t + 4 ≤ q ∨ t = 0)) m (appended m x t).
Proof.
  intros q [Hx Ht]. unfold appended.
  destruct (Z.eqb_spec t 0); rewrite !rdb_wrw_out by lia; done.
Qed.

Lemma appended_node m x t :
  0 ≤ t < W32 → (t = 0 ∨ apart x t) →
  rdw (appended m x t) x = 0 ∧ rdw (appended m x t) (x + 4) = t.
Proof.
  intros Ht Ha. unfold appended, apart in *. split; [|by apply rdw_wrw_eq].
  rewrite rdw_wrw_ne by lia. destruct (Z.eqb_spec t 0); [by apply rdw_wrw_eq|].
  rewrite rdw_wrw_ne by lia. by apply rdw_wrw_eq.
Qed.

Lemma appended_other m x t y :
  apart x y → (y = t ∨ apart t y ∨ t = 0) → 4 ≤ y → 0 ≤ x < W32 →
  rdw (appended m x t) y = (if decide (y = t) then x else rdw m y) ∧
  rdw (appended m x t) (y + 4) = rdw m (y + 4).
Proof.
  intros Hx Ht Hy Hxw. unfold appended, apart in *.
  destruct (Z.eqb_spec t 0) as [->|Ht0].
  - rewrite decide_False by lia. rewrite !rdw_wrw_ne by lia. done.
  - split; [|rewrite !rdw_wrw_ne by lia; done].
    rewrite rdw_wrw_ne by lia. case_decide; [subst; by apply rdw_wrw_eq|].
    rewrite !rdw_wrw_ne by lia. done.
Qed.

(** Appending [x] to list [i]. *)
Lemma lists_ok_add m heads fls i l x :
  lists_ok m heads fls → fls !! i = Some l → ¬ in_lists fls x →
  4 ≤ x → x + 8 < W32 → (∀ y, in_lists fls y → apart x y) →
  lists_ok (appended m x (last_or 0 l)) (<[i := hd_or 0 (l ++ [x])]> heads) (<[i := l ++ [x]]> fls).
Proof.
  intros Hok Hi Hx Hx4 HxW Hap. pose proof Hok as [Hh Hd Hn Hinj Ha Hr].
  assert (Hin : ∀ y, y ∈ l → in_lists fls y) by (intros; by eapply in_lists_intro).
  assert (Hxl : x ∉ l) by (intros ?; apply Hx; auto).
  assert (Ht : last_or 0 l = 0 ∨ in_lists fls (last_or 0 l)).
  { destruct (last_or_cases 0 l) as [[_ ?]|?]; auto. }
  assert (Htr : 0 ≤ last_or 0 l < W32).
  { destruct Ht as [->|Ht%Hr]; [done|lia]. }
  assert (Hoth : ∀ y, in_lists fls y →
    rdw (appended m x (last_or 0 l)) y = (if decide (y = last_or 0 l) then x else rdw m y) ∧
    rdw (appended m x (last_or 0 l)) (y + 4) = rdw m (y + 4)).
  { intros y Hy. pose proof (Hr y Hy). apply appended_other; [by apply Hap| |lia..].
    destruct Ht as [Ht|Ht]; [by right; right|].
    destruct (decide (y = last_or 0 l)) as [E|E]; [by left|right; left].
    apply Ha; [done..|congruence]. }
  eapply lists_ok_insert; try done.
  - apply NoDup_app. split_and!; [by eapply Hn| |apply NoDup_singleton].
    intros y Hy Hyx%list_elem_of_singleton. congruence.
  - apply dseg_app. cbn [dseg hd_or]. split.
    + eapply dseg_set_last; [|by eapply Hn|by eapply Hd].
      intros y Hy. by apply Hoth, Hin.
    + destruct (appended_node m x (last_or 0 l)) as [-> ->]; [done| |done].
      destruct Ht as [Ht|Ht]; [by left|right; by apply Hap].
  - intros y Hy Hyl. destruct (Hoth y Hy) as [-> ->]. split; [|done].
    rewrite decide_False; [done|]. intros ->.
    destruct (last_or_cases 0 l) as [[_ E]|?]; [|done].
    pose proof (Hr _ Hy). lia.
  - intros y Hy. apply elem_of_app in Hy as [Hy|Hy%list_elem_of_singleton]; [by left|].
    subst y. right. auto.
  - intros y z Hy Hz Hyl Hzl. set_solver.
Qed.

(** [add_to_list] appends a node to a list it is not in. *)
Lemma wp_add_to_list s fls i l x (Q : unit → st → Prop) :
  lists_ok (ram s) (free_lists s) fls → (∀ y, in_lists fls y → node_valid s y) →
  fls !! i = Some l → (length l < list_fuel s)%nat →
  node_valid s x → ¬ in_lists fls x → (∀ y, in_lists fls y → apart x y) →
  (∀ m' heads',
     m' = appended (ram s) x (last_or 0 l) →
     lists_ok m' heads' (<[i := l ++ [x]]> fls) → Q tt (upd m' heads' s)) →
  wp (add_to_list x (Z.of_nat i)) s Q.
Proof.
  intros Hok Hv Hi Hf (Hx4 & HxW & Hxv & Hxv4) Hx Hap HQ.
  assert (Hin : ∀ y, y ∈ l → in_lists fls y) by (intros; by eapply in_lists_intro).
  destruct (header_fields x) as [Ef Eb]; [done..|].
  unfold add_to_list. rewrite Ef, Eb.
  wp_bind. apply wp_store32; [done|]. wp_bind.
  eapply (wp_find_end_of_list _ fls _ l); [|done|by intros y Hy; exact (Hv y (Hin y Hy))|done|].
  { destruct Hok as [Hh Hd Hn Hinj Ha Hr]. split; try done. intros j k Hj. eapply dseg_same; [|by eapply Hd].
    intros y Hy. assert (apart x y) as Hxy by (apply Hap; by eapply in_lists_intro).
    unfold apart in Hxy. cbn [ram set_ram]. rewrite !rdw_wrw_ne by lia. done. }
  assert (Hlo := lists_ok_add _ _ _ _ _ x Hok Hi Hx Hx4 HxW Hap).
  assert (Hh : free_lists s !! i = Some (hd_or 0 l)).
  { by rewrite (lo_heads _ _ _ Hok), list_lookup_fmap, Hi. }
  destruct (Z.eqb_spec (last_or 0 l) 0) as [Ht|Ht].
  - assert (l = []) as ->.
    { destruct (last_or_cases 0 l) as [[? _]|Hl]; [done|].
      apply Hin, (lo_range _ _ _ Hok) in Hl. lia. }
    wp_bind. eapply wp_set_free_list; [done|]. cbn [ram set_ram free_lists].
    apply wp_store32; [done|]. apply (HQ _ _ eq_refl Hlo).
  - assert (Hl : last_or 0 l ∈ l) by (by destruct (last_or_cases 0 l) as [[_ ?]|?]).
    destruct (Hv _ (Hin _ Hl)) as (Ht4 & HtW & Htv & _).
    destruct (header_fields (last_or 0 l)) as [-> _]; [done..|].
    wp_bind. apply wp_store32; [done|]. apply wp_store32; [done|].
    cbn [ram set_ram].
    replace (set_ram _ _) with (upd (appended (ram s) x (last_or 0 l))
      (<[i := hd_or 0 (l ++ [x])]> (free_lists s)) s); [by apply HQ|].
    unfold appended. destruct (Z.eqb_spec (last_or 0 l) 0); [done|].
    rewrite hd_or_app. destruct l as [|y l]; [set_solver|]. cbn [hd_or] in *.
    rewrite list_insert_id by done. by destruct s.
Qed.

End FreeList.
