(* ===== verification/Heap.v ===== *)
(** * The heap as a sequence of blocks

    The abstract state of the allocator: the blocks of the heap in address
    order, the contents of the seventeen free lists and the
    previous-block-allocated bit of the epilogue.  [irep] says that the
    memory of the C program represents such a state; it is the invariant
    the proofs about src/mm.c step through.  A block is [Live] (handed out,
    with the bytes of its payload), [Free] (in a free list) or [Loose] (not
    allocated, not in a list: the state of a block while mm.c is
    working on it). *)

From Stdlib Require Import ZArith Lia.
From stdpp Require Import base gmap numbers list.
From S2P Require Import Prelude Memory Memlib Sizes Blocks FreeList.

Inductive bstate :=
  | Free
  | Loose
  | Live (data : list Z).

Record blk := Blk {
  b_addr : Z;        (* payload pointer *)
  b_size : Z;        (* size field of the header *)
  b_state : bstate;
  b_palloc : bool    (* the PREVALLOC bit *)
}.

Record heap := Heap {
  h_blocks : list blk;
  h_lists : list (list Z);
  h_epi : bool
}.

#[global] Instance bstate_eq_dec : EqDecision bstate.
Proof. solve_decision. Defined.
#[global] Instance blk_eq_dec : EqDecision blk.
Proof. solve_decision. Defined.

Definition is_live (b : blk) : bool :=
  match b_state b with
  | Live _ => true
  | _ => false
  end.

Definition is_free (b : blk) : bool :=
  match b_state b with
  | Free => true
  | _ => false
  end.

Definition set_state (t : bstate) (b : blk) : blk :=
  Blk (b_addr b) (b_size b) t (b_palloc b).
Definition set_palloc (p : bool) (b : blk) : blk :=
  Blk (b_addr b) (b_size b) (b_state b) p.

(** The index of the free list a block of this size belongs to. *)
Definition class_of (size : Z) : nat := Z.to_nat (calc_list_index size).

(** The blocks fill the interval from [a] to [e] (payload addresses). *)
Fixpoint geo (a : Z) (bs : list blk) (e : Z) : Prop :=
  match bs with
  | [] => a = e
  | b :: bs' => b_addr b = a ∧ 16 ≤ b_size b ∧ (8 | b_size b) ∧ geo (a + b_size b) bs' e
  end.

(** A clear PREVALLOC bit means that the block before is not allocated; the
    converse is not maintained by mm.c, which leaves the bit of the
    following block set when it frees a block. *)
Fixpoint pflags (prev_free : bool) (bs : list blk) (epi : bool) : Prop :=
  match bs with
  | [] => epi = false → prev_free = true
  | b :: bs' => (b_palloc b = false → prev_free = true) ∧ pflags (negb (is_live b)) bs' epi
  end.

(** Every list holds the free blocks of its class and nothing else. *)
Record links (bs : list blk) (fls : list (list Z)) : Prop := {
  lk_length : length fls = Z.to_nat FREELIST_COUNT;
  lk_mem i l x : fls !! i = Some l →
    x ∈ l ↔ ∃ b, b ∈ bs ∧ b_addr b = x ∧ b_state b = Free ∧ class_of (b_size b) = i
}.

(** Taking a payload pointer out of, or appending it to, list [i]. *)
Definition unlist (x : Z) (i : nat) (fls : list (list Z)) : list (list Z) :=
  alter (filter (λ y, y ≠ x)) i fls.
Definition enlist (x : Z) (i : nat) (fls : list (list Z)) : list (list Z) :=
  alter (λ l, l ++ [x]) i fls.

(** The addresses of the link words of the unallocated blocks. *)
Definition link_byte (bs : list blk) (q : Z) : Prop :=
  ∃ b, b ∈ bs ∧ is_live b = false ∧ b_addr b ≤ q < b_addr b + 8.

Section Heap.
Context {L : Libc}.

(** The boundary tags of a block and, if it is live, its payload. *)
Definition blk_ok (m : gmap Z Z) (b : blk) : Prop :=
  rdw m (b_addr b - 4) = tag (b_size b) (is_live b) (b_palloc b) ∧
  match b_state b with
  | Live data => rdbs m (b_addr b) (Z.to_nat (b_size b - 4)) = data
  | _ => ∃ a p, rdw m (b_addr b + b_size b - 8) = tag (b_size b) a p
  end.

(** The alignment word and the prologue at the start of the heap. *)
Definition prologue_ok (m : gmap Z Z) (start : Z) : Prop :=
  rdw m start = ALIGN_WORD ∧ rdw m (start + 4) = tag DSIZE true true ∧
  rdw m (start + 8) = tag DSIZE true true.

Record irep (s : st) (h : heap) : Prop := {
  ir_memlib : memlib_ok s;
  ir_start : heap_start s = mem_start_brk s;
  ir_end : heap_end s = mem_brk s - 1;
  ir_page : (8 | ADJUSTED_PAGESIZE s) ∧ 16 ≤ ADJUSTED_PAGESIZE s < 2147483648;
  ir_geo : geo (mem_start_brk s + 16) (h_blocks h) (mem_brk s);
  ir_links : links (h_blocks h) (h_lists h);
  ir_lists : lists_ok (ram s) (free_lists s) (h_lists h);
  ir_blocks : Forall (blk_ok (ram s)) (h_blocks h);
  ir_epi : rdw (ram s) (mem_brk s - 4) = tag EPILOGUE true (h_epi h);
  ir_prologue : prologue_ok (ram s) (mem_start_brk s)
}.

(** The state between two calls: the representation invariant, with the
    PREVALLOC bits right and no block left loose. *)
Record rep (s : st) (h : heap) : Prop := {
  rp_irep : irep s h;
  rp_flags : pflags false (h_blocks h) (h_epi h);
  rp_settled : Forall (λ b, b_state b ≠ Loose) (h_blocks h)
}.

(** ** Geometry *)
Lemma geo_app a l1 l2 e : geo a (l1 ++ l2) e ↔ ∃ x, geo a l1 x ∧ geo x l2 e.
Proof.
  revert a. induction l1 as [|b l1 IH]; intros a; cbn [app geo].
  - split; [by exists a|]. by intros (x & -> & ?).
  - rewrite IH. naive_solver.
Qed.

Lemma geo_bounds a bs e b :
  geo a bs e → b ∈ bs →
  a ≤ b_addr b ∧ b_addr b + b_size b ≤ e ∧ 16 ≤ b_size b ∧ (8 | b_size b) ∧
  (8 | b_addr b - a).
Proof.
  revert a. induction bs as [|c bs IH]; intros a; [by intros _ ?%not_elem_of_nil|].
  cbn [geo]. intros (Ha & H16 & H8 & Hg) Hb.
  assert (Hle : ∀ x l, geo x l e → x ≤ e).
  { intros x l. revert x. induction l as [|d l IHl]; intros x; cbn [geo]; [lia|].
    intros (? & ? & ? & ?%IHl). lia. }
  specialize (Hle _ _ Hg) as Hle'.
  apply elem_of_cons in Hb as [->|Hb].
  - split_and!; [lia|lia|done|done|]. rewrite Ha, Z.sub_diag. by exists 0.
  - destruct (IH _ Hg Hb) as (? & ? & ? & ? & Hd). split_and!; [lia|lia|done|done|].
    replace (b_addr b - a) with (b_addr b - (a + b_size c) + b_size c) by lia.
    by apply Z.divide_add_r.
Qed.

Lemma geo_le a bs e : geo a bs e → a ≤ e.
Proof.
  revert a. induction bs as [|b bs IH]; intros a; cbn [geo]; [lia|].
  intros (? & ? & ? & ?%IH). lia.
Qed.

Lemma geo_end a bs e e' : geo a bs e → geo a bs e' → e = e'.
Proof.
  revert a. induction bs as [|b bs IH]; intros a; cbn [geo]; [congruence|]. naive_solver.
Qed.

Lemma geo_length a bs e : geo a bs e → 16 * Z.of_nat (length bs) ≤ e - a.
Proof.
  revert a. induction bs as [|b bs IH]; intros a; cbn [geo length]; [lia|].
  intros (? & ? & ? & ?%IH). lia.
Qed.

(** Blocks do not overlap, and their addresses determine them. *)
Lemma geo_disjoint a bs e b c :
  geo a bs e → b ∈ bs → c ∈ bs →
  b = c ∨ b_addr b + b_size b ≤ b_addr c ∨ b_addr c + b_size c ≤ b_addr b.
Proof.
  revert a. induction bs as [|d bs IH]; intros a; [by intros _ ?%not_elem_of_nil|].
  cbn [geo]. intros (Ha & H16 & H8 & Hg) Hb Hc.
  apply elem_of_cons in Hb as [->|Hb]; apply elem_of_cons in Hc as [->|Hc].
  - by left.
  - destruct (geo_bounds _ _ _ _ Hg Hc) as (? & _). right; left. lia.
  - destruct (geo_bounds _ _ _ _ Hg Hb) as (? & _). right; right. lia.
  - by eapply IH.
Qed.

Lemma geo_inj a bs e b c :
  geo a bs e → b ∈ bs → c ∈ bs → b_addr b = b_addr c → b = c.
Proof.
  intros Hg Hb Hc E.
  destruct (geo_bounds _ _ _ _ Hg Hb) as (_ & _ & ? & _).
  destruct (geo_bounds _ _ _ _ Hg Hc) as (_ & _ & ? & _).
  destruct (geo_disjoint _ _ _ _ _ Hg Hb Hc); [done|lia].
Qed.

Lemma geo_NoDup a bs e : geo a bs e → NoDup bs.
Proof.
  revert a. induction bs as [|b bs IH]; intros a; cbn [geo]; [constructor|].
  intros (? & ? & ? & Hg). constructor; [|by eapply IH].
  intros Hb. destruct (geo_bounds _ _ _ _ Hg Hb). lia.
Qed.

Lemma geo_NoDup_addr a bs e : geo a bs e → NoDup (b_addr <$> bs).
Proof.
  revert a. induction bs as [|b bs IH]; intros a; cbn [geo]; [constructor|].
  intros (? & ? & ? & Hg). rewrite fmap_cons. constructor; [|by eapply IH].
  intros (c & E & Hc)%list_elem_of_fmap. destruct (geo_bounds _ _ _ _ Hg Hc). lia.
Qed.

(** Replacing blocks by blocks with the same extents. *)
Lemma geo_resp a l1 b b' l2 e :
  b_addr b' = b_addr b → b_size b' = b_size b →
  geo a (l1 ++ b :: l2) e → geo a (l1 ++ b' :: l2) e.
Proof.
  intros Ha Hs. rewrite !geo_app. intros (x & H1 & H2). exists x. split; [done|].
  cbn [geo] in *. by rewrite Ha, Hs.
Qed.

Lemma geo_mid a l1 b l2 e : geo a (l1 ++ b :: l2) e → geo a l1 (b_addr b) ∧ geo (b_addr b + b_size b) l2 e.
Proof.
  rewrite geo_app. cbn [geo]. intros (x & H1 & <- & _ & _ & H2). done.
Qed.

(** ** Block representation *)
Lemma blk_ok_same m m' b :
  16 ≤ b_size b →
  same_on (λ q, b_addr b - 4 ≤ q < b_addr b + b_size b - 4) m m' →
  blk_ok m b → blk_ok m' b.
Proof.
  intros H16 Hs [Hh Hb]. split.
  - rewrite <- Hh. apply rdw_same. intros q Hq. apply Hs. lia.
  - destruct (b_state b).
    + destruct Hb as (x & y & Hf). exists x, y. rewrite <- Hf.
      apply rdw_same. intros q Hq. apply Hs. lia.
    + destruct Hb as (x & y & Hf). exists x, y. rewrite <- Hf.
      apply rdw_same. intros q Hq. apply Hs. lia.
    + rewrite <- Hb. apply rdbs_same. intros q Hq. apply Hs. lia.
Qed.

(** The link words of an unallocated block are not part of its tags. *)
Lemma blk_ok_links m m' b :
  16 ≤ b_size b → is_live b = false →
  same_on (λ q, b_addr b - 4 ≤ q < b_addr b ∨
                b_addr b + b_size b - 8 ≤ q < b_addr b + b_size b - 4) m m' →
  blk_ok m b → blk_ok m' b.
Proof.
  unfold is_live, blk_ok. intros H16 Hl Hs [Hh Hb].
  assert (E : rdw m' (b_addr b - 4) = rdw m (b_addr b - 4)).
  { apply rdw_same. intros q Hq. apply Hs. lia. }
  assert (Ef : rdw m' (b_addr b + b_size b - 8) = rdw m (b_addr b + b_size b - 8)).
  { apply rdw_same. intros q Hq. apply Hs. lia. }
  rewrite E, Ef. destruct (b_state b); done.
Qed.

(** ** Facts of the representation *)
Lemma ir_block s h b :
  irep s h → b ∈ h_blocks h →
  mem_start_brk s + 16 ≤ b_addr b ∧ b_addr b + b_size b ≤ mem_brk s ∧
  16 ≤ b_size b ∧ (8 | b_size b) ∧ (8 | b_addr b) ∧ blk_ok (ram s) b.
Proof.
  intros Hr Hb.
  destruct (geo_bounds _ _ _ _ (ir_geo _ _ Hr) Hb) as (? & ? & ? & ? & Hd).
  split_and!; try done.
  - replace (b_addr b) with (b_addr b - (mem_start_brk s + 16) + mem_start_brk s + 16) by lia.
    apply Z.divide_add_r; [apply Z.divide_add_r; [done|apply (mo_aligned _ (ir_memlib _ _ Hr))]|].
    by exists 2.
  - by eapply Forall_forall; [apply (ir_blocks _ _ Hr)|].
Qed.

Lemma ir_valid s h p n :
  irep s h → mem_start_brk s ≤ p → p + n ≤ mem_brk s → valid s p n = true.
Proof.
  intros Hr ??. pose proof (ir_memlib _ _ Hr) as Hm. pose proof (mo_brk _ Hm).
  apply memlib_ok_valid; [done|lia..].
Qed.

(** The bounds [lia] needs about a block, and the arithmetic of its address. *)
Lemma ir_bounds s h : irep s h →
  0 < mem_start_brk s ∧ mem_start_brk s + 16 ≤ mem_brk s ∧ mem_brk s < W32 ∧
  mem_brk s ≤ mem_start_brk s + MAX_HEAP ∧ mem_start_brk s + MAX_HEAP < W32.
Proof.
  intros Hr. pose proof (geo_le _ _ _ (ir_geo _ _ Hr)).
  destruct (ir_memlib _ _ Hr) as [_ ? _ ? ? ?]. lia.
Qed.

Lemma in_lists_block s h x :
  irep s h → in_lists (h_lists h) x →
  ∃ b, b ∈ h_blocks h ∧ b_addr b = x ∧ b_state b = Free.
Proof.
  intros Hr (i & l & Hi & Hx). apply (lk_mem _ _ (ir_links _ _ Hr) _ _ _ Hi) in Hx.
  naive_solver.
Qed.

Lemma ir_node_valid s h b : irep s h → b ∈ h_blocks h → node_valid s (b_addr b).
Proof.
  intros Hr Hb. destruct (ir_block _ _ _ Hr Hb) as (? & ? & ? & ? & ? & _).
  destruct (ir_bounds _ _ Hr) as (? & ? & ? & ? & ?).
  split_and!; [lia|lia|eapply ir_valid; [done|lia..]|eapply ir_valid; [done|lia..]].
Qed.

Lemma ir_lists_valid s h x : irep s h → in_lists (h_lists h) x → node_valid s x.
Proof.
  intros Hr Hx. destruct (in_lists_block _ _ _ Hr Hx) as (b & Hb & <- & _).
  by eapply ir_node_valid.
Qed.

(** A free list is no longer than the fuel given to the list loops. *)
Lemma ir_list_fuel s h i l :
  irep s h → h_lists h !! i = Some l → (length l < list_fuel s)%nat.
Proof.
  intros Hr Hi. pose proof (geo_length _ _ _ (ir_geo _ _ Hr)) as Hlen.
  assert (Hle : (length l ≤ length (h_blocks h))%nat).
  { rewrite <- (length_fmap b_addr).
    apply NoDup_incl_length; [apply NoDup_ListNoDup; by eapply lo_nodup; [apply (ir_lists _ _ Hr)|]|].
    intros x Hx%list_elem_of_In. apply list_elem_of_In, list_elem_of_fmap.
    apply (lk_mem _ _ (ir_links _ _ Hr) _ _ _ Hi) in Hx as (b & ? & <- & _). by exists b. }
  unfold list_fuel. assert (Z.of_nat (length l) ≤ (mem_brk s - mem_start_brk s) / 16); [|lia].
  apply Z.div_le_lower_bound; lia.
Qed.

Lemma lists_ok_same m m' heads fls :
  (∀ x, in_lists fls x → rdw m' x = rdw m x ∧ rdw m' (x + 4) = rdw m (x + 4)) →
  lists_ok m heads fls → lists_ok m' heads fls.
Proof.
  intros Hs []. split; try done. intros i l Hi. eapply dseg_same; [|eauto].
  intros x Hx. apply Hs. by exists i, l.
Qed.

(** ** Changing the memory under an unchanged set of lists *)
Lemma irep_update s m' h bs' epi' :
  irep s h →
  geo (mem_start_brk s + 16) bs' (mem_brk s) → links bs' (h_lists h) →
  (∀ x, in_lists (h_lists h) x →
        rdw m' x = rdw (ram s) x ∧ rdw m' (x + 4) = rdw (ram s) (x + 4)) →
  Forall (blk_ok m') bs' → rdw m' (mem_brk s - 4) = tag EPILOGUE true epi' →
  same_on (λ q, mem_start_brk s ≤ q < mem_start_brk s + 12) (ram s) m' →
  irep (set_ram m' s) (Heap bs' (h_lists h) epi').
Proof.
  intros [] Hg Hl Hlists Hb He Hp. split; try done.
  - by destruct ir_memlib0.
  - by eapply lists_ok_same.
  - destruct ir_prologue0 as (E1 & E2 & E3). split_and!; cbn [ram set_ram].
    + rewrite <- E1. apply rdw_same. intros q Hq. apply Hp. cbn in *. lia.
    + rewrite <- E2. apply rdw_same. intros q Hq. apply Hp. cbn in *. lia.
    + rewrite <- E3. apply rdw_same. intros q Hq. apply Hp. cbn in *. lia.
Qed.

Lemma links_no_free l1 mid mid' l2 fls :
  Forall (λ b, b_state b ≠ Free) mid → Forall (λ b, b_state b ≠ Free) mid' →
  links (l1 ++ mid ++ l2) fls → links (l1 ++ mid' ++ l2) fls.
Proof.
  rewrite !Forall_forall. intros Hm Hm' [Hlen Hl]. split; [done|].
  intros i l x Hi. rewrite (Hl i l x Hi).
  split; intros (b & Hb & ? & ? & ?); exists b; (split; [|done]);
    rewrite !elem_of_app in *; naive_solver.
Qed.

(** Rewriting a stretch of blocks none of which is in a list. *)
Lemma irep_region s l1 mid mid' l2 fls epi lo hi m' :
  irep s (Heap (l1 ++ mid ++ l2) fls epi) →
  geo (mem_start_brk s + 16) l1 lo → geo lo mid hi → geo lo mid' hi →
  Forall (λ b, b_state b ≠ Free) mid → Forall (λ b, b_state b ≠ Free) mid' →
  outside (lo - 4) (hi - 4) (ram s) m' → Forall (blk_ok m') mid' →
  irep (set_ram m' s) (Heap (l1 ++ mid' ++ l2) fls epi).
Proof.
  intros Hr Hg1 Hgm Hgm' Hnf Hnf' Hout Hok.
  pose proof (ir_geo _ _ Hr) as Hg. cbn [h_blocks] in Hg.
  apply geo_app in Hg as (lo' & Hg1' & (hi' & Hgm1 & Hg2)%geo_app).
  pose proof (geo_end _ _ _ _ Hg1 Hg1'). subst lo'.
  pose proof (geo_end _ _ _ _ Hgm Hgm1). subst hi'.
  destruct (ir_bounds _ _ Hr) as (? & ? & ? & _).
  pose proof (geo_le _ _ _ Hg1). pose proof (geo_le _ _ _ Hgm). pose proof (geo_le _ _ _ Hg2).
  apply (irep_update s m' _ (l1 ++ mid' ++ l2) epi Hr).
  - apply geo_app. exists lo. split; [done|]. apply geo_app. by exists hi.
  - apply (links_no_free l1 mid mid' l2); [done..|]. apply (ir_links _ _ Hr).
  - intros x Hx. destruct (in_lists_block _ _ _ Hr Hx) as (b & Hb & <- & Hf).
    cbn [h_blocks] in Hb. rewrite !elem_of_app in Hb.
    assert (b_addr b + b_size b ≤ lo ∨ hi ≤ b_addr b) as Hd.
    { destruct Hb as [Hb|[Hb|Hb]].
      - destruct (geo_bounds _ _ _ _ Hg1 Hb). lia.
      - rewrite Forall_forall in Hnf. by destruct (Hnf b Hb).
      - destruct (geo_bounds _ _ _ _ Hg2 Hb). lia. }
    assert (16 ≤ b_size b).
    { apply (ir_block _ _ b Hr). cbn [h_blocks]. by rewrite !elem_of_app. }
    split; apply rdw_same; intros q Hq; apply Hout; lia.
  - pose proof (ir_blocks _ _ Hr) as Hbs. cbn [h_blocks] in Hbs.
    rewrite !Forall_app in *. destruct Hbs as (Hb1 & Hbm & Hb2). split_and!; [|done|].
    + rewrite Forall_forall in *. intros b Hb. destruct (geo_bounds _ _ _ _ Hg1 Hb) as (? & ? & ? & _).
      eapply blk_ok_same; [done| |by apply Hb1]. intros q Hq. apply Hout. cbn in *. lia.
    + rewrite Forall_forall in *. intros b Hb. destruct (geo_bounds _ _ _ _ Hg2 Hb) as (? & ? & ? & _).
      eapply blk_ok_same; [done| |by apply Hb2]. intros q Hq. apply Hout. cbn in *. lia.
  - pose proof (ir_epi _ _ Hr) as E. cbn [h_epi] in E. rewrite <- E.
    apply rdw_same. intros q Hq. apply Hout. cbn in *. lia.
  - intros q Hq. apply Hout. cbn in *. lia.
Qed.

(** ** Changing a single tag or only links *)
Lemma irep_links_same s h m' :
  irep s h → same_on (λ q, ¬ link_byte (h_blocks h) q) (ram s) m' →
  Forall (blk_ok m') (h_blocks h) ∧
  rdw m' (mem_brk s - 4) = tag EPILOGUE true (h_epi h) ∧ prologue_ok m' (mem_start_brk s).
Proof.
  intros Hr Hs. pose proof (ir_geo _ _ Hr) as Hg.
  assert (Hno : ∀ q, (∀ b, b ∈ h_blocks h → is_live b = false →
                      q < b_addr b ∨ b_addr b + 8 ≤ q) → ¬ link_byte (h_blocks h) q).
  { intros q H (b & Hb & Hl & Hq). specialize (H b Hb Hl). lia. }
  split_and!.
  - apply Forall_forall. intros c Hc.
    destruct (ir_block _ _ _ Hr Hc) as (_ & _ & Hc16 & _ & _ & Hok).
    destruct (is_live c) eqn:Hl.
    + eapply blk_ok_same; [done| |done]. intros q Hq. apply Hs, Hno. intros b Hb Hbl.
      destruct (ir_block _ _ _ Hr Hb) as (_ & _ & ? & _).
      destruct (geo_disjoint _ _ _ _ _ Hg Hb Hc) as [->|?]; [congruence|]. lia.
    + eapply blk_ok_links; [done..| |done]. intros q Hq. apply Hs, Hno. intros b Hb Hbl.
      destruct (ir_block _ _ _ Hr Hb) as (_ & _ & ? & _).
      destruct (geo_disjoint _ _ _ _ _ Hg Hb Hc) as [->|?]; lia.
  - rewrite <- (ir_epi _ _ Hr). apply rdw_same. intros q Hq. apply Hs, Hno.
    intros b Hb _. destruct (ir_block _ _ _ Hr Hb) as (? & ? & ? & _). lia.
  - destruct (ir_prologue _ _ Hr) as (E1 & E2 & E3). unfold prologue_ok.
    split_and!; [rewrite <- E1|rewrite <- E2|rewrite <- E3]; apply rdw_same; intros q Hq; apply Hs, Hno;
      intros b Hb _; destruct (ir_block _ _ _ Hr Hb) as (? & ? & ? & _); lia.
Qed.

(** Setting or clearing the PREVALLOC bit of a block, whatever its state. *)
Lemma irep_palloc s l1 b l2 fls epi p :
  irep s (Heap (l1 ++ b :: l2) fls epi) →
  irep (set_ram (wrw (ram s) (b_addr b - 4) (tag (b_size b) (is_live b) p)) s)
       (Heap (l1 ++ set_palloc p b :: l2) fls epi).
Proof.
  intros Hr. assert (Hb : b ∈ (l1 ++ b :: l2)) by set_solver.
  pose proof (ir_geo _ _ Hr) as Hg. cbn [h_blocks] in Hg.
  destruct (ir_bounds _ _ Hr) as (? & ? & ? & ? & ?).
  destruct (ir_block _ _ b Hr Hb) as (? & ? & Hb16 & Hb8 & _ & Hok).
  assert (Hwr : rdw (wrw (ram s) (b_addr b - 4) (tag (b_size b) (is_live b) p)) (b_addr b - 4)
                = tag (b_size b) (is_live b) p).
  { apply rdw_wrw_eq, tag_range; [auto|unfold W32 in *; lia]. }
  assert (Hoth : ∀ c, c ∈ (l1 ++ b :: l2) → b ≠ c →
    blk_ok (wrw (ram s) (b_addr b - 4) (tag (b_size b) (is_live b) p)) c).
  { intros c Hc Hne. destruct (ir_block _ _ c Hr Hc) as (_ & _ & ? & _ & _ & Hokc).
    eapply blk_ok_same; [done| |done]. intros q Hq. apply rdb_wrw_out.
    destruct (geo_disjoint _ _ _ _ _ Hg Hb Hc) as [->|?]; [done|]. lia. }
  pose proof (geo_NoDup _ _ _ Hg) as (_ & Hni & Hni2)%NoDup_app.
  apply NoDup_cons in Hni2 as [Hni2 _].
  apply (irep_update s _ _ (l1 ++ set_palloc p b :: l2) epi Hr); cbn [h_lists].
  - by eapply geo_resp; [| |exact Hg].
  - destruct (ir_links _ _ Hr) as [Hlen Hl]. split; [done|].
    intros i l x Hi. rewrite (Hl i l x Hi). cbn [h_blocks].
    split; intros (c & Hc & ? & ? & ?); rewrite elem_of_app, elem_of_cons in Hc.
    + destruct Hc as [Hc|[->|Hc]]; [exists c|exists (set_palloc p b)|exists c]; set_solver.
    + destruct Hc as [Hc|[->|Hc]]; [exists c|exists b|exists c]; set_solver.
  - intros x Hx. destruct (in_lists_block _ _ _ Hr Hx) as (c & Hc & <- & Hf).
    destruct (ir_block _ _ c Hr Hc) as (_ & _ & ? & _).
    destruct (geo_disjoint _ _ _ _ _ Hg Hb Hc) as [->|?]; rewrite !rdw_wrw_ne by lia; done.
  - apply Forall_forall. intros c Hc. rewrite elem_of_app, elem_of_cons in Hc.
    destruct Hc as [Hc|[->|Hc]]; [apply Hoth; [set_solver|]| |apply Hoth; [set_solver|]].
    + intros ->. apply (Hni c Hc). by left.
    + destruct Hok as [_ Hf]. split; [done|].
      cbn [set_palloc b_state b_addr b_size]. destruct (b_state b).
      * destruct Hf as (x & y & E). exists x, y. rewrite rdw_wrw_ne by lia. done.
      * destruct Hf as (x & y & E). exists x, y. rewrite rdw_wrw_ne by lia. done.
      * rewrite <- Hf. apply rdbs_same. intros q Hq. apply rdb_wrw_out. lia.
    + intros ->. done.
  - pose proof (ir_epi _ _ Hr) as E. cbn [h_epi] in E. rewrite <- E. apply rdw_wrw_ne. lia.
  - intros q Hq. apply rdb_wrw_out. cbn in *. lia.
Qed.

(** Setting or clearing the PREVALLOC bit of the epilogue. *)
Lemma irep_epi s bs fls epi p :
  irep s (Heap bs fls epi) →
  irep (set_ram (wrw (ram s) (mem_brk s - 4) (tag EPILOGUE true p)) s) (Heap bs fls p).
Proof.
  intros Hr. destruct (ir_bounds _ _ Hr) as (? & ? & ? & ? & ?).
  apply (irep_update s _ _ bs p Hr); cbn [h_lists].
  - apply (ir_geo _ _ Hr).
  - apply (ir_links _ _ Hr).
  - intros x Hx. destruct (in_lists_block _ _ _ Hr Hx) as (c & Hc & <- & Hf).
    destruct (ir_block _ _ c Hr Hc) as (? & ? & ? & _). rewrite !rdw_wrw_ne by lia. done.
  - apply Forall_forall. intros c Hc.
    destruct (ir_block _ _ c Hr Hc) as (? & ? & ? & _ & _ & ?).
    eapply blk_ok_same; [done| |done]. intros q Hq. apply rdb_wrw_out. lia.
  - apply rdw_wrw_eq, tag_range; [by exists 983547956|done].
  - intros q Hq. apply rdb_wrw_out. cbn in *. lia.
Qed.

(** ** The list routines on the heap *)
Lemma class_of_index size : 0 < size → Z.of_nat (class_of size) = calc_list_index size.
Proof.
  intros Hs. pose proof (calc_list_index_range size Hs). unfold class_of. lia.
Qed.

Lemma class_of_lookup s h size :
  irep s h → 0 < size → ∃ l, h_lists h !! class_of size = Some l.
Proof.
  intros Hr Hs. apply lookup_lt_is_Some_2.
  rewrite (lk_length _ _ (ir_links _ _ Hr)).
  pose proof (calc_list_index_range size Hs). unfold class_of. lia.
Qed.

Lemma filter_mid (x : Z) l1 l2 :
  x ∉ l1 → x ∉ l2 → filter (λ y, y ≠ x) (l1 ++ x :: l2) = l1 ++ l2.
Proof.
  assert (Hid : ∀ l : list Z, x ∉ l → filter (λ y, y ≠ x) l = l).
  { induction l as [|y l IH]; [done|]. intros [Hne Hni]%not_elem_of_cons.
    rewrite filter_cons_True, IH by congruence. done. }
  intros. rewrite filter_app, filter_cons_False by auto. by rewrite !Hid.
Qed.

Lemma alter_insert {A} (f : A → A) (l : list A) i x :
  l !! i = Some x → alter f i l = <[i := f x]> l.
Proof.
  revert i. induction l as [|y l IH]; intros [|i]; cbn; intros Hi; simplify_eq; [done|].
  f_equal. by apply IH.
Qed.

Lemma links_remove bs bs' b fls l1 l2 :
  b ∈ bs → b_state b = Free →
  (∀ c, c ∈ bs → b_addr c = b_addr b → c = b) →
  (∀ c, b_state c = Free → c ∈ bs' ↔ c ∈ bs ∧ c ≠ b) →
  NoDup (l1 ++ b_addr b :: l2) →
  fls !! class_of (b_size b) = Some (l1 ++ b_addr b :: l2) →
  links bs fls → links bs' (<[class_of (b_size b) := l1 ++ l2]> fls).
Proof.
  intros Hb Hf Hinj Hbs' Hnd Hi [Hlen Hl]. split; [by rewrite length_insert|].
  destruct (NoDup_mid _ _ _ Hnd) as (_ & Hx1 & Hx2 & _).
  intros j l x Hj. rewrite list_lookup_insert in Hj. case_decide as Hd.
  - destruct Hd as [<- _]. injection Hj as <-.
    assert (Hx : x ∈ (l1 ++ l2) ↔ x ∈ (l1 ++ b_addr b :: l2) ∧ x ≠ b_addr b).
    { rewrite !elem_of_app, elem_of_cons. split; [|naive_solver].
      intros [?|?]; (split; [tauto|]); intros ->; done. }
    rewrite Hx, (Hl _ _ _ Hi). split.
    + intros [(c & Hc & Ha & Hs & Hk) Hne]. exists c. split_and!; try done.
      apply Hbs'; [done|]. split; [done|]. intros ->. congruence.
    + intros (c & Hc & Ha & Hs & Hk). apply Hbs' in Hc as [Hc Hne]; [|done].
      split; [by exists c|]. intros ->. apply Hne, Hinj; done.
  - assert (class_of (b_size b) ≠ j).
    { intros <-. apply Hd. split; [done|]. by eapply lookup_lt_Some. }
    rewrite (Hl _ _ _ Hj). split; intros (c & Hc & Ha & Hs & Hk); exists c;
      (split; [|done]).
    + apply Hbs'; [done|]. split; [done|congruence].
    + by apply Hbs' in Hc as [? _].
Qed.

Lemma links_add bs bs' b fls l :
  b ∈ bs' → b_state b = Free →
  (∀ c, c ∈ bs' → b_addr c = b_addr b → c = b) →
  (∀ c, b_state c = Free → c ∈ bs ↔ c ∈ bs' ∧ c ≠ b) →
  fls !! class_of (b_size b) = Some l →
  links bs fls → links bs' (<[class_of (b_size b) := l ++ [b_addr b]]> fls).
Proof.
  intros Hb Hf Hinj Hbs Hi [Hlen Hl]. split; [by rewrite length_insert|].
  intros j k x Hj. rewrite list_lookup_insert in Hj. case_decide as Hd.
  - destruct Hd as [<- _]. injection Hj as <-.
    rewrite elem_of_app, list_elem_of_singleton, (Hl _ _ _ Hi). split.
    + intros [(c & Hc & Ha & Hs & Hk)| ->]; [|by exists b].
      exists c. split; [|done]. by apply Hbs.
    + intros (c & Hc & Ha & Hs & Hk). destruct (decide (c = b)) as [->|Hne]; [by right|left].
      exists c. split; [|done]. by apply Hbs.
  - assert (class_of (b_size b) ≠ j).
    { intros <-. apply Hd. split; [done|]. by eapply lookup_lt_Some. }
    rewrite (Hl _ _ _ Hj). split; intros (c & Hc & Ha & Hs & Hk); exists c;
      (split; [|done]).
    + by apply Hbs in Hc as [? _].
    + apply Hbs; [done|]. split; [done|congruence].
Qed.

(** Membership of free blocks when one block changes state. *)
Lemma free_mem_change l1 b b' l2 c :
  NoDup (l1 ++ b :: l2) → b_state b' ≠ Free → b_state c = Free →
  c ∈ (l1 ++ b' :: l2) ↔ c ∈ (l1 ++ b :: l2) ∧ c ≠ b.
Proof.
  intros Hnd Hb' Hc. apply NoDup_app in Hnd as (_ & Hn1 & [Hn2 _]%NoDup_cons).
  rewrite !elem_of_app, !elem_of_cons. split.
  - intros [H|[->|H]]; [|done|]; (split; [tauto|]); intros ->; [|done].
    apply (Hn1 b H). by left.
  - tauto.
Qed.

(** Changing links only, together with the list heads. *)
Lemma irep_upd s h bs' fls' m' heads' :
  irep s h → same_on (λ q, ¬ link_byte (h_blocks h) q) (ram s) m' →
  lists_ok m' heads' fls' → geo (mem_start_brk s + 16) bs' (mem_brk s) →
  links bs' fls' → (Forall (blk_ok m') (h_blocks h) → Forall (blk_ok m') bs') →
  irep (upd m' heads' s) (Heap bs' fls' (h_epi h)).
Proof.
  intros Hr Hs Hl Hg Hk Hb. destruct (irep_links_same _ _ _ Hr Hs) as (H1 & H2 & H3).
  specialize (Hb H1). destruct Hr as [Hm]. split; try done. by destruct Hm; split.
Qed.

Lemma Forall_set_state m l1 b t l2 :
  is_live b = false → (t = Free ∨ t = Loose) →
  Forall (blk_ok m) (l1 ++ b :: l2) → Forall (blk_ok m) (l1 ++ set_state t b :: l2).
Proof.
  rewrite !Forall_app, !Forall_cons. intros Hl Ht (? & [Hh Hb] & ?).
  split_and!; [done| |done]. split.
  - cbn [set_state b_addr b_size b_palloc]. rewrite Hh, Hl. by destruct Ht; subst.
  - unfold is_live in Hl. by destruct (b_state b), Ht; subst.
Qed.

(** [remove_from_list] on a block of the heap. *)
Lemma wp_heap_remove s l1 b l2 fls epi (Q : unit → st → Prop) :
  irep s (Heap (l1 ++ b :: l2) fls epi) → b_state b = Free →
  (∀ m' heads',
     irep (upd m' heads' s)
          (Heap (l1 ++ set_state Loose b :: l2)
                (unlist (b_addr b) (class_of (b_size b)) fls) epi) →
     same_on (λ q, ¬ link_byte (l1 ++ l2) q) (ram s) m' →
     Q tt (upd m' heads' s)) →
  wp (remove_from_list (b_addr b) (calc_list_index (b_size b))) s Q.
Proof.
  intros Hr Hf HQ. assert (Hb : b ∈ (l1 ++ b :: l2)) by set_solver.
  pose proof (ir_geo _ _ Hr) as Hg. cbn [h_blocks] in Hg.
  destruct (ir_block _ _ b Hr Hb) as (_ & _ & H16 & _).
  destruct (class_of_lookup _ _ (b_size b) Hr) as [l Hl]; [lia|]. cbn [h_lists] in Hl.
  assert (Hbl : b_addr b ∈ l).
  { apply (lk_mem _ _ (ir_links _ _ Hr) _ _ _ Hl). by exists b. }
  apply list_elem_of_split in Hbl as (k1 & k2 & ->).
  pose proof (lo_nodup _ _ _ (ir_lists _ _ Hr) _ _ Hl) as Hnd.
  destruct (NoDup_mid _ _ _ Hnd) as (_ & Hk1 & Hk2 & _).
  rewrite <- class_of_index by lia.
  eapply (wp_remove_from_list s fls); [apply (ir_lists _ _ Hr)| |done|].
  { intros y Hy. by eapply ir_lists_valid. }
  intros m' heads' -> Hlo.
  assert (Hnode : ∀ x, x ∈ k1 ∨ x ∈ k2 → ∃ c, c ∈ (l1 ++ l2) ∧ b_addr c = x ∧ is_live c = false).
  { intros x Hx. destruct (in_lists_block _ _ x Hr) as (c & Hc & <- & Hcf).
    - eapply in_lists_intro; [exact Hl|]. set_solver.
    - exists c. unfold is_live. rewrite Hcf. split_and!; try done.
      cbn [h_blocks] in Hc. rewrite elem_of_app, elem_of_cons in Hc.
      rewrite elem_of_app. destruct Hc as [?|[->|?]]; [by left| |by right].
      destruct Hx; done. }
  assert (Hs : same_on (λ q, ¬ link_byte (l1 ++ l2) q) (ram s)
                 (relink (ram s) (last_or 0 k1) (hd_or 0 k2))).
  { eapply same_on_weaken; [|apply relink_same]. intros q Hq. cbn beta.
    split.
    - destruct (last_or_cases 0 k1) as [[_ ->]|Hk]; [lia|].
      destruct (Hnode (last_or 0 k1)) as (c & Hc & Ec & Hcl); [by left|].
      destruct (decide (last_or 0 k1 ≤ q < last_or 0 k1 + 4)); [|lia].
      destruct Hq. exists c. split_and!; [done..|lia|lia].
    - destruct (hd_or_cases 0 k2) as [[_ ->]|Hk]; [lia|].
      destruct (Hnode (hd_or 0 k2)) as (c & Hc & Ec & Hcl); [by right|].
      destruct (decide (hd_or 0 k2 + 4 ≤ q < hd_or 0 k2 + 8)); [|lia].
      destruct Hq. exists c. split_and!; [done..|lia|lia]. }
  apply HQ; [|done].
  unfold unlist. rewrite (alter_insert _ _ _ _ Hl), filter_mid by done.
  apply (irep_upd s _ (l1 ++ set_state Loose b :: l2) _ _ _ Hr).
  - eapply same_on_weaken; [|done]. intros q Hq (c & Hc & ?). apply Hq. exists c.
    split; [|done]. cbn [h_blocks]. set_solver.
  - done.
  - by eapply geo_resp; [| |exact Hg].
  - eapply (links_remove (l1 ++ b :: l2)); [done..| | |done|done|apply (ir_links _ _ Hr)].
    + intros c Hc E. by eapply geo_inj.
    + intros c Hc. apply free_mem_change; [by eapply geo_NoDup|done|done].
  - apply Forall_set_state; [unfold is_live; by rewrite Hf|by right].
Qed.

(** [add_to_list] on a block of the heap. *)
Lemma wp_heap_add s l1 b l2 fls epi (Q : unit → st → Prop) :
  irep s (Heap (l1 ++ b :: l2) fls epi) → b_state b = Loose →
  (∀ m' heads',
     irep (upd m' heads' s)
          (Heap (l1 ++ set_state Free b :: l2)
                (enlist (b_addr b) (class_of (b_size b)) fls) epi) →
     same_on (λ q, ¬ link_byte (l1 ++ b :: l2) q) (ram s) m' →
     Q tt (upd m' heads' s)) →
  wp (add_to_list (b_addr b) (calc_list_index (b_size b))) s Q.
Proof.
  intros Hr Hf HQ. assert (Hb : b ∈ (l1 ++ b :: l2)) by set_solver.
  pose proof (ir_geo _ _ Hr) as Hg. cbn [h_blocks] in Hg.
  destruct (ir_block _ _ b Hr Hb) as (_ & _ & H16 & _).
  destruct (class_of_lookup _ _ (b_size b) Hr) as [l Hl]; [lia|]. cbn [h_lists] in Hl.
  assert (Hnode : ∀ x, in_lists fls x → ∃ c, c ∈ (l1 ++ b :: l2) ∧ b_addr c = x ∧
                       is_live c = false ∧ apart (b_addr b) x ∧ x ≠ b_addr b).
  { intros x Hx. destruct (in_lists_block _ _ x Hr Hx) as (c & Hc & <- & Hcf).
    exists c. unfold is_live. rewrite Hcf.
    destruct (ir_block _ _ c Hr Hc) as (_ & _ & ? & _).
    destruct (geo_disjoint _ _ _ _ _ Hg Hb Hc) as [->|?]; [congruence|].
    split_and!; try done; unfold apart; lia. }
  rewrite <- class_of_index by lia.
  eapply (wp_add_to_list s fls); [apply (ir_lists _ _ Hr)| |done|by eapply ir_list_fuel| | | |].
  { intros y Hy. by eapply ir_lists_valid. }
  { by eapply ir_node_valid. }
  { intros Hx. destruct (Hnode _ Hx) as (_ & _ & _ & _ & _ & ?). done. }
  { intros y Hy. by destruct (Hnode _ Hy) as (_ & _ & _ & _ & ? & _). }
  intros m' heads' -> Hlo.
  assert (Hlive : is_live b = false) by (unfold is_live; by rewrite Hf).
  assert (Hs : same_on (λ q, ¬ link_byte (l1 ++ b :: l2) q) (ram s)
                 (appended (ram s) (b_addr b) (last_or 0 l))).
  { eapply same_on_weaken; [|apply appended_same]. intros q Hq. cbn beta. split.
    - destruct (decide (b_addr b ≤ q < b_addr b + 8)); [|lia].
      destruct Hq. by exists b.
    - destruct (last_or_cases 0 l) as [[_ ->]|Hk]; [lia|].
      destruct (Hnode (last_or 0 l)) as (c & Hc & Ec & Hcl & _); [by eapply in_lists_intro|].
      destruct (decide (last_or 0 l ≤ q < last_or 0 l + 4)); [|lia].
      destruct Hq. exists c. split_and!; [done..|lia|lia]. }
  apply HQ; [|done].
  unfold enlist. rewrite (alter_insert _ _ _ _ Hl).
  apply (irep_upd s _ (l1 ++ set_state Free b :: l2) _ _ _ Hr).
  - done.
  - done.
  - by eapply geo_resp; [| |exact Hg].
  - assert (Hg' := geo_resp _ l1 b (set_state Free b) l2 _ eq_refl eq_refl Hg).
    eapply (links_add (l1 ++ b :: l2) _ (set_state Free b)); [set_solver|done| | |done|apply (ir_links _ _ Hr)].
    + intros c Hc E. eapply geo_inj; [exact Hg'|done|set_solver|done].
    + intros c Hc. apply free_mem_change; [by eapply geo_NoDup|congruence|done].
  - apply Forall_set_state; [done|by left].
Qed.

End Heap.
