(* ===== verification/HeapRules.v ===== *)
(** * Reading and writing the tags of a represented heap

    Rules that execute the macros of [Blocks] on a state that represents a
    sequence of blocks ([irep]), the writing of a header together with its
    footer, and the bookkeeping of PREVALLOC bits along a block sequence. *)

From Stdlib Require Import ZArith Lia.
From stdpp Require Import base gmap numbers list.
From S2P Require Import Prelude Memory Memlib Sizes Blocks FreeList Heap.

(** Whether the block after a given one is allocated; the epilogue always
    is. *)
Definition next_live (l2 : list blk) : bool :=
  match l2 with
  | [] => true
  | c :: _ => is_live c
  end.

(** The value of [prev_free] behind the blocks [l]. *)
Definition pf_end (pf : bool) (l : list blk) : bool :=
  match last l with
  | None => pf
  | Some b => negb (is_live b)
  end.

(** Header and footer of a block of the given size at [bp]. *)
Definition wr_tags (m : gmap Z Z) (bp size w : Z) : gmap Z Z :=
  wrw (wrw m (bp - 4) w) (bp + size - 8) w.

(** Words written between the bounds of the heap. *)
Ltac in_heap :=
  intros ? ?; unfold wr_tags; cbn [ram set_ram]; rewrite ?rdb_wrw_out by lia; reflexivity.

Section HeapRules.
Context {L : Libc}.

(** ** Statics *)

(** Nothing but memory and list heads changed, and no byte outside the
    heap. *)
Definition only_upd (s s' : st) : Prop :=
  s' = upd (ram s') (free_lists s') s ∧
  outside (mem_start_brk s) (mem_brk s) (ram s) (ram s').

Lemma only_upd_refl s : only_upd s s.
Proof. split; [by destruct s|]. by intros q _. Qed.

Lemma only_upd_statics s s' :
  only_upd s s' → arenas s' = arenas s ∧ errno s' = errno s ∧
  mem_start_brk s' = mem_start_brk s ∧ mem_brk s' = mem_brk s ∧
  mem_max_addr s' = mem_max_addr s ∧ PAGE_SIZE s' = PAGE_SIZE s ∧
  ADJUSTED_PAGESIZE s' = ADJUSTED_PAGESIZE s ∧ heap_start s' = heap_start s ∧
  heap_end s' = heap_end s.
Proof. intros [E _]. by rewrite E. Qed.

Lemma only_upd_trans s1 s2 s3 : only_upd s1 s2 → only_upd s2 s3 → only_upd s1 s3.
Proof.
  intros H12 H23. destruct (only_upd_statics _ _ H12) as (_ & _ & E1 & E2 & _).
  destruct H12 as [E12 O12], H23 as [E23 O23]. rewrite E1, E2 in O23. split.
  - rewrite E23, E12. done.
  - by eapply outside_trans.
Qed.

Lemma only_upd_upd s m hs :
  outside (mem_start_brk s) (mem_brk s) (ram s) m → only_upd s (upd m hs s).
Proof. intros Ho. split; [by destruct s|done]. Qed.

Lemma only_upd_ram s m :
  outside (mem_start_brk s) (mem_brk s) (ram s) m → only_upd s (set_ram m s).
Proof. intros Ho. split; [by destruct s|done]. Qed.

Lemma only_upd_ram2 s m m' :
  outside (mem_start_brk s) (mem_brk s) (ram s) m → only_upd s (set_ram m (set_ram m' s)).
Proof. intros Ho. split; [by destruct s|done]. Qed.

(** The link words of blocks lie in the heap. *)
Lemma only_upd_links s h l m hs :
  irep s h → (∀ c, c ∈ l → c ∈ h_blocks h) →
  same_on (λ q, ¬ link_byte l q) (ram s) m → only_upd s (upd m hs s).
Proof.
  intros Hr Hl Hs. apply only_upd_upd. intros q Hq. apply Hs. intros (c & Hc & _ & Hcq).
  destruct (ir_block _ _ c Hr (Hl c Hc)) as (? & ? & ? & _). lia.
Qed.

(** ** PREVALLOC bits along a sequence *)
Lemma pf_end_snoc pf l b : pf_end pf (l ++ [b]) = negb (is_live b).
Proof. unfold pf_end. by rewrite last_snoc. Qed.

Lemma pf_end_cons pf b l : pf_end pf (b :: l) = pf_end (negb (is_live b)) l.
Proof. unfold pf_end. rewrite last_cons. by destruct (last l). Qed.

Lemma pflags_app pf l1 l2 e :
  pflags pf (l1 ++ l2) e ↔ pflags pf l1 true ∧ pflags (pf_end pf l1) l2 e.
Proof.
  revert pf. induction l1 as [|b l1 IH]; intros pf; cbn [app pflags].
  - unfold pf_end. cbn. naive_solver.
  - rewrite IH, pf_end_cons. tauto.
Qed.

Lemma pflags_weaken (pf pf' : bool) l e :
  (pf = true → pf' = true) → pflags pf l e → pflags pf' l e.
Proof. destruct l; cbn [pflags]; naive_solver. Qed.

(** ** Reading tags, given the words in memory *)
Lemma wp_NEXTBLOCK_raw s bp size x p (Q : Z → st → Prop) :
  4 ≤ bp → 0 ≤ size → bp + size < W32 → (4 | size) → valid s (bp - 4) 4 = true →
  rdw (ram s) (bp - 4) = tag size x p → Q (bp + size) s → wp (GET_NEXTBLOCK bp) s Q.
Proof.
  intros ????? Hw HQ. unfold GET_NEXTBLOCK, WSIZE.
  rewrite sub32_small by (unfold W32 in *; lia).
  wp_bind. eapply wp_GET_SIZE; [done..|]. wp_pure. by rewrite add32_small by lia.
Qed.

Lemma wp_BLOCKFTR_raw s bp size x p (Q : Z → st → Prop) :
  4 ≤ bp → 8 ≤ size → bp + size < W32 → (4 | size) → valid s (bp - 4) 4 = true →
  rdw (ram s) (bp - 4) = tag size x p → Q (bp + size - 8) s → wp (GET_BLOCKFTR bp) s Q.
Proof.
  intros ????? Hw HQ. unfold GET_BLOCKFTR, GET_BLOCKHDR, WSIZE, DSIZE.
  rewrite sub32_small by (unfold W32 in *; lia).
  wp_bind. eapply wp_GET_SIZE; [done..|]. wp_pure.
  rewrite add32_small by lia. by rewrite sub32_small by lia.
Qed.

Lemma wp_PREVBLOCK_raw s bp size x p (Q : Z → st → Prop) :
  8 ≤ bp < W32 → 0 ≤ size ≤ bp → (4 | size) → valid s (bp - 8) 4 = true →
  rdw (ram s) (bp - 8) = tag size x p → Q (bp - size) s → wp (GET_PREVBLOCK bp) s Q.
Proof.
  intros ???? Hw HQ. unfold GET_PREVBLOCK, DSIZE.
  rewrite sub32_small by (unfold W32 in *; lia).
  wp_bind. eapply wp_GET_SIZE; [done..|]. wp_pure.
  by rewrite sub32_small by (unfold W32 in *; lia).
Qed.

Lemma wp_PREVALLOC_raw s bp size x p (Q : Z → st → Prop) :
  4 ≤ bp < W32 → (4 | size) → valid s (bp - 4) 4 = true →
  rdw (ram s) (bp - 4) = tag size x p → Q (2 * b2z p) s → wp (GET_PREVALLOC bp) s Q.
Proof.
  intros ??? Hw HQ. unfold GET_PREVALLOC, GET_BLOCKHDR, WSIZE.
  rewrite sub32_small by (unfold W32 in *; lia).
  wp_bind. apply wp_load32; [done|]. wp_pure. by rewrite Hw, tag_prev.
Qed.

(** ** Reading tags of a represented block *)
Section Read.
Variables (s : st) (h : heap) (b : blk).
Hypothesis Hr : irep s h.
Hypothesis Hb : b ∈ h_blocks h.

Lemma hdr_addr :
  GET_BLOCKHDR (b_addr b) = b_addr b - 4 ∧ sub32 (b_addr b) WSIZE = b_addr b - 4 ∧
  sub32 (b_addr b) DSIZE = b_addr b - 8 ∧
  add32 (b_addr b) (b_size b) = b_addr b + b_size b ∧
  sub32 (b_addr b + b_size b) DSIZE = b_addr b + b_size b - 8 ∧
  GET_BLOCKHDR (b_addr b + b_size b) = b_addr b + b_size b - 4.
Proof.
  destruct (ir_block _ _ _ Hr Hb) as (? & ? & ? & _). destruct (ir_bounds _ _ Hr) as (? & ? & ? & _).
  unfold GET_BLOCKHDR, WSIZE, DSIZE.
  rewrite !sub32_small, add32_small by (unfold W32 in *; lia). done.
Qed.

Lemma hdr_valid : valid s (b_addr b - 4) 4 = true.
Proof.
  destruct (ir_block _ _ _ Hr Hb) as (? & ? & ? & _). eapply ir_valid; [done|lia..].
Qed.

Lemma hdr_word : rdw (ram s) (b_addr b - 4) = tag (b_size b) (is_live b) (b_palloc b).
Proof. by destruct (ir_block _ _ _ Hr Hb) as (_ & _ & _ & _ & _ & [? _]). Qed.

Lemma blk_div4 : (4 | b_size b).
Proof. destruct (ir_block _ _ _ Hr Hb) as (_ & _ & _ & ? & _). auto. Qed.

Lemma wp_THISSIZE (Q : Z → st → Prop) : Q (b_size b) s → wp (GET_THISSIZE (b_addr b)) s Q.
Proof.
  intros HQ. unfold GET_THISSIZE. destruct hdr_addr as (-> & _).
  eapply wp_GET_SIZE; [apply hdr_valid|apply hdr_word|apply blk_div4|done].
Qed.

Lemma wp_THISALLOC (Q : Z → st → Prop) : Q (b2z (is_live b)) s → wp (GET_THISALLOC (b_addr b)) s Q.
Proof.
  intros HQ. unfold GET_THISALLOC. destruct hdr_addr as (-> & _).
  eapply wp_GET_ALLOC; [apply hdr_valid|apply hdr_word|apply blk_div4|done].
Qed.

Lemma wp_PREVALLOC (Q : Z → st → Prop) :
  Q (2 * b2z (b_palloc b)) s → wp (GET_PREVALLOC (b_addr b)) s Q.
Proof.
  intros HQ. unfold GET_PREVALLOC. destruct hdr_addr as (-> & _).
  wp_bind. apply wp_load32; [apply hdr_valid|]. wp_pure.
  rewrite hdr_word, tag_prev; [done|apply blk_div4].
Qed.

Lemma wp_NEXTBLOCK (Q : Z → st → Prop) :
  Q (b_addr b + b_size b) s → wp (GET_NEXTBLOCK (b_addr b)) s Q.
Proof.
  intros HQ. destruct (ir_block _ _ _ Hr Hb) as (? & ? & ? & _).
  destruct (ir_bounds _ _ Hr) as (? & ? & ? & _).
  eapply (wp_NEXTBLOCK_raw _ _ (b_size b)); [lia..|apply blk_div4|apply hdr_valid|apply hdr_word|done].
Qed.

Lemma wp_BLOCKFTR (Q : Z → st → Prop) :
  Q (b_addr b + b_size b - 8) s → wp (GET_BLOCKFTR (b_addr b)) s Q.
Proof.
  intros HQ. destruct (ir_block _ _ _ Hr Hb) as (? & ? & ? & _).
  destruct (ir_bounds _ _ Hr) as (? & ? & ? & _).
  eapply (wp_BLOCKFTR_raw _ _ (b_size b)); [lia..|apply blk_div4|apply hdr_valid|apply hdr_word|done].
Qed.

(** The word before a header is always part of the heap, so computing the
    address of a previous block is defined even if it makes no sense. *)
Lemma wp_PREVBLOCK_any (Q : Z → st → Prop) :
  (∀ p, Q p s) → wp (GET_PREVBLOCK (b_addr b)) s Q.
Proof.
  intros HQ. unfold GET_PREVBLOCK, GET_SIZE, GETW. destruct hdr_addr as (_ & _ & -> & _).
  destruct (ir_block _ _ _ Hr Hb) as (? & ? & ? & _).
  wp_pure. apply wp_load32; [eapply ir_valid; [done|lia..]|]. wp_pure. apply HQ.
Qed.
End Read.

(** The tag behind a block: the header of the next one, or the epilogue. *)
Lemma next_hdr s l1 b l2 fls epi :
  irep s (Heap (l1 ++ b :: l2) fls epi) →
  ∃ size p, rdw (ram s) (b_addr b + b_size b - 4) = tag size (next_live l2) p ∧ (4 | size) ∧
            valid s (b_addr b + b_size b - 4) 4 = true.
Proof.
  intros Hr. pose proof (ir_geo _ _ Hr) as Hg. cbn [h_blocks] in Hg.
  destruct (geo_mid _ _ _ _ _ Hg) as [_ Hg2].
  assert (Hb : b ∈ (l1 ++ b :: l2)) by set_solver.
  destruct (ir_block _ _ b Hr Hb) as (? & ? & ? & ? & _).
  assert (valid s (b_addr b + b_size b - 4) 4 = true) by (eapply ir_valid; [done|lia..]).
  destruct l2 as [|c l2]; cbn [geo] in Hg2.
  - exists EPILOGUE, epi. split_and!; [|by exists 983547956|done]. rewrite Hg2. apply (ir_epi _ _ Hr).
  - destruct Hg2 as (Ec & _). exists (b_size c), (b_palloc c).
    assert (Hc : c ∈ (l1 ++ b :: c :: l2)) by set_solver.
    split_and!; [|by apply (blk_div4 s _ c Hr)|done]. rewrite <- Ec. by apply (hdr_word s _ c Hr).
Qed.

Lemma wp_NEXTALLOC s l1 b l2 fls epi (Q : Z → st → Prop) :
  irep s (Heap (l1 ++ b :: l2) fls epi) →
  Q (b2z (next_live l2)) s → wp (GET_NEXTALLOC (b_addr b)) s Q.
Proof.
  intros Hr HQ. assert (Hb : b ∈ (l1 ++ b :: l2)) by set_solver.
  destruct (next_hdr _ _ _ _ _ _ Hr) as (size & p & Hw & H4 & Hv).
  unfold GET_NEXTALLOC. wp_bind. apply (wp_NEXTBLOCK s _ b Hr Hb).
  destruct (hdr_addr s _ b Hr Hb) as (_ & _ & _ & _ & _ & ->).
  by eapply wp_GET_ALLOC.
Qed.

(** The previous block of a block whose PREVALLOC bit can be trusted. *)
Lemma wp_PREVBLOCK s l1 a b l2 fls epi (Q : Z → st → Prop) :
  irep s (Heap (l1 ++ a :: b :: l2) fls epi) → is_live a = false →
  Q (b_addr a) s → wp (GET_PREVBLOCK (b_addr b)) s Q.
Proof.
  intros Hr Hl HQ.
  assert (Ha : a ∈ (l1 ++ a :: b :: l2)) by set_solver.
  assert (Hb : b ∈ (l1 ++ a :: b :: l2)) by set_solver.
  pose proof (ir_geo _ _ Hr) as Hg. cbn [h_blocks] in Hg.
  destruct (geo_mid _ _ _ _ _ Hg) as [_ [Eb _]].
  destruct (ir_block _ _ a Hr Ha) as (? & ? & ? & ? & _ & [_ Hft]).
  destruct (ir_bounds _ _ Hr) as (? & ? & ? & _).
  assert (∃ x y, rdw (ram s) (b_addr a + b_size a - 8) = tag (b_size a) x y) as (x & y & Hw).
  { unfold is_live in Hl. by destruct (b_state a). }
  destruct (ir_block _ _ b Hr Hb) as (? & ? & ? & _).
  eapply (wp_PREVBLOCK_raw _ _ (b_size a)); [lia|lia|auto|eapply ir_valid; [done|lia..]|rewrite Eb; exact Hw|].
  replace (b_addr b - b_size a) with (b_addr a) by lia. done.
Qed.

(** ** Writing a header and its footer *)
Lemma wr_tags_outside m bp size w :
  16 ≤ size → outside (bp - 4) (bp + size - 4) m (wr_tags m bp size w).
Proof. intros H q Hq. unfold wr_tags. rewrite !rdb_wrw_out by lia. done. Qed.

Lemma wr_tags_read m bp size w :
  16 ≤ size → 0 ≤ w < W32 →
  rdw (wr_tags m bp size w) (bp - 4) = w ∧ rdw (wr_tags m bp size w) (bp + size - 8) = w.
Proof.
  intros H Hw. unfold wr_tags. split; [|by apply rdw_wrw_eq].
  rewrite rdw_wrw_ne by lia. by apply rdw_wrw_eq.
Qed.

(** The payload between the tags is not touched. *)
Lemma wr_tags_inside m bp size w :
  same_on (λ q, bp ≤ q < bp + size - 8) m (wr_tags m bp size w).
Proof. intros q Hq. unfold wr_tags. rewrite !rdb_wrw_out by lia. done. Qed.

(** A block that has just been given its tags. *)
Lemma blk_ok_tags m a size t p :
  16 ≤ size < W32 → (8 | size) → t ≠ Free →
  let live := match t with Live _ => true | _ => false end in
  let m' := wr_tags m a size (tag size live p) in
  match t with Live data => rdbs m' a (Z.to_nat (size - 4)) = data | _ => True end →
  blk_ok m' (Blk a size t p).
Proof.
  intros Hs H8 Ht live m' Hd.
  destruct (wr_tags_read m a size (tag size live p)) as [Hh Hf]; [lia|apply tag_range; [auto|lia]|].
  split; [exact Hh|]. destruct t; [done| |exact Hd]. exists false, p. exact Hf.
Qed.

Lemma wp_write_tags {A} s bp size x p (k : M st A) (Q : A → st → Prop) :
  4 ≤ bp → bp + size ≤ W32 → 16 ≤ size → (4 | size) →
  valid s (bp - 4) 4 = true → valid s (bp + size - 8) 4 = true →
  wp k (set_ram (wr_tags (ram s) bp size (tag size x p)) s) Q →
  wp (PUTW (GET_BLOCKHDR bp) (tag size x p);;
      (f ← GET_BLOCKFTR bp; (PUTW f (tag size x p);; k))) s Q.
Proof.
  intros Hbp HW H16 H4 Hv1 Hv2 HQ.
  assert (Eh : GET_BLOCKHDR bp = bp - 4).
  { unfold GET_BLOCKHDR, WSIZE. apply sub32_small. unfold W32 in *. lia. }
  unfold GET_BLOCKFTR. rewrite Eh.
  wp_bind. apply wp_store32; [done|]. wp_bind. wp_bind.
  eapply (wp_GET_SIZE _ _ size x p); [done| |done|].
  { apply rdw_wrw_eq, tag_range; [done|unfold W32 in *; lia]. }
  wp_pure.
  assert (E : sub32 (add32 bp size) DSIZE = bp + size - 8).
  { unfold DSIZE, add32, sub32, u32. rewrite Zminus_mod_idemp_l.
    apply Z.mod_small. lia. }
  rewrite E. apply wp_store32; [done|]. exact HQ.
Qed.

Lemma wp_write_tags_end s bp size x p (Q : unit → st → Prop) :
  4 ≤ bp → bp + size ≤ W32 → 16 ≤ size → (4 | size) →
  valid s (bp - 4) 4 = true → valid s (bp + size - 8) 4 = true →
  Q tt (set_ram (wr_tags (ram s) bp size (tag size x p)) s) →
  wp (PUTW (GET_BLOCKHDR bp) (tag size x p);;
      (f ← GET_BLOCKFTR bp; PUTW f (tag size x p))) s Q.
Proof.
  intros Hbp HW H16 H4 Hv1 Hv2 HQ.
  pose proof (wp_write_tags s bp size x p (mret tt) Q Hbp HW H16 H4 Hv1 Hv2 HQ) as H.
  unfold wp, mbind, M_bind in *.
  destruct (PUTW (GET_BLOCKHDR bp) (tag size x p) s) as [[[] s1]|]; [|done].
  destruct (GET_BLOCKFTR bp s1) as [[f s2]|]; [|done].
  by destruct (PUTW f (tag size x p) s2) as [[[] s3]|].
Qed.

(** The header word as the code packs it. *)
Lemma PACK_prev size p : PACK size (2 * b2z p) = tag size false p.
Proof. unfold tag. f_equal. by destruct p. Qed.

Lemma PACK_this_prev size p : PACK size (Z.lor THISALLOC (2 * b2z p)) = tag size true p.
Proof. unfold tag. f_equal. by destruct p. Qed.

End HeapRules.
