(* ===== verification/Coalesce.v ===== *)
(** * Freeing and coalescing (src/mm.c, [free_block] and [coalesce])

    [coalesce] is shown to implement the step relation [coalesced]: it joins
    a loose block with the unallocated block after it, and with the one
    before it when its PREVALLOC bit is clear, takes the joined blocks out
    of their lists and puts the result into the list of its class. *)

From Stdlib Require Import ZArith Lia.
From stdpp Require Import base gmap numbers list.
From S2P Require Import Prelude Memory Memlib Sizes Blocks FreeList Heap HeapRules.

(** ** The code *)
Section Coalesce.
Context {L : Libc}.

Definition free_block (bp adjusted_size : Z) : M st unit :=
  is_prev_alloc ← GET_PREVALLOC bp;
  size ← GET_THISSIZE bp;
  PUTW (GET_BLOCKHDR bp) (PACK size is_prev_alloc);;
  ftr ← GET_BLOCKFTR bp;
  PUTW ftr (PACK size is_prev_alloc).

(** The four cases of [coalesce]; the result is the pair of the variables
    [bp] and [size] when they join. *)
Definition coalesce_cases
    (prev_alloc next_alloc size next_block prev_block bp : Z) : M st (Z * Z) :=
  if negb (prev_alloc =? 0) && (next_alloc =? 0) then
    n ← GET_THISSIZE next_block;
    remove_from_list next_block (calc_list_index n);;
    n ← GET_SIZE (GET_BLOCKHDR next_block);
    let size := add32 size n in
    PUTW (GET_BLOCKHDR bp) (PACK size prev_alloc);;
    ftr ← GET_BLOCKFTR bp;
    PUTW ftr (PACK size prev_alloc);;
    mret (bp, size)
  else if (prev_alloc =? 0) && negb (next_alloc =? 0) then
    n ← GET_THISSIZE prev_block;
    remove_from_list prev_block (calc_list_index n);;
    n ← GET_THISSIZE prev_block;
    let size := add32 size n in
    prev_alloc ← GET_PREVALLOC prev_block;
    ftr ← GET_BLOCKFTR bp;
    PUTW ftr (PACK size prev_alloc);;
    PUTW (GET_BLOCKHDR prev_block) (PACK size prev_alloc);;
    mret (prev_block, size)
  else if (prev_alloc =? 0) && (next_alloc =? 0) then
    n ← GET_THISSIZE next_block;
    remove_from_list next_block (calc_list_index n);;
    n ← GET_THISSIZE prev_block;
    remove_from_list prev_block (calc_list_index n);;
    n1 ← GET_THISSIZE prev_block;
    n2 ← GET_THISSIZE next_block;
    let size := add32 size (add32 n1 n2) in
    prev_alloc ← GET_PREVALLOC prev_block;
    prev ← GET_PREVBLOCK bp;
    PUTW (GET_BLOCKHDR prev) (PACK size prev_alloc);;
    next ← GET_NEXTBLOCK bp;
    ftr ← GET_BLOCKFTR next;
    PUTW ftr (PACK size prev_alloc);;
    prev ← GET_PREVBLOCK bp;
    mret (prev, size)
  else mret (bp, size).

Definition coalesce (bp : Z) : M st Z :=
  prev_alloc ← GET_PREVALLOC bp;
  next_alloc ← GET_NEXTALLOC bp;
  size ← GET_THISSIZE bp;
  next_block ← GET_NEXTBLOCK bp;
  prev_block ← GET_PREVBLOCK bp;
  '(bp, size) ← coalesce_cases prev_alloc next_alloc size next_block prev_block bp;
  add_to_list bp (calc_list_index size);;
  mret bp.

(** ** What it does to the blocks *)

Definition merged (a b : blk) : blk :=
  Blk (b_addr a) (b_size a + b_size b) Loose (b_palloc a).
Definition unlist_blk (b : blk) : list (list Z) → list (list Z) :=
  unlist (b_addr b) (class_of (b_size b)).
Definition enlist_blk (b : blk) : list (list Z) → list (list Z) :=
  enlist (b_addr b) (class_of (b_size b)).

(** [coalesced l1 b l2 fls l1' b' l2' fls']: from the blocks [l1 ++ b :: l2]
    and the lists [fls] to [l1' ++ b' :: l2'] and [fls'], with [b'] the
    loose block that results. *)
Inductive coalesced :
    list blk → blk → list blk → list (list Z) →
    list blk → blk → list blk → list (list Z) → Prop :=
  | co_none l1 b l2 fls :
      b_palloc b = true → next_live l2 = true →
      coalesced l1 b l2 fls l1 b l2 fls
  | co_next l1 b c l2 fls :
      b_palloc b = true → is_live c = false →
      coalesced l1 b (c :: l2) fls l1 (merged b c) l2 (unlist_blk c fls)
  | co_prev l1 a b l2 fls :
      b_palloc b = false → is_live a = false → next_live l2 = true →
      coalesced (l1 ++ [a]) b l2 fls l1 (merged a b) l2 (unlist_blk a fls)
  | co_both l1 a b c l2 fls :
      b_palloc b = false → is_live a = false → is_live c = false →
      coalesced (l1 ++ [a]) b (c :: l2) fls
                l1 (merged (merged a b) c) l2 (unlist_blk a (unlist_blk c fls)).

(** ** Joining blocks *)
Lemma geo_div a bs e : geo a bs e → (8 | e - a).
Proof.
  revert a. induction bs as [|b bs IH]; intros a; cbn [geo].
  - intros ->. rewrite Z.sub_diag. by exists 0.
  - intros (_ & _ & H8 & H%IH). replace (e - a) with (e - (a + b_size b) + b_size b) by lia.
    by apply Z.divide_add_r.
Qed.

(** A stretch of blocks outside the lists becomes one block. *)
Lemma irep_retag s l1 mid l2 fls epi lo hi m' t p :
  irep s (Heap (l1 ++ mid ++ l2) fls epi) →
  geo (mem_start_brk s + 16) l1 lo → geo lo mid hi → 16 ≤ hi - lo →
  Forall (λ b, b_state b ≠ Free) mid → t ≠ Free →
  outside (lo - 4) (hi - 4) (ram s) m' →
  blk_ok m' (Blk lo (hi - lo) t p) →
  irep (set_ram m' s) (Heap (l1 ++ Blk lo (hi - lo) t p :: l2) fls epi).
Proof.
  intros Hr Hg1 Hgm H16 Hnf Ht Hout Hok.
  apply (irep_region s l1 mid [Blk lo (hi - lo) t p] l2 fls epi lo hi m' Hr Hg1 Hgm);
    try done.
  - cbn [geo b_addr b_size]. split_and!; [done|done|by eapply geo_div|lia].
  - by constructor.
  - by constructor.
Qed.

(** ** Execution of [free_block] *)
Lemma wp_free_block s l1 b l2 fls epi n (Q : unit → st → Prop) :
  irep s (Heap (l1 ++ b :: l2) fls epi) → b_state b ≠ Free →
  (∀ s', only_upd s s' → irep s' (Heap (l1 ++ set_state Loose b :: l2) fls epi) → Q tt s') →
  wp (free_block (b_addr b) n) s Q.
Proof.
  intros Hr Hf HQ. assert (Hb : b ∈ (l1 ++ b :: l2)) by set_solver.
  pose proof (ir_geo _ _ Hr) as Hg. cbn [h_blocks] in Hg.
  destruct (geo_mid _ _ _ _ _ Hg) as [Hg1 _].
  destruct (ir_block _ _ b Hr Hb) as (? & ? & ? & ? & _).
  destruct (ir_bounds _ _ Hr) as (? & ? & ? & _).
  unfold free_block. wp_bind. apply (wp_PREVALLOC s _ b Hr Hb).
  wp_bind. apply (wp_THISSIZE s _ b Hr Hb). rewrite PACK_prev.
  apply wp_write_tags_end; [lia|lia|lia|auto|by apply (hdr_valid s _ b Hr)|eapply ir_valid; [done|lia..]|].
  apply HQ; [apply only_upd_ram; in_heap|].
  replace (set_state Loose b) with
    (Blk (b_addr b) (b_addr b + b_size b - b_addr b) Loose (b_palloc b))
    by (unfold set_state; f_equal; lia).
  apply (irep_retag s l1 [b] l2 fls epi _ (b_addr b + b_size b)); try done.
  - lia.
  - by constructor.
  - by apply wr_tags_outside.
  - rewrite Z.add_simpl_l. apply (blk_ok_tags _ _ _ Loose); [unfold W32 in *; lia|done..].
Qed.

(** ** Execution of the cases of [coalesce] *)
Lemma snoc_cons {A} (l1 l2 : list A) x : (l1 ++ [x]) ++ l2 = l1 ++ x :: l2.
Proof. by rewrite <- app_assoc. Qed.

Lemma merged_at a b : b_addr b = b_addr a + b_size a →
  merged a b = Blk (b_addr a) (b_addr b + b_size b - b_addr a) Loose (b_palloc a).
Proof. intros ->. unfold merged. f_equal. lia. Qed.

(** Two adjacent loose blocks become one. *)
Lemma irep_merge s l1 a b l2 fls epi m' :
  irep s (Heap (l1 ++ a :: b :: l2) fls epi) → b_state a = Loose → b_state b = Loose →
  outside (b_addr a - 4) (b_addr b + b_size b - 4) (ram s) m' →
  rdw m' (b_addr a - 4) = tag (b_size a + b_size b) false (b_palloc a) →
  rdw m' (b_addr b + b_size b - 8) = tag (b_size a + b_size b) false (b_palloc a) →
  irep (set_ram m' s) (Heap (l1 ++ merged a b :: l2) fls epi).
Proof.
  intros Hr Ha Hb Hout Hh Hft.
  pose proof (ir_geo _ _ Hr) as Hg. cbn [h_blocks] in Hg.
  destruct (geo_mid _ _ _ _ _ Hg) as [Hg1 (Eb & _)].
  destruct (ir_block _ _ a Hr ltac:(set_solver)) as (_ & _ & ? & ? & _).
  destruct (ir_block _ _ b Hr ltac:(set_solver)) as (_ & _ & ? & ? & _).
  rewrite merged_at by done.
  apply (irep_retag s l1 [a; b] l2 fls epi (b_addr a) (b_addr b + b_size b)); try done.
  - cbn [geo]. rewrite Eb. by split_and!.
  - lia.
  - repeat constructor; congruence.
  - split; cbn [b_addr b_size b_state b_palloc is_live].
    + replace (b_addr b + b_size b - b_addr a) with (b_size a + b_size b) by lia. exact Hh.
    + exists false, (b_palloc a).
      replace (b_addr b + b_size b - b_addr a) with (b_size a + b_size b) by lia.
      replace (b_addr a + (b_size a + b_size b) - 8) with (b_addr b + b_size b - 8) by lia.
      exact Hft.
Qed.

Lemma wp_case_next s l1 b c l2 fls epi pv (Q : Z * Z → st → Prop) :
  irep s (Heap (l1 ++ b :: c :: l2) fls epi) → b_state b = Loose → b_state c = Free →
  b_palloc b = true →
  (∀ s', only_upd s s' →
     irep s' (Heap (l1 ++ merged b c :: l2) (unlist_blk c fls) epi) →
     Q (b_addr b, b_size b + b_size c) s') →
  wp (coalesce_cases 2 0 (b_size b) (b_addr b + b_size b) pv (b_addr b)) s Q.
Proof.
  intros Hr Hb Hc Hp HQ.
  pose proof (ir_geo _ _ Hr) as Hg. cbn [h_blocks] in Hg.
  destruct (geo_mid _ _ _ _ _ Hg) as [_ (Ec & _)]. rewrite <- Ec.
  unfold coalesce_cases. cbn [Z.eqb negb andb].
  wp_bind. apply (wp_THISSIZE s _ c Hr); [set_solver|].
  wp_bind. apply (wp_heap_remove s (l1 ++ [b]) c l2 fls epi); [by rewrite snoc_cons|done|].
  intros m' heads' Hr' Hlb. rewrite snoc_cons in Hr'. set (s1 := upd m' heads' s) in *.
  set (c' := set_state Loose c) in *.
  destruct (ir_block _ _ b Hr' ltac:(set_solver)) as (? & ? & ? & ? & _).
  destruct (ir_block _ _ c' Hr' ltac:(set_solver)) as (? & ? & ? & ? & _).
  change (b_addr c') with (b_addr c) in *. change (b_size c') with (b_size c) in *.
  destruct (ir_bounds _ _ Hr') as (? & ? & ? & _).
  wp_bind. apply (wp_THISSIZE s1 _ c' Hr'); [set_solver|].
  change (b_size c') with (b_size c). rewrite add32_small by lia.
  replace (PACK (b_size b + b_size c) 2) with (tag (b_size b + b_size c) false (b_palloc b))
    by (rewrite Hp; apply (PACK_prev _ true)).
  apply wp_write_tags; [lia|lia|lia|apply Z.divide_add_r; auto
    |eapply ir_valid; [done|lia..]|eapply ir_valid; [done|lia..]|].
  apply wp_ret, HQ.
  { apply (only_upd_trans _ s1); [eapply only_upd_links; [exact Hr| |exact Hlb]; set_solver|].
    apply only_upd_ram. in_heap. }
  destruct (wr_tags_read (ram s1) (b_addr b) (b_size b + b_size c)
    (tag (b_size b + b_size c) false (b_palloc b))) as [Hh Hft];
    [lia|apply tag_range; [apply Z.divide_add_r; auto|lia]|].
  change (merged b c) with (merged b c').
  eapply (irep_merge s1 l1 b c' l2); try done.
  - change (b_addr c') with (b_addr c). change (b_size c') with (b_size c).
    replace (b_addr c + b_size c - 4) with (b_addr b + (b_size b + b_size c) - 4) by lia.
    apply wr_tags_outside. lia.
  - change (b_addr c') with (b_addr c). change (b_size c') with (b_size c).
    replace (b_addr c + b_size c - 8) with (b_addr b + (b_size b + b_size c) - 8) by lia.
    exact Hft.
Qed.

Lemma wp_case_prev s l1 a b l2 fls epi nb (Q : Z * Z → st → Prop) :
  irep s (Heap (l1 ++ a :: b :: l2) fls epi) → b_state b = Loose → b_state a = Free →
  (∀ s', only_upd s s' →
     irep s' (Heap (l1 ++ merged a b :: l2) (unlist_blk a fls) epi) →
     Q (b_addr a, b_size a + b_size b) s') →
  wp (coalesce_cases 0 1 (b_size b) nb (b_addr a) (b_addr b)) s Q.
Proof.
  intros Hr Hb Ha HQ.
  pose proof (ir_geo _ _ Hr) as Hg. cbn [h_blocks] in Hg.
  destruct (geo_mid _ _ _ _ _ Hg) as [_ (Eb & _)].
  unfold coalesce_cases. cbn [Z.eqb negb andb].
  wp_bind. apply (wp_THISSIZE s _ a Hr); [set_solver|].
  wp_bind. apply (wp_heap_remove s l1 a (b :: l2) fls epi); [done..|].
  intros m' heads' Hr' Hlb. set (s1 := upd m' heads' s) in *.
  set (a' := set_state Loose a) in *.
  destruct (ir_block _ _ a' Hr' ltac:(set_solver)) as (? & ? & ? & ? & _).
  destruct (ir_block _ _ b Hr' ltac:(set_solver)) as (? & ? & ? & ? & _).
  change (b_addr a') with (b_addr a) in *. change (b_size a') with (b_size a) in *.
  destruct (ir_bounds _ _ Hr') as (? & ? & ? & _).
  wp_bind. apply (wp_THISSIZE s1 _ a' Hr'); [set_solver|].
  wp_bind. apply (wp_PREVALLOC s1 _ a' Hr'); [set_solver|].
  change (b_size a') with (b_size a). change (b_palloc a') with (b_palloc a).
  rewrite PACK_prev. rewrite add32_small by lia. rewrite (Z.add_comm (b_size b)).
  set (w := tag (b_size a + b_size b) false (b_palloc a)).
  assert (Hw : 0 ≤ w < W32) by (apply tag_range; [apply Z.divide_add_r; auto|lia]).
  wp_bind. apply (wp_BLOCKFTR s1 _ b Hr'); [set_solver|].
  wp_bind. apply wp_store32; [eapply ir_valid; [done|lia..]|].
  wp_bind. destruct (hdr_addr s1 _ a' Hr' ltac:(set_solver)) as (Eh & _).
  change (b_addr a') with (b_addr a) in Eh. rewrite Eh.
  apply wp_store32; [by apply (hdr_valid s1 _ a' Hr'); set_solver|].
  apply wp_ret, HQ.
  { apply (only_upd_trans _ s1); [eapply only_upd_links; [exact Hr| |exact Hlb]; set_solver|].
    apply (only_upd_ram2 s1). in_heap. }
  change (merged a b) with (merged a' b).
  eapply (irep_merge s1 l1 a' b l2); try done; change (b_addr a') with (b_addr a);
    change (b_size a') with (b_size a).
  - intros q Hq. cbn [ram set_ram]. rewrite !rdb_wrw_out by lia. done.
  - by apply rdw_wrw_eq.
  - cbn [ram set_ram]. rewrite rdw_wrw_ne by lia. by apply rdw_wrw_eq.
Qed.

(** Three adjacent loose blocks become one. *)
Lemma irep_merge3 s l1 a b c l2 fls epi m' :
  irep s (Heap (l1 ++ a :: b :: c :: l2) fls epi) →
  b_state a = Loose → b_state b = Loose → b_state c = Loose →
  outside (b_addr a - 4) (b_addr c + b_size c - 4) (ram s) m' →
  rdw m' (b_addr a - 4) = tag (b_size a + b_size b + b_size c) false (b_palloc a) →
  rdw m' (b_addr c + b_size c - 8) = tag (b_size a + b_size b + b_size c) false (b_palloc a) →
  irep (set_ram m' s) (Heap (l1 ++ merged (merged a b) c :: l2) fls epi).
Proof.
  intros Hr Ha Hb Hc Hout Hh Hft.
  pose proof (ir_geo _ _ Hr) as Hg. cbn [h_blocks] in Hg.
  destruct (geo_mid _ _ _ _ _ Hg) as [Hg1 (Eb & _ & _ & Ec & _)].
  destruct (ir_block _ _ a Hr ltac:(set_solver)) as (_ & _ & ? & ? & _).
  destruct (ir_block _ _ b Hr ltac:(set_solver)) as (_ & _ & ? & ? & _).
  destruct (ir_block _ _ c Hr ltac:(set_solver)) as (_ & _ & ? & ? & _).
  assert (E : b_addr c + b_size c - b_addr a = b_size a + b_size b + b_size c) by lia.
  replace (merged (merged a b) c)
    with (Blk (b_addr a) (b_addr c + b_size c - b_addr a) Loose (b_palloc a))
    by (unfold merged; cbn; by rewrite E).
  apply (irep_retag s l1 [a; b; c] l2 fls epi (b_addr a) (b_addr c + b_size c)); try done.
  - cbn [geo]. rewrite Ec, Eb. done.
  - lia.
  - repeat constructor; congruence.
  - rewrite E. split; cbn [b_addr b_size b_state b_palloc is_live]; [exact Hh|].
    exists false, (b_palloc a). rewrite <- Hft. f_equal. lia.
Qed.

Lemma wp_case_both s l1 a b c l2 fls epi (Q : Z * Z → st → Prop) :
  irep s (Heap (l1 ++ a :: b :: c :: l2) fls epi) →
  b_state b = Loose → b_state a = Free → b_state c = Free →
  (∀ s', only_upd s s' →
     irep s' (Heap (l1 ++ merged (merged a b) c :: l2) (unlist_blk a (unlist_blk c fls)) epi) →
     Q (b_addr a, b_size a + b_size b + b_size c) s') →
  wp (coalesce_cases 0 0 (b_size b) (b_addr b + b_size b) (b_addr a) (b_addr b)) s Q.
Proof.
  intros Hr Hb Ha Hc HQ.
  pose proof (ir_geo _ _ Hr) as Hg. cbn [h_blocks] in Hg.
  destruct (geo_mid _ _ _ _ _ Hg) as [_ (Eb & _ & _ & Ec & _)].
  rewrite <- Eb in Ec. rewrite <- Ec.
  unfold coalesce_cases. cbn [Z.eqb negb andb].
  wp_bind. apply (wp_THISSIZE s _ c Hr); [set_solver|].
  wp_bind. apply (wp_heap_remove s (l1 ++ [a; b]) c l2 fls epi); [by rewrite <- app_assoc|done|].
  intros m1 heads1 Hr1 Hlb1. rewrite <- app_assoc in Hr1. cbn [app] in Hr1.
  set (s1 := upd m1 heads1 s) in *. set (c' := set_state Loose c) in *.
  wp_bind. apply (wp_THISSIZE s1 _ a Hr1); [set_solver|].
  wp_bind. apply (wp_heap_remove s1 l1 a (b :: c' :: l2) _ epi _ Hr1 Ha).
  intros m2 heads2 Hr2 Hlb2. set (s2 := upd m2 heads2 s1) in *. set (a' := set_state Loose a) in *.
  destruct (ir_block _ _ a' Hr2 ltac:(set_solver)) as (? & ? & ? & ? & _).
  destruct (ir_block _ _ b Hr2 ltac:(set_solver)) as (? & ? & ? & ? & _).
  destruct (ir_block _ _ c' Hr2 ltac:(set_solver)) as (? & ? & ? & ? & _).
  destruct (ir_bounds _ _ Hr2) as (? & ? & ? & _).
  wp_bind. apply (wp_THISSIZE s2 _ a' Hr2); [set_solver|].
  wp_bind. apply (wp_THISSIZE s2 _ c' Hr2); [set_solver|].
  wp_bind. apply (wp_PREVALLOC s2 _ a' Hr2); [set_solver|].
  wp_bind. apply (wp_PREVBLOCK s2 l1 a' b (c' :: l2) _ _ _ Hr2); [done|].
  change (b_addr a') with (b_addr a) in *. change (b_size a') with (b_size a) in *.
  change (b_addr c') with (b_addr c) in *. change (b_size c') with (b_size c) in *.
  change (b_palloc a') with (b_palloc a). rewrite PACK_prev.
  assert (Es : add32 (b_size b) (add32 (b_size a) (b_size c)) = b_size a + b_size b + b_size c)
    by (rewrite (add32_small (b_size a)), add32_small; lia).
  rewrite Es. set (w := tag (b_size a + b_size b + b_size c) false (b_palloc a)).
  assert (Hw : 0 ≤ w < W32) by (apply tag_range; [auto using Z.divide_add_r|lia]).
  wp_bind. destruct (hdr_addr s2 _ a' Hr2 ltac:(set_solver)) as (Eh & _).
  change (b_addr a') with (b_addr a) in Eh. rewrite Eh.
  apply wp_store32; [by apply (hdr_valid s2 _ a' Hr2); set_solver|].
  set (s3 := set_ram _ s2).
  assert (Hv3 : ∀ p n, mem_start_brk s2 ≤ p → p + n ≤ mem_brk s2 → valid s3 p n = true)
    by (intros p n; exact (ir_valid s2 _ p n Hr2)).
  wp_bind. apply (wp_NEXTBLOCK_raw s3 _ (b_size b) (is_live b) (b_palloc b));
    [lia|lia|lia|auto|apply Hv3; lia| |].
  { cbn [s3 ram set_ram]. rewrite rdw_wrw_ne by lia. apply (hdr_word s2 _ b Hr2). set_solver. }
  rewrite <- Ec. wp_bind.
  apply (wp_BLOCKFTR_raw s3 _ (b_size c) false (b_palloc c));
    [lia|lia|lia|auto|apply Hv3; lia| |].
  { cbn [s3 ram set_ram]. rewrite rdw_wrw_ne by lia. apply (hdr_word s2 _ c' Hr2). set_solver. }
  wp_bind. apply wp_store32; [apply Hv3; lia|]. set (s4 := set_ram _ s3).
  wp_bind. destruct (ir_block _ _ a' Hr2 ltac:(set_solver)) as (_ & _ & _ & _ & _ & [_ (x & y & Hf)]).
  change (b_addr a') with (b_addr a) in Hf. change (b_size a') with (b_size a) in Hf.
  apply (wp_PREVBLOCK_raw s4 _ (b_size a) x y);
    [lia|lia|auto|apply (Hv3 (b_addr b - 8) 4); lia| |].
  { cbn [s4 s3 ram set_ram]. rewrite !rdw_wrw_ne by lia. rewrite <- Hf. f_equal. lia. }
  replace (b_addr b - b_size a) with (b_addr a) by lia.
  apply wp_ret, HQ.
  { apply (only_upd_trans _ s1); [eapply only_upd_links; [exact Hr| |exact Hlb1]; set_solver|].
    apply (only_upd_trans _ s2); [eapply only_upd_links; [exact Hr1| |exact Hlb2]; set_solver|].
    apply (only_upd_ram2 s2). unfold s3. in_heap. }
  change (merged (merged a b) c) with (merged (merged a' b) c').
  apply (irep_merge3 s2 l1 a' b c' l2 _ epi (wrw (wrw (ram s2) (b_addr a - 4) w) (b_addr c + b_size c - 8) w));
    try done; change (b_addr a') with (b_addr a); change (b_addr c') with (b_addr c);
    change (b_size c') with (b_size c).
  - intros q Hq. rewrite !rdb_wrw_out by lia. done.
  - rewrite rdw_wrw_ne by lia. by apply rdw_wrw_eq.
  - by apply rdw_wrw_eq.
Qed.

(** ** [coalesce] *)

(** The neighbours of a loose block, as the tags describe them. *)
Lemma prev_free_block l1 b l2 epi :
  pflags false (l1 ++ b :: l2) epi → b_palloc b = false →
  Forall (λ c, b_state c ≠ Loose) l1 →
  ∃ l1' a, l1 = l1' ++ [a] ∧ b_state a = Free.
Proof.
  rewrite pflags_app. cbn [pflags]. intros (_ & Hp & _) Hpa Hl.
  specialize (Hp Hpa). destruct l1 as [|a l1' _] using rev_ind; [done|].
  exists l1', a. split; [done|]. rewrite pf_end_snoc in Hp.
  apply Forall_app in Hl as [_ Hl]. inversion_clear Hl.
  unfold is_live in Hp. by destruct (b_state a).
Qed.

Lemma next_free_block (l2 : list blk) :
  next_live l2 = false → Forall (λ c, b_state c ≠ Loose) l2 →
  ∃ c l2', l2 = c :: l2' ∧ b_state c = Free.
Proof.
  destruct l2 as [|c l2]; [done|]. cbn [next_live]. intros Hn Hl. inversion_clear Hl.
  exists c, l2. split; [done|]. unfold is_live in Hn. by destruct (b_state c).
Qed.

Lemma set_state_Loose b : b_state b = Loose → set_state Loose b = b.
Proof. destruct b; cbn. by intros ->. Qed.

Lemma wp_coalesce_cases s l1 b l2 fls epi pv (Q : Z * Z → st → Prop) :
  irep s (Heap (l1 ++ b :: l2) fls epi) → b_state b = Loose →
  Forall (λ c, b_state c ≠ Loose) l1 → Forall (λ c, b_state c ≠ Loose) l2 →
  pflags false (l1 ++ b :: l2) epi →
  (b_palloc b = false → ∀ l1' a, l1 = l1' ++ [a] → pv = b_addr a) →
  (∀ s' l1' b' l2' fls', only_upd s s' → coalesced l1 b l2 fls l1' b' l2' fls' →
     b_state b' = Loose → irep s' (Heap (l1' ++ b' :: l2') fls' epi) → Q (b_addr b', b_size b') s') →
  wp (coalesce_cases (2 * b2z (b_palloc b)) (b2z (next_live l2)) (b_size b)
        (b_addr b + b_size b) pv (b_addr b)) s Q.
Proof.
  intros Hr Hb Hl1 Hl2 Hpf Hpv HQ.
  destruct (b_palloc b) eqn:Hp, (next_live l2) eqn:Hn.
  - apply wp_ret, (HQ s l1 b l2 fls); try done; [apply only_upd_refl|by constructor].
  - destruct (next_free_block _ Hn Hl2) as (c & l2' & -> & Hc).
    apply (wp_case_next s l1 b c l2' fls epi); try done. intros s' Hs' Hr'.
    apply (HQ s' l1 (merged b c) l2' (unlist_blk c fls)); try done. by constructor.
  - destruct (prev_free_block _ _ _ _ Hpf Hp Hl1) as (l1' & a & -> & Ha).
    rewrite (Hpv eq_refl _ _ eq_refl). rewrite snoc_cons in Hr.
    apply (wp_case_prev s l1' a b l2 fls epi); try done. intros s' Hs' Hr'.
    apply (HQ s' l1' (merged a b) l2 (unlist_blk a fls)); try done.
    constructor; try done. unfold is_live. by rewrite Ha.
  - destruct (next_free_block _ Hn Hl2) as (c & l2' & -> & Hc).
    destruct (prev_free_block _ _ _ _ Hpf Hp Hl1) as (l1' & a & -> & Ha).
    rewrite (Hpv eq_refl _ _ eq_refl). rewrite snoc_cons in Hr.
    apply (wp_case_both s l1' a b c l2' fls epi); try done. intros s' Hs' Hr'.
    apply (HQ s' l1' (merged (merged a b) c) l2' (unlist_blk a (unlist_blk c fls))); try done.
    constructor; try done; unfold is_live; by rewrite Ha.
Qed.

Lemma coalesced_pflags l1 b l2 fls l1' b' l2' fls' epi :
  coalesced l1 b l2 fls l1' b' l2' fls' → is_live b = false → is_live b' = false →
  pflags false (l1 ++ b :: l2) epi → pflags false (l1' ++ b' :: l2') epi.
Proof.
  intros Hc Hb Hb'. destruct Hc; [done|..]; rewrite ?snoc_cons, !pflags_app; cbn [pflags];
    repeat match goal with H : is_live _ = _ |- _ => rewrite ?H; clear H end;
    cbn [negb merged b_palloc]; tauto.
Qed.

Lemma coalesced_settled l1 b l2 fls l1' b' l2' fls' :
  coalesced l1 b l2 fls l1' b' l2' fls' →
  Forall (λ c, b_state c ≠ Loose) l1 → Forall (λ c, b_state c ≠ Loose) l2 →
  Forall (λ c, b_state c ≠ Loose) l1' ∧ Forall (λ c, b_state c ≠ Loose) l2'.
Proof.
  destruct 1; rewrite ?Forall_app, ?Forall_cons; tauto.
Qed.

Lemma pflags_set_state l1 b t l2 epi :
  is_live (set_state t b) = is_live b →
  pflags false (l1 ++ b :: l2) epi → pflags false (l1 ++ set_state t b :: l2) epi.
Proof. rewrite !pflags_app. cbn [pflags]. by intros ->. Qed.

Lemma wp_coalesce s l1 b l2 fls epi (Q : Z → st → Prop) :
  irep s (Heap (l1 ++ b :: l2) fls epi) → b_state b = Loose →
  Forall (λ c, b_state c ≠ Loose) l1 → Forall (λ c, b_state c ≠ Loose) l2 →
  pflags false (l1 ++ b :: l2) epi →
  (∀ s' l1' b' l2' fls', only_upd s s' → coalesced l1 b l2 fls l1' b' l2' fls' →
     rep s' (Heap (l1' ++ set_state Free b' :: l2') (enlist_blk b' fls') epi) →
     Q (b_addr b') s') →
  wp (coalesce (b_addr b)) s Q.
Proof.
  intros Hr Hb Hl1 Hl2 Hpf HQ. assert (Hin : b ∈ (l1 ++ b :: l2)) by set_solver.
  unfold coalesce.
  wp_bind. apply (wp_PREVALLOC s _ b Hr Hin).
  wp_bind. apply (wp_NEXTALLOC s l1 b l2 fls epi _ Hr).
  wp_bind. apply (wp_THISSIZE s _ b Hr Hin).
  wp_bind. apply (wp_NEXTBLOCK s _ b Hr Hin).
  wp_bind.
  apply (wp_mono _ _ (λ pv s', s' = s ∧
    (b_palloc b = false → ∀ l1' a, l1 = l1' ++ [a] → pv = b_addr a))).
  { destruct (b_palloc b) eqn:Hp.
    - apply (wp_PREVBLOCK_any s _ b Hr Hin). done.
    - destruct (prev_free_block _ _ _ _ Hpf Hp Hl1) as (l & a & -> & Ha).
      rewrite snoc_cons in Hr. apply (wp_PREVBLOCK s l a b l2 fls epi _ Hr).
      + unfold is_live. by rewrite Ha.
      + split; [done|]. intros _ l' a' E. by apply app_inj_tail in E as [_ ->]. }
  intros pv ? [-> Hpv]. wp_bind.
  apply (wp_coalesce_cases s l1 b l2 fls epi); try done.
  intros s1 l1' b' l2' fls' Hs1 Hc Hb' Hr1. cbv beta iota.
  wp_bind. apply (wp_heap_add s1 l1' b' l2' fls' epi _ Hr1 Hb').
  intros m2 heads2 Hr2 Hlk. apply wp_ret.
  apply (HQ _ l1' b' l2' fls'); [|done|].
  { eapply only_upd_trans; [done|]. by eapply only_upd_links; [exact Hr1| |exact Hlk]. }
  assert (Hlb : is_live b = false) by (unfold is_live; by rewrite Hb).
  assert (Hlb' : is_live b' = false) by (unfold is_live; by rewrite Hb').
  split; [done| |].
  - apply pflags_set_state; [by rewrite Hlb'|]. by eapply coalesced_pflags.
  - destruct (coalesced_settled _ _ _ _ _ _ _ _ Hc Hl1 Hl2).
    apply Forall_app. split; [done|]. by constructor.
Qed.

End Coalesce.
