(* ===== verification/Alloc.v ===== *)
(** * Placing blocks (src/mm.c, [allocate], [find_fit], [extend_heap])

    [allocate] is shown to implement the relation [allocated]: the block is
    taken out of its list and either split, its remainder being joined with
    an unallocated block behind it, or handed out whole, in which case the
    next tag records that its predecessor is allocated.  [find_fit] is shown
    to compute [first_fit], which looks at the first block of each list from
    the class of the request upwards.  [extend_heap] adds a block at the end
    of the heap and joins it with an unallocated last block. *)

From Stdlib Require Import ZArith Lia.
From stdpp Require Import base gmap numbers list.
From S2P Require Import Prelude Memory Memlib Sizes Blocks FreeList Heap HeapRules Coalesce.

Section Alloc.
Context {L : Libc}.

(** ** The code *)
Definition allocate (bp adjusted_size : Z) : M st unit :=
  csize ← GET_THISSIZE bp;
  is_prev_alloc ← GET_PREVALLOC bp;
  remove_from_list bp (calc_list_index csize);;
  if MIN_SIZE <=? sub32 csize adjusted_size then
    PUTW (GET_BLOCKHDR bp) (PACK adjusted_size (Z.lor THISALLOC is_prev_alloc));;
    ftr ← GET_BLOCKFTR bp;
    PUTW ftr (PACK adjusted_size (Z.lor THISALLOC is_prev_alloc));;
    bp ← GET_NEXTBLOCK bp;
    PUTW (GET_BLOCKHDR bp) (PACK (sub32 csize adjusted_size) PREVALLOC);;
    ftr ← GET_BLOCKFTR bp;
    PUTW ftr (PACK (sub32 csize adjusted_size) PREVALLOC);;
    coalesce bp;;
    mret tt
  else
    PUTW (GET_BLOCKHDR bp) (PACK csize (Z.lor THISALLOC is_prev_alloc));;
    ftr ← GET_BLOCKFTR bp;
    PUTW ftr (PACK csize (Z.lor THISALLOC is_prev_alloc));;
    next ← GET_NEXTBLOCK bp;
    let bp := GET_BLOCKHDR next in
    w ← GETW bp;
    PUTW bp (Z.lor w PREVALLOC).

(** [find_fit] returns the block and the index it stores in
    [*result_index]; [None] is the NULL result. *)
Fixpoint find_fit_loop (fuel : nat) (block_size list_index : Z) : M st (option (Z * Z)) :=
  match fuel with
  | O => fail OutOfFuel
  | S fuel' =>
      if list_index <? FREELIST_COUNT then
        fitptr ← get_free_list list_index;
        fits ← (if fitptr =? 0 then mret false
                else size ← GET_THISSIZE fitptr; mret (block_size <=? size));
        if (fits : bool) then mret (Some (fitptr, list_index))
        else find_fit_loop fuel' block_size (list_index + 1)
      else mret None
  end.

Definition find_fit (block_size : Z) : M st (option (Z * Z)) :=
  let min_index := calc_list_index block_size in
  find_fit_loop (S (Z.to_nat FREELIST_COUNT)) block_size min_index.

Definition extend_heap (adjusted_size : Z) : M st Z :=
  bp ← mem_sbrk (s32 adjusted_size);
  if s32 bp =? -1 then mret 0
  else
    hend ← gets heap_end;
    prev_alloc ← GET_PREVALLOC (add32 hend 1);
    PUTW (GET_BLOCKHDR bp) (PACK adjusted_size prev_alloc);;
    ftr ← GET_BLOCKFTR bp;
    PUTW ftr (PACK adjusted_size prev_alloc);;
    next ← GET_NEXTBLOCK bp;
    PUTW (GET_BLOCKHDR next) (PACK EPILOGUE THISALLOC);;
    hi ← mem_heap_hi;
    modify (set_heap_end hi);;
    coalesce bp.

(** ** What it does to the blocks *)

(** The tag behind an allocated block records that. *)
Definition mark_next (l2 : list blk) (epi : bool) : list blk * bool :=
  match l2 with
  | [] => ([], true)
  | c :: l2' => (set_palloc true c :: l2', epi)
  end.

(** [allocated l1 b l2 fls epi n data h]: [h] is the heap after the free
    block [b] was used for a block of size [n]; [data] is what its payload
    holds. *)
Inductive allocated (l1 : list blk) (b : blk) (l2 : list blk) (fls : list (list Z))
    (epi : bool) (n : Z) (data : list Z) : heap → Prop :=
  | al_split l1' r l2' fls' :
      16 ≤ b_size b - n →
      coalesced (l1 ++ [Blk (b_addr b) n (Live data) (b_palloc b)])
                (Blk (b_addr b + n) (b_size b - n) Loose true) l2 (unlist_blk b fls)
                l1' r l2' fls' →
      allocated l1 b l2 fls epi n data
        (Heap (l1' ++ set_state Free r :: l2') (enlist_blk r fls') epi)
  | al_whole :
      b_size b - n < 16 →
      allocated l1 b l2 fls epi n data
        (Heap (l1 ++ set_state (Live data) b :: (mark_next l2 epi).1) (unlist_blk b fls)
              (mark_next l2 epi).2).

(** The size of the block at a payload address. *)
Definition size_at (bs : list blk) (x : Z) : Z :=
  match find (λ b, b_addr b =? x) bs with
  | Some b => b_size b
  | None => 0
  end.

(** The first list from number [i] on whose first block is large enough. *)
Fixpoint first_fit (bs : list blk) (n : Z) (fls : list (list Z)) (i : Z) : option (Z * Z) :=
  match fls with
  | [] => None
  | [] :: fls' => first_fit bs n fls' (i + 1)
  | (x :: _) :: fls' =>
      if n <=? size_at bs x then Some (x, i) else first_fit bs n fls' (i + 1)
  end.

(** ** Auxiliary facts *)
Lemma rdw_of_rdbs m m' a n p :
  rdbs m' a n = rdbs m a n → a ≤ p → p + 4 ≤ a + Z.of_nat n → rdw m' p = rdw m p.
Proof.
  intros H Hp Hn. apply rdw_same. intros q Hq.
  assert (E : rdbs m' a n !! Z.to_nat (q - a) = rdbs m a n !! Z.to_nat (q - a)) by by rewrite H.
  rewrite !rdbs_lookup in E by lia. injection E as E.
  by replace (a + Z.of_nat (Z.to_nat (q - a))) with q in E by lia.
Qed.

(** The payload of a block that has just been marked as allocated. *)
Lemma rep_live_words s h b data m p :
  irep s h → b ∈ h_blocks h → b_state b = Live data →
  rdbs m (b_addr b) (Z.to_nat (b_size b - 4)) = data →
  b_addr b ≤ p → p + 4 ≤ b_addr b + b_size b - 4 → rdw (ram s) p = rdw m p.
Proof.
  intros Hr Hb Hs Hd H1 H2. destruct (ir_block _ _ _ Hr Hb) as (_ & _ & ? & _ & _ & [_ Hok]).
  rewrite Hs in Hok. eapply rdw_of_rdbs; [by rewrite Hok|done|lia].
Qed.

(** The block of a heap at an address. *)
Lemma find_block a bs e b x :
  geo a bs e → b ∈ bs → b_addr b = x → find (λ b, b_addr b =? x) bs = Some b.
Proof.
  intros Hg Hb <-. destruct (find (λ c, b_addr c =? b_addr b) bs) as [c|] eqn:E.
  - apply find_some in E as [Hc%list_elem_of_In Ec%Z.eqb_eq]. f_equal. by eapply geo_inj.
  - eapply find_none in E; [|by apply list_elem_of_In]. by rewrite Z.eqb_refl in E.
Qed.

Lemma size_at_block a bs e b :
  geo a bs e → b ∈ bs → size_at bs (b_addr b) = b_size b.
Proof. intros Hg Hb. unfold size_at. by erewrite find_block. Qed.

(** ** Execution of [find_fit] *)
Lemma wp_find_fit_loop s h n fuel i (Q : option (Z * Z) → st → Prop) :
  irep s h → (Z.to_nat FREELIST_COUNT - i < fuel)%nat →
  Q (first_fit (h_blocks h) n (drop i (h_lists h)) (Z.of_nat i)) s →
  wp (find_fit_loop fuel n (Z.of_nat i)) s Q.
Proof.
  intros Hr. revert i. induction fuel as [|fuel IH]; intros i Hf HQ; [lia|].
  cbn [find_fit_loop]. pose proof (lk_length _ _ (ir_links _ _ Hr)) as Hlen.
  unfold FREELIST_COUNT in *.
  destruct (Z.ltb_spec (Z.of_nat i) 17) as [Hi|Hi].
  - destruct (lookup_lt_is_Some_2 (h_lists h) i) as [l Hl]; [lia|].
    rewrite (drop_S _ _ _ Hl) in HQ. wp_bind.
    apply (wp_get_free_list _ _ (hd_or 0 l)).
    { by rewrite (lo_heads _ _ _ (ir_lists _ _ Hr)), list_lookup_fmap, Hl. }
    assert (Hnext : Q (first_fit (h_blocks h) n (drop (S i) (h_lists h)) (Z.of_nat i + 1)) s →
                    wp (find_fit_loop fuel n (Z.of_nat i + 1)) s Q).
    { replace (Z.of_nat i + 1) with (Z.of_nat (S i)) by lia. apply IH. lia. }
    destruct l as [|x l]; cbn [hd_or first_fit] in *; [by wp_pure; apply Hnext|].
    assert (Hx : in_lists (h_lists h) x) by (eapply in_lists_intro; [done|by left]).
    destruct (in_lists_block _ _ _ Hr Hx) as (b & Hb & <- & _).
    destruct (ir_block _ _ _ Hr Hb) as (? & ? & ? & _). destruct (ir_bounds _ _ Hr) as (? & _).
    destruct (Z.eqb_spec (b_addr b) 0); [lia|].
    rewrite (size_at_block _ _ _ _ (ir_geo _ _ Hr) Hb) in HQ.
    wp_bind. wp_bind. apply (wp_THISSIZE s h b Hr Hb). apply wp_ret.
    destruct (n <=? b_size b); [by apply wp_ret|by apply Hnext].
  - rewrite drop_ge in HQ by lia. by apply wp_ret.
Qed.

Lemma wp_find_fit s h n (Q : option (Z * Z) → st → Prop) :
  irep s h → 0 < n →
  Q (first_fit (h_blocks h) n (drop (class_of n) (h_lists h)) (calc_list_index n)) s →
  wp (find_fit n) s Q.
Proof.
  intros Hr Hn HQ. unfold find_fit. rewrite <- class_of_index in * by done.
  eapply wp_find_fit_loop; [done|lia|done].
Qed.

(** What a successful search found. *)
Lemma first_fit_Some s h n j x i :
  irep s h → 0 < n →
  first_fit (h_blocks h) n (drop j (h_lists h)) (Z.of_nat j) = Some (x, i) →
  ∃ b l, b ∈ h_blocks h ∧ b_addr b = x ∧ b_state b = Free ∧ n ≤ b_size b ∧
         i = calc_list_index (b_size b) ∧ h_lists h !! class_of (b_size b) = Some (x :: l).
Proof.
  intros Hr Hn. remember (length (h_lists h) - j)%nat as k eqn:Hk. revert j Hk.
  induction k as [|k IH]; intros j Hk; [by rewrite drop_ge by lia|].
  destruct (lookup_lt_is_Some_2 (h_lists h) j) as [l Hl]; [lia|].
  rewrite (drop_S _ _ _ Hl).
  assert (Hnext : first_fit (h_blocks h) n (drop (S j) (h_lists h)) (Z.of_nat j + 1) = Some (x, i) →
    ∃ b l, b ∈ h_blocks h ∧ b_addr b = x ∧ b_state b = Free ∧ n ≤ b_size b ∧
         i = calc_list_index (b_size b) ∧ h_lists h !! class_of (b_size b) = Some (x :: l)).
  { replace (Z.of_nat j + 1) with (Z.of_nat (S j)) by lia. apply IH. lia. }
  destruct l as [|y l]; cbn [first_fit]; [done|].
  destruct (Z.leb_spec n (size_at (h_blocks h) y)) as [Hle|]; [|done].
  intros [= -> <-].
  apply (lk_mem _ _ (ir_links _ _ Hr) _ _ x) in Hl as Hx.
  destruct (proj1 Hx ltac:(by left)) as (b & Hb & Ha & Hs & Hc).
  exists b, l. rewrite <- Ha, (size_at_block _ _ _ _ (ir_geo _ _ Hr) Hb) in Hle.
  split_and!; try done; [|by rewrite Hc]. rewrite <- Hc. apply class_of_index. lia.
Qed.

(** A failed search has seen no first block that is large enough. *)
Lemma first_fit_None bs n fls i :
  first_fit bs n fls i = None →
  ∀ k x l, fls !! k = Some (x :: l) → size_at bs x < n.
Proof.
  revert i. induction fls as [|[|y l'] fls IH]; intros i Hn k x l Hk; cbn [first_fit] in Hn.
  - done.
  - destruct k as [|k]; [done|]. by eapply IH.
  - destruct (Z.leb_spec n (size_at bs y)); [done|]. destruct k as [|k]; [|by eapply IH].
    by injection Hk as -> ->.
Qed.

(** ** Execution of [allocate] *)

(** A loose block becomes an allocated block and a loose remainder. *)
Lemma irep_split s l1 b l2 fls epi n m' :
  irep s (Heap (l1 ++ b :: l2) fls epi) → b_state b = Loose →
  (8 | n) → 16 ≤ n → 16 ≤ b_size b - n →
  m' = wr_tags (wr_tags (ram s) (b_addr b) n (tag n true (b_palloc b)))
         (b_addr b + n) (b_size b - n) (tag (b_size b - n) false true) →
  irep (set_ram m' s)
    (Heap (l1 ++ Blk (b_addr b) n (Live (rdbs m' (b_addr b) (Z.to_nat (n - 4)))) (b_palloc b) ::
                 Blk (b_addr b + n) (b_size b - n) Loose true :: l2) fls epi).
Proof.
  intros Hr Hs H8 H16 Hrem Hm.
  pose proof (ir_geo _ _ Hr) as Hg. cbn [h_blocks] in Hg.
  destruct (geo_mid _ _ _ _ _ Hg) as [Hg1 _].
  destruct (ir_block _ _ b Hr ltac:(set_solver)) as (? & ? & ? & ? & _).
  destruct (ir_bounds _ _ Hr) as (? & ? & ? & _).
  set (data := rdbs m' _ _).
  set (live := Blk (b_addr b) n (Live data) (b_palloc b)).
  set (r := Blk (b_addr b + n) (b_size b - n) Loose true).
  assert (Hr8 : (8 | b_size b - n)) by by apply Z.divide_sub_r.
  apply (irep_region s l1 [b] [live; r] l2 fls epi (b_addr b) (b_addr b + b_size b) m' Hr Hg1).
  - cbn [geo]. by split_and!.
  - cbn [geo live r b_addr b_size]. split_and!; (done || lia).
  - constructor; [congruence|constructor].
  - repeat constructor; done.
  - subst m'. intros q Hq.
    rewrite (wr_tags_outside _ (b_addr b + n)) by lia. apply wr_tags_outside; lia.
  - assert (Hl : blk_ok m' live).
    { destruct (wr_tags_read (ram s) (b_addr b) n (tag n true (b_palloc b))) as [Hh _];
        [lia|apply tag_range; [auto|lia]|].
      split; [|done]. cbn [live b_addr b_size b_palloc is_live b_state]. rewrite <- Hh.
      apply rdw_same. intros q Hq. subst m'. apply wr_tags_outside; lia. }
    constructor; [done|]. constructor; [|done].
    subst m' r. apply (blk_ok_tags _ _ _ Loose); [lia|done..].
Qed.

Lemma wp_allocate_split s l1 b l2 fls epi n (Q : unit → st → Prop) :
  irep s (Heap (l1 ++ b :: l2) fls epi) → b_state b = Loose →
  Forall (λ c, b_state c ≠ Loose) l1 → Forall (λ c, b_state c ≠ Loose) l2 →
  pflags false (l1 ++ b :: l2) epi →
  (8 | n) → 16 ≤ n → 16 ≤ b_size b - n →
  (∀ s' data l1' r l2' fls', only_upd s s' →
     coalesced (l1 ++ [Blk (b_addr b) n (Live data) (b_palloc b)])
       (Blk (b_addr b + n) (b_size b - n) Loose true) l2 fls l1' r l2' fls' →
     rep s' (Heap (l1' ++ set_state Free r :: l2') (enlist_blk r fls') epi) →
     rdw (ram s') (b_addr b) = rdw (ram s) (b_addr b) →
     rdw (ram s') (b_addr b + 4) = rdw (ram s) (b_addr b + 4) → Q tt s') →
  wp (PUTW (GET_BLOCKHDR (b_addr b)) (tag n true (b_palloc b));;
      (ftr ← GET_BLOCKFTR (b_addr b); (PUTW ftr (tag n true (b_palloc b));;
       (bp ← GET_NEXTBLOCK (b_addr b);
        (PUTW (GET_BLOCKHDR bp) (tag (b_size b - n) false true);;
         (ftr ← GET_BLOCKFTR bp; (PUTW ftr (tag (b_size b - n) false true);;
          (coalesce bp;; mret tt)))))))) s Q.
Proof.
  intros Hr Hs Hl1 Hl2 Hpf H8 H16 Hrem HQ.
  destruct (ir_block _ _ b Hr ltac:(set_solver)) as (? & ? & ? & ? & _).
  destruct (ir_bounds _ _ Hr) as (? & ? & ? & _).
  assert (Hr8 : (8 | b_size b - n)) by by apply Z.divide_sub_r.
  assert (Hv : ∀ m p k, mem_start_brk s ≤ p → p + k ≤ mem_brk s → valid (set_ram m s) p k = true)
    by (intros m p k; exact (ir_valid s _ p k Hr)).
  apply wp_write_tags; [lia|lia|lia|auto|apply (Hv (ram s)); lia|apply (Hv (ram s)); lia|].
  set (m1 := wr_tags _ _ _ _). wp_bind.
  apply (wp_NEXTBLOCK_raw _ _ n true (b_palloc b)); [lia|lia|lia|auto|apply Hv; lia| |].
  { apply wr_tags_read; [lia|apply tag_range; [auto|lia]]. }
  apply wp_write_tags; [lia|lia|lia|auto|apply (Hv m1); lia|apply (Hv m1); lia|].
  cbn [ram set_ram]. set (m2 := wr_tags m1 _ _ _).
  assert (Hr2 : irep (set_ram m2 s) _) by (eapply (irep_split s l1 b l2 fls epi n m2); done).
  set (data := rdbs m2 _ _) in Hr2.
  set (live := Blk (b_addr b) n (Live data) (b_palloc b)) in *.
  set (r := Blk (b_addr b + n) (b_size b - n) Loose true) in *.
  change (set_ram m2 (set_ram m1 s)) with (set_ram m2 s).
  wp_bind. rewrite <- snoc_cons in Hr2. change (b_addr b + n) with (b_addr r).
  apply (wp_coalesce _ (l1 ++ [live]) r l2 fls epi _ Hr2); try done.
  - apply Forall_app. split; [done|]. by constructor.
  - rewrite snoc_cons. revert Hpf. rewrite !pflags_app. cbn [pflags].
    assert (is_live b = false) as -> by (unfold is_live; by rewrite Hs).
    intros (? & ? & ?). by split_and!.
  - intros s' l1' r' l2' fls' Hupd Hc Hrep. apply wp_ret.
    assert (Hlive : live ∈ (l1' ++ set_state Free r' :: l2')).
    { clear -Hc. remember (l1 ++ [live]) as l. destruct Hc; subst; try set_solver.
      - apply app_inj_tail in Heql as [-> ->]. done.
      - apply app_inj_tail in Heql as [-> ->]. done. }
    assert (Hw : ∀ p, b_addr b ≤ p → p + 4 ≤ b_addr b + n - 4 → p + 4 ≤ b_addr b + n - 8 →
                 rdw (ram s') p = rdw (ram s) p).
    { intros p Hp1 Hp2 Hp3.
      rewrite (rep_live_words s' _ live data m2 p (rp_irep _ _ Hrep)); try done.
      apply rdw_same. intros q Hq. subst m2 m1.
      rewrite (wr_tags_outside _ (b_addr b + n)) by lia. apply wr_tags_inside. lia. }
    apply (HQ s' data l1' r' l2' fls'); try done; [|apply Hw; lia..].
    apply (only_upd_trans _ (set_ram m2 s)); [|done]. apply only_upd_ram. subst m2 m1. in_heap.
Qed.

(** The tag behind an allocated block is given its PREVALLOC bit. *)
Lemma wp_mark_next s l1 b l2 fls epi (Q : unit → st → Prop) :
  irep s (Heap (l1 ++ b :: l2) fls epi) →
  (∀ s', only_upd s s' →
     irep s' (Heap (l1 ++ b :: (mark_next l2 epi).1) fls (mark_next l2 epi).2) →
     same_on (λ q, q < b_addr b + b_size b - 4) (ram s) (ram s') → Q tt s') →
  wp (next ← GET_NEXTBLOCK (b_addr b);
      let bp := GET_BLOCKHDR next in
      w ← GETW bp;
      PUTW bp (Z.lor w PREVALLOC)) s Q.
Proof.
  intros Hr HQ. assert (Hb : b ∈ (l1 ++ b :: l2)) by set_solver.
  destruct (next_hdr _ _ _ _ _ _ Hr) as (size & p & Hw & H4 & Hv).
  wp_bind. apply (wp_NEXTBLOCK s _ b Hr Hb). cbv zeta.
  destruct (hdr_addr s _ b Hr Hb) as (_ & _ & _ & _ & _ & ->).
  wp_bind. apply wp_load32; [done|]. rewrite Hw, tag_set_prev. apply wp_store32; [done|].
  pose proof (ir_geo _ _ Hr) as Hg. cbn [h_blocks] in Hg.
  destruct (geo_mid _ _ _ _ _ Hg) as [_ Hg2].
  destruct (ir_block _ _ b Hr Hb) as (? & ? & ? & _).
  apply HQ; [apply only_upd_ram; in_heap| |].
  - destruct l2 as [|c l2]; cbn [geo mark_next next_live fst snd] in *.
    + rewrite Hg2 in *. rewrite (ir_epi _ _ Hr) in Hw.
      apply (f_equal (λ w, Z.lor w PREVALLOC)) in Hw. rewrite !tag_set_prev in Hw.
      rewrite <- Hw. by eapply irep_epi.
    + destruct Hg2 as (Ec & _). rewrite <- Ec in *.
      rewrite <- (snoc_cons l1) in *.
      rewrite (hdr_word s _ c Hr) in Hw by set_solver.
      apply (f_equal (λ w, Z.lor w PREVALLOC)) in Hw. rewrite !tag_set_prev in Hw.
      rewrite <- Hw. by apply irep_palloc.
  - intros q Hq. cbn [ram set_ram]. apply rdb_wrw_out. lia.
Qed.

Lemma wp_allocate_whole s l1 b l2 fls epi (Q : unit → st → Prop) :
  irep s (Heap (l1 ++ b :: l2) fls epi) → b_state b = Loose →
  Forall (λ c, b_state c ≠ Loose) l1 → Forall (λ c, b_state c ≠ Loose) l2 →
  pflags false (l1 ++ b :: l2) epi →
  (∀ s' data, only_upd s s' →
     rep s' (Heap (l1 ++ set_state (Live data) b :: (mark_next l2 epi).1) fls (mark_next l2 epi).2) →
     rdw (ram s') (b_addr b) = rdw (ram s) (b_addr b) →
     rdw (ram s') (b_addr b + 4) = rdw (ram s) (b_addr b + 4) → Q tt s') →
  wp (PUTW (GET_BLOCKHDR (b_addr b)) (tag (b_size b) true (b_palloc b));;
      (ftr ← GET_BLOCKFTR (b_addr b); (PUTW ftr (tag (b_size b) true (b_palloc b));;
       (next ← GET_NEXTBLOCK (b_addr b);
        let bp := GET_BLOCKHDR next in
        w ← GETW bp;
        PUTW bp (Z.lor w PREVALLOC))))) s Q.
Proof.
  intros Hr Hs Hl1 Hl2 Hpf HQ.
  pose proof (ir_geo _ _ Hr) as Hg. cbn [h_blocks] in Hg.
  destruct (geo_mid _ _ _ _ _ Hg) as [Hg1 _].
  destruct (ir_block _ _ b Hr ltac:(set_solver)) as (? & ? & ? & ? & _).
  destruct (ir_bounds _ _ Hr) as (? & ? & ? & _).
  apply wp_write_tags; [lia|lia|lia|auto|by apply (hdr_valid s _ b Hr); set_solver|
    eapply ir_valid; [done|lia..]|].
  set (m1 := wr_tags _ _ _ _). set (data := rdbs m1 (b_addr b) (Z.to_nat (b_size b - 4))).
  set (live := set_state (Live data) b).
  assert (Hr1 : irep (set_ram m1 s) (Heap (l1 ++ live :: l2) fls epi)).
  { apply (irep_region s l1 [b] [live] l2 fls epi (b_addr b) (b_addr b + b_size b) m1 Hr Hg1).
    - cbn [geo]. by split_and!.
    - cbn [geo]. by split_and!.
    - constructor; [congruence|constructor].
    - by repeat constructor.
    - by apply wr_tags_outside.
    - constructor; [|done]. apply (blk_ok_tags (ram s) _ _ (Live data)); [lia|done..]. }
  change (b_addr b) with (b_addr live). apply (wp_mark_next _ l1 live l2 fls epi _ Hr1).
  intros s' Hupd Hr' Hsame. cbn [live set_state b_addr b_size] in Hsame.
  assert (Hw : ∀ p, b_addr b ≤ p → p + 4 ≤ b_addr b + b_size b - 8 →
               rdw (ram s') p = rdw (ram s) p).
  { intros p Hp1 Hp2. apply rdw_same. intros q Hq. rewrite Hsame by lia.
    apply wr_tags_inside. lia. }
  apply (HQ s' data); [| |apply Hw; lia..].
  { apply (only_upd_trans _ (set_ram m1 s)); [|done]. apply only_upd_ram. subst m1. in_heap. }
  split; [done| |].
  - revert Hpf. cbn [h_blocks h_epi]. rewrite !pflags_app. cbn [pflags].
    assert (is_live b = false) as -> by (unfold is_live; by rewrite Hs).
    intros (? & ? & H2'). split_and!; [done|done|].
    destruct l2 as [|c l2]; cbn [mark_next fst snd pflags] in *; [done|]. by split; [|apply H2'].
  - cbn [h_blocks]. apply Forall_app. split; [done|]. constructor; [done|].
    destruct l2; [done|]. inversion_clear Hl2. by constructor.
Qed.

Lemma rep_split s l1 b l2 fls epi :
  rep s (Heap (l1 ++ b :: l2) fls epi) →
  Forall (λ c, b_state c ≠ Loose) l1 ∧ Forall (λ c, b_state c ≠ Loose) l2.
Proof. intros [_ _ Hs]. apply Forall_app in Hs as [? Hs]. by inversion_clear Hs. Qed.

(** A block that is taken out of its list keeps its link words. *)
Lemma remove_keeps_links s l1 b l2 fls epi m' :
  irep s (Heap (l1 ++ b :: l2) fls epi) →
  same_on (λ q, ¬ link_byte (l1 ++ l2) q) (ram s) m' →
  same_on (λ q, b_addr b ≤ q < b_addr b + 8) (ram s) m'.
Proof.
  intros Hr Hs q Hq. apply Hs. intros (c & Hc & _ & Hcq).
  pose proof (ir_geo _ _ Hr) as Hg. cbn [h_blocks] in Hg.
  assert (Hb : b ∈ (l1 ++ b :: l2)) by set_solver.
  assert (Hc' : c ∈ (l1 ++ b :: l2)) by set_solver.
  destruct (ir_block _ _ b Hr Hb) as (_ & _ & ? & _).
  destruct (ir_block _ _ c Hr Hc') as (_ & _ & ? & _).
  pose proof (geo_NoDup _ _ _ Hg) as Hnd.
  destruct (geo_disjoint _ _ _ _ _ Hg Hb Hc') as [->|?]; [|lia].
  apply NoDup_app in Hnd as (_ & H1 & [H2 _]%NoDup_cons).
  apply elem_of_app in Hc as [Hc|Hc]; [|done]. apply (H1 _ Hc). by left.
Qed.

Lemma wp_allocate s l1 b l2 fls epi n (Q : unit → st → Prop) :
  rep s (Heap (l1 ++ b :: l2) fls epi) → b_state b = Free →
  (8 | n) → 16 ≤ n ≤ b_size b →
  (∀ s' data h', only_upd s s' → allocated l1 b l2 fls epi n data h' → rep s' h' →
     rdw (ram s') (b_addr b) = rdw (ram s) (b_addr b) →
     rdw (ram s') (b_addr b + 4) = rdw (ram s) (b_addr b + 4) → Q tt s') →
  wp (allocate (b_addr b) n) s Q.
Proof.
  intros Hrep Hs H8 Hn HQ. pose proof (rp_irep _ _ Hrep) as Hr.
  destruct (rep_split _ _ _ _ _ _ Hrep) as [Hl1 Hl2].
  assert (Hb : b ∈ (l1 ++ b :: l2)) by set_solver.
  destruct (ir_block _ _ b Hr Hb) as (? & ? & ? & ? & _).
  destruct (ir_bounds _ _ Hr) as (? & ? & ? & _).
  unfold allocate. wp_bind. apply (wp_THISSIZE s _ b Hr Hb).
  wp_bind. apply (wp_PREVALLOC s _ b Hr Hb).
  wp_bind. apply (wp_heap_remove s l1 b l2 fls epi _ Hr Hs).
  intros m1 heads1 Hr1 Hsame. pose proof (remove_keeps_links _ _ _ _ _ _ _ Hr Hsame) as Hkeep.
  assert (Hw : rdw m1 (b_addr b) = rdw (ram s) (b_addr b) ∧
               rdw m1 (b_addr b + 4) = rdw (ram s) (b_addr b + 4)).
  { split; apply rdw_same; intros q Hq; apply Hkeep; lia. }
  destruct Hw as [Hw1 Hw2].
  set (s1 := upd m1 heads1 s) in *. set (b' := set_state Loose b) in *.
  assert (Hpf : pflags false (l1 ++ b' :: l2) epi).
  { apply pflags_set_state; [|apply (rp_flags _ _ Hrep)].
    unfold is_live. cbn. by rewrite Hs. }
  rewrite !PACK_this_prev. rewrite sub32_small by lia.
  change (PACK (b_size b - n) PREVALLOC) with (tag (b_size b - n) false true).
  unfold MIN_SIZE, WSIZE. destruct (Z.leb_spec (4 * 4) (b_size b - n)) as [Hrem|Hrem].
  - apply (wp_allocate_split s1 l1 b' l2 (unlist_blk b fls) epi n); try done; [cbn; lia..|].
    intros s' data l1' r l2' fls' Hupd Hc Hr' E1 E2.
    apply (HQ s' data (Heap (l1' ++ set_state Free r :: l2') (enlist_blk r fls') epi));
      [apply (only_upd_trans _ s1); [|done]; eapply only_upd_links; [exact Hr| |exact Hsame]; set_solver| |done| |].
    + eapply al_split; [lia|exact Hc].
    + by rewrite <- Hw1.
    + by rewrite <- Hw2.
  - apply (wp_allocate_whole s1 l1 b' l2 (unlist_blk b fls) epi); try done.
    intros s' data Hupd Hr' E1 E2.
    apply (HQ s' data (Heap (l1 ++ set_state (Live data) b :: (mark_next l2 epi).1)
      (unlist_blk b fls) (mark_next l2 epi).2));
      [apply (only_upd_trans _ s1); [|done]; eapply only_upd_links; [exact Hr| |exact Hsame]; set_solver| |exact Hr'| |].
    + apply al_whole. lia.
    + by rewrite <- Hw1.
    + by rewrite <- Hw2.
Qed.

(** ** Execution of [extend_heap] *)
Lemma s32_failed p : 0 ≤ p < W32 → (s32 p =? -1) = (p =? W32 - 1).
Proof.
  intros Hp. unfold s32. rewrite u32_small by done. unfold W32 in *.
  destruct (Z.ltb_spec p 2147483648), (Z.eqb_spec p (4294967296 - 1)); try lia;
    apply Z.eqb_eq || apply Z.eqb_neq; lia.
Qed.

(** The memory and the statics after a new last block was written. *)
Definition extended_ram (s : st) (n : Z) (epi : bool) : gmap Z Z :=
  wrw (wr_tags (ram s) (mem_brk s) n (tag n false epi))
      (mem_brk s + n - 4) (tag EPILOGUE true false).
Definition extended (s : st) (n : Z) (epi : bool) : st :=
  set_heap_end (mem_brk s + n - 1)
    (set_ram (extended_ram s n epi) (set_mem_brk (mem_brk s + n) s)).

Lemma irep_extend s bs fls epi n :
  irep s (Heap bs fls epi) → (8 | n) → 16 ≤ n → mem_brk s + n ≤ mem_max_addr s →
  irep (extended s n epi) (Heap (bs ++ [Blk (mem_brk s) n Loose epi]) fls false).
Proof.
  intros Hr H8 H16 Hmax. pose proof Hr as [Hm Hst Hen Hpg Hg Hl Hli Hb Hep Hpr].
  destruct (ir_bounds _ _ Hr) as (? & ? & ? & _). pose proof (mo_top _ Hm).
  cbn [h_blocks h_lists h_epi] in *.
  assert (Hout : same_on (λ q, q < mem_brk s - 4) (ram s) (extended_ram s n epi)).
  { intros q Hq. unfold extended_ram, wr_tags. rewrite !rdb_wrw_out by lia. done. }
  split; cbn [extended set_heap_end set_ram set_mem_brk ram mem_brk mem_start_brk heap_start
    heap_end ADJUSTED_PAGESIZE free_lists h_blocks h_lists h_epi]; try done.
  - destruct Hm. split; cbn; try done. lia.
  - apply geo_app. exists (mem_brk s). split; [done|]. by cbn [geo b_addr b_size].
  - pose proof (links_no_free bs [] [Blk (mem_brk s) n Loose epi] [] fls) as H'.
    cbn [app] in H'. rewrite !app_nil_r in H'. apply H'; [done| |done]. by constructor.
  - eapply lists_ok_same; [|done]. intros x Hx.
    destruct (in_lists_block _ _ _ Hr Hx) as (b & Hbin & <- & _).
    destruct (ir_block _ _ b Hr Hbin) as (? & ? & ? & _).
    split; apply rdw_same; intros q Hq; apply Hout; lia.
  - apply Forall_app. split.
    + rewrite Forall_forall in *. intros b Hbin.
      destruct (ir_block _ _ b Hr Hbin) as (? & ? & ? & _).
      eapply blk_ok_same; [done| |by apply Hb]. intros q Hq. apply Hout. lia.
    + constructor; [|done].
      eapply (blk_ok_same (wr_tags (ram s) (mem_brk s) n (tag n false epi))); [done| |].
      * intros q Hq. cbn [b_addr b_size] in Hq. unfold extended_ram. apply rdb_wrw_out. lia.
      * apply (blk_ok_tags _ _ _ Loose); [lia|done..].
  - unfold extended_ram. apply rdw_wrw_eq, tag_range; [by exists 983547956|done].
  - destruct Hpr as (E1 & E2 & E3). unfold prologue_ok.
    split_and!; [rewrite <- E1|rewrite <- E2|rewrite <- E3];
      apply rdw_same; intros q Hq; apply Hout; lia.
Qed.

Lemma rep_errno s h e : rep s h → rep (set_errno e s) h.
Proof. intros [[Hm] ? ?]. split; [split|..]; try done. by destruct Hm; split. Qed.

Lemma wp_extend_heap s bs fls epi n (Q : Z → st → Prop) :
  rep s (Heap bs fls epi) → (8 | n) → 16 ≤ n < W32 →
  (n < 2147483648 → mem_brk s + n < W32) →
  (n < 2147483648 → mem_brk s + n ≤ mem_max_addr s →
   ∀ s' l1' b' l2' fls',
     only_upd (set_heap_end (mem_brk s + n - 1) (set_mem_brk (mem_brk s + n) s)) s' →
     coalesced bs (Blk (mem_brk s) n Loose epi) [] fls l1' b' l2' fls' →
     rep s' (Heap (l1' ++ set_state Free b' :: l2') (enlist_blk b' fls') false) →
     Q (b_addr b') s') →
  (2147483648 ≤ n ∨ mem_max_addr s < mem_brk s + n → Q 0 (set_errno ENOMEM s)) →
  wp (extend_heap n) s Q.
Proof.
  intros Hrep H8 Hn Hroom Hok Hbad. pose proof (rp_irep _ _ Hrep) as Hr.
  pose proof (ir_memlib _ _ Hr) as Hm. destruct (ir_bounds _ _ Hr) as (? & ? & ? & _).
  pose proof (mo_top _ Hm). pose proof (mo_brk _ Hm).
  assert (Hs32 : (n < 2147483648 ∧ s32 n = n) ∨ (2147483648 ≤ n ∧ s32 n < 0)).
  { destruct (Z.lt_ge_cases n 2147483648); [left|right]; (split; [done|]);
      [apply s32_small|apply s32_neg]; unfold W32 in *; lia. }
  unfold extend_heap. wp_bind.
  apply wp_mem_sbrk; [done|lia|..].
  2: { intros Hf. rewrite s32_failed by done. cbn. apply wp_ret, Hbad. lia. }
  intros Hpos Hle. assert (Hlt : n < 2147483648) by lia.
  assert (En : s32 n = n) by lia. rewrite En in Hle |- *. rewrite s32_failed by (unfold W32 in *; lia).
  destruct (Z.eqb_spec (mem_brk s) (W32 - 1)); [lia|].
  set (s1 := set_mem_brk (mem_brk s + n) s).
  assert (Hv : ∀ m p k, mem_start_brk s ≤ p → p + k ≤ mem_max_addr s →
               valid (set_ram m s1) p k = true)
    by (intros m p k; exact (memlib_ok_valid s p k Hm)).
  wp_bind. apply wp_gets. wp_bind. cbn [s1 set_mem_brk heap_end]. rewrite (ir_end _ _ Hr).
  rewrite add32_small by lia. replace (mem_brk s - 1 + 1) with (mem_brk s) by lia.
  apply (wp_PREVALLOC_raw _ _ EPILOGUE true epi);
    [lia|by exists 983547956|apply (Hv (ram s)); lia|exact (ir_epi _ _ Hr)|].
  rewrite PACK_prev.
  apply wp_write_tags; [lia|lia|lia|auto|apply (Hv (ram s)); lia|apply (Hv (ram s)); lia|].
  set (m1 := wr_tags _ _ _ _). wp_bind.
  apply (wp_NEXTBLOCK_raw _ _ n false epi); [lia|lia|lia|auto|apply Hv; lia| |].
  { apply wr_tags_read; [lia|apply tag_range; [auto|lia]]. }
  unfold GET_BLOCKHDR, WSIZE. rewrite sub32_small by lia.
  change (PACK EPILOGUE THISALLOC) with (tag EPILOGUE true false).
  wp_bind. apply wp_store32; [apply Hv; lia|]. unfold mem_heap_hi. wp_pure.
  cbn [set_ram s1 set_mem_brk mem_brk ram]. rewrite sub32_small by lia.
  pose proof (irep_extend _ _ _ _ n Hr H8 ltac:(lia) Hle) as Hr'.
  change (mem_brk s) with (b_addr (Blk (mem_brk s) n Loose epi)) at 1.
  apply (wp_coalesce (extended s n epi) bs _ [] fls false _ Hr'); try done.
  - apply (rp_settled _ _ Hrep).
  - pose proof (rp_flags _ _ Hrep) as Hf. cbn [h_blocks h_epi] in Hf.
    revert Hf. rewrite <- (app_nil_r bs) at 1. rewrite !pflags_app. cbn [pflags].
    intros [? ?]. by split_and!.
  - intros s' l1' b' l2' fls' Hupd Hc Hrep'. apply (Hok Hlt Hle s' l1' b' l2' fls'); [|done..].
    apply (only_upd_trans _ (extended s n epi)); [|done].
    apply (only_upd_ram (set_heap_end (mem_brk s + n - 1) (set_mem_brk (mem_brk s + n) s))
             (extended_ram s n epi)).
    cbn [mem_start_brk mem_brk set_heap_end set_mem_brk ram]. unfold extended_ram. in_heap.
Qed.

End Alloc.
