(* ===== verification/Malloc.v ===== *)
(** * The allocator interface (src/mm.c, [mm_init], [mm_malloc], [mm_free],
      [mm_realloc])

    The four entry points of mm.c, their effect on the blocks of the heap
    and on the live payloads ([live_map]), and the theorems that they
    preserve the representation invariant. *)

From Stdlib Require Import ZArith Lia.
From stdpp Require Import base gmap numbers list.
From S2P Require Import Prelude Memory Memlib Contract Sizes Blocks FreeList Heap HeapRules Coalesce Alloc.

Section Malloc.
Context {L : Libc}.

(** ** The code *)

(** [mm_init] behind [mem_init]; [RUN_MM_CHECK] is what the macro expands
    to, nothing unless [DO_MM_CHECK] is defined. *)
Definition mm_init_heap (RUN_MM_CHECK : M st unit) : M st Z :=
  modify (set_free_lists (replicate (Z.to_nat FREELIST_COUNT) 0));;
  page ← mem_pagesize;
  modify (set_PAGE_SIZE page);;
  modify (λ s, set_ADJUSTED_PAGESIZE (ADJUST_BYTESIZE (mul32 (PAGE_SIZE s) 2)) s);;
  adjusted ← gets ADJUSTED_PAGESIZE;
  start ← mem_sbrk (s32 (add32 adjusted (4 * WSIZE)));
  modify (set_heap_start start);;
  if start =? 0 then mret (-1)
  else
    hi ← mem_heap_hi;
    modify (set_heap_end hi);;
    start ← gets heap_start;
    hend ← gets heap_end;
    PUTW start ALIGN_WORD;;
    PUTW (add32 start (1 * WSIZE)) (PACK DSIZE (Z.lor THISALLOC PREVALLOC));;
    PUTW (add32 start (2 * WSIZE)) (PACK DSIZE (Z.lor THISALLOC PREVALLOC));;
    PUTW (add32 (add32 start adjusted) (3 * WSIZE)) (PACK EPILOGUE THISALLOC);;
    PUTW (add32 start (3 * WSIZE)) (PACK adjusted PREVALLOC);;
    PUTW (sub32 (add32 (sub32 hend WSIZE) 1) WSIZE) (PACK adjusted PREVALLOC);;
    add_to_list (add32 start (4 * WSIZE)) (calc_list_index adjusted);;
    RUN_MM_CHECK;;
    mret 0.

Definition mm_init : M st Z :=
  mem_init;;
  mm_init_heap (mret tt).

Definition mm_malloc (size : Z) : M st Z :=
  if size =? 0 then mret 0
  else
    let adjusted_size := ADJUST_BYTESIZE size in
    fit ← find_fit adjusted_size;
    match fit with
    | Some (bp, list_index) =>
        allocate bp adjusted_size;;
        remove_from_list bp list_index;;
        mret bp
    | None =>
        page ← gets ADJUSTED_PAGESIZE;
        bp ← extend_heap (MAX adjusted_size page);
        if bp =? 0 then mret 0
        else
          allocate bp adjusted_size;;
          mret bp
    end.

Definition mm_free (ptr : Z) : M st unit :=
  size ← GET_THISSIZE ptr;
  free_block ptr size;;
  coalesce ptr;;
  mret tt.

Definition mm_realloc (ptr size : Z) : M st Z :=
  let oldptr := ptr in
  newptr ← mm_malloc size;
  if newptr =? 0 then mret 0
  else
    copySize ← GET_THISSIZE oldptr;
    let copySize := if size <? copySize then size else copySize in
    memcpy newptr oldptr copySize;;
    mm_free oldptr;;
    mret newptr.

(** ** The live payloads *)
Definition live_of (b : blk) : option (Z * list Z) :=
  match b_state b with
  | Live data => Some (b_addr b, data)
  | _ => None
  end.

(** Payload pointers and contents of the allocated blocks, in address order. *)
Definition lives (bs : list blk) : list (Z * list Z) := omap live_of bs.
Definition live_map (h : heap) : gmap Z (list Z) := list_to_map (lives (h_blocks h)).

(** ** What the entry points do to the blocks *)

(** A request of [n] bytes (already adjusted) was served by the block at
    [p], whose payload then holds [data]: either by the first fitting head
    of a list, or by a new last block of [page] bytes or more. *)
Inductive malloced (brk page n : Z) (h : heap) (p : Z) (data : list Z) : heap → Prop :=
  | ma_fit l1 b l2 i h' :
      h_blocks h = l1 ++ b :: l2 → b_state b = Free → b_addr b = p → n ≤ b_size b →
      first_fit (h_blocks h) n (drop (class_of n) (h_lists h)) (calc_list_index n) = Some (p, i) →
      allocated l1 b l2 (h_lists h) (h_epi h) n data h' →
      malloced brk page n h p data h'
  | ma_extend l1 b l2 fls h' :
      first_fit (h_blocks h) n (drop (class_of n) (h_lists h)) (calc_list_index n) = None →
      coalesced (h_blocks h) (Blk brk (MAX n page) Loose (h_epi h)) [] (h_lists h) l1 b l2 fls →
      b_addr b = p → n ≤ b_size b → b_state b = Loose →
      allocated l1 (set_state Free b) l2 (enlist_blk b fls) false n data h' →
      malloced brk page n h p data h'.

(** ** Memory that cannot be told apart *)
Lemma rep_write s h m' :
  rep s h →
  (∀ x, in_lists (h_lists h) x →
        rdw m' x = rdw (ram s) x ∧ rdw m' (x + 4) = rdw (ram s) (x + 4)) →
  Forall (blk_ok m') (h_blocks h) → rdw m' (mem_brk s - 4) = rdw (ram s) (mem_brk s - 4) →
  same_on (λ q, mem_start_brk s ≤ q < mem_start_brk s + 12) (ram s) m' →
  rep (set_ram m' s) h.
Proof.
  intros [Hr Hf Hs] H1 H2 H3 H4. split; [|done..].
  destruct h as [bs fls epi]. apply (irep_update s m' (Heap bs fls epi) bs epi Hr); try done.
  - apply (ir_geo _ _ Hr).
  - apply (ir_links _ _ Hr).
  - rewrite H3. apply (ir_epi _ _ Hr).
Qed.

Lemma rep_mem_eq s h m' : rep s h → mem_eq (ram s) m' → rep (set_ram m' s) h.
Proof.
  intros Hr He. assert (Hw : ∀ p, rdw m' p = rdw (ram s) p) by (intros p; by rewrite He).
  apply rep_write; [done|by intros|..].
  - eapply Forall_impl; [apply (ir_blocks _ _ (rp_irep _ _ Hr))|]. intros b [H1 H2].
    split; [by rewrite Hw|]. destruct (b_state b).
    + destruct H2 as (x & y & E). exists x, y. by rewrite Hw.
    + destruct H2 as (x & y & E). exists x, y. by rewrite Hw.
    + by rewrite <- He.
  - done.
  - intros q _. by apply He.
Qed.

(** A word in the middle of an unallocated block is not read. *)
Lemma rep_interior s h r p v :
  rep s h → r ∈ h_blocks h → is_live r = false →
  b_addr r + 8 ≤ p → p + 4 ≤ b_addr r + b_size r - 8 →
  rep (set_ram (wrw (ram s) p v) s) h.
Proof.
  intros Hr Hin Hl Hp1 Hp2. pose proof (rp_irep _ _ Hr) as Hi.
  pose proof (ir_geo _ _ Hi) as Hg. destruct (ir_block _ _ _ Hi Hin) as (? & ? & ? & _).
  apply rep_write; [done|..].
  - intros x Hx. destruct (in_lists_block _ _ _ Hi Hx) as (b & Hb & <- & _).
    destruct (ir_block _ _ _ Hi Hb) as (_ & _ & ? & _).
    destruct (geo_disjoint _ _ _ _ _ Hg Hb Hin) as [->|?]; rewrite !rdw_wrw_ne by lia; done.
  - apply Forall_forall. intros b Hb.
    destruct (ir_block _ _ _ Hi Hb) as (_ & _ & ? & _ & _ & Hok).
    destruct (geo_disjoint _ _ _ _ _ Hg Hb Hin) as [->|?].
    + eapply blk_ok_links; [done..| |done]. intros q Hq. apply rdb_wrw_out. lia.
    + eapply blk_ok_same; [done| |done]. intros q Hq. apply rdb_wrw_out. lia.
  - apply rdw_wrw_ne. lia.
  - intros q Hq. apply rdb_wrw_out. cbn in *. lia.
Qed.

(** ** Live payloads under the block operations *)
Lemma lives_app l1 l2 : lives (l1 ++ l2) = lives l1 ++ lives l2.
Proof. apply omap_app. Qed.

Lemma lives_cons_not b l : is_live b = false → lives (b :: l) = lives l.
Proof. unfold lives, is_live, live_of. cbn. by destruct (b_state b). Qed.

Lemma lives_mid_not l1 b l2 : is_live b = false → lives (l1 ++ b :: l2) = lives (l1 ++ l2).
Proof. intros. by rewrite !lives_app, lives_cons_not. Qed.

Lemma is_live_set_Free b : is_live (set_state Free b) = false.
Proof. done. Qed.

Lemma coalesced_lives l1 b l2 fls l1' b' l2' fls' :
  coalesced l1 b l2 fls l1' b' l2' fls' → lives (l1' ++ l2') = lives (l1 ++ l2).
Proof.
  destruct 1; rewrite ?snoc_cons, ?lives_mid_not by done; done.
Qed.

Lemma mark_next_lives l2 epi : lives (mark_next l2 epi).1 = lives l2.
Proof. by destruct l2. Qed.

Lemma allocated_lives l1 b l2 fls epi n data h :
  allocated l1 b l2 fls epi n data h → is_live b = false →
  ∃ k1 k2, lives (h_blocks h) = k1 ++ (b_addr b, data) :: k2 ∧
           lives (l1 ++ b :: l2) = k1 ++ k2.
Proof.
  intros Ha Hb. exists (lives l1), (lives l2).
  rewrite lives_mid_not, lives_app by done. split; [|done].
  destruct Ha as [l1' r l2' fls' _ Hc|_]; cbn [h_blocks].
  - rewrite lives_mid_not by done. rewrite (coalesced_lives _ _ _ _ _ _ _ _ Hc).
    by rewrite snoc_cons, lives_app.
  - rewrite lives_app. cbn. by rewrite mark_next_lives.
Qed.

Lemma lives_elem bs p d :
  (p, d) ∈ lives bs ↔ ∃ b, b ∈ bs ∧ b_addr b = p ∧ b_state b = Live d.
Proof.
  unfold lives. rewrite list_elem_of_omap. unfold live_of. split.
  - intros (b & Hb & E). exists b. destruct (b_state b); simplify_eq. done.
  - intros (b & Hb & <- & E). exists b. by rewrite E.
Qed.

Lemma lives_NoDup a bs e : geo a bs e → NoDup (lives bs).*1.
Proof.
  revert a. induction bs as [|b bs IH]; intros a; cbn [geo]; [constructor|].
  intros (? & ? & ? & Hg). unfold lives. cbn. specialize (IH _ Hg).
  destruct (live_of b) as [[p d]|] eqn:E; [|done]. rewrite fmap_cons. constructor; [|done].
  intros ([q d'] & Eq & Hin)%list_elem_of_fmap. cbn in Eq. subst q.
  apply lives_elem in Hin as (c & Hc & Ec & _). destruct (geo_bounds _ _ _ _ Hg Hc).
  unfold live_of in E. destruct (b_state b); simplify_eq. lia.
Qed.

Lemma live_map_lookup s h p d :
  irep s h → live_map h !! p = Some d ↔ ∃ b, b ∈ h_blocks h ∧ b_addr b = p ∧ b_state b = Live d.
Proof.
  intros Hr. rewrite <- lives_elem. unfold live_map. symmetry.
  apply elem_of_list_to_map, (lives_NoDup _ _ _ (ir_geo _ _ Hr)).
Qed.

(** Adding or dropping one entry of the list of live payloads. *)
Lemma list_to_map_mid {A} (k1 k2 : list (Z * A)) p d :
  NoDup (k1 ++ (p, d) :: k2).*1 →
  (list_to_map (k1 ++ (p, d) :: k2) : gmap Z A) = <[p := d]> (list_to_map (k1 ++ k2)) ∧
  (list_to_map (k1 ++ k2) : gmap Z A) !! p = None.
Proof.
  intros Hnd. split.
  - rewrite <- list_to_map_cons. apply list_to_map_proper; [done|]. by rewrite Permutation_middle.
  - apply not_elem_of_list_to_map. rewrite fmap_app in *.
    apply NoDup_app in Hnd as (H1 & H2 & H3). rewrite fmap_cons in H2, H3.
    apply NoDup_cons in H3 as [H3 _].
    intros [Hp|Hp]%elem_of_app; [|done]. apply (H2 p Hp). by left.
Qed.

Lemma live_map_add s' h h' k1 k2 p d :
  irep s' h' → lives (h_blocks h') = k1 ++ (p, d) :: k2 → lives (h_blocks h) = k1 ++ k2 →
  live_map h' = <[p := d]> (live_map h) ∧ live_map h !! p = None.
Proof.
  intros Hr E' E. unfold live_map. rewrite E, E'. apply list_to_map_mid.
  rewrite <- E'. apply (lives_NoDup _ _ _ (ir_geo _ _ Hr)).
Qed.

(** ** The second [remove_from_list] of [mm_malloc] *)
Lemma unlist_head x j fls i y k :
  fls !! i = Some (y :: k) → x ≠ y → ∃ k', unlist x j fls !! i = Some (y :: k').
Proof.
  intros Hi Hne. unfold unlist. rewrite list_lookup_alter. case_decide; [subst|].
  - rewrite Hi. cbn [fmap option_fmap option_map]. rewrite filter_cons_True by congruence. eauto.
  - eauto.
Qed.

Lemma enlist_head x j fls i y k :
  fls !! i = Some (y :: k) → ∃ k', enlist x j fls !! i = Some (y :: k').
Proof.
  intros Hi. unfold enlist. rewrite list_lookup_alter. case_decide; [subst|eauto].
  rewrite Hi. cbn. eauto.
Qed.

(** What became of the block that followed the allocated one in its list: it
    is the head of that list now, or it was joined with the remainder. *)
Lemma allocated_stale s l1 b l2 fls epi n data h y k :
  irep s (Heap (l1 ++ b :: l2) fls epi) → n ≤ b_size b → 16 ≤ n →
  allocated l1 b l2 fls epi n data h →
  fls !! class_of (b_size b) = Some (b_addr b :: y :: k) →
  (∃ k', h_lists h !! class_of (b_size b) = Some (y :: k')) ∨
  (∃ r, r ∈ h_blocks h ∧ is_live r = false ∧
        b_addr r + 8 ≤ y + 4 ∧ y + 8 ≤ b_addr r + b_size r - 8).
Proof.
  intros Hr Hle H16 Ha Hi.
  pose proof (lo_nodup _ _ _ (ir_lists _ _ Hr) _ _ Hi) as Hnd.
  apply NoDup_cons in Hnd as [Hby _].
  assert (Hu : ∃ k', unlist_blk b fls !! class_of (b_size b) = Some (y :: k')).
  { unfold unlist_blk, unlist. rewrite list_lookup_alter, decide_True, Hi by done.
    cbn [fmap option_fmap option_map]. rewrite filter_cons_False by auto. rewrite filter_cons_True by set_solver. eauto. }
  destruct Hu as [k1 Hu]. destruct Ha as [l1' r l2' fls' H16r Hc|]; [|left; eauto].
  remember (unlist_blk b fls) as fls1 eqn:Ef. clear Ef Hi Hby.
  remember (Blk (b_addr b + n) (b_size b - n) Loose true) as r0 eqn:E0.
  pose proof (ir_geo _ _ Hr) as Hg. cbn [h_blocks] in Hg.
  destruct Hc as [ll r0 l2 fls1 Hp _|ll r0 c l2 fls1 Hp Hcl|?? r0 ??? Hp|?? r0 ???? Hp];
    subst r0; try done; cbn [h_lists h_blocks].
  - left. by eapply enlist_head.
  - destruct (decide (b_addr c = y)) as [<-|Hne].
    + right. eexists. split; [apply elem_of_app; right; by left|].
      cbn [set_state merged b_addr b_size is_live b_state].
      destruct (geo_mid _ _ _ _ _ Hg) as [_ (Ec & Hc16 & _)].
      split; [done|lia].
    + left. destruct (unlist_head (b_addr c) (class_of (b_size c)) _ _ _ _ Hu Hne) as [k2 Hk2].
      by eapply enlist_head.
Qed.

Lemma allocated_live l1 b l2 fls epi n data h :
  allocated l1 b l2 fls epi n data h → is_live b = false →
  ∃ c, c ∈ h_blocks h ∧ b_addr c = b_addr b ∧ b_state c = Live data.
Proof.
  intros Ha Hb. apply lives_elem. destruct (allocated_lives _ _ _ _ _ _ _ _ Ha Hb) as (? & ? & -> & _).
  set_solver.
Qed.

(** It therefore changes nothing that is read again. *)
Lemma wp_remove_stale s0 s l1 b l2 fls epi n data h k (Q : unit → st → Prop) :
  rep s0 (Heap (l1 ++ b :: l2) fls epi) → b_state b = Free → 16 ≤ n ≤ b_size b →
  fls !! class_of (b_size b) = Some (b_addr b :: k) →
  only_upd s0 s → allocated l1 b l2 fls epi n data h → rep s h →
  rdw (ram s) (b_addr b) = rdw (ram s0) (b_addr b) →
  rdw (ram s) (b_addr b + 4) = rdw (ram s0) (b_addr b + 4) →
  (∀ s', only_upd s0 s' → rep s' h → Q tt s') →
  wp (remove_from_list (b_addr b) (calc_list_index (b_size b))) s Q.
Proof.
  intros Hrep0 Hf Hn Hi Hupd Ha Hrep E1 E2 HQ.
  pose proof (rp_irep _ _ Hrep0) as Hr0. pose proof (rp_irep _ _ Hrep) as Hr.
  assert (Hb : b ∈ (l1 ++ b :: l2)) by set_solver.
  destruct (ir_block _ _ b Hr0 Hb) as (? & ? & ? & _). destruct (ir_bounds _ _ Hr0) as (? & _).
  destruct (only_upd_statics _ _ Hupd) as (Ear & _).
  assert (Hnv : ∀ x, node_valid s0 x → node_valid s x).
  { unfold node_valid, valid. by rewrite Ear. }
  destruct (dseg_node _ _ [] _ _ _ (lo_dseg _ _ _ (ir_lists _ _ Hr0) _ _ Hi)) as [N1 N2].
  change (last_or 0 []) with 0 in N2.
  assert (Hin : ∀ x, x ∈ b_addr b :: k → in_lists fls x) by (intros; by eapply in_lists_intro).
  destruct (class_of_lookup _ _ (b_size b) Hr) as [l' Hl']; [lia|].
  rewrite <- class_of_index by lia.
  apply (wp_remove_raw s _ _ 0 (hd_or 0 k) (hd_or 0 l')); [congruence|congruence| | |by left| |].
  - apply Hnv. eapply (ir_lists_valid _ _ _ Hr0), Hin. by left.
  - destruct k as [|y k]; [by left|right]. cbn [hd_or]. split.
    + apply Hnv. eapply (ir_lists_valid _ _ _ Hr0), Hin. right. by left.
    + apply (lo_apart _ _ _ (ir_lists _ _ Hr0)); [apply Hin; set_solver..|].
      intros E. pose proof (lo_nodup _ _ _ (ir_lists _ _ Hr0) _ _ Hi) as [Hd _]%NoDup_cons.
      apply Hd. rewrite E. by left.
  - by rewrite (lo_heads _ _ _ (ir_lists _ _ Hr)), list_lookup_fmap, Hl'.
  - assert (Hhd : hd_or 0 l' ≠ b_addr b).
    { destruct (hd_or_cases 0 l') as [[_ ->]|Hx]; [lia|]. intros E. rewrite E in Hx.
      destruct (in_lists_block _ _ (b_addr b) Hr) as (c & Hc & Ec & Hcf);
        [by eapply in_lists_intro|].
      destruct (allocated_live _ _ _ _ _ _ _ _ Ha) as (c' & Hc' & Ec' & Hcl);
        [unfold is_live; by rewrite Hf|].
      assert (c = c') as -> by (eapply (geo_inj _ _ _ _ _ (ir_geo _ _ Hr)); congruence).
      congruence. }
    destruct (Z.eqb_spec (hd_or 0 l') (b_addr b)) as [|_]; [done|].
    apply HQ.
    { eapply only_upd_trans; [done|]. apply only_upd_upd.
      eapply same_on_weaken; [|apply relink_same]. intros q Hq. cbn beta.
      split; [lia|]. destruct (hd_or_cases 0 k) as [[_ ->]|Hk]; [lia|].
      destruct (in_lists_block _ _ (hd_or 0 k) Hr0) as (c & Hc & Ec & _); [apply Hin; by right|].
      destruct (ir_block _ _ c Hr0 Hc) as (? & ? & ? & _).
      destruct (only_upd_statics _ _ Hupd) as (_ & _ & Es1 & Es2 & _). lia. }
    replace (upd _ _ s) with (set_ram (relink (ram s) 0 (hd_or 0 k)) s) by (by destruct s).
    unfold relink. cbn [Z.eqb]. destruct k as [|y k]; cbn [hd_or Z.eqb].
    { by destruct s. }
    destruct (Z.eqb_spec y 0); [by destruct s|].
    destruct (allocated_stale _ _ _ _ _ _ _ _ _ _ _ Hr0 (proj2 Hn) (proj1 Hn) Ha Hi)
      as [[k' Hk']|(r & Hrin & Hrl & Hr1 & Hr2)].
    + apply rep_mem_eq; [done|].
      destruct (dseg_node _ _ [] _ _ _ (lo_dseg _ _ _ (ir_lists _ _ Hr) _ _ Hk')) as [_ E].
      change (last_or 0 []) with 0 in E. rewrite <- E. apply wrw_id.
    + by apply (rep_interior _ _ r); try lia.
Qed.

(** ** Execution of [mm_malloc] *)

Lemma frame_only_upd s s' : only_upd s s' → frame s s'.
Proof. intros (? & ? & ? & ? & ? & ? & ? & ? & ?)%only_upd_statics. unfold frame. split_and!; done || lia. Qed.

(** The heap may have grown; no byte outside it changed. *)
Definition grown (s s' : st) : Prop :=
  frame s s' ∧ outside (mem_start_brk s) (mem_brk s') (ram s) (ram s').

Lemma grown_only_upd s s' : only_upd s s' → grown s s'.
Proof.
  intros H. split; [by apply frame_only_upd|].
  destruct (only_upd_statics _ _ H) as (_ & _ & _ & -> & _). apply H.
Qed.

Lemma grown_errno s e : grown s (set_errno e s).
Proof. split; [apply frame_errno|]. by intros q _. Qed.

Lemma grown_trans s1 s2 s3 : grown s1 s2 → grown s2 s3 → grown s1 s3.
Proof.
  intros [F12 O12] [F23 O23]. split; [by eapply frame_trans|].
  destruct F12 as (_ & E & _), F23 as (_ & _ & _ & _ & _ & Hb). rewrite E in O23.
  eapply outside_trans; [|done]. eapply same_on_weaken; [|done]. cbn beta. intros q Hq. lia.
Qed.

Lemma MAX_eq x y : MAX x y = Z.max x y.
Proof. unfold MAX. destruct (Z.ltb_spec y x); lia. Qed.

(** The new break, had it not wrapped around. *)
Definition request (s : st) (size : Z) : Z := MAX (ADJUST_BYTESIZE size) (ADJUSTED_PAGESIZE s).

(** [mem_brk + incr] does not leave the 32-bit address space. *)
Definition no_wrap (s : st) (size : Z) : Prop :=
  request s size < 2147483648 → mem_brk s + request s size < W32.

Lemma request_ok s h size :
  irep s h → 0 ≤ size ≤ 4294967284 →
  (8 | request s size) ∧ 16 ≤ request s size < W32 ∧ ADJUST_BYTESIZE size ≤ request s size.
Proof.
  intros Hr Hs. destruct (ADJUST_BYTESIZE_bounds size Hs) as (? & ? & ? & ? & ?).
  destruct (ir_page _ _ Hr) as (? & ?). unfold request. rewrite MAX_eq. unfold W32 in *.
  split; [|lia]. by destruct (Z.max_spec (ADJUST_BYTESIZE size) (ADJUSTED_PAGESIZE s)) as [[_ ->]|[_ ->]].
Qed.

Lemma coalesced_size l1 b l2 fls l1' b' l2' fls' :
  coalesced l1 b l2 fls l1' b' l2' fls' → Forall (λ c, 0 ≤ b_size c) (l1 ++ l2) →
  b_size b ≤ b_size b'.
Proof.
  destruct 1; rewrite ?Forall_app, ?Forall_cons; cbn [merged b_size]; [lia|..];
    intros; destruct_and!; lia.
Qed.

Lemma coalesced_loose l1 b l2 fls l1' b' l2' fls' :
  coalesced l1 b l2 fls l1' b' l2' fls' → b_state b = Loose → b_state b' = Loose.
Proof. by destruct 1. Qed.

Lemma rep_sizes s h : irep s h → Forall (λ c, 0 ≤ b_size c) (h_blocks h).
Proof. intros Hr. apply Forall_forall. intros c Hc. destruct (ir_block _ _ _ Hr Hc). lia. Qed.

Lemma wp_mm_malloc s h size (Q : Z → st → Prop) :
  rep s h → 0 < size ≤ 4294967284 → no_wrap s size →
  (∀ s' h' p data, grown s s' → rep s' h' →
     malloced (mem_brk s) (ADJUSTED_PAGESIZE s) (ADJUST_BYTESIZE size) h p data h' → Q p s') →
  (2147483648 ≤ request s size ∨ mem_max_addr s < mem_brk s + request s size →
   Q 0 (set_errno ENOMEM s)) →
  wp (mm_malloc size) s Q.
Proof.
  intros Hrep Hs Hw Hok Hbad. pose proof (rp_irep _ _ Hrep) as Hr.
  destruct (ADJUST_BYTESIZE_bounds size) as (H8 & H16 & _); [lia|].
  destruct (request_ok _ _ _ Hr (conj (Z.lt_le_incl _ _ (proj1 Hs)) (proj2 Hs))) as (R8 & R16 & Rn).
  unfold mm_malloc. destruct (Z.eqb_spec size 0) as [|_]; [lia|]. cbv zeta.
  set (n := ADJUST_BYTESIZE size) in *.
  wp_bind. apply (wp_find_fit _ _ _ _ Hr); [lia|].
  destruct (first_fit _ _ _ _) as [[x i]|] eqn:Ef.
  - pose proof Ef as Ef'. rewrite <- class_of_index in Ef' by lia.
    destruct (first_fit_Some _ _ n _ _ _ Hr ltac:(lia) Ef')
      as (b & k & Hb & <- & Hf & Hle & -> & Hl).
    destruct h as [bs fls epi]. cbn [h_blocks h_lists] in *.
    apply list_elem_of_split in Hb as (l1 & l2 & ->). wp_bind.
    apply (wp_allocate s l1 b l2 fls epi n _ Hrep Hf H8); [lia|].
    intros s' data h' Hupd Ha Hrep' E1 E2. wp_bind.
    eapply (wp_remove_stale s s' l1 b l2 fls epi n data h'); try done.
    intros s'' Hupd' Hrep''. apply wp_ret.
    apply (Hok _ h' _ data); [by apply grown_only_upd|done|]. by eapply ma_fit.
  - destruct h as [bs fls epi]. cbn [h_blocks h_lists] in *. wp_pure.
    fold (request s size) in *.
    apply (wp_extend_heap s bs fls epi (request s size) _ Hrep R8 R16 Hw).
    2: { intros Hc. cbn. by apply wp_ret, Hbad. }
    intros Hlt Hmax s1 l1 b l2 fls1 Hupd Hc Hrep1.
    assert (Hb1 : set_state Free b ∈ (l1 ++ set_state Free b :: l2)) by set_solver.
    destruct (ir_block _ _ _ (rp_irep _ _ Hrep1) Hb1) as (? & _).
    destruct (ir_bounds _ _ (rp_irep _ _ Hrep1)) as (? & _).
    change (b_addr (set_state Free b)) with (b_addr b) in *.
    destruct (Z.eqb_spec (b_addr b) 0); [lia|].
    assert (Hsz : request s size ≤ b_size b).
    { eapply coalesced_size in Hc; [exact Hc|]. rewrite app_nil_r.
      apply (rep_sizes _ _ Hr). }
    assert (Hfr : grown s s1).
    { destruct (only_upd_statics _ _ Hupd) as (?&?&?&E&?&?&?&?&?). destruct Hupd as [_ Ho]. cbn in *.
      split; [unfold frame; split_and!; (done || lia)|]. by rewrite E. }
    assert (Hloose : b_state b = Loose) by by eapply coalesced_loose.
    wp_bind. change (b_addr b) with (b_addr (set_state Free b)).
    apply (wp_allocate s1 l1 (set_state Free b) l2 _ false n _ Hrep1 eq_refl H8);
      [cbn [set_state b_size]; lia|].
    intros s' data h' Hupd' Ha Hrep' _ _. apply wp_ret.
    apply (Hok _ h' _ data); [|done|].
    + eapply grown_trans; [done|by apply grown_only_upd].
    + by eapply (ma_extend _ _ _ _ _ _ l1 b l2); try (done || lia).
Qed.

(** What the caller of a successful [mm_malloc] gets. *)
Lemma rep_live_length s h b data :
  irep s h → b ∈ h_blocks h → b_state b = Live data →
  length data = Z.to_nat (b_size b - 4) ∧ data = rdbs (ram s) (b_addr b) (length data).
Proof.
  intros Hr Hb Hd. destruct (ir_block _ _ _ Hr Hb) as (_ & _ & _ & _ & _ & _ & Hok).
  rewrite Hd in Hok. rewrite <- Hok. by rewrite rdbs_length.
Qed.

Lemma malloced_lives brk page n h p data h' :
  malloced brk page n h p data h' →
  ∃ k1 k2, lives (h_blocks h') = k1 ++ (p, data) :: k2 ∧ lives (h_blocks h) = k1 ++ k2.
Proof.
  intros [l1 b l2 i h1 E Hf <- _ _ Ha|l1 b l2 fls h1 _ Hc <- _ Hs Ha].
  - rewrite E. apply (allocated_lives _ _ _ _ _ _ _ _ Ha). unfold is_live. by rewrite Hf.
  - destruct (allocated_lives _ _ _ _ _ _ _ _ Ha eq_refl) as (k1 & k2 & E1 & E2).
    exists k1, k2. split; [done|]. rewrite <- E2, lives_mid_not by done.
    rewrite (coalesced_lives _ _ _ _ _ _ _ _ Hc). by rewrite app_nil_r.
Qed.

Lemma malloced_block s h brk page n p data h' :
  irep s h' → malloced brk page n h p data h' →
  ∃ b, b ∈ h_blocks h' ∧ b_addr b = p ∧ b_state b = Live data ∧ n ≤ b_size b.
Proof.
  assert (Hgen : ∀ h' l1 b l2 fls epi, allocated l1 b l2 fls epi n data h' → n ≤ b_size b →
    is_live b = false → irep s h' →
    ∃ c, c ∈ h_blocks h' ∧ b_addr c = b_addr b ∧ b_state c = Live data ∧ n ≤ b_size c).
  { clear h'. intros h' l1 b l2 fls epi Ha Hle Hb Hr.
    destruct Ha as [l1' r l2' fls' H16 Hc|Hsm]; cbn [h_blocks].
    - exists (Blk (b_addr b) n (Live data) (b_palloc b)). split; [|done].
      remember (l1 ++ [_]) as l eqn:El.
      destruct Hc; subst; try set_solver; by apply app_inj_tail in El as [-> ->].
    - exists (set_state (Live data) b). split; [set_solver|done]. }
  intros Hr Hm. destruct Hm as [l1 b l2 i h1 E Hf <- ? _ Ha|l1 b l2 fls h1 _ Hc <- ? Hs Ha].
  - apply (Hgen _ _ _ _ _ _ Ha); try done. unfold is_live. by rewrite Hf.
  - by apply (Hgen _ _ _ _ _ _ Ha).
Qed.

(** ** Execution of [mm_free] *)

(** The block of [p] is given back and joined with its neighbours. *)
Inductive freed (h : heap) (p : Z) : heap → Prop :=
  | freed_intro l1 b l2 data l1' b' l2' fls' :
      h_blocks h = l1 ++ b :: l2 → b_addr b = p → b_state b = Live data →
      coalesced l1 (set_state Loose b) l2 (h_lists h) l1' b' l2' fls' →
      freed h p (Heap (l1' ++ set_state Free b' :: l2') (enlist_blk b' fls') (h_epi h)).

Lemma wp_mm_free s h b data (Q : unit → st → Prop) :
  rep s h → b ∈ h_blocks h → b_state b = Live data →
  (∀ s' h', only_upd s s' → rep s' h' → freed h (b_addr b) h' → Q tt s') →
  wp (mm_free (b_addr b)) s Q.
Proof.
  intros Hrep Hb Hd HQ. pose proof (rp_irep _ _ Hrep) as Hr.
  destruct h as [bs fls epi]. cbn [h_blocks] in Hb.
  apply list_elem_of_split in Hb as (l1 & l2 & ->).
  assert (Hb : b ∈ (l1 ++ b :: l2)) by set_solver.
  destruct (rep_split _ _ _ _ _ _ Hrep) as [Hl1 Hl2].
  unfold mm_free. wp_bind. apply (wp_THISSIZE s _ b Hr Hb).
  wp_bind. apply (wp_free_block s l1 b l2 fls epi _ _ Hr); [congruence|].
  intros s1 Hupd1 Hr1. wp_bind. change (b_addr b) with (b_addr (set_state Loose b)).
  apply (wp_coalesce s1 l1 (set_state Loose b) l2 fls epi _ Hr1); try done.
  - pose proof (rp_flags _ _ Hrep) as Hpf. cbn [h_blocks h_epi] in Hpf.
    revert Hpf. rewrite !pflags_app. cbn [pflags set_state b_palloc]. intros (? & ? & ?).
    split_and!; try done. eapply pflags_weaken; [|done]. done.
  - intros s2 l1' b' l2' fls' Hupd2 Hc Hrep2. apply wp_ret.
    apply (HQ s2 (Heap (l1' ++ set_state Free b' :: l2') (enlist_blk b' fls') epi));
      [by eapply only_upd_trans|done|].
    by eapply (freed_intro (Heap _ fls epi) _ l1 b l2 data).
Qed.

Lemma freed_lives h p h' :
  freed h p h' →
  ∃ k1 k2 d, lives (h_blocks h) = k1 ++ (p, d) :: k2 ∧ lives (h_blocks h') = k1 ++ k2.
Proof.
  destruct 1 as [l1 b l2 d l1' b' l2' fls' E <- Hd Hc].
  exists (lives l1), (lives l2), d. rewrite E. cbn [h_blocks]. split.
  - rewrite lives_app. f_equal. unfold lives, live_of. cbn. by rewrite Hd.
  - rewrite lives_mid_not by done. rewrite (coalesced_lives _ _ _ _ _ _ _ _ Hc).
    apply lives_app.
Qed.

Lemma freed_live_map s h p h' :
  irep s h → freed h p h' → live_map h' = delete p (live_map h).
Proof.
  intros Hr (k1 & k2 & d & E & E')%freed_lives.
  destruct (live_map_add _ h' _ _ _ _ _ Hr E E') as [-> Hn].
  by rewrite delete_insert_id.
Qed.

(** The block at an address is in one place. *)
Lemma addr_split l1 b l2 k1 c k2 :
  NoDup (b_addr <$> l1 ++ b :: l2) → l1 ++ b :: l2 = k1 ++ c :: k2 → b_addr b = b_addr c →
  l1 = k1 ∧ b = c ∧ l2 = k2.
Proof.
  revert k1. induction l1 as [|x l1 IH]; intros [|y k1]; cbn [app]; rewrite fmap_cons;
    intros [Hn Hd]%NoDup_cons [= Ex E] Ha.
  - by subst.
  - destruct Hn. rewrite Ha, E. apply list_elem_of_fmap. exists c. split; [done|set_solver].
  - destruct Hn. rewrite Ex, <- Ha. apply list_elem_of_fmap. exists b. split; [done|set_solver].
  - destruct (IH k1 Hd E Ha) as (-> & -> & ->). by subst.
Qed.

Lemma freed_at s h l1 b l2 h' :
  irep s h → h_blocks h = l1 ++ b :: l2 → freed h (b_addr b) h' →
  ∃ l1' b' l2' fls', coalesced l1 (set_state Loose b) l2 (h_lists h) l1' b' l2' fls' ∧
    h_blocks h' = l1' ++ set_state Free b' :: l2'.
Proof.
  intros Hr E Hf. destruct Hf as [k1 c k2 data l1' b' l2' fls' Ek Ha Hd Hc].
  pose proof (geo_NoDup_addr _ _ _ (ir_geo _ _ Hr)) as Hn. rewrite E in Ek, Hn.
  destruct (addr_split _ _ _ _ _ _ Hn Ek (eq_sym Ha)) as (<- & <- & <-).
  by exists l1', b', l2', fls'.
Qed.

(** Two blocks of which one ends where the other one starts. *)
Lemma adjacent_split s h a b :
  irep s h → a ∈ h_blocks h → b ∈ h_blocks h → b_addr b = b_addr a + b_size a →
  ∃ l1 l2, h_blocks h = l1 ++ a :: b :: l2.
Proof.
  intros Hr Ha Hb Hab. pose proof (ir_geo _ _ Hr) as Hg.
  apply list_elem_of_split in Ha as (l1 & l2 & E). pose proof Hg as Hg'. rewrite E in Hg'.
  destruct (geo_mid _ _ _ _ _ Hg') as [_ Hg2]. exists l1.
  destruct l2 as [|c l2]; cbn [geo] in Hg2.
  - destruct (ir_block _ _ _ Hr Hb) as (_ & ? & ? & _). lia.
  - destruct Hg2 as (Ec & _). exists l2. rewrite E. do 2 f_equal. f_equal.
    apply (geo_inj _ _ _ _ _ Hg); [rewrite E; set_solver|done|congruence].
Qed.

(** Freeing a block in front of a live one, and then the live one, leaves
    two free blocks side by side. *)
Lemma freed_ascending s h l1 a b l2 s1 h1 h2 :
  rep s h → h_blocks h = l1 ++ a :: b :: l2 → is_live a = true → is_live b = true →
  freed h (b_addr a) h1 → rep s1 h1 → freed h1 (b_addr b) h2 →
  ∃ k1 x y k2, h_blocks h2 = k1 ++ x :: y :: k2 ∧ b_state x = Free ∧ b_state y = Free ∧
    b_addr x ≤ b_addr a ∧ b_addr x + b_size x = b_addr b ∧ b_addr y = b_addr b.
Proof.
  intros Hrep E Ha Hb Hf1 Hrep1 Hf2. pose proof (rp_irep _ _ Hrep) as Hr.
  assert (Hpa : b_palloc b = true).
  { pose proof (rp_flags _ _ Hrep) as Hp. rewrite E in Hp. apply pflags_app in Hp as [_ Hp].
    cbn [pflags] in Hp. destruct Hp as (_ & Hp & _). rewrite Ha in Hp.
    destruct (b_palloc b); [done|]. by specialize (Hp eq_refl). }
  pose proof (ir_geo _ _ Hr) as Hg. rewrite E in Hg.
  assert (Hab : b_addr b = b_addr a + b_size a).
  { destruct (geo_mid _ _ _ _ _ Hg) as [_ [? _]]. done. }
  (* the first of them keeps its neighbour *)
  destruct (freed_at _ _ _ _ _ _ Hr E Hf1) as (m1 & a' & m2 & f1 & Hc1 & E1).
  assert (Ea : m2 = b :: l2 ∧ b_addr a' ≤ b_addr a ∧ b_addr a' + b_size a' = b_addr b).
  { inversion Hc1; subst; cbn [next_live set_state b_addr b_size merged] in *; try congruence.
    - split_and!; (done || lia).
    - match type of E with _ = (_ ++ [?z]) ++ _ => set (c := z) in * end.
      rewrite snoc_cons in Hg. destruct (geo_mid _ _ _ _ _ Hg) as [_ [Hca _]].
      assert (c ∈ h_blocks h) by (rewrite E; set_solver).
      destruct (ir_block _ _ c Hr) as (_ & _ & ? & _); [done|]. split_and!; (done || lia). }
  destruct Ea as (-> & Hle & Hadj).
  (* and the second does not see it *)
  assert (E1' : h_blocks h1 = (m1 ++ [set_state Free a']) ++ b :: l2) by (by rewrite snoc_cons).
  destruct (freed_at _ _ _ _ _ _ (rp_irep _ _ Hrep1) E1' Hf2) as (n1 & b' & n2 & f2 & Hc2 & E2).
  assert (Eb : n1 = m1 ++ [set_state Free a'] ∧ b_addr b' = b_addr b).
  { inversion Hc2; subst; cbn [set_state b_palloc b_addr merged] in *; (congruence || by split). }
  destruct Eb as (-> & Eb). rewrite snoc_cons in E2.
  eexists _, _, _, _. split; [exact E2|]. by split_and!.
Qed.

(** ** Writes of the program into its own blocks *)

(** A block with another payload. *)
Lemma rep_user_write s l1 b l2 fls epi d0 m' :
  rep s (Heap (l1 ++ b :: l2) fls epi) → b_state b = Live d0 →
  outside (b_addr b) (b_addr b + b_size b - 4) (ram s) m' →
  rep (set_ram m' s)
    (Heap (l1 ++ set_state (Live (rdbs m' (b_addr b) (Z.to_nat (b_size b - 4)))) b :: l2) fls epi).
Proof.
  intros Hrep Hd Hout. pose proof (rp_irep _ _ Hrep) as Hr.
  destruct (rep_split _ _ _ _ _ _ Hrep) as [Hl1 Hl2].
  assert (Hb : b ∈ (l1 ++ b :: l2)) by set_solver.
  destruct (ir_block _ _ b Hr Hb) as (? & ? & ? & ? & _ & [Hh _]).
  destruct (geo_mid _ _ _ _ _ (ir_geo _ _ Hr)) as [Hg1 _].
  set (t := Live _). split.
  - apply (irep_region s l1 [b] [set_state t b] l2 fls epi (b_addr b) (b_addr b + b_size b) m' Hr Hg1).
    + cbn [geo]. by split_and!.
    + cbn [geo set_state b_addr b_size]. by split_and!.
    + constructor; [congruence|constructor].
    + by repeat constructor.
    + intros q Hq. apply Hout. lia.
    + constructor; [|done]. split; [|done]. cbn [set_state b_addr b_size b_palloc].
      change (is_live (set_state t b)) with true.
      unfold is_live in Hh. rewrite Hd in Hh. rewrite <- Hh.
      apply rdw_same. intros q Hq. apply Hout. lia.
  - pose proof (rp_flags _ _ Hrep) as Hpf. cbn [h_blocks h_epi] in *.
    apply pflags_set_state; [|done]. unfold is_live. by rewrite Hd.
  - apply Forall_app. split; [done|]. by constructor.
Qed.

Lemma lives_mid_live l1 b l2 d :
  b_state b = Live d → lives (l1 ++ b :: l2) = lives l1 ++ (b_addr b, d) :: lives l2.
Proof. intros Hd. rewrite lives_app. f_equal. unfold lives, live_of. cbn. by rewrite Hd. Qed.

Lemma live_map_put s s' l1 b l2 fls epi d0 d :
  irep s (Heap (l1 ++ b :: l2) fls epi) →
  irep s' (Heap (l1 ++ set_state (Live d) b :: l2) fls epi) → b_state b = Live d0 →
  live_map (Heap (l1 ++ set_state (Live d) b :: l2) fls epi) =
  <[b_addr b := d]> (live_map (Heap (l1 ++ b :: l2) fls epi)).
Proof.
  intros Hr Hr' Hd. unfold live_map. cbn [h_blocks].
  pose proof (lives_NoDup _ _ _ (ir_geo _ _ Hr)) as H1.
  pose proof (lives_NoDup _ _ _ (ir_geo _ _ Hr')) as H2. cbn [h_blocks] in *.
  assert (E1 := lives_mid_live l1 b l2 d0 Hd).
  assert (E2 := lives_mid_live l1 (set_state (Live d) b) l2 d eq_refl).
  rewrite E1 in H1 |- *. rewrite E2 in H2 |- *.
  cbn [set_state b_addr] in *.
  destruct (list_to_map_mid _ _ _ _ H1) as [-> _]. destruct (list_to_map_mid _ _ _ _ H2) as [-> _].
  by rewrite insert_insert_eq.
Qed.

(** ** Execution of [mm_realloc] *)
Lemma malloced_payload s h s' brk page n p data h' :
  irep s' h' → malloced brk page n h p data h' → 16 ≤ n → irep s h →
  live_map h' = <[p := data]> (live_map h) ∧ live_map h !! p = None ∧ (8 | p) ∧
  n - 4 ≤ Z.of_nat (length data) ∧ mem_start_brk s' + 16 ≤ p ∧
  p + Z.of_nat (length data) < mem_brk s'.
Proof.
  intros Hr' Hm Hn Hr. destruct (malloced_lives _ _ _ _ _ _ _ Hm) as (k1 & k2 & E1 & E2).
  destruct (live_map_add _ h _ _ _ _ _ Hr' E1 E2) as [H1 H2].
  destruct (malloced_block s' _ _ _ _ _ _ _ Hr' Hm) as (b & Hb & <- & Hd & Hle).
  destruct (rep_live_length _ _ _ _ Hr' Hb Hd) as [Hlen _].
  destruct (ir_block _ _ _ Hr' Hb) as (? & ? & ? & ? & ? & _).
  split_and!; (done || lia).
Qed.

(** The bytes of a payload after a copy into it. *)
Lemma copied_prefix m p old d0 n (k copy : nat) :
  (k ≤ copy)%nat → (copy ≤ n)%nat → (k ≤ length d0)%nat → d0 = rdbs m old (length d0) →
  take k (rdbs (wrbs m p (rdbs m old copy)) p n) = take k d0.
Proof.
  intros H1 H2 H3 Hd. set (m' := wrbs _ _ _). rewrite rdbs_take.
  replace (k `min` n)%nat with (k `min` copy)%nat by lia. rewrite <- rdbs_take.
  assert (E : rdbs m' p copy = rdbs m old copy).
  { pose proof (rdbs_wrbs m p (rdbs m old copy)) as E. rewrite rdbs_length, rdbs_u8 in E. done. }
  rewrite E, rdbs_take. trans (take k (rdbs m old (length d0))); [|by rewrite <- Hd].
  rewrite rdbs_take. f_equal. lia.
Qed.

Lemma wp_mm_realloc s h b d0 size (Q : Z → st → Prop) :
  rep s h → b ∈ h_blocks h → b_state b = Live d0 → 0 < size ≤ 4294967284 → no_wrap s size →
  (∀ s' h' p d, grown s s' → rep s' h' →
     live_map h' = <[p := d]> (delete (b_addr b) (live_map h)) → live_map h !! p = None →
     (8 | p) → size ≤ Z.of_nat (length d) → mem_start_brk s + 16 ≤ p →
     p + Z.of_nat (length d) < mem_brk s' →
     let k := (Z.to_nat size `min` length d0)%nat in take k d = take k d0 → Q p s') →
  (2147483648 ≤ request s size ∨ mem_max_addr s < mem_brk s + request s size →
   Q 0 (set_errno ENOMEM s)) →
  wp (mm_realloc (b_addr b) size) s Q.
Proof.
  intros Hrep Hb Hd0 Hs Hw HQ Hbad. pose proof (rp_irep _ _ Hrep) as Hr.
  destruct (ADJUST_BYTESIZE_bounds size) as (_ & H16 & Hsz & _); [lia|].
  unfold mm_realloc. wp_bind. apply (wp_mm_malloc s h size _ Hrep Hs Hw); [|by intros; apply wp_ret, Hbad].
  intros s1 h1 p data Hfr Hrep1 Hm. pose proof (rp_irep _ _ Hrep1) as Hr1.
  destruct (malloced_payload _ _ _ _ _ _ _ _ _ Hr1 Hm H16 Hr) as (Elm & Hnone & H8 & Hlen & Hlo & Hhi).
  destruct (malloced_block _ _ _ _ _ _ _ _ Hr1 Hm) as (cn & Hcn & Ep & Hcd & Hcle).
  destruct (ir_bounds _ _ Hr1) as (? & ? & ? & _). destruct (Z.eqb_spec p 0); [lia|].
  assert (Hold : live_map h !! b_addr b = Some d0) by (apply (live_map_lookup _ _ _ _ Hr); eauto).
  assert (Hne : p ≠ b_addr b) by congruence.
  assert (Hold1 : live_map h1 !! b_addr b = Some d0) by (by rewrite Elm, lookup_insert_ne).
  apply (live_map_lookup _ _ _ _ Hr1) in Hold1 as (c & Hc & Ec & Hcs).
  destruct (rep_live_length _ _ _ _ Hr1 Hc Hcs) as [Hcl Hcr].
  destruct (rep_live_length _ _ _ _ Hr1 Hcn Hcd) as [Hnl _].
  destruct (ir_block _ _ _ Hr1 Hc) as (? & ? & ? & _).
  destruct (ir_block _ _ _ Hr1 Hcn) as (? & ? & ? & _).
  assert (Hdis : b_addr cn + b_size cn ≤ b_addr c ∨ b_addr c + b_size c ≤ b_addr cn).
  { destruct (geo_disjoint _ _ _ _ _ (ir_geo _ _ Hr1) Hcn Hc) as [->|]; [congruence|done]. }
  rewrite <- Ec. wp_bind. apply (wp_THISSIZE s1 _ c Hr1 Hc). cbv zeta.
  set (copy := if size <? b_size c then size else b_size c).
  assert (Hcopy : copy = Z.min size (b_size c)) by (subst copy; destruct (Z.ltb_spec size (b_size c)); lia).
  wp_bind. apply wp_memcpy; [lia|eapply ir_valid; [done|lia..]|eapply ir_valid; [done|lia..]|lia|].
  destruct h1 as [bs fls epi]. cbn [h_blocks] in *.
  apply list_elem_of_split in Hcn as (l1 & l2 & ->).
  set (m' := wrbs _ _ _). set (d := rdbs m' (b_addr cn) (Z.to_nat (b_size cn - 4))).
  assert (Hout : outside (b_addr cn) (b_addr cn + b_size cn - 4) (ram s1) m').
  { intros q Hq. apply rdb_wrbs_out. rewrite rdbs_length. lia. }
  pose proof (rep_user_write _ _ _ _ _ _ _ _ Hrep1 Hcd Hout) as Hrep2. fold d in Hrep2.
  pose proof (rp_irep _ _ Hrep2) as Hr2.
  assert (Hc2 : c ∈ (l1 ++ set_state (Live d) cn :: l2)).
  { rewrite elem_of_app, elem_of_cons in *. destruct Hc as [?|[->|?]]; [by left| |by right; right].
    congruence. }
  wp_bind. apply (wp_mm_free _ _ c d0 _ Hrep2 Hc2 Hcs).
  intros s3 h3 Hupd Hrep3 Hfreed. apply wp_ret.
  pose proof (freed_live_map _ _ _ _ Hr2 Hfreed) as Elm3.
  rewrite (live_map_put _ _ _ _ _ _ _ data d Hr1 Hr2 Hcd), Elm, Ec, Ep in Elm3.
  destruct (only_upd_statics _ _ Hupd) as (_&_&Est&Ebk&_). cbn [set_ram mem_start_brk mem_brk] in Est, Ebk.
  assert (Hg3 : grown s s3).
  { eapply grown_trans; [exact Hfr|]. eapply grown_trans; [|by apply grown_only_upd].
    split; [apply frame_ram|]. eapply same_on_weaken; [|exact Hout]. cbn. intros q Hq. lia. }
  destruct Hfr as [(?&?&?&?&?&?) _].
  assert (Hdl : length d = length data) by (subst d; rewrite rdbs_length; lia).
  apply (HQ s3 h3 p d); try done; try lia.
  - rewrite Elm3, insert_insert_eq. by rewrite delete_insert_ne.
  - subst d m'. rewrite Ep. apply copied_prefix; [lia|lia|lia|congruence].
Qed.

(** ** Execution of [mm_init] *)

(** The state of the heap after [mm_init], with [B] the arena and [n] the
    adjusted page size. *)
Definition init_heap (B n : Z) : heap :=
  Heap [Blk (B + 16) n Free true]
       (enlist (B + 16) (class_of n) (replicate (Z.to_nat FREELIST_COUNT) [])) false.

Lemma empty_lists_ok m :
  lists_ok m (replicate (Z.to_nat FREELIST_COUNT) 0) (replicate (Z.to_nat FREELIST_COUNT) []).
Proof.
  assert (Hno : ∀ i (l : list Z), replicate (Z.to_nat FREELIST_COUNT) [] !! i = Some l → l = [])
    by (by intros i l [-> _]%lookup_replicate).
  assert (Hno' : ∀ x, ¬ in_lists (replicate (Z.to_nat FREELIST_COUNT) []) x).
  { intros x (i & l & Hi & Hx). apply Hno in Hi as ->. set_solver. }
  split.
  - by rewrite fmap_replicate.
  - intros i l ->%Hno. done.
  - intros i l ->%Hno. constructor.
  - intros i j l l' x ->%Hno. set_solver.
  - intros x y []%Hno'.
  - intros x []%Hno'.
Qed.

Lemma empty_links bs :
  Forall (λ b, b_state b ≠ Free) bs → links bs (replicate (Z.to_nat FREELIST_COUNT) []).
Proof.
  intros Hbs. split; [by rewrite length_replicate|].
  intros i l x [-> _]%lookup_replicate. split; [set_solver|].
  intros (b & Hb & _ & Hf & _). rewrite Forall_forall in Hbs. by destruct (Hbs _ Hb).
Qed.

(** The words [mm_init] writes. *)
Definition init_ram (m : gmap Z Z) (B n : Z) : gmap Z Z :=
  wrw (wrw (wrw (wrw (wrw (wrw m B ALIGN_WORD) (B + 4) (tag DSIZE true true))
                     (B + 8) (tag DSIZE true true))
                (B + n + 12) (tag EPILOGUE true false))
           (B + 12) (tag n false true))
      (B + n + 8) (tag n false true).

Lemma init_ram_words m B n :
  16 ≤ n < W32 → (8 | n) →
  prologue_ok (init_ram m B n) B ∧
  rdw (init_ram m B n) (B + n + 12) = tag EPILOGUE true false ∧
  blk_ok (init_ram m B n) (Blk (B + 16) n Loose true).
Proof.
  intros Hn H8. assert (Ht : 0 ≤ tag n false true < W32) by (apply tag_range; [auto|lia]).
  assert (Hd : 0 ≤ tag DSIZE true true < W32) by done.
  assert (He : 0 ≤ tag EPILOGUE true false < W32) by done.
  assert (Ha : 0 ≤ ALIGN_WORD < W32) by done.
  unfold init_ram, prologue_ok, blk_ok. cbn [b_addr b_size b_state b_palloc is_live].
  assert (Hrd : ∀ m p v q, q = p → 0 ≤ v < W32 → rdw (wrw m p v) q = v).
  { intros ???? -> ?. by apply rdw_wrw_eq. }
  split_and!; [..|exists false, true];
    repeat (rewrite Hrd by (done || lia); done) || (rewrite rdw_wrw_ne by lia).
  all: try (apply Hrd; (done || lia)).
Qed.

(** The fresh heap, before its block is put into a list. *)
Lemma irep_fresh s B n m :
  memlib_ok s → mem_start_brk s = B → mem_brk s = B + n + 16 →
  heap_start s = B → heap_end s = B + n + 15 → ADJUSTED_PAGESIZE s = n →
  free_lists s = replicate (Z.to_nat FREELIST_COUNT) 0 →
  (8 | n) → 16 ≤ n < 2147483648 → ram s = init_ram m B n →
  irep s (Heap ([] ++ Blk (B + 16) n Loose true :: []) (replicate (Z.to_nat FREELIST_COUNT) []) false).
Proof.
  intros Hm Hst Hbrk Hs He Hp Hf H8 Hn Hram. pose proof (mo_top _ Hm). pose proof (mo_brk _ Hm).
  pose proof (mo_start _ Hm).
  destruct (init_ram_words m B n) as (Hpr & Hepi & Hblk); [unfold W32 in *; lia|done|].
  split; cbn [h_blocks h_lists h_epi app].
  - done.
  - congruence.
  - lia.
  - rewrite Hp. done.
  - cbn [geo b_addr b_size]. rewrite Hst. split_and!; (done || lia).
  - apply empty_links. by repeat constructor.
  - rewrite Hf. apply empty_lists_ok.
  - rewrite Hram. by constructor.
  - rewrite Hram, <- Hepi, Hbrk. f_equal. lia.
  - rewrite Hram, Hst. done.
Qed.

Lemma adjusted_page (HL : LibcOk L) :
  let n := ADJUST_BYTESIZE (mul32 (u32 libc_getpagesize) 2) in
  (8 | n) ∧ 16 ≤ n < 131100.
Proof.
  pose proof page_positive. cbv zeta.
  assert (E : u32 libc_getpagesize = libc_getpagesize) by (apply u32_small; unfold W32; lia).
  rewrite E, mul32_small by (unfold W32; lia).
  destruct (ADJUST_BYTESIZE_bounds (libc_getpagesize * 2)) as (? & ? & ? & ? & ?); [lia|].
  split; [done|lia].
Qed.

(** The tags of the fresh heap and its free block. *)
Lemma wp_init_blocks s B n (Q : Z → st → Prop) :
  memlib_ok s → mem_start_brk s = B → mem_brk s = B + n + 16 →
  heap_start s = B → heap_end s = B + n + 15 → ADJUSTED_PAGESIZE s = n →
  free_lists s = replicate (Z.to_nat FREELIST_COUNT) 0 →
  (8 | n) → 16 ≤ n < 2147483648 →
  (∀ s', only_upd s s' → rep s' (init_heap B n) → Q 0 s') →
  wp (PUTW B ALIGN_WORD;;
      PUTW (add32 B (1 * WSIZE)) (PACK DSIZE (Z.lor THISALLOC PREVALLOC));;
      PUTW (add32 B (2 * WSIZE)) (PACK DSIZE (Z.lor THISALLOC PREVALLOC));;
      PUTW (add32 (add32 B n) (3 * WSIZE)) (PACK EPILOGUE THISALLOC);;
      PUTW (add32 B (3 * WSIZE)) (PACK n PREVALLOC);;
      PUTW (sub32 (add32 (sub32 (heap_end s) WSIZE) 1) WSIZE) (PACK n PREVALLOC);;
      add_to_list (add32 B (4 * WSIZE)) (calc_list_index n);;
      mret 0) s Q.
Proof.
  intros Hm Hst Hbrk Hs He Hp Hf H8 Hn HQ.
  pose proof (mo_start _ Hm). pose proof (mo_top _ Hm). pose proof (mo_max _ Hm) as Hmax.
  pose proof (mo_brk _ Hm). rewrite He. unfold WSIZE, PUTW.
  rewrite (sub32_small (B + n + 15)) by lia. rewrite (add32_small (B + n + 15 - 4)) by lia.
  rewrite sub32_small by lia. rewrite (add32_small B n) by lia. rewrite !add32_small by lia.
  assert (Hv : ∀ m p k, B ≤ p → p + k ≤ B + n + 16 → valid (set_ram m s) p k = true).
  { intros m p k ??. apply (memlib_ok_valid s p k Hm); lia. }
  change (PACK DSIZE (Z.lor THISALLOC PREVALLOC)) with (tag DSIZE true true).
  change (PACK EPILOGUE THISALLOC) with (tag EPILOGUE true false).
  change (PACK n PREVALLOC) with (tag n false true).
  wp_bind. apply wp_store32; [apply (Hv (ram s)); lia|].
  do 5 (wp_bind; apply wp_store32; [apply Hv; lia|]). cbn [ram set_ram].
  match goal with |- wp _ (set_ram ?m ?t) _ =>
    replace (set_ram m t) with (set_ram (init_ram (ram s) B n) s) end.
  2: { unfold init_ram, set_ram. cbn. repeat (f_equal; try lia). }
  set (s4 := set_ram _ s).
  assert (Hr : irep s4 (Heap ([] ++ Blk (B + 16) n Loose true :: [])
                  (replicate (Z.to_nat FREELIST_COUNT) []) false)).
  { apply (irep_fresh s4 B n (ram s)); try done. by destruct Hm; split. }
  wp_bind. apply (wp_heap_add s4 [] _ [] _ _ _ Hr eq_refl).
  intros m' heads' Hr' Hlk. apply wp_ret. apply HQ.
  { apply (only_upd_trans _ s4); [|by eapply only_upd_links; [exact Hr| |exact Hlk]].
    apply only_upd_ram. unfold init_ram. in_heap. }
  split; [exact Hr'| |].
  - cbn. by repeat split.
  - by repeat constructor.
Qed.

(** The heap is set up in any new arena. *)
Lemma wp_mm_init_heap (HL : LibcOk L) s1 (Q : Z → st → Prop) :
  let B := mem_start_brk s1 in
  let n := ADJUST_BYTESIZE (mul32 (u32 libc_getpagesize) 2) in
  memlib_ok s1 → mem_brk s1 = B →
  (∀ s', rep s' (init_heap B n) → mem_start_brk s' = B → mem_brk s' = B + n + 16 →
     mem_max_addr s' = B + MAX_HEAP → arenas s' = arenas s1 →
     PAGE_SIZE s' = u32 libc_getpagesize → ADJUSTED_PAGESIZE s' = n →
     outside B (B + n + 16) (ram s1) (ram s') → Q 0 s') →
  wp (mm_init_heap (mret tt)) s1 Q.
Proof.
  intros B n Hm Hbrk HQ. destruct (adjusted_page HL) as [H8 Hn]. fold n in H8, Hn.
  assert (Hst : mem_start_brk s1 = B) by done. unfold mm_init_heap.
  pose proof (mo_start _ Hm). pose proof (mo_top _ Hm). pose proof (mo_max _ Hm) as Hmax.
  pose proof MAX_HEAP_eq as HM.
  unfold mem_pagesize. wp_pure. cbn [PAGE_SIZE set_PAGE_SIZE ADJUSTED_PAGESIZE set_ADJUSTED_PAGESIZE].
  fold n. clearbody B n. set (s2 := set_ADJUSTED_PAGESIZE _ _).
  assert (Hm2 : memlib_ok s2) by (by destruct Hm; split).
  change (add32 n (4 * WSIZE)) with (add32 n 16). rewrite add32_small, s32_small by (unfold W32; lia).
  assert (Hb2 : mem_brk s2 = B) by (change (mem_brk s2) with (mem_brk s1); done).
  change (mem_max_addr s1) with (mem_max_addr s2) in *.
  apply wp_mem_sbrk; [done|lia| |lia]. intros _ Hle. rewrite Hb2. wp_pure.
  destruct (Z.eqb_spec B 0); [lia|]. unfold mem_heap_hi. wp_pure.
  cbn [mem_brk set_heap_start set_mem_brk heap_start].
  set (s3 := set_heap_end _ _).
  assert (Hhi : sub32 (B + (n + 16)) 1 = B + n + 15) by (rewrite sub32_small; lia).
  change (heap_start s3) with B. apply wp_unbind, (wp_init_blocks s3 B n); try done.
  - destruct (memlib_ok_brk s2 (B + (n + 16)) Hm2);
      [change (mem_start_brk s2) with (mem_start_brk s1); lia|by split].
  - cbn. lia.
  - lia.
  - intros s' Hupd Hrep. destruct (only_upd_statics _ _ Hupd) as (Ea&_&E1&E2&E3&E4&E5&_).
    destruct Hupd as [_ Ho].
    apply HQ; [done|rewrite E1|rewrite E2|rewrite E3|done|done|done|].
    + done.
    + cbn. lia.
    + change (mem_max_addr s2 = B + MAX_HEAP). lia.
    + cbn in Ho. rewrite Hst in Ho. replace (B + n + 16) with (B + (n + 16)) by lia. exact Ho.
Qed.

Lemma wp_mm_init (HL : LibcOk L) s (Q : Z → st → Prop) :
  let B := libc_malloc (arenas s) MAX_HEAP in
  let n := ADJUST_BYTESIZE (mul32 (u32 libc_getpagesize) 2) in
  B ≠ 0 →
  (∀ s', rep s' (init_heap B n) → mem_start_brk s' = B → mem_brk s' = B + n + 16 →
     mem_max_addr s' = B + MAX_HEAP → arenas s' = B :: arenas s →
     PAGE_SIZE s' = u32 libc_getpagesize → ADJUSTED_PAGESIZE s' = n → Q 0 s') →
  wp mm_init s Q.
Proof.
  intros B n HB HQ. unfold mm_init. wp_bind. apply (wp_mem_init HL); [done|].
  intros s1 Hm Hbrk Hst Har _ _. fold B in Hst. apply (wp_mm_init_heap HL); [done|done|].
  rewrite Har, Hst. intros s' H1 H2 H3 H4 H5 H6 H7 _. by apply HQ.
Qed.

End Malloc.
