(* ===== verification/MmCheck.v ===== *)
(** * The heap checker (src/mm.c, [mm_check])

    The consistency check compiled in under [DO_MM_CHECK], with or without
    the scan compiled in under [DO_HEAP_OVERWRITE_CHECK], and what it decides
    on a represented heap: it passes if every block is smaller than
    [MAX_BLOCK_ALLOCSIZE] (and the memory behind the break is zero) and stops
    at an [assert] otherwise. *)

From Stdlib Require Import ZArith Lia.
From stdpp Require Import base gmap numbers list.
From S2P Require Import Prelude Memory Memlib Sizes Blocks FreeList Heap HeapRules.

Definition MAX_BLOCK_ALLOCSIZE : Z := 1000000.

Section MmCheck.
Context {L : Libc}.

(** ** The code *)
Fixpoint check_list_loop (fuel : nat) (bp : Z) : M st unit :=
  match fuel with
  | O => fail OutOfFuel
  | S fuel' =>
      if bp =? 0 then mret tt
      else
        alloc ← GET_THISALLOC bp;
        assert_c (alloc =? 0);;
        size ← GET_THISSIZE bp;
        assert_c (size <? MAX_BLOCK_ALLOCSIZE);;
        next ← load32 (next_free (MEMHEADER_FROM_PAYLOAD bp));
        check_list_loop fuel' next
  end.

(** The outer loop: [n] lists from number [i] on. *)
Fixpoint check_lists_loop (n : nat) (i : Z) : M st unit :=
  match n with
  | O => mret tt
  | S n' =>
      bp ← get_free_list i;
      fuel ← gets list_fuel;
      check_list_loop fuel bp;;
      check_lists_loop n' (i + 1)
  end.

Fixpoint check_blocks_loop (fuel : nat) (bp : Z) : M st unit :=
  match fuel with
  | O => fail OutOfFuel
  | S fuel' =>
      hend ← gets heap_end;
      if bp <? hend then
        size ← GET_THISSIZE bp;
        assert_c (size <? MAX_BLOCK_ALLOCSIZE);;
        next ← GET_NEXTBLOCK bp;
        check_blocks_loop fuel' next
      else mret tt
  end.

(** The scan of the bytes behind the heap. *)
Fixpoint overwrite_loop (fuel : nat) (bp stop : Z) : M st unit :=
  match fuel with
  | O => fail OutOfFuel
  | S fuel' =>
      if bp <? stop then
        c ← load8 bp;
        assert_c (s8 c =? 0);;
        overwrite_loop fuel' (add32 bp 1) stop
      else mret tt
  end.

Definition overwrite_check : M st unit :=
  hend ← gets heap_end;
  start ← gets heap_start;
  overwrite_loop (S (Z.to_nat MAX_HEAP)) (add32 hend 1) (add32 start MAX_HEAP).

(** [mm_check]; [overwrite] says whether [DO_HEAP_OVERWRITE_CHECK] is
    defined. *)
Definition mm_check (overwrite : bool) : M st unit :=
  hend ← gets heap_end;
  hi ← mem_heap_hi;
  assert_c (hend =? hi);;
  start ← gets heap_start;
  assert_c (hend <? add32 start MAX_HEAP);;
  (if overwrite then overwrite_check else mret tt);;
  check_lists_loop (Z.to_nat FREELIST_COUNT) 0;;
  start ← gets heap_start;
  fuel ← gets list_fuel;
  check_blocks_loop fuel (add32 start (4 * WSIZE)).

(** ** What it decides *)
Definition small (b : blk) : bool := b_size b <? MAX_BLOCK_ALLOCSIZE.

(** The bytes between the break and the end of the arena are zero. *)
Definition untouched (s : st) : bool :=
  forallb (λ c, c =? 0)
    (rdbs (ram s) (mem_brk s) (Z.to_nat (mem_start_brk s + MAX_HEAP - mem_brk s))).

Lemma untouched_spec s : untouched s = true ↔
  ∀ q, mem_brk s ≤ q < mem_start_brk s + MAX_HEAP → rdb (ram s) q = 0.
Proof.
  unfold untouched. rewrite forallb_forall. split.
  - intros H q Hq. apply Z.eqb_eq, H. apply list_elem_of_In, list_elem_of_lookup.
    exists (Z.to_nat (q - mem_brk s)). rewrite rdbs_lookup by lia. do 2 f_equal. lia.
  - intros H c [i Hi]%list_elem_of_In%list_elem_of_lookup.
    pose proof (lookup_lt_Some _ _ _ Hi) as Hlt. rewrite rdbs_length in Hlt.
    rewrite rdbs_lookup in Hi by done. injection Hi as <-. apply Z.eqb_eq, H. lia.
Qed.

(** The answer of a check: [Ok] or a failing assertion, the state untouched. *)
Definition checked (b : bool) (s : st) : res (unit * st) :=
  if b then Ok (tt, s) else Err AssertFail.

Lemma checked_and (c k : M st unit) b1 b2 s :
  c s = checked b1 s → (b1 = true → k s = checked b2 s) →
  (c ;; k) s = checked (b1 && b2) s.
Proof. intros H1 H2. unfold mbind, M_bind. rewrite H1. destruct b1; cbn; [by apply H2|done]. Qed.

(** A computation that reads a value and leaves the state alone. *)
Definition reads {A} (c : M st A) (s : st) (a : A) : Prop := c s = Ok (a, s).

Lemma wp_reads {A} (c : M st A) s a :
  (∀ Q : A → st → Prop, Q a s → wp c s Q) → reads c s a.
Proof.
  intros H. specialize (H (λ x t, x = a ∧ t = s) (conj eq_refl eq_refl)). revert H.
  unfold wp, reads. destruct (c s) as [[x t]|]; [by intros [-> ->]|done].
Qed.

Lemma reads_bind {A B} (c : M st A) (k : A → M st B) s a :
  reads c s a → (c ≫= k) s = k a s.
Proof. unfold reads, mbind, M_bind. by intros ->. Qed.

Lemma assert_bind {A} b (k : unit → M st A) s :
  (assert_c b ≫= k) s = if b then k tt s else Err AssertFail.
Proof. by destruct b. Qed.

(** The size of the block at a payload address is small. *)
Definition small_at (bs : list blk) (x : Z) : bool :=
  forallb (λ b, negb (b_addr b =? x) || small b) bs.

Lemma small_at_block a bs e b :
  geo a bs e → b ∈ bs → small_at bs (b_addr b) = small b.
Proof.
  intros Hg Hb. unfold small_at. destruct (small b) eqn:Hs.
  - apply forallb_forall. intros c Hc%list_elem_of_In.
    destruct (Z.eqb_spec (b_addr c) (b_addr b)) as [E|]; [|done].
    by rewrite (geo_inj _ _ _ c b Hg).
  - apply not_true_is_false. intros Hall. rewrite forallb_forall in Hall.
    specialize (Hall b (proj1 (list_elem_of_In _ _) Hb)). by rewrite Z.eqb_refl, Hs in Hall.
Qed.

Section Rules.
Variables (s : st) (h : heap).
Hypothesis Hr : irep s h.

Lemma check_node b p l q (k : Z → M st unit) :
  b ∈ h_blocks h → is_live b = false → dseg (ram s) p (b_addr b :: l) q →
  (alloc ← GET_THISALLOC (b_addr b);
   assert_c (alloc =? 0);;
   size ← GET_THISSIZE (b_addr b);
   assert_c (size <? MAX_BLOCK_ALLOCSIZE);;
   next ← load32 (next_free (MEMHEADER_FROM_PAYLOAD (b_addr b)));
   k next) s = if small b then k (hd_or q l) s else Err AssertFail.
Proof.
  intros Hb Hl (Hn & _).
  assert (Ha : reads (GET_THISALLOC (b_addr b)) s 0).
  { apply wp_reads. intros Q HQ. unfold GET_THISALLOC.
    destruct (hdr_addr s h b Hr Hb) as (-> & _).
    eapply wp_GET_ALLOC; [by apply (hdr_valid s h b)|by apply (hdr_word s h b)|by apply (blk_div4 s h b)|].
    by rewrite Hl. }
  assert (Hs : reads (GET_THISSIZE (b_addr b)) s (b_size b)).
  { apply wp_reads. intros Q HQ. by apply (wp_THISSIZE s h b Hr Hb). }
  rewrite (reads_bind _ _ _ _ Ha), assert_bind. cbn [Z.eqb].
  rewrite (reads_bind _ _ _ _ Hs), assert_bind. fold (small b).
  destruct (small b); [|done].
  destruct (ir_node_valid _ _ _ Hr Hb) as (? & ? & Hv & _).
  destruct (header_fields (b_addr b)) as [-> _]; [done..|].
  unfold mbind, M_bind, load32. by rewrite Hv, Hn.
Qed.

Lemma check_list_ok fuel p l :
  dseg (ram s) p l 0 → (∀ x, x ∈ l → in_lists (h_lists h) x) → (length l < fuel)%nat →
  check_list_loop fuel (hd_or 0 l) s = checked (forallb (small_at (h_blocks h)) l) s.
Proof.
  revert p fuel. induction l as [|x l IH]; intros p fuel Hd Hin Hf;
    (destruct fuel as [|fuel]; cbn [length] in Hf; [lia|]); [done|].
  destruct (in_lists_block _ _ x Hr) as (b & Hb & <- & Hbf); [apply Hin; by left|].
  destruct (ir_node_valid _ _ _ Hr Hb) as (? & _).
  cbn [check_list_loop hd_or forallb]. destruct (Z.eqb_spec (b_addr b) 0); [lia|].
  rewrite (check_node b p l 0); [|done|unfold is_live; by rewrite Hbf|done].
  rewrite (small_at_block _ _ _ _ (ir_geo _ _ Hr) Hb).
  destruct (small b); [|done]. cbn [andb]. destruct Hd as (_ & _ & Hd).
  eapply IH; [done| |lia]. intros y Hy. apply Hin. by right.
Qed.

Lemma check_lists_ok n i :
  (i + n = length (h_lists h))%nat →
  check_lists_loop n (Z.of_nat i) s =
  checked (forallb (forallb (small_at (h_blocks h))) (drop i (h_lists h))) s.
Proof.
  revert i. induction n as [|n IH]; intros i Hn.
  { rewrite drop_ge by lia. done. }
  destruct (lookup_lt_is_Some_2 (h_lists h) i) as [l Hl]; [lia|].
  rewrite (drop_S _ _ _ Hl). cbn [check_lists_loop forallb].
  assert (Hg : reads (get_free_list (Z.of_nat i)) s (hd_or 0 l)).
  { apply wp_reads. intros Q HQ. apply (wp_get_free_list _ _ (hd_or 0 l)); [|done].
    by rewrite (lo_heads _ _ _ (ir_lists _ _ Hr)), list_lookup_fmap, Hl. }
  rewrite (reads_bind _ _ _ _ Hg), (reads_bind _ _ _ (list_fuel s)) by done.
  apply checked_and.
  - eapply check_list_ok; [by eapply lo_dseg; [apply (ir_lists _ _ Hr)|]| |by eapply ir_list_fuel].
    intros x Hx. by eapply in_lists_intro.
  - intros _. replace (Z.of_nat i + 1) with (Z.of_nat (S i)) by lia. apply IH. lia.
Qed.

Lemma check_blocks_ok fuel x l1 l2 :
  h_blocks h = l1 ++ l2 → geo x l2 (mem_brk s) → (length l2 < fuel)%nat →
  check_blocks_loop fuel x s = checked (forallb small l2) s.
Proof.
  revert fuel x l1. induction l2 as [|b l2 IH]; intros fuel x l1 E Hg Hf;
    (destruct fuel as [|fuel]; cbn [length] in Hf; [lia|]); cbn [check_blocks_loop geo forallb] in *;
    rewrite (reads_bind _ _ _ (heap_end s)) by done; rewrite (ir_end _ _ Hr).
  - subst x. destruct (Z.ltb_spec (mem_brk s) (mem_brk s - 1)); [lia|done].
  - destruct Hg as (<- & H16 & _ & Hg).
    assert (Hb : b ∈ h_blocks h) by (rewrite E; set_solver).
    destruct (ir_block _ _ _ Hr Hb) as (_ & ? & _).
    destruct (Z.ltb_spec (b_addr b) (mem_brk s - 1)); [|lia].
    assert (Hs : reads (GET_THISSIZE (b_addr b)) s (b_size b)).
    { apply wp_reads. intros Q HQ. by apply (wp_THISSIZE s h b Hr Hb). }
    assert (Hnx : reads (GET_NEXTBLOCK (b_addr b)) s (b_addr b + b_size b)).
    { apply wp_reads. intros Q HQ. by apply (wp_NEXTBLOCK s h b Hr Hb). }
    rewrite (reads_bind _ _ _ _ Hs). apply checked_and.
    + unfold small. by destruct (b_size b <? MAX_BLOCK_ALLOCSIZE).
    + intros _. rewrite (reads_bind _ _ _ _ Hnx).
      apply (IH _ _ (l1 ++ [b])); [by rewrite E, <- app_assoc|done|lia].
Qed.

Lemma blocks_fuel : (length (h_blocks h) < list_fuel s)%nat.
Proof.
  pose proof (geo_length _ _ _ (ir_geo _ _ Hr)) as H. unfold list_fuel.
  assert (Z.of_nat (length (h_blocks h)) ≤ (mem_brk s - mem_start_brk s) / 16); [|lia].
  apply Z.div_le_lower_bound; lia.
Qed.

(** The lists hold blocks of the heap, so the second loop decides. *)
Lemma small_lists :
  forallb small (h_blocks h) = true →
  forallb (forallb (small_at (h_blocks h))) (h_lists h) = true.
Proof.
  intros Hall. apply forallb_forall. intros l [i Hi]%list_elem_of_In%list_elem_of_lookup.
  apply forallb_forall. intros x Hx%list_elem_of_In.
  destruct (in_lists_block _ _ x Hr) as (b & Hb & <- & _); [by eapply in_lists_intro|].
  rewrite (small_at_block _ _ _ _ (ir_geo _ _ Hr) Hb).
  rewrite forallb_forall in Hall. by apply Hall, list_elem_of_In.
Qed.

Lemma overwrite_ok (n : nat) : ∀ p fuel,
  mem_start_brk s ≤ p → p + Z.of_nat n ≤ mem_max_addr s → (n < fuel)%nat →
  overwrite_loop fuel p (p + Z.of_nat n) s = checked (forallb (λ c, c =? 0) (rdbs (ram s) p n)) s.
Proof.
  pose proof (ir_memlib _ _ Hr) as Hm. pose proof (mo_start _ Hm). pose proof (mo_top _ Hm).
  induction n as [|n IH]; intros p fuel Hlo Hhi Hf; (destruct fuel as [|fuel]; [lia|]);
    cbn [overwrite_loop].
  - by destruct (Z.ltb_spec p (p + Z.of_nat 0)); [lia|].
  - destruct (Z.ltb_spec p (p + Z.of_nat (S n))); [|lia].
    assert (Hl : reads (load8 p) s (rdb (ram s) p)).
    { apply wp_reads. intros Q HQ. apply wp_load8; [|done]. apply memlib_ok_valid; [done|lia..]. }
    rewrite (reads_bind _ _ _ _ Hl), rdbs_S. cbn [forallb]. apply checked_and.
    + pose proof (rdb_range (ram s) p) as Hb. unfold s8. rewrite u8_small by done.
      destruct (Z.ltb_spec (rdb (ram s) p) 128), (Z.eqb_spec (rdb (ram s) p) 0); cbn;
        try (destruct (Z.eqb_spec (rdb (ram s) p) 0); (done || lia)).
      destruct (Z.eqb_spec (rdb (ram s) p - 256) 0); [lia|done].
    + intros _. rewrite add32_small by lia.
      replace (p + Z.of_nat (S n)) with (p + 1 + Z.of_nat n) by lia. apply IH; lia.
Qed.

Lemma overwrite_check_run : overwrite_check s = checked (untouched s) s.
Proof.
  destruct (ir_bounds _ _ Hr) as (? & ? & ? & ? & ?). unfold overwrite_check, untouched.
  rewrite (reads_bind _ _ _ (heap_end s)), (reads_bind _ _ _ (heap_start s)) by done.
  pose proof (mo_max _ (ir_memlib _ _ Hr)) as Emax.
  rewrite (ir_end _ _ Hr), (ir_start _ _ Hr), !add32_small by lia.
  set (k := Z.to_nat (mem_start_brk s + MAX_HEAP - mem_brk s)).
  replace (mem_brk s - 1 + 1) with (mem_brk s) by lia.
  replace (mem_start_brk s + MAX_HEAP) with (mem_brk s + Z.of_nat k) by (subst k; lia).
  apply overwrite_ok; subst k; lia.
Qed.

Lemma mm_check_run overwrite :
  mm_check overwrite s =
  checked ((negb overwrite || untouched s) && forallb small (h_blocks h)) s.
Proof.
  destruct (ir_bounds _ _ Hr) as (? & ? & ? & ? & ?). unfold mm_check, mem_heap_hi.
  rewrite (reads_bind _ _ _ (heap_end s)), (reads_bind _ _ _ (sub32 (mem_brk s) 1)) by done.
  rewrite (ir_end _ _ Hr), sub32_small by lia.
  replace (forallb small (h_blocks h)) with
    (forallb (forallb (small_at (h_blocks h))) (h_lists h) && forallb small (h_blocks h)).
  2: { destruct (forallb small (h_blocks h)) eqn:E; [|apply andb_false_r]. by rewrite (small_lists E). }
  change (?b && ?c) with (true && (true && (b && c))).
  apply checked_and; [by rewrite Z.eqb_refl|]. intros _.
  rewrite (reads_bind _ _ _ (heap_start s)) by done. rewrite (ir_start _ _ Hr), add32_small by lia.
  apply checked_and; [|intros _; apply checked_and; [|intros _; apply checked_and]].
  - destruct (Z.ltb_spec (mem_brk s - 1) (mem_start_brk s + MAX_HEAP)); [done|lia].
  - destruct overwrite; [apply overwrite_check_run|done].
  - apply (check_lists_ok _ 0). by rewrite (lk_length _ _ (ir_links _ _ Hr)).
  - intros _. rewrite (reads_bind _ _ _ (heap_start s)), (reads_bind _ _ _ (list_fuel s)) by done.
    rewrite (ir_start _ _ Hr). change (4 * WSIZE) with 16. rewrite add32_small by lia.
    apply (check_blocks_ok _ _ []); [done|apply (ir_geo _ _ Hr)|apply blocks_fuel].
Qed.
End Rules.

End MmCheck.
