(* ===== verification/MmAllocator.v ===== *)
(** * src/mm.c implements the allocator contract

    The instance of [Allocator] whose operations are the entry points of
    src/mm.c, and its laws: a client holds the payloads of the live blocks
    of the represented heap. *)

From Stdlib Require Import ZArith Lia.
From stdpp Require Import base gmap numbers list.
From S2P Require Import Prelude Memory Memlib Contract Sizes Blocks FreeList Heap HeapRules Alloc Malloc.

Section MmAllocator.
Context {L : Libc}.

(** The functions of mm.h, as src/mm.c defines them. *)
#[export] Instance mm_allocator : Allocator := {
  a_init := mm_init;
  a_malloc := mm_malloc;
  a_free := mm_free;
  a_realloc := mm_realloc
}.

Definition mm_holds (s : st) (μ : gmap Z (list Z)) : Prop :=
  ∃ h, rep s h ∧ live_map h = μ.

(** No request of up to [n] bytes makes the pointer comparison of
    [mem_sbrk] wrap around. *)
Definition mm_may_request (s : st) (n : Z) : Prop :=
  n ≤ 4294967284 ∧ mem_max_addr s + Z.max (n + 12) (ADJUSTED_PAGESIZE s) < W32.

Definition mm_may_init (s : st) (n : Z) : Prop :=
  n ≤ 4294967284 ∧ libc_malloc (arenas s) MAX_HEAP ≠ 0 ∧
  libc_malloc (arenas s) MAX_HEAP + MAX_HEAP + Z.max (n + 12) 131100 < W32.

(** ** The number of live bytes *)
Definition bytes_of (l : list (Z * list Z)) : Z :=
  foldr (λ e n, Z.of_nat (length e.2) + n) 0 l.

Lemma total_bytes_list l :
  NoDup l.*1 → total_bytes (list_to_map l) = bytes_of l.
Proof.
  induction l as [|[p d] l IH]; [done|]. rewrite fmap_cons, NoDup_cons. intros [Hp Hnd].
  cbn [bytes_of foldr list_to_map fst snd]. unfold total_bytes.
  rewrite map_fold_insert_L; [| |by apply not_elem_of_list_to_map].
  - f_equal. apply IH. done.
  - intros. lia.
Qed.

Lemma bytes_of_lives m a bs e :
  geo a bs e → Forall (blk_ok m) bs → bytes_of (lives bs) ≤ e - a.
Proof.
  revert a. induction bs as [|b bs IH]; intros a; cbn [geo]; [intros -> _; cbn; lia|].
  intros (Ha & H16 & _ & Hg) [[_ Hb] Hbs]%Forall_cons. specialize (IH _ Hg Hbs).
  destruct (b_state b) as [| |d] eqn:Hs.
  1,2: rewrite lives_cons_not by (unfold is_live; by rewrite Hs); lia.
  pose proof (lives_mid_live [] b bs d Hs) as E. cbn [app] in E. rewrite E.
  change (bytes_of _) with (Z.of_nat (length d) + bytes_of (lives bs)).
  rewrite <- Hb, rdbs_length. lia.
Qed.

Lemma live_blocks s h p d :
  rep s h → live_map h !! p = Some d →
  ∃ b, b ∈ h_blocks h ∧ b_addr b = p ∧ b_state b = Live d ∧
       Z.of_nat (length d) = b_size b - 4 ∧ d = rdbs (ram s) p (length d).
Proof.
  intros Hrep Hp. pose proof (rp_irep _ _ Hrep) as Hr.
  apply (live_map_lookup _ _ _ _ Hr) in Hp as (b & Hb & <- & Hd). exists b.
  destruct (rep_live_length _ _ _ _ Hr Hb Hd). destruct (ir_block _ _ _ Hr Hb) as (_ & _ & ? & _).
  split_and!; (done || lia).
Qed.

(** ** The laws *)
Lemma mm_payload s μ p d : mm_holds s μ → μ !! p = Some d → payload_ok s p d.
Proof.
  intros (h & Hrep & <-) Hp.
  destruct (live_blocks _ _ _ _ Hrep Hp) as (b & Hb & <- & _ & Hl & Hd).
  destruct (ir_block _ _ _ (rp_irep _ _ Hrep) Hb) as (? & ? & ? & ? & ? & _).
  unfold payload_ok. change ALIGNMENT with 8. split_and!; (done || lia).
Qed.

Lemma mm_apart s μ p d q e :
  mm_holds s μ → μ !! p = Some d → μ !! q = Some e → p ≠ q → apart_payloads p d q e.
Proof.
  intros (h & Hrep & <-) Hp Hq Hne.
  destruct (live_blocks _ _ _ _ Hrep Hp) as (b & Hb & Eb & _ & Hl & _).
  destruct (live_blocks _ _ _ _ Hrep Hq) as (c & Hc & Ec & _ & Hl' & _).
  destruct (geo_disjoint _ _ _ _ _ (ir_geo _ _ (rp_irep _ _ Hrep)) Hb Hc) as [->|?];
    [congruence|]. unfold apart_payloads. lia.
Qed.

Lemma mm_total s μ : mm_holds s μ → total_bytes μ ≤ mem_brk s - mem_start_brk s.
Proof.
  intros (h & Hrep & <-). pose proof (rp_irep _ _ Hrep) as Hr. unfold live_map.
  rewrite total_bytes_list by apply (lives_NoDup _ _ _ (ir_geo _ _ Hr)).
  pose proof (bytes_of_lives _ _ _ _ (ir_geo _ _ Hr) (ir_blocks _ _ Hr)). lia.
Qed.

Lemma mm_write s μ p d m :
  mm_holds s μ → μ !! p = Some d → outside p (p + Z.of_nat (length d)) (ram s) m →
  mm_holds (set_ram m s) (<[p := rdbs m p (length d)]> μ).
Proof.
  intros (h & Hrep & <-) Hp Ho.
  destruct (live_blocks _ _ _ _ Hrep Hp) as (b & Hb & <- & Hd & Hl & _).
  destruct h as [bs fls epi]. apply list_elem_of_split in Hb as (l1 & l2 & E). cbn in E. subst bs.
  assert (Hn : length d = Z.to_nat (b_size b - 4)) by lia.
  assert (Hrep' := rep_user_write _ _ _ _ _ _ _ m Hrep Hd ltac:(intros q Hq; apply Ho; lia)).
  eexists. split; [exact Hrep'|]. rewrite <- Hn in *.
  eapply live_map_put; [apply (rp_irep _ _ Hrep)|apply (rp_irep _ _ Hrep')|done].
Qed.

Lemma may_request_no_wrap s h n :
  rep s h → 0 < n → mm_may_request s n → n ≤ 4294967284 ∧ no_wrap s n.
Proof.
  intros Hrep Hn [Hle Hm]. split; [done|]. intros _. unfold request. rewrite MAX_eq.
  destruct (ADJUST_BYTESIZE_bounds n) as (_ & _ & _ & ? & _); [lia|].
  pose proof (mo_brk _ (ir_memlib _ _ (rp_irep _ _ Hrep))).
  pose proof (ir_page _ _ (rp_irep _ _ Hrep)). lia.
Qed.

Lemma mm_malloc_law s μ n (Q : Z → st → Prop) :
  mm_holds s μ → 0 < n → mm_may_request s n →
  (∀ s' p d, grown s s' → mm_holds s' (<[p := d]> μ) → μ !! p = None →
     n ≤ Z.of_nat (length d) → Q p s') →
  (∀ s', grown s s' → mm_holds s' μ → Q 0 s') →
  wp (mm_malloc n) s Q.
Proof.
  intros (h & Hrep & <-) Hn Hm Hok Hbad.
  destruct (may_request_no_wrap _ _ _ Hrep Hn Hm) as [Hle Hw].
  destruct (ADJUST_BYTESIZE_bounds n) as (_ & H16 & Hsz & _); [lia|].
  apply (wp_mm_malloc s h n); [done|lia|done| |].
  - intros s' h' p d Hf Hrep' Hmal.
    destruct (malloced_payload _ _ _ _ _ _ _ _ _ (rp_irep _ _ Hrep') Hmal H16 (rp_irep _ _ Hrep))
      as (E & Hnone & _ & Hlen & _).
    apply (Hok s' p d); [done|exists h'; by rewrite E|done|lia].
  - intros _. apply Hbad; [apply grown_errno|]. exists h. split; [by apply rep_errno|done].
Qed.

Lemma mm_free_law s μ p d (Q : unit → st → Prop) :
  mm_holds s μ → μ !! p = Some d →
  (∀ s', grown s s' → mm_holds s' (delete p μ) → Q tt s') →
  wp (mm_free p) s Q.
Proof.
  intros (h & Hrep & <-) Hp HQ. destruct (live_blocks _ _ _ _ Hrep Hp) as (b & Hb & <- & Hd & _).
  eapply wp_mm_free; [done..|]. intros s' h' Hu Hrep' Hf.
  apply HQ; [by apply grown_only_upd|]. exists h'. split; [done|].
  by eapply freed_live_map; [apply (rp_irep _ _ Hrep)|].
Qed.

Lemma mm_realloc_law s μ p d n (Q : Z → st → Prop) :
  mm_holds s μ → μ !! p = Some d → 0 < n → mm_may_request s n →
  (∀ s' q e, grown s s' → mm_holds s' (<[q := e]> (delete p μ)) → μ !! q = None →
     n ≤ Z.of_nat (length e) →
     (let k := Z.to_nat n `min` length d in take k e = take k d)%nat → Q q s') →
  (∀ s', grown s s' → mm_holds s' μ → Q 0 s') →
  wp (mm_realloc p n) s Q.
Proof.
  intros (h & Hrep & <-) Hp Hn Hm Hok Hbad.
  destruct (live_blocks _ _ _ _ Hrep Hp) as (b & Hb & <- & Hd & _).
  destruct (may_request_no_wrap _ _ _ Hrep Hn Hm) as [Hle Hw].
  eapply wp_mm_realloc; [done|done|done|lia|done| |].
  - intros s' h' q e Hf Hrep' E Hnone _ Hlen _ _ k Hk.
    apply (Hok s' q e); [done|exists h'; by rewrite E|done|done|exact Hk].
  - intros _. apply Hbad; [apply grown_errno|]. exists h. split; [by apply rep_errno|done].
Qed.

Lemma init_live_map B n : live_map (init_heap B n) = ∅.
Proof. done. Qed.

Lemma mm_init_law (HL : LibcOk L) s n (Q : Z → st → Prop) :
  mm_may_init s n →
  (∀ s', mm_holds s' ∅ → mm_may_request s' n → Q 0 s') → wp mm_init s Q.
Proof.
  intros (Hn & HB & Hr) HQ. apply (wp_mm_init HL); [done|].
  intros s' Hrep _ _ Hmax _ _ Hpg. destruct (adjusted_page HL) as [_ Hp]. apply HQ.
  - eexists. split; [exact Hrep|done].
  - split; [done|]. rewrite Hmax, Hpg. lia.
Qed.

Lemma mm_request_law s s' n k :
  frame s s' → k ≤ n → mm_may_request s n → mm_may_request s' k.
Proof.
  intros (_ & _ & E1 & _ & E2 & _) Hk [Hn Hm]. unfold mm_may_request. rewrite E1, E2. lia.
Qed.

Lemma mm_memlib s μ : mm_holds s μ → memlib_ok s.
Proof. intros (h & Hrep & _). apply (ir_memlib _ _ (rp_irep _ _ Hrep)). Qed.

(** The contract does not speak of the memory outside the heap. *)
Lemma grown_frame s s' : grown s s' → frame s s'.
Proof. by intros [? _]. Qed.

#[export] Instance mm_allocator_laws (HL : LibcOk L) : AllocatorLaws mm_allocator := {
  holds := mm_holds;
  may_request := mm_may_request;
  may_init := mm_may_init;
  law_request := mm_request_law;
  law_memlib := mm_memlib;
  law_payload := mm_payload;
  law_apart := mm_apart;
  law_total := mm_total;
  law_write := mm_write;
  law_init := mm_init_law HL;
  law_malloc s μ n Q Hh Hn Hm Hok Hbad :=
    mm_malloc_law s μ n Q Hh Hn Hm (λ s' p d Hg, Hok s' p d (grown_frame _ _ Hg))
      (λ s' Hg, Hbad s' (grown_frame _ _ Hg));
  law_free s μ p d Q Hh Hp Hok := mm_free_law s μ p d Q Hh Hp (λ s' Hg, Hok s' (grown_frame _ _ Hg));
  law_realloc s μ p d n Q Hh Hp Hn Hm Hok Hbad :=
    mm_realloc_law s μ p d n Q Hh Hp Hn Hm (λ s' q e Hg, Hok s' q e (grown_frame _ _ Hg))
      (λ s' Hg, Hbad s' (grown_frame _ _ Hg))
}.

(** [mm_init] succeeds or, when the host is out of memory, stops. *)
Lemma mm_starts (HL : LibcOk L) N s :
  N ≤ 4294967284 → (∀ l, libc_malloc l MAX_HEAP + MAX_HEAP + Z.max (N + 12) 131100 < W32) →
  starts (AL := mm_allocator_laws HL) N s.
Proof.
  intros HN Hl. destruct (decide (libc_malloc (arenas s) MAX_HEAP = 0)) as [E|E].
  - unfold starts. cbn [a_init mm_allocator]. unfold mm_init, mem_init.
    apply wpx_bind, wpx_bind_wp, wp_gets. rewrite E.
    apply wpx_bind_wp, wp_modify. cbn [Z.eqb]. by apply (wpx_fail exits (Exit 1)).
  - apply may_init_starts. by split_and!.
Qed.

End MmAllocator.
