(* ===== verification/MmChecked.v ===== *)
(** * The build with consistency checks (src/mm.c under [DO_MM_CHECK])

    [RUN_MM_CHECK()] then calls [mm_check], and [mm_init] clears the arena
    first.  The entry points of this build, and the relation to those of the
    default build: a check may stop the program, and does nothing else. *)

From Stdlib Require Import ZArith Lia.
From stdpp Require Import base gmap numbers list.
From S2P Require Import Prelude Memory Memlib Contract Sizes Blocks FreeList Heap HeapRules.
From S2P Require Import Coalesce Alloc Malloc MmCheck MmAllocator.

Section Checked.
Context {L : Libc}.

(** [overwrite] says whether [DO_HEAP_OVERWRITE_CHECK] is defined. *)
Context (overwrite : bool).

(** ** The code *)
Definition RUN_MM_CHECK : M st unit := mm_check overwrite.

Definition mm_init_checked : M st Z :=
  mem_init;;
  lo ← mem_heap_lo;
  memset lo 0 MAX_HEAP;;
  mm_init_heap RUN_MM_CHECK.

Definition mm_malloc_checked (size : Z) : M st Z :=
  if size =? 0 then mret 0
  else
    let adjusted_size := ADJUST_BYTESIZE size in
    fit ← find_fit adjusted_size;
    match fit with
    | Some (bp, list_index) =>
        allocate bp adjusted_size;;
        remove_from_list bp list_index;;
        mret bp
    | None =>
        page ← gets ADJUSTED_PAGESIZE;
        bp ← extend_heap (MAX adjusted_size page);
        if bp =? 0 then mret 0
        else
          allocate bp adjusted_size;;
          RUN_MM_CHECK;;
          mret bp
    end.

Definition mm_free_checked (ptr : Z) : M st unit :=
  size ← GET_THISSIZE ptr;
  free_block ptr size;;
  coalesce ptr;;
  RUN_MM_CHECK.

Definition mm_realloc_checked (ptr size : Z) : M st Z :=
  let oldptr := ptr in
  newptr ← mm_malloc_checked size;
  if newptr =? 0 then mret 0
  else
    copySize ← GET_THISSIZE oldptr;
    let copySize := if size <? copySize then size else copySize in
    memcpy newptr oldptr copySize;;
    mm_free_checked oldptr;;
    RUN_MM_CHECK;;
    mret newptr.

Definition mm_allocator_checked : Allocator := {|
  a_init := mm_init_checked;
  a_malloc := mm_malloc_checked;
  a_free := mm_free_checked;
  a_realloc := mm_realloc_checked
|}.

(** ** Checks behind the default code *)

(** [c'] is [c] with a check of the final state. *)
Definition then_check {A} (c : M st A) : M st A :=
  a ← c;
  RUN_MM_CHECK;;
  mret a.

Lemma malloc_checked_cases size s :
  mm_malloc_checked size s = mm_malloc size s ∨
  mm_malloc_checked size s = then_check (mm_malloc size) s.
Proof.
  unfold mm_malloc_checked, mm_malloc, then_check. destruct (size =? 0); [by left|]. cbv zeta.
  unfold mbind, M_bind. destruct (find_fit _ s) as [[[[bp i]|] s1]|]; [by left| |by left].
  destruct (gets ADJUSTED_PAGESIZE s1) as [[page s2]|]; [|by left].
  destruct (extend_heap _ s2) as [[bp s3]|]; [|by left].
  destruct (bp =? 0); [by left|]. destruct (allocate bp _ s3) as [[u s4]|]; [by right|by left].
Qed.

Lemma free_checked_eq ptr s : mm_free_checked ptr s = then_check (mm_free ptr) s.
Proof.
  unfold mm_free_checked, mm_free, then_check, mbind, M_bind.
  destruct (GET_THISSIZE ptr s) as [[n s1]|]; [|done].
  destruct (free_block ptr n s1) as [[u s2]|]; [|done].
  destruct (coalesce ptr s2) as [[v s3]|]; [|done]. cbn.
  by destruct (RUN_MM_CHECK s3) as [[[] s4]|].
Qed.

Lemma init_heap_checked_cases s :
  mm_init_heap RUN_MM_CHECK s = mm_init_heap (mret tt) s ∨
  mm_init_heap RUN_MM_CHECK s = then_check (mm_init_heap (mret tt)) s.
Proof.
  unfold mm_init_heap, then_check, mem_pagesize, mem_heap_hi, mbind, M_bind, gets, modify. cbv beta iota.
  match goal with |- context [mem_sbrk ?n ?t] => destruct (mem_sbrk n t) as [[start s1]|] end; [|by left].
  destruct (start =? 0); [by left|].
  repeat match goal with
  | |- context [match ?c ?s with Ok _ => _ | Err _ => _ end] =>
      lazymatch c with
      | RUN_MM_CHECK => fail
      | mret => fail
      | _ => destruct (c s) as [[[] ?]|]; [|by left]
      end
  end.
  by right.
Qed.

(** ** On represented heaps *)

(** The bytes behind the break are zero, if the check looks at them. *)
Definition clean (s : st) : Prop := overwrite = true → untouched s = true.

(** The heap spans at most [MAX_BLOCK_ALLOCSIZE] bytes. *)
Definition small_heap (s : st) : Prop := mem_brk s - mem_start_brk s ≤ MAX_BLOCK_ALLOCSIZE.

(** The checked run [c'] does what [c] does, or stops at an assertion, which
    it does not in a small heap. *)
Definition agrees {A} (c' c : M st A) (s : st) : Prop :=
  ∀ a s1, c s = Ok (a, s1) →
  (c' s = Ok (a, s1) ∨ c' s = Err AssertFail) ∧ (clean s → small_heap s1 → c' s = Ok (a, s1)).

(** The allocator writes nothing behind the break. *)
Lemma clean_outside lo s s' :
  mem_start_brk s' = mem_start_brk s → mem_brk s ≤ mem_brk s' →
  outside lo (mem_brk s') (ram s) (ram s') → clean s → clean s'.
Proof.
  intros E Hb Ho Hc Hov. specialize (Hc Hov). rewrite untouched_spec in Hc |- *.
  intros q Hq. rewrite Ho by lia. apply Hc. lia.
Qed.

Lemma clean_grown s s' : grown s s' → clean s → clean s'.
Proof. intros [(_ & ? & _ & _ & _ & ?) Ho]. by eapply clean_outside. Qed.

Lemma low_small s h : irep s h → small_heap s → forallb small (h_blocks h) = true.
Proof.
  intros Hr Hlow. apply forallb_forall. intros b Hb%list_elem_of_In.
  destruct (ir_block _ _ b Hr Hb) as (? & ? & ? & _). apply Z.ltb_lt.
  unfold small_heap, MAX_BLOCK_ALLOCSIZE in *. lia.
Qed.

(** A check in a represented heap: it leaves the state alone. *)
Lemma check_cases s h : irep s h →
  (RUN_MM_CHECK s = Ok (tt, s) ∨ RUN_MM_CHECK s = Err AssertFail) ∧
  (clean s → small_heap s → RUN_MM_CHECK s = Ok (tt, s)).
Proof.
  intros Hr. unfold RUN_MM_CHECK. rewrite (mm_check_run s h Hr). split.
  - unfold checked. destruct (_ && _); auto.
  - intros Hc Hl. rewrite (low_small s h Hr Hl). unfold clean in Hc.
    destruct overwrite; [by rewrite Hc|done].
Qed.

Lemma agrees_refl {A} (c' c : M st A) s : c' s = c s → agrees c' c s.
Proof. intros E a s1 Hc. rewrite E, Hc. auto. Qed.

(** Where a run of the unchecked code may end. *)
Definition sound {A} (c : M st A) (s : st) : Prop :=
  wp c s (λ _ s', (clean s → clean s') ∧ ∃ μ, mm_holds s' μ).

Lemma sound_agrees {A} (c' c : M st A) s :
  c' s = c s ∨ c' s = then_check c s → sound c s → agrees c' c s.
Proof.
  intros [E|E] Hwp; [by apply agrees_refl|]. intros a s1 Hc.
  unfold sound, wp in Hwp. rewrite Hc in Hwp. destruct Hwp as (Hcl & μ & h & Hrep & _).
  rewrite E. unfold then_check, mbind, M_bind. rewrite Hc.
  destruct (check_cases s1 h (rp_irep _ _ Hrep)) as [[->| ->] Hl]; [auto|]. split; [by right|].
  intros H1 H2. by specialize (Hl (Hcl H1) H2).
Qed.

(** A run of the unchecked code that returns, with the checks: it may stop
    at an assertion. *)
Lemma agrees_wpx {A} (c' c : M st A) s (Q : A → st → Prop) :
  agrees c' c s → wp c s Q → wpx (λ e, e = AssertFail) c' s Q.
Proof.
  intros Ha (a & s1 & E & HQ)%wp_run. unfold wpx.
  destruct (Ha _ _ E) as [[-> | ->] _]; done.
Qed.

(** ** The operations on the payloads a client holds *)
Lemma grown_sound {A} (c : M st A) s :
  wp c s (λ _ s', grown s s' ∧ ∃ μ, mm_holds s' μ) → sound c s.
Proof. intros H. eapply wp_mono; [exact H|]. intros _ s' [Hg Hm]. split; [by apply clean_grown|done]. Qed.

Lemma malloc_agrees s μ n :
  mm_holds s μ → 0 < n → mm_may_request s n → agrees (mm_malloc_checked n) (mm_malloc n) s.
Proof.
  intros Hh Hn Hm. apply sound_agrees; [apply malloc_checked_cases|]. apply grown_sound.
  apply (mm_malloc_law s μ n); [done..| |]; intros; eauto.
Qed.

Lemma free_agrees s μ p d :
  mm_holds s μ → μ !! p = Some d → agrees (mm_free_checked p) (mm_free p) s.
Proof.
  intros Hh Hp. apply sound_agrees; [right; apply free_checked_eq|]. apply grown_sound.
  apply (mm_free_law s μ p d); [done..|]. intros; eauto.
Qed.

Lemma THISSIZE_state p s n s1 : GET_THISSIZE p s = Ok (n, s1) → s1 = s.
Proof.
  unfold GET_THISSIZE, GET_SIZE, GETW, load32, mbind, M_bind. destruct (valid _ _ _); [|done].
  by intros [= _ <-].
Qed.

Lemma memcpy_state d p n s u s1 : memcpy d p n s = Ok (u, s1) →
  ∃ m, s1 = set_ram m s ∧ outside d (d + Z.max 0 n) (ram s) m.
Proof.
  unfold memcpy. destruct (n =? 0).
  { intros [= _ <-]. exists (ram s). split; [by destruct s|done]. }
  destruct (_ && _); [|done]. intros [= _ <-]. eexists. split; [done|].
  intros q Hq. apply rdb_wrbs_out. rewrite rdbs_length. lia.
Qed.

(** What [mm_realloc] does behind its call of [mm_malloc]. *)
Lemma realloc_agrees s μ p d n :
  mm_holds s μ → μ !! p = Some d → 0 < n → mm_may_request s n →
  agrees (mm_realloc_checked p n) (mm_realloc p n) s.
Proof.
  intros Hh Hp Hn Hm q s3 Hrun.
  pose proof (malloc_agrees s μ n Hh Hn Hm) as Hmal.
  assert (Hlaw : wp (mm_malloc n) s (λ q s1, q = 0 ∨ ∃ e, grown s s1 ∧ mm_holds s1 (<[q := e]> μ) ∧
    μ !! q = None ∧ n ≤ Z.of_nat (length e))).
  { apply (mm_malloc_law s μ n); [done..| |]; intros; eauto 8. }
  unfold mm_realloc, mm_realloc_checked, agrees, mbind, M_bind in *. unfold wp in Hlaw.
  destruct (mm_malloc n s) as [[q1 s1]|]; [|done]. specialize (Hmal _ _ eq_refl).
  destruct (Z.eqb_spec q1 0) as [->|Hq1].
  { injection Hrun as <- <-. destruct Hmal as [[->| ->] Hl]; cbn; [auto|]. split; [auto|].
    intros H1 H2. by specialize (Hl H1 H2). }
  destruct Hlaw as [|(e & Hg1 & Hh1 & Hq & Hle)]; [done|].
  destruct (GET_THISSIZE p s1) as [[sz s1']|] eqn:Esz; [|done].
  apply THISSIZE_state in Esz as Es. subst s1'. cbv zeta in Hrun. set (k := if n <? sz then n else sz) in *.
  destruct (memcpy q1 p k s1) as [[[] s2]|] eqn:Ecp; [|done].
  destruct (memcpy_state _ _ _ _ _ _ Ecp) as (m & -> & Hout).
  assert (Hk : k ≤ n) by (subst k; destruct (Z.ltb_spec n sz); lia).
  assert (Hh2 : ∃ e', mm_holds (set_ram m s1) (<[q1 := e']> (<[q1 := e]> μ))).
  { eexists. eapply (mm_write s1 _ q1 e m Hh1); [apply lookup_insert_eq|].
    intros x Hx. apply Hout. lia. }
  destruct Hh2 as [e' Hh2].
  assert (Hp2 : <[q1 := e']> (<[q1 := e]> μ) !! p = Some d)
    by (rewrite !lookup_insert_ne; congruence).
  assert (Hg2 : grown s (set_ram m s1)).
  { eapply grown_trans; [exact Hg1|]. split; [apply frame_ram|].
    destruct (mm_payload _ _ _ _ Hh1 (lookup_insert_eq _ _ _)) as (_ & ? & ? & _).
    eapply same_on_weaken; [|exact Hout]. cbn. intros x Hx. lia. }
  pose proof (free_agrees _ _ _ _ Hh2 Hp2) as Hfree.
  assert (Hlaw : wp (mm_free p) (set_ram m s1) (λ _ s', grown (set_ram m s1) s' ∧ ∃ h, irep s' h)).
  { apply (mm_free_law _ _ p d _ Hh2 Hp2). intros s' Hf (h & Hrep & _).
    split; [done|]. exists h. apply (rp_irep _ _ Hrep). }
  unfold wp in Hlaw. unfold agrees in Hfree.
  destruct (mm_free p (set_ram m s1)) as [[[] s4]|]; [|done]. injection Hrun as <- <-.
  destruct Hlaw as [Hg4 [h Hr]]. pose proof Hg4 as [(_ & Est & _ & _ & _ & Hbrk) _]. cbn in Est, Hbrk. specialize (Hfree _ _ eq_refl).
  destruct (check_cases s4 h Hr) as [Hc Hck]. split.
  - destruct Hmal as [[->| ->] _]; [|by right]. rewrite (proj2 (Z.eqb_neq q1 0)), Esz by done.
    cbv zeta. fold k. rewrite Ecp.
    destruct Hfree as [[->| ->] _]; [|by right]. destruct Hc as [->| ->]; auto.
  - intros Hcl Hsm. assert (Hsm1 : small_heap s1) by (unfold small_heap in *; lia).
    pose proof (clean_grown _ _ Hg2 Hcl) as Hcl2. pose proof (clean_grown _ _ Hg4 Hcl2) as Hcl4.
    rewrite (proj2 Hmal Hcl Hsm1), (proj2 (Z.eqb_neq q1 0)), Esz by done. cbv zeta. fold k. rewrite Ecp.
    by rewrite (proj2 Hfree Hcl2 Hsm), (Hck Hcl4 Hsm).
Qed.

(** ** Clients *)

(** A request carried out by the two builds from the same state. *)
Lemma perform_agrees (HL : LibcOk L) N s σ r :
  client_inv (AL := mm_allocator_laws HL) N s σ → allowed N σ r →
  agrees (perform (A := mm_allocator_checked) r σ) (perform (A := mm_allocator) r σ) s.
Proof.
  intros (Hm & μ & Hh & Hb) Ha.
  assert (Hlift : ∀ A B (c' c : M st A) (k : A → M st B),
    (∀ a t, ∃ b, k a t = Ok (b, t)) → agrees c' c s → agrees (c' ≫= k) (c ≫= k) s).
  { intros A B c' c k Hk Hc b s1. unfold mbind, M_bind.
    destruct (c s) as [[a t]|] eqn:E; [|done]. destruct (Hk a t) as [b' Eb].
    rewrite Eb. intros [= <- <-].
    destruct (Hc a t E) as [[->| ->] Hl]; cbn; rewrite ?Eb; [auto|]. split; [auto|].
    intros H1 H2. by specialize (Hl H1 H2). }
  assert (Hreq : ∀ k, k ≤ N → mm_may_request s k).
  { intros k Hk. eapply mm_request_law; [apply frame_refl|done|done]. }
  destruct r as [n|p|p n|p l]; cbn [allowed perform] in *;
    [apply Hlift..|].
  all: try (intros; eexists; reflexivity).
  - apply (malloc_agrees s μ); [done|lia|apply Hreq; lia].
  - destruct Ha as [n Hp]. destruct (backs_lookup _ _ _ _ Hb Hp) as (d & Hd & _).
    by apply (free_agrees s μ p d).
  - destruct Ha as [[k Hp] Hn]. destruct (backs_lookup _ _ _ _ Hb Hp) as (d & Hd & _).
    apply (realloc_agrees s μ p d); [done|done|lia|apply Hreq; lia].
  - by apply agrees_refl.
Qed.

Lemma perform_clean (HL : LibcOk L) N s σ r :
  client_inv (AL := mm_allocator_laws HL) N s σ → allowed N σ r → clean s →
  wp (perform (A := mm_allocator) r σ) s (λ _ s', clean s').
Proof.
  intros (Hm & μ & Hh & Hb) Ha Hc.
  assert (Hreq : ∀ k, k ≤ N → mm_may_request s k).
  { intros k Hk. eapply mm_request_law; [apply frame_refl|done|done]. }
  destruct r as [n|p|p n|p l]; cbn [allowed perform] in *; wp_bind.
  - apply (mm_malloc_law s μ n _ Hh); [lia|apply Hreq; lia| |].
    + intros s' p d Hg _ _ _. apply wp_ret, (clean_grown _ _ Hg Hc).
    + intros s' Hg _. apply wp_ret, (clean_grown _ _ Hg Hc).
  - destruct Ha as [n Hp]. destruct (backs_lookup _ _ _ _ Hb Hp) as (d & Hd & _).
    apply (mm_free_law s μ p d _ Hh Hd). intros s' Hg _. apply wp_ret, (clean_grown _ _ Hg Hc).
  - destruct Ha as [[k Hp] Hn]. destruct (backs_lookup _ _ _ _ Hb Hp) as (d & Hd & _).
    apply (mm_realloc_law s μ p d n _ Hh Hd); [lia|apply Hreq; lia| |].
    + intros s' q e Hg _ _ _ _. apply wp_ret, (clean_grown _ _ Hg Hc).
    + intros s' Hg _. apply wp_ret, (clean_grown _ _ Hg Hc).
  - destruct Ha as (n & Hp & Hl). destruct (backs_lookup _ _ _ _ Hb Hp) as (d & Hd & Hle).
    destruct (mm_payload _ _ _ _ Hh Hd) as (_ & ? & ? & _). wp_pure.
    revert Hc. apply (clean_outside (mem_start_brk s)); [done|cbn; lia|]. cbn.
    intros q Hq. apply rdb_wrbs_out. lia.
Qed.

(** [mm_init] clears the arena and then lays out the heap. *)
Lemma cleared m p n q : p ≤ q < p + Z.of_nat n → rdb (wrbs m p (replicate n 0)) q = 0.
Proof.
  intros Hq. replace q with (p + Z.of_nat (Z.to_nat (q - p))) by lia.
  rewrite (rdb_wrbs_in _ _ _ _ 0); [done|]. apply lookup_replicate. lia.
Qed.

Lemma wp_init_checked (HL : LibcOk L) N s (Q : Z → st → Prop) :
  mm_may_init s N →
  (∀ s', mm_holds s' ∅ → mm_may_request s' N → clean s' →
     mem_brk s' + 1000000 ≤ mem_max_addr s' ∧ ADJUSTED_PAGESIZE s' < 131100 → Q 0 s') →
  wp mm_init_checked s Q.
Proof.
  intros (HN & HB & Hr) HQ. unfold mm_init_checked. wp_bind. apply (wp_mem_init HL); [done|].
  intros s1 Hm1 Hbrk Hst Har _ _. wp_bind. apply wp_gets. wp_bind.
  pose proof MAX_HEAP_eq as HM. pose proof (mo_max _ Hm1) as Hmax. apply wp_memset; [lia| |].
  { apply memlib_ok_valid; [done|lia|lia]. }
  set (s2 := set_ram _ s1). assert (Hm2 : memlib_ok s2) by (by destruct Hm1; split).
  assert (Hcl2 : clean s2).
  { intros _. apply untouched_spec. intros q Hq. change (mem_brk s2) with (mem_brk s1) in Hq.
    change (mem_start_brk s2) with (mem_start_brk s1) in Hq. apply cleared. lia. }
  assert (E2 : mem_brk s2 = mem_brk s1 ∧ mem_start_brk s2 = mem_start_brk s1) by done.
  destruct E2 as [Eb Es]. clearbody s2. rewrite <- Eb, <- Es in *.
  destruct (adjusted_page HL) as [_ Hp].
  assert (Hwp : wp (mm_init_heap (mret tt)) s2 (λ r s', r = 0 ∧ mm_holds s' ∅ ∧ mm_may_request s' N ∧
    (clean s2 → clean s') ∧ small_heap s' ∧
    mem_brk s' + 1000000 ≤ mem_max_addr s' ∧ ADJUSTED_PAGESIZE s' < 131100)).
  { apply (wp_mm_init_heap HL); [done|done|]. intros s' Hrep E1 E2 E3 E4 _ E5 Ho. split_and!; [done| | | | |lia|lia].
    - eexists. split; [exact Hrep|done].
    - split; [done|]. rewrite E3, E5. lia.
    - apply (clean_outside (mem_start_brk s2)); [done|lia|by rewrite E2].
    - unfold small_heap, MAX_BLOCK_ALLOCSIZE. lia. }
  assert (Hag : agrees (mm_init_heap RUN_MM_CHECK) (mm_init_heap (mret tt)) s2).
  { apply sound_agrees; [apply init_heap_checked_cases|].
    eapply wp_mono; [exact Hwp|]. intros _ s' (_ & Hh & _ & Hc & _). eauto. }
  apply wp_run in Hwp as (r & s' & E & -> & Hh & Hreq & Hc & Hsm & Hroom).
  unfold wp. rewrite (proj2 (Hag _ _ E) Hcl2 Hsm). apply HQ; [done|done|by apply Hc|done].
Qed.

(** The invariant of a client of the checked build. *)
Lemma checked_reach_inv (HL : LibcOk L) N s0 s σ :
  mm_may_init s0 N → client_reach (A := mm_allocator_checked) N s0 s σ →
  client_inv (AL := mm_allocator_laws HL) N s σ ∧ clean s.
Proof.
  intros Hi. induction 1 as [s E|s σ r s' σ' _ IH Ha E].
  - assert (H : wp mm_init_checked s0 (λ _ s', client_inv (AL := mm_allocator_laws HL) N s' ∅ ∧ clean s')).
    { apply (wp_init_checked HL N); [done|]. intros s' Hh Hm Hc _. split; [|done]. split; [done|].
      exists ∅. split; [done|]. split; [by rewrite !dom_empty_L|].
      intros p n d Hp. by rewrite lookup_empty in Hp. }
    unfold wp in H. cbn in E. by rewrite E in H.
  - destruct IH as [IH Hc]. pose proof (perform_ok _ _ _ _ IH Ha) as H.
    apply wp_run in H as (σ1 & s1 & E1 & Hinv).
    pose proof (perform_clean HL _ _ _ _ IH Ha Hc) as Hc1. unfold wp in Hc1. rewrite E1 in Hc1.
    destruct (perform_agrees HL _ _ _ _ IH Ha _ _ E1) as [[E2|E2] _]; rewrite E in E2; by simplify_eq.
Qed.

End Checked.
