(* ===== verification/Debug.v ===== *)
(** * Debugging aids (src/mm.c, compiled under [_DEBUG])

    [debuggable_memset], shown to be [memset], and [test_main], shown to
    allocate, free and return 0, or to stop at an assertion of [mm_check],
    whenever [mm_init] finds an arena. *)

From Stdlib Require Import ZArith Lia.
From stdpp Require Import base gmap numbers list.
From S2P Require Import Prelude Memory Memlib Contract Sizes Heap Malloc MmAllocator MmChecked.

Section Debug.
Context {L : Libc}.

Definition PUTB (p v : Z) : M st unit := store8 p v.

Fixpoint memset_loop (fuel : nat) (byte_pointer stop value : Z) : M st unit :=
  match fuel with
  | O => fail OutOfFuel
  | S fuel' =>
      if byte_pointer <? stop then
        PUTB byte_pointer value;;
        memset_loop fuel' (add32 byte_pointer 1) stop value
      else mret tt
  end.

(** One round for each byte, and one to leave the loop. *)
Definition debuggable_memset (addr value len : Z) : M st unit :=
  memset_loop (S (Z.to_nat len)) addr (add32 addr len) value.

(** [_DEBUG] defines [DO_MM_CHECK]: these are the entry points with checks. *)
Definition test_main : M st Z :=
  mm_init_checked false;;
  temp ← mm_malloc_checked false 100;
  mm_free_checked false temp;;
  mret 0.

(** ** [debuggable_memset] *)
Lemma valid_sub s p n q k :
  valid s p n = true → p ≤ q → q + k ≤ p + n → valid s q k = true.
Proof.
  unfold valid. intros (a & Ha & Hv)%existsb_exists Hp Hq. apply existsb_exists.
  exists a. split; [done|]. lia.
Qed.

Lemma memset_loop_run value n : ∀ p s fuel,
  valid s p (Z.of_nat n) = true → 0 ≤ p → p + Z.of_nat n < W32 → (n < fuel)%nat →
  memset_loop fuel p (p + Z.of_nat n) value s =
    Ok (tt, set_ram (wrbs (ram s) p (replicate n value)) s).
Proof.
  induction n as [|n IH]; intros p s fuel Hv H0 HW Hf;
    (destruct fuel as [|fuel]; [lia|]); cbn [memset_loop].
  - destruct (Z.ltb_spec p (p + Z.of_nat 0)); [lia|]. by destruct s.
  - destruct (Z.ltb_spec p (p + Z.of_nat (S n))); [|lia].
    unfold mbind, M_bind, PUTB, store8. rewrite (valid_sub s p (Z.of_nat (S n)) p 1) by (done || lia).
    rewrite add32_small by lia.
    replace (p + Z.of_nat (S n)) with (p + 1 + Z.of_nat n) in * by lia.
    rewrite IH; [done| |lia|lia|lia].
    apply (valid_sub _ p (Z.of_nat (S n))); [exact Hv|lia|lia].
Qed.

Lemma debuggable_memset_run s addr value len :
  valid s addr len = true → 0 ≤ addr → 0 ≤ len → addr + len < W32 →
  debuggable_memset addr value len s = memset addr value len s.
Proof.
  intros Hv H0 Hl HW. unfold debuggable_memset, memset. rewrite add32_small by lia.
  rewrite <- (Z2Nat.id len) at 2 by done.
  rewrite memset_loop_run; [|by rewrite Z2Nat.id|lia|lia|lia].
  destruct (Z.eqb_spec len 0) as [->|]; [by destruct s|]. by rewrite Hv.
Qed.

(** ** [test_main] *)
Lemma wpx_test_main (HL : LibcOk L) s :
  mm_may_init s 100 →
  wpx (λ e, e = AssertFail) test_main s (λ r s', r = 0 ∧ ∃ h, rep s' h ∧ live_map h = ∅).
Proof.
  intros Hi. unfold test_main. apply wpx_bind_wp, (wp_init_checked false HL 100); [done|].
  intros s1 Hh1 Hm1 _ [Hbrk Hpage]. pose proof Hh1 as (h1 & Hrep1 & El1).
  destruct (may_request_no_wrap s1 h1 100 Hrep1 ltac:(lia) Hm1) as [_ Hw].
  destruct (ADJUST_BYTESIZE_bounds 100) as (_ & H16 & _); [lia|].
  assert (Hreq : request s1 100 ≤ 131100).
  { unfold request. rewrite MAX_eq. replace (ADJUST_BYTESIZE 100) with 104 by done. lia. }
  apply wpx_bind, (agrees_wpx false _ (mm_malloc 100)); [apply (malloc_agrees false s1 ∅); [done|lia|done]|].
  apply (wp_mm_malloc s1 _ 100 _ Hrep1); [lia|done| |intros; exfalso; lia].
  intros s2 h p d Hf Hrep2 Hm.
  destruct (malloced_payload _ _ _ _ _ _ _ _ _ (rp_irep _ _ Hrep2) Hm H16 (rp_irep _ _ Hrep1)) as (El & _).
  rewrite El1 in El. assert (Hp : live_map h !! p = Some d) by (rewrite El; apply lookup_insert_eq).
  apply wpx_bind, (agrees_wpx false _ (mm_free p)); [apply (free_agrees false s2 (live_map h) p d); [by exists h|done]|].
  destruct (live_blocks _ _ _ _ Hrep2 Hp) as (b & Hb & <- & Hd & _).
  eapply wp_mm_free; [exact Hrep2|done|done|]. intros s3 h3 _ Hrep3 Hfr.
  apply wpx_ret. split; [done|]. exists h3. split; [done|].
  assert (Ed : live_map h3 = delete (b_addr b) (live_map h))
    by (by eapply freed_live_map; [apply (rp_irep _ _ Hrep2)|]).
  by rewrite Ed, El, delete_insert_eq.
Qed.
End Debug.
