(* ===== verification/Ranges.v ===== *)
(** * The range list of the driver (src/mdriver.c)

    The driver records the extent of every payload it was given and checks
    each new payload against them: [add_range], [remove_range] and
    [clear_ranges], with the driver's state and its error reports.  The list
    of [range_t] records is the list of their extents, first record first;
    whether [malloc] finds room for one more record is a parameter. *)

From Stdlib Require Import ZArith Lia.
From stdpp Require Import base gmap numbers list.
From S2P Require Import Prelude Memory Memlib.

(** The messages given to [malloc_error]. *)
Inductive message :=
  | InitFailed
  | MallocFailed
  | ReallocFailed
  | NotAligned
  | OutsideHeap
  | Overlaps
  | DataNotPreserved.

(** [errors++] and the line that is printed: trace, line, message. *)
Record report := Report {
  rp_trace : Z;
  rp_line : Z;
  rp_msg : message
}.

(** The driver's state: the process state of the allocator, the list of
    [range_t] records, the arrays [blocks] and [block_sizes] of the current
    trace (indeterminate cells are [None]) and the counter [errors] with
    the reports printed so far, latest first. *)
Record dst := Dst {
  d_st : st;
  d_ranges : list (Z * Z);
  d_blocks : list (option Z);
  d_sizes : list (option Z);
  d_errors : Z;
  d_reports : list report
}.

Definition set_d_st (s : st) (d : dst) : dst :=
  Dst s (d_ranges d) (d_blocks d) (d_sizes d) (d_errors d) (d_reports d).
Definition set_d_ranges (r : list (Z * Z)) (d : dst) : dst :=
  Dst (d_st d) r (d_blocks d) (d_sizes d) (d_errors d) (d_reports d).
Definition set_d_blocks (l : list (option Z)) (d : dst) : dst :=
  Dst (d_st d) (d_ranges d) l (d_sizes d) (d_errors d) (d_reports d).
Definition set_d_sizes (l : list (option Z)) (d : dst) : dst :=
  Dst (d_st d) (d_ranges d) (d_blocks d) l (d_errors d) (d_reports d).

(** A call into the allocator or memlib. *)
Definition lift {A} (c : M st A) : M dst A := λ d,
  match c (d_st d) with
  | Ok (a, s) => Ok (a, set_d_st s d)
  | Err e => Err e
  end.

Lemma wp_lift {A} (c : M st A) d (Q : A → dst → Prop) :
  wp c (d_st d) (λ a s, Q a (set_d_st s d)) → wp (lift c) d Q.
Proof. unfold wp, lift. destruct (c (d_st d)) as [[a s]|]; done. Qed.

Lemma wpx_lift {A} E (c : M st A) d (Q : A → dst → Prop) :
  wpx E c (d_st d) (λ a s, Q a (set_d_st s d)) → wpx E (lift c) d Q.
Proof. unfold wpx, lift. destruct (c (d_st d)) as [[a s]|]; done. Qed.

(** [malloc(sizeof(range_t))] succeeds, given the records there are. *)
Class RangeAlloc := range_alloc : list (Z * Z) → bool.

(** ** The code *)
Definition IS_ALIGNED (p : Z) : bool := p mod ALIGNMENT =? 0.
Definition LINENUM (i : Z) : Z := i + 5.

Definition malloc_error (tracenum opnum : Z) (m : message) : M dst unit :=
  modify (λ d, Dst (d_st d) (d_ranges d) (d_blocks d) (d_sizes d) (d_errors d + 1)
                   (Report tracenum (LINENUM opnum) m :: d_reports d)).

Section Ranges.
Context {L : Libc} {RA : RangeAlloc}.

(** The loop over the records with its early return. *)
Fixpoint overlap_loop (ranges : list (Z * Z)) (lo hi : Z) : bool :=
  match ranges with
  | [] => false
  | (plo, phi) :: ranges' =>
      if ((plo <=? lo) && (lo <=? phi)) || ((plo <=? hi) && (hi <=? phi)) then true
      else overlap_loop ranges' lo hi
  end.

Definition add_range (lo size tracenum opnum : Z) : M dst Z :=
  let hi := sub32 (add32 lo size) 1 in
  assert_c (0 <? size);;
  if negb (IS_ALIGNED lo) then
    malloc_error tracenum opnum NotAligned;;
    mret 0
  else
    heap_lo ← lift mem_heap_lo;
    heap_hi ← lift mem_heap_hi;
    if (lo <? heap_lo) || (heap_hi <? lo) || (hi <? heap_lo) || (heap_hi <? hi) then
      malloc_error tracenum opnum OutsideHeap;;
      mret 0
    else
      ranges ← gets d_ranges;
      if overlap_loop ranges lo hi then
        malloc_error tracenum opnum Overlaps;;
        mret 0
      else if range_alloc ranges then
        modify (set_d_ranges ((lo, hi) :: ranges));;
        mret 1
      else fail (Exit 1).

(** The first record that starts at [lo] is unlinked. *)
Fixpoint remove_loop (ranges : list (Z * Z)) (lo : Z) : list (Z * Z) :=
  match ranges with
  | [] => []
  | (plo, phi) :: ranges' => if plo =? lo then ranges' else (plo, phi) :: remove_loop ranges' lo
  end.

Definition remove_range (lo : Z) : M dst unit :=
  modify (λ d, set_d_ranges (remove_loop (d_ranges d) lo) d).

(** Every record is freed. *)
Definition clear_ranges : M dst unit := modify (set_d_ranges []).

(** ** What the checks decide *)

(** The state after [malloc_error]. *)
Definition reported (t i : Z) (m : message) (d : dst) : dst :=
  Dst (d_st d) (d_ranges d) (d_blocks d) (d_sizes d) (d_errors d + 1)
      (Report t (LINENUM i) m :: d_reports d).

(** The extent lies outside the heap. *)
Definition outside_heap (s : st) (lo hi : Z) : bool :=
  (lo <? mem_start_brk s) || (sub32 (mem_brk s) 1 <? lo) ||
  (hi <? mem_start_brk s) || (sub32 (mem_brk s) 1 <? hi).

(** [add_range] as one decision. *)
Lemma add_range_run d lo size t i :
  let hi := sub32 (add32 lo size) 1 in
  add_range lo size t i d =
  if size <=? 0 then Err AssertFail
  else if negb (IS_ALIGNED lo) then Ok (0, reported t i NotAligned d)
  else if outside_heap (d_st d) lo hi then Ok (0, reported t i OutsideHeap d)
  else if overlap_loop (d_ranges d) lo hi then Ok (0, reported t i Overlaps d)
  else if range_alloc (d_ranges d) then Ok (1, set_d_ranges ((lo, hi) :: d_ranges d) d)
  else Err (Exit 1).
Proof.
  cbv zeta. set (hi := sub32 _ 1). unfold add_range, outside_heap. fold hi.
  destruct (Z.leb_spec size 0), (Z.ltb_spec 0 size); try lia; [done|].
  unfold assert_c. destruct (IS_ALIGNED lo); [|by destruct d]. destruct d as [s r b z e l].
  unfold mbind, M_bind, mret, M_ret, lift, mem_heap_lo, mem_heap_hi, gets. cbn.
  destruct (_ || _ || _ || _); [done|]. cbn.
  destruct (overlap_loop r lo hi); [done|]. by destruct (range_alloc r).
Qed.

(** The extents share no byte. *)
Definition disjoint_ranges (r1 r2 : Z * Z) : Prop := r1.2 < r2.1 ∨ r2.2 < r1.1.
(** The first lies strictly inside the second. *)
Definition strictly_inside (r1 r2 : Z * Z) : Prop := r2.1 < r1.1 ∧ r1.2 < r2.2.

Lemma overlap_loop_false ranges lo hi :
  lo ≤ hi → Forall (λ r, r.1 ≤ r.2) ranges →
  overlap_loop ranges lo hi = false ↔
  Forall (λ r, disjoint_ranges r (lo, hi) ∨ strictly_inside r (lo, hi)) ranges.
Proof.
  intros Hle. induction ranges as [|[plo phi] ranges IH]; intros Hr; cbn [overlap_loop].
  - split; [constructor|done].
  - apply Forall_cons in Hr as [Hr Hrs]. rewrite Forall_cons, <- (IH Hrs).
    unfold disjoint_ranges, strictly_inside. cbn [fst snd] in *.
    destruct (Z.leb_spec plo lo), (Z.leb_spec lo phi), (Z.leb_spec plo hi), (Z.leb_spec hi phi);
      cbn [andb orb]; split; try (by intros [? ?]); try done; intros; try (split; [|done]); try lia;
      try (destruct_and!; (done || lia)).
Qed.

(** The outcome of [add_range] on a well-formed list. *)
Definition range_in_heap (s : st) (lo size : Z) : Prop :=
  mem_start_brk s ≤ lo ∧ lo + size ≤ mem_brk s.

Lemma wp_add_range d lo size t i (Q : Z → dst → Prop) :
  memlib_ok (d_st d) → 0 < size → lo + size < W32 → (ALIGNMENT | lo) →
  range_in_heap (d_st d) lo size → range_alloc (d_ranges d) = true →
  Forall (λ r, r.1 ≤ r.2) (d_ranges d) →
  Forall (λ r, disjoint_ranges r (lo, lo + size - 1)) (d_ranges d) →
  Q 1 (set_d_ranges ((lo, lo + size - 1) :: d_ranges d) d) →
  wp (add_range lo size t i) d Q.
Proof.
  intros Hm Hs HW Hal [Hlo Hhi] Hra Hr Hdis HQ.
  pose proof (mo_start _ Hm). pose proof (mo_brk _ Hm). pose proof (mo_top _ Hm).
  unfold wp. rewrite add_range_run, add32_small, sub32_small by lia. cbv zeta. unfold outside_heap.
  destruct (Z.leb_spec size 0); [lia|]. rewrite sub32_small by lia.
  unfold IS_ALIGNED. rewrite (proj2 (Z.mod_divide lo ALIGNMENT ltac:(done)) Hal). cbn [Z.eqb negb].
  destruct (Z.ltb_spec lo (mem_start_brk (d_st d))), (Z.ltb_spec (mem_brk (d_st d) - 1) lo),
    (Z.ltb_spec (lo + size - 1) (mem_start_brk (d_st d))),
    (Z.ltb_spec (mem_brk (d_st d) - 1) (lo + size - 1)); try lia. cbn [orb].
  rewrite (proj2 (overlap_loop_false (d_ranges d) lo (lo + size - 1) ltac:(lia) Hr)), Hra; [done|].
  eapply Forall_impl; [exact Hdis|]. by left.
Qed.

(** The condition under which [add_range] returns 1. *)
Definition range_good (s : st) (ranges : list (Z * Z)) (lo size : Z) : Prop :=
  (ALIGNMENT | lo) ∧ range_in_heap s lo size ∧
  Forall (λ r, disjoint_ranges r (lo, lo + size - 1) ∨ strictly_inside r (lo, lo + size - 1)) ranges.

Lemma add_range_cases d lo size t i :
  memlib_ok (d_st d) → mem_start_brk (d_st d) < mem_brk (d_st d) →
  0 ≤ lo → 0 < size → lo + size < W32 → range_alloc (d_ranges d) = true →
  Forall (λ r, r.1 ≤ r.2) (d_ranges d) →
  (range_good (d_st d) (d_ranges d) lo size ∧
   add_range lo size t i d = Ok (1, set_d_ranges ((lo, lo + size - 1) :: d_ranges d) d)) ∨
  (¬ range_good (d_st d) (d_ranges d) lo size ∧
   ∃ m, add_range lo size t i d = Ok (0, reported t i m d)).
Proof.
  intros Hm Hb Hlo Hs HW Hra Hr.
  pose proof (mo_start _ Hm). pose proof (mo_top _ Hm). pose proof (mo_brk _ Hm).
  rewrite add_range_run, add32_small, sub32_small by lia. cbv zeta. unfold outside_heap.
  destruct (Z.leb_spec size 0); [lia|]. rewrite sub32_small by lia. unfold IS_ALIGNED.
  pose proof (Z.mod_divide lo ALIGNMENT ltac:(done)) as Hal.
  pose proof (overlap_loop_false (d_ranges d) lo (lo + size - 1) ltac:(lia) Hr) as Hov.
  unfold range_good, range_in_heap.
  destruct (Z.eqb_spec (lo mod ALIGNMENT) 0); cbn [negb]; [|right; split; [tauto|by eexists]].
  destruct (_ || _ || _ || _) eqn:Ho; [right; split; [intros (_ & [? ?] & _); lia|by eexists]|].
  destruct (overlap_loop _ _ _).
  - right. split; [|by eexists]. intros (_ & _ & Hf). apply Hov in Hf. done.
  - left. rewrite Hra. split; [|done]. split; [tauto|]. split; [lia|tauto].
Qed.

(** Removing the only record of a payload. *)
Lemma remove_loop_in ranges lo r :
  NoDup ranges.*1 → r ∈ remove_loop ranges lo ↔ r ∈ ranges ∧ r.1 ≠ lo.
Proof.
  induction ranges as [|[plo phi] ranges IH]; [set_solver|].
  rewrite fmap_cons, NoDup_cons. intros [Hni Hnd]. cbn [remove_loop].
  destruct (Z.eqb_spec plo lo) as [->|Hne].
  - rewrite elem_of_cons. split.
    + intros Hr. split; [by right|]. intros E. apply Hni. cbn. rewrite <- E.
      by apply list_elem_of_fmap_2.
    + intros [[->|?] ?]; done.
  - rewrite !elem_of_cons, (IH Hnd). split; [|naive_solver].
    intros [->|?]; [split; [by left|exact Hne]|naive_solver].
Qed.

Lemma remove_loop_sublist ranges lo : sublist (remove_loop ranges lo) ranges.
Proof.
  induction ranges as [|[plo phi] ranges IH]; [constructor|]. cbn [remove_loop].
  destruct (plo =? lo); [by apply sublist_cons|by apply sublist_skip].
Qed.

Lemma remove_loop_NoDup ranges lo :
  NoDup ranges.*1 → NoDup (remove_loop ranges lo).*1.
Proof. intros H. eapply sublist_NoDup; [exact H|]. apply fmap_sublist, remove_loop_sublist. Qed.

End Ranges.
