(* ===== verification/Driver.v ===== *)
(** * The trace driver (src/mdriver.c)

    The interpreters of a trace: [eval_mm_valid], [eval_mm_util] and
    [eval_mm_speed] for the allocator under test and [eval_libc_valid] and
    [eval_libc_speed] for the one of the C library.  Both allocators are
    instances of [Allocator]; the theorems about the interpreters use only
    the laws of [Contract]. *)

From Stdlib Require Import ZArith Lia.
From stdpp Require Import base gmap numbers list.
From S2P Require Import Prelude Memory Memlib Contract Ranges.

(** The kind of a request; [read_trace] stores no other value. *)
Inductive optype :=
  | ALLOC
  | FREE
  | REALLOC.

Record traceop_t := Op {
  op_type : optype;
  op_index : Z;
  op_size : Z
}.

(** The arrays [blocks] and [block_sizes] of [trace_t] are part of the
    driver's state ([dst]). *)
Record trace_t := Trace {
  sugg_heapsize : Z;
  num_ids : Z;
  num_ops : Z;
  weight : Z;
  ops : list traceop_t
}.

#[global] Instance optype_eq_dec : EqDecision optype.
Proof. solve_decision. Defined.
#[global] Instance traceop_eq_dec : EqDecision traceop_t.
Proof. solve_decision. Defined.

(** [arr[index]] of one of the two arrays: an index outside the array and
    the value of a cell that was never written are undefined. *)
Definition get_cell (arr : dst → list (option Z)) (index : Z) : M dst Z := λ d,
  if index <? 0 then Err UB
  else match arr d !! Z.to_nat index with
       | Some (Some v) => Ok (v, d)
       | _ => Err UB
       end.
Definition set_cell (arr : dst → list (option Z)) (set : list (option Z) → dst → dst)
    (index v : Z) : M dst unit := λ d,
  if index <? 0 then Err UB
  else match arr d !! Z.to_nat index with
       | Some _ => Ok (tt, set (<[Z.to_nat index := Some v]> (arr d)) d)
       | None => Err UB
       end.

Definition app_error {A} : M dst A := fail (Exit 1).
Definition unix_error {A} : M dst A := fail (Exit 1).

Section Driver.
Context {L : Libc} {RA : RangeAlloc} {A : Allocator}.

(** ** [eval_mm_valid] *)

(** The loop that compares the bytes of a reallocated block, as [char]s,
    with the low byte of the index. *)
Fixpoint check_bytes (n : nat) (newp j index : Z) : M dst bool :=
  match n with
  | O => mret true
  | S n' =>
      c ← lift (load8 (add32 newp j));
      if s8 c =? Z.land index 255 then check_bytes n' newp (j + 1) index
      else mret false
  end.

(** One iteration of the loop; [false] is [return 0].  The size of a [FREE],
    which the reader does not set, is also copied into a variable, but not
    used. *)
Definition valid_op (tracenum i : Z) (op : traceop_t) : M dst bool :=
  let index := op_index op in
  let size := op_size op in
  match op_type op with
  | ALLOC =>
      p ← lift (a_malloc (u32 size));
      if p =? 0 then malloc_error tracenum i MallocFailed;; mret false
      else
        ok ← add_range p size tracenum i;
        if ok =? 0 then mret false
        else
          lift (memset p (Z.land index 255) (u32 size));;
          set_cell d_blocks set_d_blocks index p;;
          set_cell d_sizes set_d_sizes index (u32 size);;
          mret true
  | REALLOC =>
      oldp ← get_cell d_blocks index;
      newp ← lift (a_realloc oldp (u32 size));
      if newp =? 0 then malloc_error tracenum i ReallocFailed;; mret false
      else
        remove_range oldp;;
        ok ← add_range newp size tracenum i;
        if ok =? 0 then mret false
        else
          osz ← get_cell d_sizes index;
          let oldsize := s32 osz in
          let oldsize := if size <? oldsize then size else oldsize in
          same ← check_bytes (Z.to_nat oldsize) newp 0 index;
          if (same : bool) then
            lift (memset newp (Z.land index 255) (u32 size));;
            set_cell d_blocks set_d_blocks index newp;;
            set_cell d_sizes set_d_sizes index (u32 size);;
            mret true
          else malloc_error tracenum i DataNotPreserved;; mret false
  | FREE =>
      p ← get_cell d_blocks index;
      remove_range p;;
      lift (a_free p);;
      mret true
  end.

Fixpoint valid_ops (tracenum i : Z) (l : list traceop_t) : M dst Z :=
  match l with
  | [] => mret 1
  | op :: l' =>
      ok ← valid_op tracenum i op;
      if (ok : bool) then valid_ops tracenum (i + 1) l' else mret 0
  end.

Definition eval_mm_valid (trace : trace_t) (tracenum : Z) : M dst Z :=
  lift mem_reset_brk;;
  clear_ranges;;
  r ← lift a_init;
  if r <? 0 then malloc_error tracenum 0 InitFailed;; mret 0
  else valid_ops tracenum 0 (ops trace).

(** ** [eval_mm_util] *)
Fixpoint util_ops (l : list traceop_t) (total_size max_total_size : Z) : M dst Z :=
  match l with
  | [] => mret max_total_size
  | op :: l' =>
      let index := op_index op in
      match op_type op with
      | ALLOC =>
          let size := op_size op in
          p ← lift (a_malloc (u32 size));
          if p =? 0 then app_error
          else
            set_cell d_blocks set_d_blocks index p;;
            set_cell d_sizes set_d_sizes index (u32 size);;
            total ← int_result (total_size + size);
            util_ops l' total (if max_total_size <? total then total else max_total_size)
      | REALLOC =>
          let newsize := op_size op in
          osz ← get_cell d_sizes index;
          let oldsize := s32 osz in
          oldp ← get_cell d_blocks index;
          newp ← lift (a_realloc oldp (u32 newsize));
          if newp =? 0 then app_error
          else
            set_cell d_blocks set_d_blocks index newp;;
            set_cell d_sizes set_d_sizes index (u32 newsize);;
            diff ← int_result (newsize - oldsize);
            total ← int_result (total_size + diff);
            util_ops l' total (if max_total_size <? total then total else max_total_size)
      | FREE =>
          osz ← get_cell d_sizes index;
          let size := s32 osz in
          p ← get_cell d_blocks index;
          lift (a_free p);;
          total ← int_result (total_size - size);
          util_ops l' total max_total_size
      end
  end.

(** The two operands of the final division of doubles. *)
Definition eval_mm_util (trace : trace_t) : M dst (Z * Z) :=
  lift mem_reset_brk;;
  r ← lift a_init;
  if r <? 0 then app_error
  else
    hwm ← util_ops (ops trace) 0 0;
    size ← lift mem_heapsize;
    mret (hwm, size).

(** ** [eval_mm_speed], [eval_libc_valid] and [eval_libc_speed] *)

(** The same three calls without any check; [on_null] is what the function
    does when NULL is returned. *)
Fixpoint plain_ops (on_null : M dst unit) (l : list traceop_t) : M dst unit :=
  match l with
  | [] => mret tt
  | op :: l' =>
      let index := op_index op in
      let size := op_size op in
      (match op_type op with
       | ALLOC =>
           p ← lift (a_malloc (u32 size));
           if p =? 0 then on_null else set_cell d_blocks set_d_blocks index p
       | REALLOC =>
           oldp ← get_cell d_blocks index;
           newp ← lift (a_realloc oldp (u32 size));
           if newp =? 0 then on_null else set_cell d_blocks set_d_blocks index newp
       | FREE =>
           p ← get_cell d_blocks index;
           lift (a_free p)
       end);;
      plain_ops on_null l'
  end.

Definition eval_mm_speed (trace : trace_t) : M dst unit :=
  lift mem_reset_brk;;
  r ← lift a_init;
  if r <? 0 then app_error else plain_ops app_error (ops trace).
End Driver.

(** The C library's allocator is another instance of [Allocator]. *)
Section LibcDriver.
Context {L : Libc} {C : Allocator}.

(** [malloc_error] followed by [unix_error]: the counter is lost with the
    process. *)
Definition eval_libc_valid (trace : trace_t) (tracenum : Z) : M dst Z :=
  plain_ops unix_error (ops trace);;
  mret 1.

Definition eval_libc_speed (trace : trace_t) : M dst unit :=
  plain_ops unix_error (ops trace).
End LibcDriver.
