(* ===== verification/Replay.v ===== *)
(** * A trace replayed on the allocator alone

    What a trace asks of an allocator, without the driver around it: the
    requests in their order, each on the pointer the allocator returned for
    its identifier.  The replay ends early at the first NULL.  The theorems
    about the interpreters of src/mdriver.c and about [main] use it to say
    when exactly memory runs out: an interpreter gives up if and only if the
    replay meets a NULL. *)

From Stdlib Require Import ZArith Lia.
From stdpp Require Import base gmap numbers list.
From S2P Require Import Prelude Memory Memlib Contract Ranges Driver.

(** What the client does to a payload of [n] bytes at [p] it was given for
    identifier [i]. *)
Definition filling : Type := Z → Z → Z → M st unit.

(** Nothing, and the pattern of [eval_mm_valid]. *)
Definition idle : filling := λ _ _ _, mret tt.
Definition pattern {L : Libc} : filling := λ i p n, memset p (Z.land i 255) (u32 n).

Section Replay.
Context {L : Libc} {A : Allocator} (fill : filling).

(** One request; [σ] maps the identifiers to their pointers, and [None]
    says that NULL was returned. *)
Definition request (op : traceop_t) (σ : gmap Z Z) : M st (option (gmap Z Z)) :=
  let i := op_index op in
  let n := op_size op in
  match op_type op with
  | ALLOC =>
      p ← a_malloc (u32 n);
      if p =? 0 then mret None else fill i p n;; mret (Some (<[i := p]> σ))
  | REALLOC =>
      match σ !! i with
      | Some p =>
          q ← a_realloc p (u32 n);
          if q =? 0 then mret None else fill i q n;; mret (Some (<[i := q]> σ))
      | None => fail UB
      end
  | FREE =>
      match σ !! i with
      | Some p => a_free p;; mret (Some (delete i σ))
      | None => fail UB
      end
  end.

Fixpoint replay (l : list traceop_t) (σ : gmap Z Z) : M st (option (gmap Z Z)) :=
  match l with
  | [] => mret (Some σ)
  | op :: l' =>
      o ← request op σ;
      match o with
      | Some σ' => replay l' σ'
      | None => mret None
      end
  end.

(** The whole trace on a fresh heap. *)
Definition mm_replay (tr : trace_t) : M st (option (gmap Z Z)) :=
  mem_reset_brk;;
  a_init;;
  replay (ops tr) ∅.

(** ** Rules *)
Implicit Types (σ : gmap Z Z) (s : st).

Lemma request_alloc i n p σ s s1 s2 :
  a_malloc (u32 n) s = Ok (p, s1) → p ≠ 0 → fill i p n s1 = Ok (tt, s2) →
  request (Op ALLOC i n) σ s = Ok (Some (<[i := p]> σ), s2).
Proof.
  intros E Hp Ef. unfold request. cbn [op_type op_index op_size].
  unfold mbind, M_bind. rewrite E. destruct (Z.eqb_spec p 0); [done|]. by rewrite Ef.
Qed.

Lemma request_alloc_null i n σ s s1 :
  a_malloc (u32 n) s = Ok (0, s1) → request (Op ALLOC i n) σ s = Ok (None, s1).
Proof. intros E. unfold request, mbind, M_bind. cbn [op_type op_size]. by rewrite E. Qed.

Lemma request_realloc i n p q σ s s1 s2 :
  σ !! i = Some p → a_realloc p (u32 n) s = Ok (q, s1) → q ≠ 0 → fill i q n s1 = Ok (tt, s2) →
  request (Op REALLOC i n) σ s = Ok (Some (<[i := q]> σ), s2).
Proof.
  intros Hi E Hq Ef. unfold request. cbn [op_type op_index op_size]. rewrite Hi.
  unfold mbind, M_bind. rewrite E. destruct (Z.eqb_spec q 0); [done|]. by rewrite Ef.
Qed.

Lemma request_realloc_null i n p σ s s1 :
  σ !! i = Some p → a_realloc p (u32 n) s = Ok (0, s1) →
  request (Op REALLOC i n) σ s = Ok (None, s1).
Proof.
  intros Hi E. unfold request, mbind, M_bind. cbn [op_type op_index op_size]. by rewrite Hi, E.
Qed.

Lemma request_free i n p σ s s1 :
  σ !! i = Some p → a_free p s = Ok (tt, s1) →
  request (Op FREE i n) σ s = Ok (Some (delete i σ), s1).
Proof. intros Hi E. unfold request, mbind, M_bind. cbn [op_type op_index]. by rewrite Hi, E. Qed.

Lemma replay_next op l σ σ' s s' :
  request op σ s = Ok (Some σ', s') → replay (op :: l) σ s = replay l σ' s'.
Proof. intros E. cbn [replay]. unfold mbind, M_bind. by rewrite E. Qed.

Lemma replay_null op l σ s s' :
  request op σ s = Ok (None, s') → replay (op :: l) σ s = Ok (None, s').
Proof. intros E. cbn [replay]. unfold mbind, M_bind. by rewrite E. Qed.

Lemma mm_replay_run tr r s s1 :
  a_init (set_mem_brk (mem_start_brk s) s) = Ok (r, s1) →
  mm_replay tr s = replay (ops tr) ∅ s1.
Proof.
  intros E. unfold mm_replay, mem_reset_brk, mbind, M_bind, gets, modify. by rewrite E.
Qed.

Lemma mm_replay_stops tr e s :
  a_init (set_mem_brk (mem_start_brk s) s) = Err e → mm_replay tr s = Err e.
Proof.
  intros E. unfold mm_replay, mem_reset_brk, mbind, M_bind, gets, modify. by rewrite E.
Qed.
End Replay.

(** ** Running out of memory *)

(** A NULL was returned; or initialisation already stopped the process. *)
Definition met_null {X} (r : res (option X * st)) : Prop := ∃ s, r = Ok (None, s).
Definition out_of_memory {X} (r : res (option X * st)) : Prop := r = Err (Exit 1) ∨ met_null r.

(** The driver gives up, because of [r]. *)
Definition refused {X} (r : res (option X * st)) (e : err) : Prop := e = Exit 1 ∧ met_null r.
Definition gives_up {X} (r : res (option X * st)) (e : err) : Prop := e = Exit 1 ∧ out_of_memory r.

(** Initialisation stops the process. *)
Definition not_started {X} (r : res (option X * st)) (e : err) : Prop := e = Exit 1 ∧ r = Err (Exit 1).

Lemma not_started_gives_up {X} (r : res (option X * st)) e : not_started r e → gives_up r e.
Proof. intros [-> ->]. by split; [|left]. Qed.

Lemma refused_gives_up {X} (r : res (option X * st)) e : refused r e → gives_up r e.
Proof. intros [-> H]. split; [done|by right]. Qed.

(** Sequences that end at the first NULL. *)
Definition then_ {X Y} (c : M st (option X)) (k : M st (option Y)) : M st (option Y) :=
  o ← c;
  match o with
  | Some _ => k
  | None => mret None
  end.

Fixpoint repeated {X} (n : nat) (c : M st (option X)) : M st (option unit) :=
  match n with
  | O => mret (Some tt)
  | S n' => then_ c (repeated n' c)
  end.

Lemma then_run {X Y} (c : M st (option X)) (k : M st (option Y)) x s s' :
  c s = Ok (Some x, s') → then_ c k s = k s'.
Proof. intros E. unfold then_, mbind, M_bind. by rewrite E. Qed.

Lemma then_gives_up {X Y} (c : M st (option X)) (k : M st (option Y)) s e :
  gives_up (c s) e → gives_up (then_ c k s) e.
Proof.
  intros [-> H]. split; [done|]. unfold then_, mbind, M_bind.
  destruct H as [->|[s' ->]]; [by left|right; by exists s'].
Qed.
