(* ===== verification/DriverSpec.v ===== *)
(** * What the driver computes

    For a disciplined trace (every identifier is allocated before it is
    reallocated or freed, sizes are positive) and any allocator that
    satisfies the laws of [Contract]: the ghost map [owned] from identifiers
    to pointers and sizes, the invariant of the interpreters, and the
    execution of [eval_mm_valid] and [eval_mm_util] under it. *)

From Stdlib Require Import ZArith Lia.
From stdpp Require Import base gmap numbers list.
From S2P Require Import Prelude Memory Memlib Contract Ranges Driver Replay.

(** Which identifiers are allocated, and what a disciplined trace may do. *)
Fixpoint disciplined (N ids : Z) (live : gset Z) (l : list traceop_t) : bool :=
  match l with
  | [] => true
  | op :: l' =>
      let i := op_index op in
      let n := op_size op in
      match op_type op with
      | ALLOC =>
          bool_decide (i ∉ live) && (0 <=? i) && (i <? ids) && (0 <? n) && (n <=? N) &&
          disciplined N ids ({[i]} ∪ live) l'
      | REALLOC =>
          bool_decide (i ∈ live) && (0 <? n) && (n <=? N) && disciplined N ids live l'
      | FREE => bool_decide (i ∈ live) && disciplined N ids (live ∖ {[i]}) l'
      end
  end.

(** The low byte of every reallocated index is a non-negative [char]. *)
Definition low_ids (l : list traceop_t) : bool :=
  forallb (λ op, negb (bool_decide (op_type op = REALLOC)) ||
                 (Z.land (op_index op) 255 <? 128)) l.

(** Identifier to payload pointer and requested size. *)
Abbreviation owned := (gmap Z (Z * Z)).

(** ** The comparison loop *)
Lemma same_char b c :
  0 ≤ b < 256 → 0 ≤ c → (s8 b =? c) = (b =? c) && (b <? 128).
Proof. intros Hb Hc. unfold s8. rewrite u8_small by done. destruct (Z.ltb_spec b 128); lia. Qed.

(** The loop decides whether all bytes are the given one and that one is
    not negative as a [char]. *)
Lemma check_bytes_run {L : Libc} d newp index n : ∀ j,
  (∀ k, j ≤ k < j + Z.of_nat n → valid (d_st d) (newp + k) 1 = true) →
  0 ≤ newp + j → newp + j + Z.of_nat n < W32 →
  check_bytes n newp j index d =
    Ok (forallb (λ b, (b =? Z.land index 255) && (b <? 128))
          (rdbs (ram (d_st d)) (newp + j) n), d).
Proof.
  induction n as [|n IH]; intros j Hv H0 HW; [done|]. cbn [check_bytes].
  rewrite add32_small by lia. unfold mbind, M_bind, lift, load8. rewrite Hv by lia.
  replace (set_d_st (d_st d) d) with d by by destruct d.
  rewrite rdbs_S. cbn [forallb].
  rewrite same_char by (apply rdb_range || (apply Z.land_nonneg; lia)).
  destruct (_ && _); [|done]. rewrite IH by (intros; try apply Hv; lia).
  by rewrite Z.add_assoc.
Qed.

(** ** The arrays of the trace *)
Section Cells.
Context (arr : dst → list (option Z)) (set : list (option Z) → dst → dst) (f : Z * Z → Z).

(** The cells of the allocated identifiers. *)
Definition cells (ids : Z) (d : dst) (o : owned) : Prop :=
  length (arr d) = Z.to_nat ids ∧
  ∀ i x, o !! i = Some x → 0 ≤ i ∧ arr d !! Z.to_nat i = Some (Some (f x)).

Lemma wp_get_cell ids d o i x (Q : Z → dst → Prop) :
  cells ids d o → o !! i = Some x → Q (f x) d → wp (get_cell arr i) d Q.
Proof.
  intros [_ Hc] Hi HQ. destruct (Hc _ _ Hi) as [H0 Ha]. unfold wp, get_cell.
  destruct (Z.ltb_spec i 0); [lia|]. by rewrite Ha.
Qed.

Lemma wp_set_cell ids d o i x (Q : unit → dst → Prop) :
  cells ids d o → 0 ≤ i < ids →
  (∀ l, arr (set l d) = l) →
  (cells ids (set (<[Z.to_nat i := Some (f x)]> (arr d)) d) (<[i := x]> o) →
   Q tt (set (<[Z.to_nat i := Some (f x)]> (arr d)) d)) →
  wp (set_cell arr set i (f x)) d Q.
Proof.
  intros [Hl Hc] Hi Hset HQ. unfold wp, set_cell.
  destruct (Z.ltb_spec i 0); [lia|].
  destruct (lookup_lt_is_Some_2 (arr d) (Z.to_nat i)) as [v Hv]; [lia|]. rewrite Hv.
  apply HQ. unfold cells. rewrite Hset, length_insert. split; [done|].
  intros j y. rewrite lookup_insert. case_decide as Hij.
  - intros [= <-]. subst j. split; [lia|]. by rewrite list_lookup_insert_eq by lia.
  - intros Hj. destruct (Hc _ _ Hj) as [H0 Ha]. split; [done|].
    rewrite list_lookup_insert_ne; [done|lia].
Qed.

Lemma cells_subseteq ids d o o' : o' ⊆ o → cells ids d o → cells ids d o'.
Proof.
  intros Hs [Hl Hc]. split; [done|]. intros i x Hi. apply Hc.
  by eapply lookup_weaken.
Qed.

Lemma cells_same ids d d' o : arr d' = arr d → cells ids d o → cells ids d' o.
Proof. unfold cells. by intros ->. Qed.
End Cells.

(** ** Pointers and payloads *)

(** Every identifier has a payload of its own that is large enough. *)
Record own_ptrs (N : Z) (o : owned) (μ : gmap Z (list Z)) : Prop := {
  op_backed i p n :
    o !! i = Some (p, n) → 0 < n ≤ N ∧ ∃ e, μ !! p = Some e ∧ n ≤ Z.of_nat (length e);
  op_inj i j p n m : o !! i = Some (p, n) → o !! j = Some (p, m) → i = j
}.

(** The payload of an identifier is filled with the low byte of its index. *)
Definition filled (o : owned) (μ : gmap Z (list Z)) : Prop :=
  ∀ i p n e, o !! i = Some (p, n) → μ !! p = Some e →
             take (Z.to_nat n) e = replicate (Z.to_nat n) (Z.land i 255).

(** The range list has the extents of the payloads. *)
Definition ranged (ranges : list (Z * Z)) (o : owned) : Prop :=
  NoDup ranges.*1 ∧
  ∀ r, r ∈ ranges ↔ ∃ i p n, o !! i = Some (p, n) ∧ r = (p, p + n - 1).

Section Own.
Context {N : Z}.
Implicit Types (o : owned) (μ : gmap Z (list Z)).

Lemma own_malloc o μ i p n e :
  own_ptrs N o μ → μ !! p = None → 0 < n ≤ N → n ≤ Z.of_nat (length e) →
  own_ptrs N (<[i := (p, n)]> o) (<[p := e]> μ).
Proof.
  intros [Hb Hi] Hp Hn He.
  assert (Hne : ∀ j q m, o !! j = Some (q, m) → p ≠ q).
  { intros j q m (_ & e' & E & _)%Hb ->. congruence. }
  split.
  - intros j q m. rewrite lookup_insert. case_decide.
    + intros [= <- <-]. split; [done|]. exists e. by rewrite lookup_insert_eq.
    + intros Hj. destruct (Hb _ _ _ Hj) as (? & e' & E & ?). split; [done|]. exists e'.
      rewrite lookup_insert_ne; [done|]. by eapply Hne.
  - intros j k q m m'. rewrite !lookup_insert.
    repeat case_decide; intros; simplify_eq; try done; [..|by eapply Hi].
    + exfalso. by eapply Hne.
    + exfalso. by eapply Hne.
Qed.

Lemma own_free o μ i p n :
  own_ptrs N o μ → o !! i = Some (p, n) → own_ptrs N (delete i o) (delete p μ).
Proof.
  intros [Hb Hi] Hip. split.
  - intros j q m. rewrite lookup_delete_Some. intros [Hne Hj].
    destruct (Hb _ _ _ Hj) as (? & e & E & ?). split; [done|]. exists e.
    rewrite lookup_delete_ne; [done|]. intros ->. apply Hne. by eapply Hi.
  - intros j k q m m'. rewrite !lookup_delete_Some. intros [_ ?] [_ ?]. by eapply Hi.
Qed.

Lemma own_write o μ p e e' :
  own_ptrs N o μ → μ !! p = Some e → length e' = length e → own_ptrs N o (<[p := e']> μ).
Proof.
  intros [Hb Hi] Hp Hl. split; [|done]. intros j q m Hj.
  destruct (Hb _ _ _ Hj) as (? & e1 & E & ?). split; [done|].
  rewrite lookup_insert. case_decide; [|eauto]. exists e'. split; [done|]. simplify_eq. lia.
Qed.

Lemma filled_malloc o μ i p n e :
  own_ptrs N o μ → filled o μ → μ !! p = None →
  take (Z.to_nat n) e = replicate (Z.to_nat n) (Z.land i 255) →
  filled (<[i := (p, n)]> o) (<[p := e]> μ).
Proof.
  intros [Hb Hi] Hf Hp He j q m e1. destruct (decide (i = j)) as [<-|Hij].
  - rewrite lookup_insert_eq. intros [= <- <-]. rewrite lookup_insert_eq. by intros [= <-].
  - rewrite lookup_insert_ne by done. intros Hj.
    destruct (Hb _ _ _ Hj) as (_ & e2 & E & _).
    rewrite lookup_insert_ne by congruence. by apply Hf.
Qed.

Lemma filled_free o μ i p n :
  own_ptrs N o μ → filled o μ → o !! i = Some (p, n) → filled (delete i o) (delete p μ).
Proof.
  intros Ho Hf Hip j q m e. rewrite !lookup_delete_Some. intros [_ Hj] [_ Hq]. by eapply Hf.
Qed.

Lemma ranged_add ranges o i p n :
  ranged ranges o → (∀ j q m, o !! j = Some (q, m) → q ≠ p) → o !! i = None →
  ranged ((p, p + n - 1) :: ranges) (<[i := (p, n)]> o).
Proof.
  intros [Hnd Hr] Hne Hi. split.
  - rewrite fmap_cons, NoDup_cons. split; [|done].
    intros (r & E & (j & q & m & Hj & ->)%Hr)%list_elem_of_fmap. cbn in E. by eapply Hne.
  - intros r. rewrite elem_of_cons, Hr. split.
    + intros [->|(j & q & m & Hj & ->)].
      * exists i, p, n. by rewrite lookup_insert_eq.
      * exists j, q, m. rewrite lookup_insert_ne; [done|]. congruence.
    + intros (j & q & m & Hj & ->). rewrite lookup_insert in Hj. case_decide; simplify_eq; [by left|].
      right. eauto 6.
Qed.

Lemma ranged_remove ranges o μ i p n :
  own_ptrs N o μ → ranged ranges o → o !! i = Some (p, n) →
  ranged (remove_loop ranges p) (delete i o).
Proof.
  intros [Hb Hin] [Hnd Hr] Hi. split; [by apply remove_loop_NoDup|].
  intros r. rewrite (remove_loop_in _ _ _ Hnd), Hr. split.
  - intros [(j & q & m & Hj & ->) Hne]. exists j, q, m. split; [|done].
    rewrite lookup_delete_ne; [done|]. intros ->. cbn in Hne. congruence.
  - intros (j & q & m & [Hji Hj]%lookup_delete_Some & ->). split; [eauto 6|].
    cbn. intros ->. apply Hji. by eapply Hin.
Qed.

Lemma ranged_ends ranges o μ : own_ptrs N o μ → ranged ranges o → Forall (λ r, r.1 ≤ r.2) ranges.
Proof.
  intros [Hb _] [_ Hr]. apply Forall_forall. intros r (i & p & n & Hi & ->)%Hr. cbn.
  destruct (Hb _ _ _ Hi). lia.
Qed.
End Own.

(** ** Execution *)
Section Exec.
Context {L : Libc} {RA : RangeAlloc} {A : Allocator} {AL : AllocatorLaws A}.
Variables (N ids : Z).
Hypothesis HN : N < 2147483648.
Hypothesis Hra : ∀ l, range_alloc l = true.

(** The invariant of every interpreter, and what [eval_mm_valid] adds. *)
Record dinv (d : dst) (o : owned) (μ : gmap Z (list Z)) : Prop := {
  dv_holds : holds (d_st d) μ;
  dv_request : may_request (d_st d) N;
  dv_own : own_ptrs N o μ;
  dv_blocks : cells d_blocks fst ids d o
}.

Record vinv (d : dst) (o : owned) (μ : gmap Z (list Z)) : Prop := {
  vi_dinv : dinv d o μ;
  vi_sizes : cells d_sizes snd ids d o;
  vi_filled : filled o μ;
  vi_ranged : ranged (d_ranges d) o
}.

Implicit Types (o : owned) (μ : gmap Z (list Z)) (d : dst).

Lemma request_mono s s' : frame s s' → may_request s N → may_request s' N.
Proof. intros Hf. by apply law_request. Qed.

Lemma request_le s n : n ≤ N → may_request s N → may_request s n.
Proof. apply law_request, frame_refl. Qed.

Lemma wp_d_malloc d o μ n (Q : Z → dst → Prop) :
  dinv d o μ → 0 < n ≤ N →
  (∀ s p e, a_malloc (u32 n) (d_st d) = Ok (p, s) → frame (d_st d) s → p ≠ 0 →
     holds s (<[p := e]> μ) → may_request s N → μ !! p = None →
     n ≤ Z.of_nat (length e) → Q p (set_d_st s d)) →
  (∀ s, a_malloc (u32 n) (d_st d) = Ok (0, s) → dinv (set_d_st s d) o μ → Q 0 (set_d_st s d)) →
  wp (lift (a_malloc (u32 n))) d Q.
Proof.
  intros [Hh Hm Ho Hb] Hn Hok Hnull. apply wp_lift, wp_eqn. rewrite u32_small in * by (unfold W32; lia).
  apply (law_malloc _ μ); [done|lia|apply request_le; [lia|done]| |].
  - intros s p e Hf Hh' Hp He E. apply (Hok s p e); try done.
    + assert (0 < p); [|lia]. by eapply payload_pos; [|apply lookup_insert_eq].
    + by eapply request_mono.
  - intros s Hf Hh' E. apply Hnull; [done|]. split; [done|by eapply request_mono|done|done].
Qed.

Lemma wp_d_realloc d o μ i p m e n (Q : Z → dst → Prop) :
  dinv d o μ → o !! i = Some (p, m) → μ !! p = Some e → 0 < n ≤ N →
  (∀ s q e', a_realloc p (u32 n) (d_st d) = Ok (q, s) → frame (d_st d) s → q ≠ 0 →
     holds s (<[q := e']> (delete p μ)) → may_request s N → μ !! q = None →
     n ≤ Z.of_nat (length e') →
     (let k := Z.to_nat n `min` length e in take k e' = take k e)%nat → Q q (set_d_st s d)) →
  (∀ s, a_realloc p (u32 n) (d_st d) = Ok (0, s) → dinv (set_d_st s d) o μ → Q 0 (set_d_st s d)) →
  wp (lift (a_realloc p (u32 n))) d Q.
Proof.
  intros [Hh Hm Ho Hb] Hi Hp Hn Hok Hnull. apply wp_lift, wp_eqn. rewrite u32_small in * by (unfold W32; lia).
  apply (law_realloc _ μ _ e); [done|done|lia|apply request_le; [lia|done]| |].
  - intros s q e' Hf Hh' Hq He Hk E. apply (Hok s q e'); try done.
    + assert (0 < q); [|lia]. by eapply payload_pos; [|apply lookup_insert_eq].
    + by eapply request_mono.
  - intros s Hf Hh' E. apply Hnull; [done|]. split; [done|by eapply request_mono|done|done].
Qed.

Lemma wp_d_free d o μ i p m (Q : unit → dst → Prop) :
  dinv d o μ → o !! i = Some (p, m) →
  (∀ s, a_free p (d_st d) = Ok (tt, s) → frame (d_st d) s →
     dinv (set_d_st s d) (delete i o) (delete p μ) → Q tt (set_d_st s d)) →
  wp (lift (a_free p)) d Q.
Proof.
  intros [Hh Hm Ho Hb] Hi HQ. destruct (op_backed _ _ _ Ho _ _ _ Hi) as (_ & e & He & _).
  apply wp_lift, wp_eqn. eapply law_free; [done..|]. intros s Hf Hh' E. apply HQ; [done|done|].
  split; [done|by eapply request_mono|by eapply own_free|].
  eapply cells_subseteq; [apply delete_subseteq|]. exact Hb.
Qed.

(** [memset] on a payload. *)
Lemma wp_d_fill d μ p e n c (Q : unit → dst → Prop) :
  holds (d_st d) μ → may_request (d_st d) N → μ !! p = Some e → 0 < n ≤ N →
  n ≤ Z.of_nat (length e) → 0 ≤ c < 256 →
  (∀ s e', memset p c (u32 n) (d_st d) = Ok (tt, s) →
     holds s (<[p := e']> μ) → may_request s N → length e' = length e →
     take (Z.to_nat n) e' = replicate (Z.to_nat n) c → Q tt (set_d_st s d)) →
  wp (lift (memset p c (u32 n))) d Q.
Proof.
  intros Hh Hm Hp Hn He Hc HQ. apply wp_lift, wp_eqn. rewrite u32_small in * by (unfold W32; lia).
  destruct (law_payload _ _ _ _ Hh Hp) as (_ & Hlo & Hhi & _).
  pose proof (law_memlib _ _ Hh) as Hml. pose proof (mo_brk _ Hml).
  apply wp_memset; [lia|apply memlib_ok_valid; [done|lia..]|].
  set (m := wrbs _ _ _). assert (Hlen : length (replicate (Z.to_nat n) c) = Z.to_nat n)
    by apply length_replicate.
  intros E0. apply (HQ _ (rdbs m p (length e))); [done|..].
  - apply law_write; [done..|]. intros q Hq. apply rdb_wrbs_out. lia.
  - eapply request_mono; [apply frame_ram|done].
  - apply rdbs_length.
  - rewrite rdbs_take. replace (Z.to_nat n `min` length e)%nat with (Z.to_nat n) by lia.
    pose proof (rdbs_wrbs (ram (d_st d)) p (replicate (Z.to_nat n) c)) as E.
    rewrite Hlen in E. fold m in E. rewrite E.
    change (map u8 ?l) with (u8 <$> l). rewrite fmap_replicate. by rewrite u8_small.
Qed.

(** A payload that was just handed out passes the checks. *)
Lemma wp_d_add_range d o μ p e n t k (Q : Z → dst → Prop) :
  holds (d_st d) (<[p := e]> μ) → μ !! p = None → own_ptrs N o μ → ranged (d_ranges d) o →
  0 < n → n ≤ Z.of_nat (length e) →
  Q 1 (set_d_ranges ((p, p + n - 1) :: d_ranges d) d) →
  wp (add_range p n t k) d Q.
Proof.
  intros Hh Hp Ho Hr Hn He HQ. pose proof (law_memlib _ _ Hh) as Hml.
  destruct (law_payload _ _ p e Hh) as (Hal & Hlo & Hhi & _); [apply lookup_insert_eq|].
  pose proof (mo_brk _ Hml). pose proof (mo_top _ Hml).
  apply wp_add_range; [done|done|lia|done|unfold range_in_heap; lia|apply Hra| | |done].
  - by eapply ranged_ends.
  - apply Forall_forall. intros r (j & q & m & Hj & ->)%(proj2 Hr).
    destruct (op_backed _ _ _ Ho _ _ _ Hj) as (? & e2 & E & ?).
    assert (Hne : q ≠ p) by congruence.
    assert (Hap : apart_payloads q e2 p e).
    { apply (law_apart _ _ q e2 p e Hh); [by rewrite lookup_insert_ne|apply lookup_insert_eq|done]. }
    unfold apart_payloads in Hap. unfold disjoint_ranges. cbn [fst snd]. lia.
Qed.

(** What is left of an iteration that stopped: the allocator returned NULL,
    and that is what was reported. *)
Definition null_reported (t i : Z) (d d' : dst) : Prop :=
  ∃ m, (m = MallocFailed ∨ m = ReallocFailed) ∧
       d_errors d' = d_errors d + 1 ∧ d_reports d' = Report t (LINENUM i) m :: d_reports d.

(** No error was reported. *)
Definition quiet (d d' : dst) : Prop :=
  d_errors d' = d_errors d ∧ d_reports d' = d_reports d.

(** The new payload is recorded. *)
Lemma wp_record d o μ i p n e (Q : bool → dst → Prop) :
  holds (d_st d) (<[p := e]> μ) → may_request (d_st d) N → μ !! p = None →
  own_ptrs N o μ → filled o μ → cells d_blocks fst ids d o → cells d_sizes snd ids d o →
  ranged (d_ranges d) (<[i := (p, n)]> o) → 0 ≤ i < ids → 0 < n ≤ N →
  n ≤ Z.of_nat (length e) →
  (∀ d' e', vinv d' (<[i := (p, n)]> o) (<[p := e']> μ) → quiet d d' →
     pattern i p n (d_st d) = Ok (tt, d_st d') → Q true d') →
  wp (lift (memset p (Z.land i 255) (u32 n));;
      set_cell d_blocks set_d_blocks i p;;
      set_cell d_sizes set_d_sizes i (u32 n);;
      mret true) d Q.
Proof.
  intros Hh Hm Hp Ho Hf Hb Hs Hr Hi Hn He HQ.
  assert (Hc : 0 ≤ Z.land i 255 < 256).
  { change 255 with (Z.ones 8). rewrite Z.land_ones by lia. apply Z.mod_pos_bound. lia. }
  wp_bind. apply (wp_d_fill _ _ _ e _ _ _ Hh Hm); [apply lookup_insert_eq|done..|].
  intros s e' Ems Hh' Hm' Hle Hfill. rewrite insert_insert_eq in Hh'.
  wp_bind. apply (wp_set_cell d_blocks set_d_blocks fst ids _ o i (p, n)); [done|done|done|].
  intros Hb'. cbn [fst] in *.
  wp_bind. rewrite u32_small by (unfold W32; lia).
  apply (wp_set_cell d_sizes set_d_sizes snd ids _ o i (p, n)); [done|done|done|].
  intros Hs'. cbn [snd] in *. apply wp_ret. apply (HQ _ e'); [|done|exact Ems].
  split; [split|..]; try done.
  - apply own_malloc; [done|done|done|lia].
  - by eapply filled_malloc.
Qed.

Lemma wp_valid_alloc t k d o μ i n (Q : bool → dst → Prop) :
  let run := request pattern (Op ALLOC i n) (fst <$> o) (d_st d) in
  vinv d o μ → o !! i = None → 0 ≤ i < ids → 0 < n ≤ N →
  (∀ d' p e, vinv d' (<[i := (p, n)]> o) (<[p := e]> μ) → quiet d d' →
     run = Ok (Some (fst <$> <[i := (p, n)]> o), d_st d') → Q true d') →
  (∀ d', null_reported t k d d' → run = Ok (None, d_st d') → Q false d') →
  wp (valid_op t k (Op ALLOC i n)) d Q.
Proof.
  intros run [Hd Hs Hf Hr] Hi Hids Hn HQ Hnull. unfold valid_op. cbn [op_type op_index op_size].
  wp_bind. apply (wp_d_malloc d o μ n _ Hd Hn).
  2: { intros s E _. cbn [Z.eqb]. unfold malloc_error. wp_pure. apply Hnull.
       - exists MallocFailed. by split; [left|].
       - by apply request_alloc_null. }
  intros s p e Em _ Hp0 Hh Hm Hp He. destruct (Z.eqb_spec p 0); [done|]. destruct Hd as [_ _ Ho Hb].
  wp_bind. apply (wp_d_add_range _ o μ p e n); [done|done|done|done|lia|done|].
  cbn [Z.eqb]. apply (wp_record _ o μ i p n e); try done.
  - apply ranged_add; [done| |done]. intros j q m Hj ->.
    destruct (op_backed _ _ _ Ho _ _ _ Hj) as (_ & e2 & E & _). congruence.
  - intros d' e' Hv Hq Ef. apply (HQ d' p e'); [done|done|].
    rewrite fmap_insert. by apply (request_alloc _ i n p _ _ s).
Qed.

Lemma wp_valid_free t k d o μ i p n m (Q : bool → dst → Prop) :
  vinv d o μ → o !! i = Some (p, n) →
  (∀ d', vinv d' (delete i o) (delete p μ) → quiet d d' →
     request pattern (Op FREE i m) (fst <$> o) (d_st d) = Ok (Some (fst <$> delete i o), d_st d') →
     Q true d') →
  wp (valid_op t k (Op FREE i m)) d Q.
Proof.
  intros [Hd Hs Hf Hr] Hi HQ. unfold valid_op. cbn [op_type op_index].
  pose proof (dv_own _ _ _ Hd) as Ho.
  wp_bind. eapply wp_get_cell; [apply (dv_blocks _ _ _ Hd)|done|]. cbn [fst].
  unfold remove_range. wp_pure.
  apply (wp_d_free _ o μ i p n); [|done|].
  { destruct Hd as [H1 H2 H3 H4]. by split. }
  intros s E _ Hd'. apply wp_ret, HQ; [|done|].
  2: { rewrite fmap_delete. apply (request_free _ i m p); [by rewrite lookup_fmap, Hi|exact E]. }
  split; [done| | |].
  - eapply cells_subseteq; [apply delete_subseteq|]. exact Hs.
  - by eapply filled_free.
  - cbn. by eapply ranged_remove.
Qed.

(** The comparison loop on a payload whose bytes are as expected. *)
Lemma wp_check_bytes d μ q e i (k j : nat) (Q : bool → dst → Prop) :
  holds (d_st d) μ → μ !! q = Some e → (j + k ≤ length e)%nat →
  (∀ x, (j ≤ x < j + k)%nat → e !! x = Some (Z.land i 255)) → Z.land i 255 < 128 →
  Q true d → wp (check_bytes k q (Z.of_nat j) i) d Q.
Proof.
  intros Hh Hq Hl He Hc HQ. destruct (law_payload _ _ _ _ Hh Hq) as (_ & Hlo & Hhi & Hrd).
  pose proof (law_memlib _ _ Hh) as Hml. pose proof (mo_brk _ Hml). pose proof (mo_start _ Hml).
  pose proof (mo_top _ Hml). unfold wp. rewrite check_bytes_run; [|intros|lia..].
  2: { apply memlib_ok_valid; [done|lia..]. }
  replace (forallb _ _) with true; [done|]. symmetry. apply Is_true_true, forallb_True, Forall_forall.
  intros b (x & Hx)%list_elem_of_lookup. pose proof (lookup_lt_Some _ _ _ Hx) as Hlt.
  rewrite rdbs_length in Hlt. rewrite rdbs_lookup in Hx by done. injection Hx as <-.
  assert (E : e !! (j + x)%nat = Some (Z.land i 255)) by (apply He; lia).
  rewrite Hrd, rdbs_lookup in E by lia. injection E as E.
  replace (q + Z.of_nat j + Z.of_nat x) with (q + Z.of_nat (j + x)) by lia. rewrite E.
  apply Is_true_true. lia.
Qed.

(** The bytes [mm_realloc] kept. *)
Lemma kept_byte (e e' : list Z) c (n m : Z) (x : nat) :
  take (Z.to_nat m) e = replicate (Z.to_nat m) c →
  (let k := Z.to_nat n `min` length e in take k e' = take k e)%nat →
  (x < Z.to_nat (Z.min n m))%nat → m ≤ Z.of_nat (length e) →
  e' !! x = Some c.
Proof.
  intros Hf Hk Hx Hm.
  assert (E : take (Z.to_nat n `min` length e) e' !! x = take (Z.to_nat n `min` length e) e !! x)
    by (by rewrite Hk).
  rewrite !lookup_take_lt in E by lia. rewrite E.
  assert (E2 : take (Z.to_nat m) e !! x = Some c).
  { rewrite Hf. apply lookup_replicate_2. lia. }
  by rewrite lookup_take_lt in E2 by lia.
Qed.

Lemma wp_valid_realloc t k d o μ i p m n (Q : bool → dst → Prop) :
  let run := request pattern (Op REALLOC i n) (fst <$> o) (d_st d) in
  vinv d o μ → o !! i = Some (p, m) → 0 ≤ i < ids → 0 < n ≤ N → Z.land i 255 < 128 →
  (∀ d' q e, vinv d' (<[i := (q, n)]> (delete i o)) (<[q := e]> (delete p μ)) → quiet d d' →
     run = Ok (Some (fst <$> <[i := (q, n)]> (delete i o)), d_st d') → Q true d') →
  (∀ d', null_reported t k d d' → run = Ok (None, d_st d') → Q false d') →
  wp (valid_op t k (Op REALLOC i n)) d Q.
Proof.
  intros run [Hd Hs Hf Hr] Hi Hids Hn Hlow HQ Hnull. unfold valid_op. cbn [op_type op_index op_size].
  pose proof (dv_own _ _ _ Hd) as Ho. destruct (op_backed _ _ _ Ho _ _ _ Hi) as (Hm & e & He & Hme).
  assert (Hσ : (fst <$> o) !! i = Some p) by (by rewrite lookup_fmap, Hi).
  wp_bind. eapply wp_get_cell; [apply (dv_blocks _ _ _ Hd)|done|]. cbn [fst].
  wp_bind. apply (wp_d_realloc d o μ i p m e n _ Hd Hi He Hn).
  2: { intros s E _. cbn [Z.eqb]. unfold malloc_error. wp_pure. apply Hnull.
       - exists ReallocFailed. by split; [right|].
       - by apply (request_realloc_null _ i n p). }
  intros s q e' Eq _ Hq0 Hh Hmr Hq Hle Hk. destruct (Z.eqb_spec q 0); [done|].
  unfold remove_range. wp_pure. cbn [d_ranges set_d_st].
  set (o' := delete i o). set (μ' := delete p μ) in *.
  assert (Ho' : own_ptrs N o' μ') by (by eapply own_free).
  assert (Hr' : ranged (remove_loop (d_ranges d) p) o') by (by eapply ranged_remove).
  assert (Hq' : μ' !! q = None) by (apply lookup_delete_None; by right).
  set (d1 := set_d_ranges _ _).
  apply (wp_d_add_range d1 o' μ' q e' n); [done|done|done|done|lia|done|].
  cbn [Z.eqb]. set (d2 := set_d_ranges _ d1).
  wp_bind. apply (wp_get_cell d_sizes snd ids d2 o i (p, m)); [exact Hs|done|].
  cbn [snd]. rewrite s32_small by lia.
  set (old := if n <? m then n else m).
  assert (Eo : old = Z.min n m) by (subst old; destruct (Z.ltb_spec n m); lia).
  wp_bind. apply (wp_check_bytes d2 (<[q := e']> μ') q e' i _ 0); [done|apply lookup_insert_eq|lia| |done|].
  { intros x Hx. eapply kept_byte; [by eapply Hf|done|rewrite <- Eo; lia|done]. }
  apply (wp_record _ o' μ' i q n e'); try done.
  - by eapply filled_free.
  - destruct Hd as [_ _ _ Hb]. eapply cells_subseteq; [apply delete_subseteq|]. exact Hb.
  - eapply cells_subseteq; [apply delete_subseteq|]. exact Hs.
  - apply ranged_add; [done| |apply lookup_delete_eq]. intros j q2 m2 Hj ->.
    destruct (op_backed _ _ _ Ho' _ _ _ Hj) as (_ & e2 & E & _). congruence.
  - intros d' e2 Hv Hqt Ef. apply (HQ d' q e2); [done|done|].
    rewrite insert_delete_eq, fmap_insert. by apply (request_realloc _ i n p q _ _ s).
Qed.

(** The loop. *)
Definition next_live (live : gset Z) (op : traceop_t) : gset Z :=
  match op_type op with
  | ALLOC => {[op_index op]} ∪ live
  | REALLOC => live
  | FREE => live ∖ {[op_index op]}
  end.
Definition last_live (live : gset Z) (l : list traceop_t) : gset Z := foldl next_live live l.

(** The outcome of a run over a trace: either every payload was good, and
    the driver still owns one for each identifier left, or the allocator ran
    out of memory and that is the one thing reported.  [run] is the replay
    of the trace on the allocator alone. *)
Definition valid_outcome (t : Z) (last : gset Z) (run : res (option (gmap Z Z) * st)) (d : dst)
    (r : Z) (d' : dst) : Prop :=
  (r = 1 ∧ quiet d d' ∧ ∃ o μ, vinv d' o μ ∧ dom o = last ∧ run = Ok (Some (fst <$> o), d_st d')) ∨
  (r = 0 ∧ (∃ i d1, quiet d d1 ∧ null_reported t i d1 d') ∧ run = Ok (None, d_st d')).

Lemma quiet_refl d : quiet d d.
Proof. done. Qed.

Lemma quiet_trans d1 d2 d3 : quiet d1 d2 → quiet d2 d3 → quiet d1 d3.
Proof. unfold quiet. intros [-> ->] [-> ->]. done. Qed.

Lemma valid_outcome_step t last run d d1 r d' :
  quiet d d1 → valid_outcome t last run d1 r d' → valid_outcome t last run d r d'.
Proof.
  intros Hq [(-> & Hq' & H)|(-> & (i & d2 & Hq' & H) & E)]; [left|right].
  - split_and!; [done|by eapply quiet_trans|done].
  - split; [done|]. split; [|done]. exists i, d2. split; [by eapply quiet_trans|done].
Qed.

Lemma wp_valid_ops t l : ∀ k d o μ,
  vinv d o μ → disciplined N ids (dom o) l = true → low_ids l = true →
  wp (valid_ops t k l) d
    (valid_outcome t (last_live (dom o) l) (replay pattern l (fst <$> o) (d_st d)) d).
Proof.
  induction l as [|[ty i n] l IH]; intros k d o μ Hv Hdis Hlow; cbn [valid_ops].
  { apply wp_ret. left. split_and!; [done|apply quiet_refl|]. by exists o, μ. }
  set (op := Op ty i n) in *. set (run := replay _ _ _ _).
  assert (Hnull : ∀ d', null_reported t k d d' →
            request pattern op (fst <$> o) (d_st d) = Ok (None, d_st d') →
            wp (mret 0) d' (valid_outcome t (last_live (dom o) (op :: l)) run d)).
  { intros d' Hd' E. apply wp_ret. right. split; [done|]. split; [by exists k, d|].
    by apply replay_null. }
  assert (Hgo : ∀ d1 o1 μ1, vinv d1 o1 μ1 → quiet d d1 → dom o1 = next_live (dom o) op →
            request pattern op (fst <$> o) (d_st d) = Ok (Some (fst <$> o1), d_st d1) →
            disciplined N ids (next_live (dom o) op) l = true →
            wp (valid_ops t (k + 1) l) d1 (valid_outcome t (last_live (dom o) (op :: l)) run d)).
  { intros d1 o1 μ1 Hv1 Hq1 Hdom1 E Hdis1. rewrite <- Hdom1 in Hdis1.
    eapply wp_mono; [eapply IH; [done..|]|].
    - cbn in Hlow. by apply andb_prop in Hlow as [_ ?].
    - intros r d' Ho. eapply valid_outcome_step; [done|]. subst run.
      rewrite (replay_next _ _ _ _ _ _ _ E). rewrite Hdom1 in Ho. exact Ho. }
  assert (Hlo : ty = REALLOC → Z.land i 255 < 128).
  { intros ->. apply andb_prop in Hlow as [Hlow _]. cbn [op op_type op_index] in Hlow.
    rewrite bool_decide_true in Hlow by done. by apply Z.ltb_lt. }
  clear Hlow. unfold next_live in Hgo. subst op. cbn [disciplined op_type op_index op_size] in *. wp_bind.
  destruct ty; rewrite ?andb_true_iff in Hdis; destruct_and!;
    repeat match goal with H : bool_decide _ = true |- _ => apply bool_decide_eq_true in H end.
  - apply (wp_valid_alloc t k d o μ i n); [done|by apply not_elem_of_dom|lia|lia| |done].
    intros d' p e Hv' Hq E. eapply Hgo; [done|done|by rewrite dom_insert_L|done|done].
  - match goal with H : i ∈ dom o |- _ => pose proof H as [[p m] Hi]%elem_of_dom end.
    apply (wp_valid_free t k d o μ i p m n); [done|done|].
    intros d' Hv' Hq E. eapply Hgo; [done|done|by rewrite dom_delete_L|done|done].
  - match goal with H : i ∈ dom o |- _ => pose proof H as [[p m] Hi]%elem_of_dom end.
    assert (Hids : 0 ≤ i < ids).
    { destruct Hv as [[_ _ _ [Hl Hc]] _ _ _]. destruct (Hc _ _ Hi) as [? Hlk].
      apply lookup_lt_Some in Hlk. lia. }
    apply (wp_valid_realloc t k d o μ i p m n); [done|done|lia|lia|by apply Hlo| |done].
    intros d' q e Hv' Hq E. eapply Hgo; [done|done| |done|done].
    rewrite insert_delete_eq, dom_insert_lookup_L; [done|by eexists].
Qed.

Lemma own_empty :
  own_ptrs N ∅ ∅ ∧
  (∀ d, length (d_blocks d) = Z.to_nat ids → cells d_blocks fst ids d ∅) ∧
  (∀ d, length (d_sizes d) = Z.to_nat ids → cells d_sizes snd ids d ∅) ∧
  filled ∅ ∅ ∧ ranged [] ∅.
Proof.
  split_and!.
  - split; [intros i p n Hi|intros i j p n m Hi]; by rewrite lookup_empty in Hi.
  - intros d Hl. split; [done|]. intros i x Hi. by rewrite lookup_empty in Hi.
  - intros d Hl. split; [done|]. intros i x Hi. by rewrite lookup_empty in Hi.
  - intros i p n e Hi. by rewrite lookup_empty in Hi.
  - split; [constructor|]. intros r. split; [by intros ?%not_elem_of_nil|].
    intros (i & p & n & Hi & _). by rewrite lookup_empty in Hi.
Qed.

(** The trace is replayed from the state [mm_init] leaves. *)
Lemma wp_valid_start d tr t (s : st) :
  holds s ∅ → may_request s N →
  length (d_blocks d) = Z.to_nat ids → length (d_sizes d) = Z.to_nat ids →
  disciplined N ids ∅ (ops tr) = true → low_ids (ops tr) = true →
  wp (valid_ops t 0 (ops tr)) (set_d_st s (set_d_ranges [] d))
    (valid_outcome t (last_live ∅ (ops tr)) (replay pattern (ops tr) ∅ s) d).
Proof.
  intros Hh Hm Hb Hs Hdis Hlow. set (d1 := set_d_st s _).
  assert (Hv : vinv d1 ∅ ∅).
  { destruct own_empty as (Ho & Hc1 & Hc2 & Hf & Hr).
    split; [split|..]; (done || by apply Hc1 || by apply Hc2). }
  pose proof (wp_valid_ops t (ops tr) 0 d1 ∅ ∅ Hv) as H. rewrite dom_empty_L, fmap_empty in H.
  eapply wp_mono; [by apply H|]. intros r d'. by apply valid_outcome_step.
Qed.

(** [eval_mm_valid] when [mm_init] returns. *)
Lemma wp_valid_run d tr t s :
  a_init (set_mem_brk (mem_start_brk (d_st d)) (d_st d)) = Ok (0, s) → holds s ∅ → may_request s N →
  length (d_blocks d) = Z.to_nat ids → length (d_sizes d) = Z.to_nat ids →
  disciplined N ids ∅ (ops tr) = true → low_ids (ops tr) = true →
  wp (eval_mm_valid tr t) d
    (valid_outcome t (last_live ∅ (ops tr)) (mm_replay pattern tr (d_st d)) d).
Proof.
  intros E Hh Hm Hb Hs Hdis Hlow. rewrite (mm_replay_run _ _ _ _ _ E). unfold eval_mm_valid.
  wp_bind. apply wp_lift. unfold mem_reset_brk. wp_pure. unfold clear_ranges. wp_pure.
  apply wp_lift. cbn [d_st set_d_st set_d_ranges]. unfold wp at 1. rewrite E.
  cbn [Z.ltb Z.compare]. by apply (wp_valid_start d).
Qed.

Lemma may_init_run (s : st) :
  may_init s N → ∃ s1, a_init s = Ok (0, s1) ∧ holds s1 ∅ ∧ may_request s1 N.
Proof.
  intros Hi. assert (H : wp a_init s (λ r s1, r = 0 ∧ holds s1 ∅ ∧ may_request s1 N)).
  { apply (law_init _ N); [done|]. by intros. }
  apply wp_run in H as (r & s1 & E & -> & Hh & Hm). by exists s1.
Qed.

Lemma starts_run (s : st) :
  starts N s → a_init s = Err (Exit 1) ∨ ∃ s1, a_init s = Ok (0, s1) ∧ holds s1 ∅ ∧ may_request s1 N.
Proof.
  unfold starts, wpx, exits. destruct (a_init s) as [[r s1]|e]; [|intros ->; by left].
  intros (-> & Hh & Hm). right. by exists s1.
Qed.

Lemma wp_eval_mm_valid d tr t :
  may_init (set_mem_brk (mem_start_brk (d_st d)) (d_st d)) N →
  length (d_blocks d) = Z.to_nat ids → length (d_sizes d) = Z.to_nat ids →
  disciplined N ids ∅ (ops tr) = true → low_ids (ops tr) = true →
  wp (eval_mm_valid tr t) d
    (valid_outcome t (last_live ∅ (ops tr)) (mm_replay pattern tr (d_st d)) d).
Proof. intros (s & E & Hh & Hm)%may_init_run. by apply (wp_valid_run d tr t s). Qed.

(** The same from any state, if initialisation may stop the process. *)
Lemma wpx_eval_mm_valid d tr t :
  starts N (set_mem_brk (mem_start_brk (d_st d)) (d_st d)) →
  length (d_blocks d) = Z.to_nat ids → length (d_sizes d) = Z.to_nat ids →
  disciplined N ids ∅ (ops tr) = true → low_ids (ops tr) = true →
  wpx (not_started (mm_replay pattern tr (d_st d))) (eval_mm_valid tr t) d
    (valid_outcome t (last_live ∅ (ops tr)) (mm_replay pattern tr (d_st d)) d).
Proof.
  intros [E|(s & E & Hh & Hm)]%starts_run; intros.
  - rewrite (mm_replay_stops _ _ _ _ E). unfold eval_mm_valid.
    apply wpx_bind_wp, wp_lift. unfold mem_reset_brk. wp_pure.
    apply wpx_bind_wp. unfold clear_ranges. wp_pure. apply wpx_bind, wpx_lift.
    cbn [d_st set_d_st set_d_ranges]. unfold wpx. by rewrite E.
  - by apply wp_wpx, (wp_valid_run d tr t s).
Qed.
End Exec.
