(* ===== verification/DriverUtil.v ===== *)
(** * Space utilisation ([eval_mm_util]) and the timed runs ([eval_mm_speed])

    [high_water] is the quantity the comment of [eval_mm_util] describes:
    the largest number of requested bytes that are live at one time.  For a
    disciplined trace and a lawful allocator [eval_mm_util] is shown to
    compute it without integer overflow, and it is at most the heap size, so
    that the ratio it returns is at most one.  [eval_mm_speed] runs the same
    trace to its end. *)

From Stdlib Require Import ZArith Lia.
From stdpp Require Import base gmap numbers list.
From S2P Require Import Prelude Memory Memlib Contract Ranges Driver Replay DriverSpec.

(** The sizes of the live identifiers after a request. *)
Definition after (σ : gmap Z Z) (op : traceop_t) : gmap Z Z :=
  match op_type op with
  | FREE => delete (op_index op) σ
  | _ => <[op_index op := op_size op]> σ
  end.

Definition total_size (σ : gmap Z Z) : Z := map_fold (λ _ n a, n + a) 0 σ.

(** The largest total size along a trace. *)
Fixpoint high_water (σ : gmap Z Z) (l : list traceop_t) : Z :=
  match l with
  | [] => total_size σ
  | op :: l' => Z.max (total_size σ) (high_water (after σ op) l')
  end.

Lemma high_water_ge σ l : total_size σ ≤ high_water σ l.
Proof. destruct l; cbn [high_water]; lia. Qed.

(** ** Totals *)
Lemma total_size_insert σ i n : σ !! i = None → total_size (<[i := n]> σ) = n + total_size σ.
Proof. intros Hi. unfold total_size. apply map_fold_insert_L; [intros; lia|done]. Qed.

Lemma total_size_delete σ i n : σ !! i = Some n → total_size (delete i σ) = total_size σ - n.
Proof.
  intros Hi. unfold total_size at 2. rewrite (map_fold_delete_L _ _ i n σ); [|intros; lia|done].
  unfold total_size. lia.
Qed.

Lemma total_size_replace σ i n m :
  σ !! i = Some n → total_size (<[i := m]> σ) = total_size σ + (m - n).
Proof.
  intros Hi. rewrite <- insert_delete_eq, total_size_insert by apply lookup_delete_eq.
  rewrite (total_size_delete _ _ n) by done. lia.
Qed.

Lemma total_bytes_delete μ p e :
  μ !! p = Some e → total_bytes (delete p μ) = total_bytes μ - Z.of_nat (length e).
Proof.
  intros Hp. unfold total_bytes at 2. rewrite (map_fold_delete_L _ _ p e μ); [|intros; lia|done].
  unfold total_bytes. lia.
Qed.

Lemma total_bytes_nonneg μ : 0 ≤ total_bytes μ.
Proof.
  unfold total_bytes. apply (map_fold_weak_ind (λ r _, 0 ≤ r)); [lia|]. intros. lia.
Qed.

(** What the identifiers asked for is no more than the payloads hold. *)
Lemma own_total N (o : owned) : ∀ μ,
  own_ptrs N o μ → 0 ≤ total_size (snd <$> o) ≤ total_bytes μ.
Proof.
  induction o as [|i [p n] o Hi IH] using map_ind; intros μ Ho.
  - rewrite fmap_empty. unfold total_size. rewrite map_fold_empty.
    pose proof (total_bytes_nonneg μ). lia.
  - destruct (op_backed _ _ _ Ho i p n) as (Hn & e & He & Hle); [apply lookup_insert_eq|].
    pose proof (own_free _ _ _ _ _ Ho (lookup_insert_eq _ _ _)) as Ho'.
    rewrite delete_insert_id in Ho' by done. apply IH in Ho'.
    rewrite (total_bytes_delete _ _ _ He) in Ho'.
    rewrite fmap_insert, total_size_insert by (by rewrite lookup_fmap, Hi). cbn [snd]. lia.
Qed.

(** ** Execution *)
Section Exec.
Context {L : Libc} {RA : RangeAlloc} {A : Allocator} {AL : AllocatorLaws A}.
Variables (N ids : Z).
Hypothesis HN : N < 2147483648.

Implicit Types (o : owned) (μ : gmap Z (list Z)) (d : dst).

(** The bytes of the heap. *)
Definition heap_size (s : st) : Z := mem_brk s - mem_start_brk s.

Lemma frame_heap_size s s' : frame s s' → heap_size s ≤ heap_size s'.
Proof. unfold frame, heap_size. intros. destruct_and!. lia. Qed.

Lemma own_heap d o μ :
  dinv N ids d o μ → 0 ≤ total_size (snd <$> o) ≤ heap_size (d_st d) ∧ heap_size (d_st d) ≤ MAX_HEAP.
Proof.
  intros [Hh _ Ho _]. pose proof (own_total _ _ _ Ho). pose proof (law_total _ _ Hh).
  pose proof (law_memlib _ _ Hh) as Hm. pose proof (mo_brk _ Hm). pose proof (mo_max _ Hm).
  unfold heap_size. lia.
Qed.

Lemma wp_int_result z d (Q : Z → dst → Prop) :
  -2147483648 ≤ z < 2147483648 → Q z d → wp (int_result z) d Q.
Proof.
  intros Hz HQ. unfold int_result, int_range.
  destruct (Z.leb_spec (-2147483648) z), (Z.ltb_spec z 2147483648); try lia. exact HQ.
Qed.

(** The new payload is recorded in both arrays. *)
Lemma wp_set_cells E d o i p n (k : M dst Z) (P : Z → dst → Prop) :
  cells d_blocks fst ids d o → cells d_sizes snd ids d o → 0 ≤ i < ids → 0 ≤ n < W32 →
  (∀ d', d_st d' = d_st d → cells d_blocks fst ids d' (<[i := (p, n)]> o) →
         cells d_sizes snd ids d' (<[i := (p, n)]> o) → wpx E k d' P) →
  wpx E (set_cell d_blocks set_d_blocks i p;;
             set_cell d_sizes set_d_sizes i (u32 n);; k) d P.
Proof.
  intros Hb Hs Hi Hn HQ. rewrite u32_small by done.
  apply wpx_bind_wp, (wp_set_cell d_blocks set_d_blocks fst ids _ o i (p, n)); [done..|].
  intros Hb'. cbn [fst] in *.
  apply wpx_bind_wp, (wp_set_cell d_sizes set_d_sizes snd ids _ o i (p, n)); [done..|].
  intros Hs'. cbn [snd] in *. by apply HQ.
Qed.

(** [run] is the replay of the requests on the allocator alone. *)
Definition util_outcome (mx : Z) (σ : gmap Z Z) (l : list traceop_t)
    (run : res (option (gmap Z Z) * st)) (r : Z) (d' : dst) : Prop :=
  r = Z.max mx (high_water σ l) ∧ r ≤ heap_size (d_st d') ∧ memlib_ok (d_st d') ∧
  ∃ σ', run = Ok (Some σ', d_st d').

Lemma util_step mx σ op l run r d' t' :
  total_size σ ≤ mx → total_size (after σ op) ≤ t' → t' ≤ Z.max mx (total_size (after σ op)) →
  util_outcome (Z.max mx t') (after σ op) l run r d' → util_outcome mx σ (op :: l) run r d'.
Proof.
  intros H1 H2 H3 (-> & H4 & H5 & H6). split_and!; [|done..]. cbn [high_water].
  pose proof (high_water_ge (after σ op) l). lia.
Qed.

(** The loop is right on [l]. *)
Definition util_runs (l : list traceop_t) : Prop := ∀ d o μ mx,
  dinv N ids d o μ → cells d_sizes snd ids d o →
  total_size (snd <$> o) ≤ mx → mx ≤ heap_size (d_st d) →
  disciplined N ids (dom o) l = true →
  let run := replay idle l (fst <$> o) (d_st d) in
  wpx (refused run) (util_ops l (total_size (snd <$> o)) mx) d (util_outcome mx (snd <$> o) l run).

(** The maximum is updated and the loop goes on. *)
Lemma util_next l op σ d o μ mx :
  util_runs l → dinv N ids d o μ → cells d_sizes snd ids d o → snd <$> o = after σ op →
  total_size σ ≤ mx → mx ≤ heap_size (d_st d) → disciplined N ids (dom o) l = true →
  let run := replay idle l (fst <$> o) (d_st d) in
  wpx (refused run) (util_ops l (total_size (after σ op))
               (if mx <? total_size (after σ op) then total_size (after σ op) else mx)) d
    (util_outcome mx σ (op :: l) run).
Proof.
  intros IH Hd Hs Eo Hmx Hhs Hdis run. rewrite <- Eo.
  pose proof (own_heap _ _ _ Hd) as Hoh. set (t := total_size (snd <$> o)) in *.
  set (mx' := if mx <? t then t else mx).
  assert (Emx : mx' = Z.max mx t) by (subst mx'; destruct (Z.ltb_spec mx t); lia).
  assert (Hgo : wpx (refused run) (util_ops l t mx') d (util_outcome mx' (snd <$> o) l run)).
  { apply (IH d o μ); [done|done|fold t; lia|lia|done]. }
  revert Hgo. unfold wpx. destruct (util_ops _ _ _ _) as [[r d2]|]; [|done].
  rewrite Emx, Eo. apply util_step; rewrite <- ?Eo; fold t; lia.
Qed.

Lemma total_bound d o μ :
  dinv N ids d o μ → 0 ≤ total_size (snd <$> o) < 2147483648.
Proof. intros Hd. pose proof (own_heap _ _ _ Hd). rewrite MAX_HEAP_eq in *. lia. Qed.

Lemma dinv_alloc d0 d o μ i p n e :
  holds (d_st d) (<[p := e]> μ) → may_request (d_st d) N → μ !! p = None →
  own_ptrs N o μ → 0 < n ≤ N → n ≤ Z.of_nat (length e) → d_st d0 = d_st d →
  cells d_blocks fst ids d0 (<[i := (p, n)]> o) →
  dinv N ids d0 (<[i := (p, n)]> o) (<[p := e]> μ).
Proof. intros ?????? E ?. split; rewrite ?E; try done. by apply own_malloc. Qed.

Lemma util_alloc l i n d o μ mx :
  util_runs l → dinv N ids d o μ → cells d_sizes snd ids d o →
  total_size (snd <$> o) ≤ mx → mx ≤ heap_size (d_st d) →
  o !! i = None → 0 ≤ i < ids → 0 < n ≤ N →
  disciplined N ids ({[i]} ∪ dom o) l = true →
  let run := replay idle (Op ALLOC i n :: l) (fst <$> o) (d_st d) in
  wpx (refused run) (util_ops (Op ALLOC i n :: l) (total_size (snd <$> o)) mx) d
    (util_outcome mx (snd <$> o) (Op ALLOC i n :: l) run).
Proof.
  intros IH Hd Hs Hmx Hhs Hi Hids Hn Hdis run. cbn [util_ops op_type op_index op_size].
  pose proof (dv_own _ _ _ _ _ Hd) as Ho. pose proof (dv_blocks _ _ _ _ _ Hd) as Hb.
  apply wpx_bind_wp, (wp_d_malloc N ids HN d o μ n _ Hd Hn).
  2: { intros s E _. cbn [Z.eqb]. apply (wpx_fail _ (Exit 1)). split; [done|]. exists s.
       by apply replay_null, request_alloc_null. }
  intros s p e E Hf Hp0 Hh Hm Hp He. destruct (Z.eqb_spec p 0); [done|].
  apply (wp_set_cells _ _ o); [exact Hb|exact Hs|lia|unfold W32; lia|]. intros d' Ed Hb' Hs'.
  assert (Hd' : dinv N ids d' (<[i := (p, n)]> o) (<[p := e]> μ))
    by (by eapply (dinv_alloc _ (set_d_st s d))).
  assert (Er : run = replay idle l (fst <$> <[i := (p, n)]> o) (d_st d')).
  { rewrite Ed, fmap_insert. by apply replay_next, (request_alloc _ i n p _ _ s). }
  assert (Et : total_size (snd <$> o) + n = total_size (after (snd <$> o) (Op ALLOC i n))).
  { cbn. rewrite total_size_insert by (by rewrite lookup_fmap, Hi). lia. }
  assert (Eo : snd <$> <[i := (p, n)]> o = after (snd <$> o) (Op ALLOC i n)) by (by rewrite fmap_insert).
  rewrite Et. apply wpx_bind_wp, wp_int_result.
  { rewrite <- Eo. pose proof (total_bound _ _ _ Hd'). lia. }
  rewrite Er. eapply util_next; try done.
  - rewrite Ed. pose proof (frame_heap_size _ _ Hf). cbn. lia.
  - by rewrite dom_insert_L.
Qed.

Lemma util_free l i n d o μ mx :
  util_runs l → dinv N ids d o μ → cells d_sizes snd ids d o →
  total_size (snd <$> o) ≤ mx → mx ≤ heap_size (d_st d) →
  i ∈ dom o → disciplined N ids (dom o ∖ {[i]}) l = true →
  let run := replay idle (Op FREE i n :: l) (fst <$> o) (d_st d) in
  wpx (refused run) (util_ops (Op FREE i n :: l) (total_size (snd <$> o)) mx) d
    (util_outcome mx (snd <$> o) (Op FREE i n :: l) run).
Proof.
  intros IH Hd Hs Hmx Hhs [[p m] Hi]%elem_of_dom Hdis run. cbn [util_ops op_type op_index op_size].
  pose proof (dv_own _ _ _ _ _ Hd) as Ho. destruct (op_backed _ _ _ Ho _ _ _ Hi) as (Hm & _).
  apply wpx_bind_wp, (wp_get_cell d_sizes snd ids d o i (p, m) _ Hs Hi). cbn [snd].
  rewrite s32_small by lia.
  apply wpx_bind_wp, (wp_get_cell d_blocks fst ids d o i (p, m) _ (dv_blocks _ _ _ _ _ Hd) Hi).
  apply wpx_bind_wp, (wp_d_free N ids d o μ i p m _ Hd Hi). intros s E Hf Hd'.
  assert (Er : run = replay idle l (fst <$> delete i o) (d_st (set_d_st s d))).
  { rewrite fmap_delete. apply replay_next, (request_free _ i n p); [by rewrite lookup_fmap, Hi|exact E]. }
  assert (Eo : snd <$> delete i o = after (snd <$> o) (Op FREE i n)) by (by rewrite fmap_delete).
  assert (Et : total_size (snd <$> o) - m = total_size (after (snd <$> o) (Op FREE i n))).
  { cbn. rewrite (total_size_delete _ _ m); [done|by rewrite lookup_fmap, Hi]. }
  rewrite Et. apply wpx_bind_wp, wp_int_result.
  { rewrite <- Eo. pose proof (total_bound _ _ _ Hd'). lia. }
  assert (Hlt : (mx <? total_size (after (snd <$> o) (Op FREE i n))) = false)
    by (apply Z.ltb_ge; lia).
  pose proof (util_next l (Op FREE i n) (snd <$> o) (set_d_st s d) (delete i o) (delete p μ) mx IH Hd') as H.
  rewrite Hlt in H. rewrite Er. apply H; try done.
  - eapply cells_subseteq; [apply delete_subseteq|]. exact Hs.
  - pose proof (frame_heap_size _ _ Hf). cbn. lia.
  - by rewrite dom_delete_L.
Qed.

Lemma util_realloc l i n d o μ mx :
  util_runs l → dinv N ids d o μ → cells d_sizes snd ids d o →
  total_size (snd <$> o) ≤ mx → mx ≤ heap_size (d_st d) →
  i ∈ dom o → 0 < n ≤ N → disciplined N ids (dom o) l = true →
  let run := replay idle (Op REALLOC i n :: l) (fst <$> o) (d_st d) in
  wpx (refused run) (util_ops (Op REALLOC i n :: l) (total_size (snd <$> o)) mx) d
    (util_outcome mx (snd <$> o) (Op REALLOC i n :: l) run).
Proof.
  intros IH Hd Hs Hmx Hhs Hin Hn Hdis run. cbn [util_ops op_type op_index op_size].
  pose proof Hin as [[p m] Hi]%elem_of_dom.
  pose proof (dv_own _ _ _ _ _ Hd) as Ho. pose proof (dv_blocks _ _ _ _ _ Hd) as Hb.
  destruct (op_backed _ _ _ Ho _ _ _ Hi) as (Hm & e & He & Hle).
  assert (Hids : 0 ≤ i < ids).
  { destruct Hb as [Hl Hc]. destruct (Hc _ _ Hi) as [? Hlk]. apply lookup_lt_Some in Hlk. lia. }
  apply wpx_bind_wp, (wp_get_cell d_sizes snd ids d o i (p, m) _ Hs Hi). cbn [snd].
  rewrite s32_small by lia.
  apply wpx_bind_wp, (wp_get_cell d_blocks fst ids d o i (p, m) _ Hb Hi). cbn [fst].
  apply wpx_bind_wp, (wp_d_realloc N ids HN d o μ i p m e n _ Hd Hi He Hn).
  2: { intros s E _. cbn [Z.eqb]. apply (wpx_fail _ (Exit 1)). split; [done|]. exists s.
       apply replay_null, (request_realloc_null _ i n p); [by rewrite lookup_fmap, Hi|exact E]. }
  intros s q e' E Hf Hq0 Hh Hmr Hq Hle' _. destruct (Z.eqb_spec q 0); [done|].
  apply (wp_set_cells _ _ o); [exact Hb|exact Hs|lia|unfold W32; lia|]. intros d' Ed Hb' Hs'.
  rewrite <- (insert_delete_eq o) in Hb', Hs'.
  assert (Hd' : dinv N ids d' (<[i := (q, n)]> (delete i o)) (<[q := e']> (delete p μ))).
  { eapply (dinv_alloc _ (set_d_st s d)); try done; [apply lookup_delete_None; by right|by eapply own_free]. }
  assert (Er : run = replay idle l (fst <$> <[i := (q, n)]> (delete i o)) (d_st d')).
  { rewrite Ed, insert_delete_eq, fmap_insert.
    apply replay_next, (request_realloc _ i n p q _ _ s); [by rewrite lookup_fmap, Hi|done..]. }
  assert (Et : total_size (snd <$> o) + (n - m) = total_size (after (snd <$> o) (Op REALLOC i n))).
  { cbn. rewrite (total_size_replace _ _ m); [done|by rewrite lookup_fmap, Hi]. }
  assert (Eo : snd <$> <[i := (q, n)]> (delete i o) = after (snd <$> o) (Op REALLOC i n)).
  { by rewrite insert_delete_eq, fmap_insert. }
  apply wpx_bind_wp, wp_int_result; [lia|].
  rewrite Et. apply wpx_bind_wp, wp_int_result.
  { rewrite <- Eo. pose proof (total_bound _ _ _ Hd'). lia. }
  rewrite Er. eapply util_next; try done.
  - rewrite Ed. pose proof (frame_heap_size _ _ Hf). cbn. lia.
  - rewrite insert_delete_eq, dom_insert_lookup_L; [done|by eexists].
Qed.

Lemma wp_util_ops l : util_runs l.
Proof.
  induction l as [|[ty i n] l IH]; intros d o μ mx Hd Hs Hmx Hhs Hdis.
  { apply wpx_ret. split_and!; [cbn; lia|done| |by eexists].
    apply (law_memlib _ _ (dv_holds _ _ _ _ _ Hd)). }
  cbn [disciplined op_type op_index op_size] in Hdis.
  destruct ty; rewrite ?andb_true_iff in Hdis; destruct_and!;
    repeat match goal with H : bool_decide _ = true |- _ => apply bool_decide_eq_true in H end.
  - eapply util_alloc; try done; [by apply not_elem_of_dom|lia|lia].
  - by eapply util_free.
  - eapply util_realloc; try done. lia.
Qed.

(** When [mm_init] returns. *)
Lemma wpx_util_run d tr s :
  a_init (set_mem_brk (mem_start_brk (d_st d)) (d_st d)) = Ok (0, s) → holds s ∅ → may_request s N →
  length (d_blocks d) = Z.to_nat ids → length (d_sizes d) = Z.to_nat ids →
  disciplined N ids ∅ (ops tr) = true →
  let run := mm_replay idle tr (d_st d) in
  wpx (refused run) (eval_mm_util tr) d (λ r d',
    r = (high_water ∅ (ops tr), heap_size (d_st d')) ∧ 0 ≤ r.1 ≤ r.2 ∧ ∃ σ, run = Ok (Some σ, d_st d')).
Proof.
  intros E Hh Hm Hb Hs Hdis run. subst run. rewrite (mm_replay_run _ _ _ _ _ E). unfold eval_mm_util.
  apply wpx_bind_wp, wp_lift. unfold mem_reset_brk. wp_pure. cbn [d_st set_d_st].
  apply wpx_bind_wp, wp_lift. cbn [d_st set_d_st]. unfold wp at 1. rewrite E. cbn [Z.ltb Z.compare].
  set (d1 := set_d_st s _).
  destruct (own_empty N ids) as (Ho & Hc1 & Hc2 & _ & _).
  assert (Hd : dinv N ids d1 ∅ ∅) by (split; (done || by apply Hc1)).
  pose proof (own_heap _ _ _ Hd) as [Hoh _]. rewrite fmap_empty in Hoh.
  change (total_size ∅) with 0 in Hoh.
  apply wpx_bind. eapply wpx_mono.
  { pose proof (wp_util_ops (ops tr) d1 ∅ ∅ 0 Hd (Hc2 d1 Hs)) as H.
    rewrite !fmap_empty, dom_empty_L in H. apply H; [done|lia|done]. }
  intros r d' (-> & Hle & Hml & Hrun).
  pose proof (mo_brk _ Hml). pose proof (mo_start _ Hml). pose proof (mo_top _ Hml).
  unfold wpx, mbind, M_bind, lift, mem_heapsize, gets, mret, M_ret. cbn [d_st set_d_st fst snd].
  rewrite sub32_small by lia.
  pose proof (high_water_ge ∅ (ops tr)) as Hpos. change (total_size ∅) with 0 in Hpos.
  rewrite Z.max_r in * by lia. replace (set_d_st (d_st d') d') with d' by by destruct d'.
  split; [done|]. split; [cbn [fst snd]; unfold heap_size in *; lia|done].
Qed.

(** From any state, if initialisation may stop the process. *)
Lemma wp_eval_mm_util d tr :
  starts N (set_mem_brk (mem_start_brk (d_st d)) (d_st d)) →
  length (d_blocks d) = Z.to_nat ids → length (d_sizes d) = Z.to_nat ids →
  disciplined N ids ∅ (ops tr) = true →
  let run := mm_replay idle tr (d_st d) in
  wpx (gives_up run) (eval_mm_util tr) d (λ r d',
    r = (high_water ∅ (ops tr), heap_size (d_st d')) ∧ 0 ≤ r.1 ≤ r.2 ∧ ∃ σ, run = Ok (Some σ, d_st d')).
Proof.
  intros [E|(s & E & Hh & Hm)]%starts_run Hb Hs Hdis run; subst run.
  - rewrite (mm_replay_stops _ _ _ _ E). unfold eval_mm_util.
    apply wpx_bind_wp, wp_lift. unfold mem_reset_brk. wp_pure.
    apply wpx_bind, wpx_lift. cbn [d_st set_d_st]. unfold wpx. rewrite E. by split; [|left].
  - eapply wpx_more; [by apply (wpx_util_run d tr s)|]. intros e. apply refused_gives_up.
Qed.

(** ** [eval_mm_speed] and the runs of the C library's allocator *)
Definition plain_outcome (last : gset Z) (run : res (option (gmap Z Z) * st)) (d' : dst) : Prop :=
  ∃ o μ, dinv N ids d' o μ ∧ dom o = last ∧ run = Ok (Some (fst <$> o), d_st d').

(** The loop is right on [l]. *)
Definition plain_runs (l : list traceop_t) : Prop := ∀ d o μ,
  dinv N ids d o μ → disciplined N ids (dom o) l = true →
  let run := replay idle l (fst <$> o) (d_st d) in
  wpx (refused run) (plain_ops (fail (Exit 1)) l) d (λ _, plain_outcome (last_live (dom o) l) run).

(** One round, given the rest of the loop: the request is carried out, or
    it met a NULL. *)
Lemma plain_next op l (c : M dst unit) d o :
  plain_runs l → disciplined N ids (next_live (dom o) op) l = true →
  let step := request idle op (fst <$> o) (d_st d) in
  wpx (refused step) c d (λ _ d', ∃ o' μ', dinv N ids d' o' μ' ∧ dom o' = next_live (dom o) op ∧
    step = Ok (Some (fst <$> o'), d_st d')) →
  let run := replay idle (op :: l) (fst <$> o) (d_st d) in
  wpx (refused run) (c;; plain_ops (fail (Exit 1)) l) d
    (λ _, plain_outcome (last_live (dom o) (op :: l)) run).
Proof.
  intros IH Hdis step Hc run. apply wpx_bind. eapply wpx_more.
  - eapply wpx_mono; [exact Hc|]. cbv beta. intros _ d' (o' & μ' & Hd' & Hdom & E).
    pose proof (IH d' o' μ' Hd') as H. rewrite Hdom in H. subst run. rewrite (replay_next _ _ _ _ _ _ _ E).
    by apply H.
  - intros e [-> [s E]]. split; [done|]. exists s. by apply replay_null.
Qed.

Lemma plain_alloc i n d o μ :
  dinv N ids d o μ → o !! i = None → 0 ≤ i < ids → 0 < n ≤ N →
  let step := request idle (Op ALLOC i n) (fst <$> o) (d_st d) in
  wpx (refused step)
    (p ← lift (a_malloc (u32 n));
     if p =? 0 then fail (Exit 1) else set_cell d_blocks set_d_blocks i p) d
    (λ _ d', ∃ o' μ', dinv N ids d' o' μ' ∧ dom o' = {[i]} ∪ dom o ∧ step = Ok (Some (fst <$> o'), d_st d')).
Proof.
  intros Hd Hi Hids Hn step. pose proof Hd as [_ _ Ho Hb].
  apply wpx_bind_wp, (wp_d_malloc N ids HN d o μ n _ Hd Hn).
  2: { intros s E _. cbn [Z.eqb]. apply wpx_fail. split; [done|]. exists s. by apply request_alloc_null. }
  intros s p e E Hf Hp0 Hh Hm Hp He. destruct (Z.eqb_spec p 0); [done|].
  apply wp_wpx, (wp_set_cell d_blocks set_d_blocks fst ids _ o i (p, n)); [exact Hb|lia|done|].
  intros Hb'. cbn [fst] in *. exists (<[i := (p, n)]> o), (<[p := e]> μ).
  split; [by eapply (dinv_alloc _ (set_d_st s d))|]. split; [by rewrite dom_insert_L|].
  rewrite fmap_insert. by apply (request_alloc _ i n p _ _ s).
Qed.

Lemma plain_free i n d o μ :
  dinv N ids d o μ → i ∈ dom o →
  let step := request idle (Op FREE i n) (fst <$> o) (d_st d) in
  wpx (refused step) (p ← get_cell d_blocks i; lift (a_free p)) d
    (λ _ d', ∃ o' μ', dinv N ids d' o' μ' ∧ dom o' = dom o ∖ {[i]} ∧ step = Ok (Some (fst <$> o'), d_st d')).
Proof.
  intros Hd [[p m] Hi]%elem_of_dom step.
  apply wpx_bind_wp, (wp_get_cell d_blocks fst ids d o i (p, m) _ (dv_blocks _ _ _ _ _ Hd) Hi).
  apply wp_wpx, (wp_d_free N ids d o μ i p m _ Hd Hi). intros s E Hf Hd'.
  eexists _, _. split; [exact Hd'|]. split; [by rewrite dom_delete_L|].
  rewrite fmap_delete. apply (request_free _ i n p); [by rewrite lookup_fmap, Hi|exact E].
Qed.

Lemma plain_realloc i n d o μ :
  dinv N ids d o μ → i ∈ dom o → 0 < n ≤ N →
  let step := request idle (Op REALLOC i n) (fst <$> o) (d_st d) in
  wpx (refused step)
    (oldp ← get_cell d_blocks i;
     newp ← lift (a_realloc oldp (u32 n));
     if newp =? 0 then fail (Exit 1) else set_cell d_blocks set_d_blocks i newp) d
    (λ _ d', ∃ o' μ', dinv N ids d' o' μ' ∧ dom o' = dom o ∧ step = Ok (Some (fst <$> o'), d_st d')).
Proof.
  intros Hd [[p m] Hi]%elem_of_dom Hn step. pose proof Hd as [_ _ Ho Hb].
  destruct (op_backed _ _ _ Ho _ _ _ Hi) as (Hm & e & He & Hle).
  assert (Hσ : (fst <$> o) !! i = Some p) by (by rewrite lookup_fmap, Hi).
  assert (Hids : 0 ≤ i < ids).
  { destruct Hb as [Hl Hc]. destruct (Hc _ _ Hi) as [? Hlk]. apply lookup_lt_Some in Hlk. lia. }
  apply wpx_bind_wp, (wp_get_cell d_blocks fst ids d o i (p, m) _ Hb Hi). cbn [fst].
  apply wpx_bind_wp, (wp_d_realloc N ids HN d o μ i p m e n _ Hd Hi He Hn).
  2: { intros s E _. cbn [Z.eqb]. apply wpx_fail. split; [done|]. exists s.
       by apply (request_realloc_null _ i n p). }
  intros s q e' E Hf Hq0 Hh Hmr Hq Hle' _. destruct (Z.eqb_spec q 0); [done|].
  apply wp_wpx, (wp_set_cell d_blocks set_d_blocks fst ids _ o i (q, n)); [exact Hb|lia|done|].
  intros Hb'. cbn [fst] in *. rewrite <- (insert_delete_eq o) in Hb'.
  exists (<[i := (q, n)]> (delete i o)), (<[q := e']> (delete p μ)).
  split; [eapply (dinv_alloc _ (set_d_st s d)); try done|split].
  - apply lookup_delete_None. by right.
  - by eapply own_free.
  - rewrite insert_delete_eq, dom_insert_lookup_L; [done|by eexists].
  - rewrite insert_delete_eq, fmap_insert. by apply (request_realloc _ i n p q _ _ s).
Qed.

Lemma wp_plain_ops l : plain_runs l.
Proof.
  induction l as [|[ty i n] l IH]; intros d o μ Hd Hdis run; cbn [plain_ops op_type op_index op_size].
  { apply wpx_ret. by exists o, μ. }
  cbn [disciplined op_type op_index op_size] in Hdis. subst run.
  destruct ty; rewrite ?andb_true_iff in Hdis; destruct_and!;
    repeat match goal with H : bool_decide _ = true |- _ => apply bool_decide_eq_true in H end.
  - apply plain_next; [done|done|]. apply (plain_alloc i n d o μ Hd); [by apply not_elem_of_dom|lia|lia].
  - apply plain_next; [done|done|]. by apply (plain_free i n d o μ Hd).
  - apply plain_next; [done|done|]. apply (plain_realloc i n d o μ Hd); [done|lia].
Qed.

Lemma wpx_speed_run d tr s :
  a_init (set_mem_brk (mem_start_brk (d_st d)) (d_st d)) = Ok (0, s) → holds s ∅ → may_request s N →
  length (d_blocks d) = Z.to_nat ids → disciplined N ids ∅ (ops tr) = true →
  let run := mm_replay idle tr (d_st d) in
  wpx (refused run) (eval_mm_speed tr) d (λ _, plain_outcome (last_live ∅ (ops tr)) run).
Proof.
  intros E Hh Hm Hb Hdis run. subst run. rewrite (mm_replay_run _ _ _ _ _ E). unfold eval_mm_speed.
  apply wpx_bind_wp, wp_lift. unfold mem_reset_brk. wp_pure. cbn [d_st set_d_st].
  apply wpx_bind_wp, wp_lift. cbn [d_st set_d_st]. unfold wp at 1. rewrite E. cbn [Z.ltb Z.compare].
  destruct (own_empty N ids) as (Ho & Hc1 & _). set (d1 := set_d_st s _).
  assert (Hd : dinv N ids d1 ∅ ∅) by (split; (done || by apply Hc1)).
  pose proof (wp_plain_ops (ops tr) d1 ∅ ∅ Hd) as H. rewrite dom_empty_L, fmap_empty in H. by apply H.
Qed.

Lemma wp_eval_mm_speed d tr :
  starts N (set_mem_brk (mem_start_brk (d_st d)) (d_st d)) →
  length (d_blocks d) = Z.to_nat ids → disciplined N ids ∅ (ops tr) = true →
  let run := mm_replay idle tr (d_st d) in
  wpx (gives_up run) (eval_mm_speed tr) d (λ _, plain_outcome (last_live ∅ (ops tr)) run).
Proof.
  intros [E|(s & E & Hh & Hm)]%starts_run Hb Hdis run; subst run.
  - rewrite (mm_replay_stops _ _ _ _ E). unfold eval_mm_speed.
    apply wpx_bind_wp, wp_lift. unfold mem_reset_brk. wp_pure.
    apply wpx_bind, wpx_lift. cbn [d_st set_d_st]. unfold wpx. rewrite E. by split; [|left].
  - eapply wpx_more; [by apply (wpx_speed_run d tr s)|]. intros e. apply refused_gives_up.
Qed.

(** The C library's allocator, whatever it has handed out before. *)
Lemma wp_libc_ops d μ tr :
  holds (d_st d) μ → may_request (d_st d) N →
  length (d_blocks d) = Z.to_nat ids → disciplined N ids ∅ (ops tr) = true →
  let run := replay idle (ops tr) ∅ (d_st d) in
  wpx (refused run) (plain_ops unix_error (ops tr)) d (λ _, plain_outcome (last_live ∅ (ops tr)) run).
Proof.
  intros Hh Hm Hb Hdis. destruct (own_empty N ids) as (_ & Hc1 & _).
  assert (Hd : dinv N ids d ∅ μ).
  { split; [done|done| |by apply Hc1].
    split; [intros i p n Hi|intros i j p n m Hi]; by rewrite lookup_empty in Hi. }
  pose proof (wp_plain_ops (ops tr) d ∅ μ Hd) as H. rewrite dom_empty_L, fmap_empty in H. by apply H.
Qed.

Lemma wp_eval_libc_valid d μ tr t :
  holds (d_st d) μ → may_request (d_st d) N →
  length (d_blocks d) = Z.to_nat ids → disciplined N ids ∅ (ops tr) = true →
  let run := replay idle (ops tr) ∅ (d_st d) in
  wpx (refused run) (eval_libc_valid tr t) d (λ r d', r = 1 ∧ plain_outcome (last_live ∅ (ops tr)) run d').
Proof.
  intros Hh Hm Hb Hdis. unfold eval_libc_valid. apply wpx_bind.
  eapply wpx_mono; [by eapply wp_libc_ops|]. cbv beta. intros _ d' H. by apply wpx_ret.
Qed.

Lemma wp_eval_libc_speed d μ tr :
  holds (d_st d) μ → may_request (d_st d) N →
  length (d_blocks d) = Z.to_nat ids → disciplined N ids ∅ (ops tr) = true →
  let run := replay idle (ops tr) ∅ (d_st d) in
  wpx (refused run) (eval_libc_speed tr) d (λ _, plain_outcome (last_live ∅ (ops tr)) run).
Proof. apply wp_libc_ops. Qed.
End Exec.
