(* ===== verification/TraceFile.v ===== *)
(** * Reading a trace file (src/mdriver.c, [read_trace])

    The trace reader on the contents of a file: the conversions of [fscanf]
    it uses ([%d], [%u], [%s] and the [%ud] of the [f] lines), the header,
    the request lines and the two final assertions.  The theorems are that a
    printed trace is read back, that an accepted file agrees with its
    header, and that the loop ends. *)

From Stdlib Require Import ZArith Lia Ascii String.
From stdpp Require Import base gmap numbers list.
From S2P Require Import Prelude Ranges Driver.

Definition MAXLINE : Z := 1024.

(** [sizeof(traceop_t)] and the sizes of the cells of the other arrays. *)
Definition sizeof_traceop_t : Z := 12.
Definition sizeof_trace_t : Z := 28.
Definition sizeof_ptr : Z := 4.

(** The characters of a file, and the rest of it still to be read. *)
Abbreviation input := (list ascii).

(** ** [fscanf] *)
Definition isspace (c : ascii) : bool :=
  let n := N_of_ascii c in (n =? 32)%N || ((9 <=? n)%N && (n <=? 13)%N).
Definition isdigit (c : ascii) : bool :=
  let n := N_of_ascii c in (48 <=? n)%N && (n <=? 57)%N.
Definition digit_value (c : ascii) : Z := Z.of_N (N_of_ascii c) - 48.

Fixpoint skip_space (s : input) : input :=
  match s with
  | c :: s' => if isspace c then skip_space s' else s
  | [] => []
  end.

(** The digits at the start of the input, as many as there are. *)
Fixpoint scan_digits (acc : Z) (s : input) : Z * input :=
  match s with
  | c :: s' => if isdigit c then scan_digits (10 * acc + digit_value c) s' else (acc, s)
  | [] => (acc, [])
  end.

(** An optionally signed number; [None] is a matching or input failure. *)
Definition scan_number (s : input) : option Z * input :=
  let s := skip_space s in
  let '(neg, s1) :=
    match s with
    | c :: s' => if Ascii.eqb c "-"%char then (true, s')
                 else if Ascii.eqb c "+"%char then (false, s') else (false, s)
    | [] => (false, [])
    end in
  match s1 with
  | c :: _ => if isdigit c
              then let '(v, s2) := scan_digits 0 s1 in (Some (if neg then - v else v), s2)
              else (None, s1)
  | [] => (None, [])
  end.

(** [%d] and [%u]: a number the type cannot represent is undefined; [%u]
    negates modulo 2^32. *)
Definition scan_d : M input (option Z) := λ s,
  match scan_number s with
  | (Some v, s') => if int_range v then Ok (Some v, s') else Err UB
  | (None, s') => Ok (None, s')
  end.
Definition scan_u : M input (option Z) := λ s,
  match scan_number s with
  | (Some v, s') => if Z.abs v <? W32 then Ok (Some (u32 v), s') else Err UB
  | (None, s') => Ok (None, s')
  end.

Fixpoint scan_word (s : input) : input * input :=
  match s with
  | c :: s' => if isspace c then ([], s) else let '(w, r) := scan_word s' in (c :: w, r)
  | [] => ([], [])
  end.

(** [%s] into a buffer of [MAXLINE] bytes; [None] is EOF. *)
Definition scan_s : M input (option input) := λ s,
  match skip_space s with
  | [] => Ok (None, [])
  | s1 => let '(w, r) := scan_word s1 in
          if Z.of_nat (length w) <? MAXLINE then Ok (Some w, r) else Err UB
  end.

(** The literal [d] of ["%ud"]. *)
Definition scan_literal (c : ascii) : M input unit := λ s,
  match s with
  | c' :: s' => if Ascii.eqb c' c then Ok (tt, s') else Ok (tt, s)
  | [] => Ok (tt, [])
  end.

(** [assert(fscanf(...) == 1)]: the value that was converted. *)
Definition expect (o : option Z) : M input Z :=
  match o with
  | Some v => mret v
  | None => fail AssertFail
  end.

(** ** The reader *)
Section Reader.
(** Whether [malloc] succeeds, by the number of bytes. *)
Context (host_malloc : Z → bool).

(** [trace->ops[op_index] = ...]: the array has [bytes] bytes. *)
Definition store_op (bytes : Z) (op : traceop_t) (l : list traceop_t) : M input (list traceop_t) :=
  if sizeof_traceop_t * Z.of_nat (length l) + sizeof_traceop_t <=? bytes
  then mret (l ++ [op])
  else fail UB.

(** The loop over the request lines; [l] has the requests stored so far, so
    [op_index] is its length. *)
Fixpoint read_ops (fuel : nat) (bytes : Z) (l : list traceop_t) (max_index : Z) :
    M input (list traceop_t * Z) :=
  match fuel with
  | O => fail OutOfFuel
  | S fuel' =>
      type ← scan_s;
      match type with
      | None => mret (l, max_index)
      | Some [] => fail (Exit 1)
      | Some (c :: _) =>
          if Ascii.eqb c "a" || Ascii.eqb c "r" then
            index ← scan_u; index ← expect index;
            size ← scan_u; size ← expect size;
            l ← store_op bytes (Op (if Ascii.eqb c "a" then ALLOC else REALLOC) (s32 index) (s32 size)) l;
            read_ops fuel' bytes l (if max_index <? index then index else max_index)
          else if Ascii.eqb c "f" then
            index ← scan_u; scan_literal "d"%char;; index ← expect index;
            l ← store_op bytes (Op FREE (s32 index) 0) l;
            read_ops fuel' bytes l max_index
          else fail (Exit 1)
      end
  end.

Definition host_alloc (n : Z) : M input unit :=
  if host_malloc n then mret tt else fail (Exit 1).

(** From the first [fscanf] on; [fuel] bounds the number of lines. *)
Definition read_body (fuel : nat) : M input trace_t :=
  sugg ← scan_d; sugg ← expect sugg;
  ids ← scan_d; ids ← expect ids;
  nops ← scan_d; nops ← expect nops;
  weight ← scan_d; weight ← expect weight;
  let bytes := mul32 (u32 nops) sizeof_traceop_t in
  host_alloc bytes;;
  host_alloc (mul32 (u32 ids) sizeof_ptr);;
  host_alloc (mul32 (u32 ids) sizeof_ptr);;
  '(l, max_index) ← read_ops fuel bytes [] 0;
  (if int_range (ids - 1) then mret tt else fail UB);;
  assert_c (max_index =? u32 (ids - 1));;
  assert_c (u32 nops =? Z.of_nat (length l));;
  mret (Trace sugg ids nops weight l).

(** What [sprintf] writes into the [MAXLINE] bytes of [msg]. *)
Definition could_not_open (path : input) : input :=
  list_ascii_of_string "Could not open " ++ path ++ list_ascii_of_string " in read_trace".

(** The file is opened under the concatenation of directory and name. *)
Definition read_trace (fopen : input → option input) (tracedir filename : input) : res trace_t :=
  if host_malloc sizeof_trace_t then
    let path := tracedir ++ filename in
    if MAXLINE <=? Z.of_nat (length path) then Err UB
    else
      match fopen path with
      | None => if MAXLINE <=? Z.of_nat (length (could_not_open path)) then Err UB else Err (Exit 1)
      | Some file =>
          match read_body (S (length file)) file with
          | Ok (trace, _) => Ok trace
          | Err e => Err e
          end
      end
  else Err (Exit 1).
End Reader.

(** The arrays of a new trace: every cell indeterminate. *)
Definition load_trace (tr : trace_t) (d : dst) : dst :=
  let cells := replicate (Z.to_nat (num_ids tr)) None in
  set_d_blocks cells (set_d_sizes cells d).

(** ** Printing a trace *)
Definition digit (n : Z) : ascii := ascii_of_N (Z.to_N (48 + n)).
Fixpoint digits (fuel : nat) (n : Z) (acc : input) : input :=
  match fuel with
  | O => acc
  | S fuel' => if n <? 10 then digit n :: acc else digits fuel' (n / 10) (digit (n mod 10) :: acc)
  end.

(** Eleven digits are enough for every 32-bit number. *)
Definition print_nat (n : Z) : input := digits 11 n [].
Definition print_int (n : Z) : input :=
  if n <? 0 then "-"%char :: print_nat (- n) else print_nat n.

Definition newline : ascii := "010"%char.
Definition print_op (op : traceop_t) : input :=
  match op_type op with
  | ALLOC => "a"%char :: " "%char :: print_nat (op_index op) ++ " "%char :: print_nat (op_size op) ++ [newline]
  | REALLOC => "r"%char :: " "%char :: print_nat (op_index op) ++ " "%char :: print_nat (op_size op) ++ [newline]
  | FREE => "f"%char :: " "%char :: print_nat (op_index op) ++ [newline]
  end.

Definition print_ops (l : list traceop_t) : input := concat (map print_op l).
Definition print_trace (tr : trace_t) : input :=
  print_int (sugg_heapsize tr) ++ newline :: print_int (num_ids tr) ++ newline ::
  print_int (num_ops tr) ++ newline :: print_int (weight tr) ++ newline ::
  print_ops (ops tr).

(** ** Numbers *)
Lemma digit_ok n : 0 ≤ n < 10 → isdigit (digit n) = true ∧ digit_value (digit n) = n ∧
  isspace (digit n) = false ∧ Ascii.eqb (digit n) "-"%char = false ∧ Ascii.eqb (digit n) "+"%char = false.
Proof.
  intros Hn. assert (n = 0 ∨ n = 1 ∨ n = 2 ∨ n = 3 ∨ n = 4 ∨ n = 5 ∨ n = 6 ∨ n = 7 ∨ n = 8 ∨ n = 9)
    as Hc by lia. repeat (destruct Hc as [->|Hc]; [repeat split|]). subst n. repeat split.
Qed.

Lemma scan_digits_print fuel n acc :
  0 ≤ n < 10 ^ Z.of_nat fuel → (0 < fuel)%nat →
  scan_digits 0 (digits fuel n acc) = scan_digits n acc.
Proof.
  revert n acc. induction fuel as [|fuel IH]; intros n acc Hn Hf; [lia|].
  cbn [digits]. destruct (Z.ltb_spec n 10).
  - cbn [scan_digits]. destruct (digit_ok n) as (-> & -> & _); [lia|]. done.
  - rewrite Nat2Z.inj_succ, Z.pow_succ_r in Hn by lia.
    assert (0 < fuel)%nat. { destruct fuel; [cbn in Hn|]; lia. }
    pose proof (Z.mod_pos_bound n 10 ltac:(lia)) as Hm. pose proof (Z.div_mod n 10 ltac:(lia)) as Hd.
    assert (H10 : 0 ≤ n / 10 < 10 ^ Z.of_nat fuel)
      by (split; [apply Z.div_pos; lia|apply Z.div_lt_upper_bound; lia]).
    rewrite IH by done. cbn [scan_digits]. destruct (digit_ok (n mod 10)) as (-> & -> & _); [done|].
    f_equal. lia.
Qed.

Lemma digits_head fuel n acc :
  0 ≤ n → (0 < fuel)%nat → ∃ k l, 0 ≤ k < 10 ∧ digits fuel n acc = digit k :: l.
Proof.
  revert n acc. induction fuel as [|fuel IH]; intros n acc Hn Hf; [lia|]. cbn [digits].
  destruct (Z.ltb_spec n 10); [exists n, acc; split; [lia|done]|].
  destruct fuel as [|fuel].
  - exists (n mod 10), acc. split; [apply Z.mod_pos_bound; lia|done].
  - apply IH; [apply Z.div_pos; lia|lia].
Qed.

Lemma digits_app fuel n acc rest : digits fuel n acc ++ rest = digits fuel n (acc ++ rest).
Proof.
  revert n acc. induction fuel as [|fuel IH]; intros n acc; cbn [digits]; [done|].
  destruct (n <? 10); [done|]. by rewrite IH.
Qed.

(** What follows a number: the end or a character that is no digit. *)
Definition stops (rest : input) : Prop :=
  match rest with
  | c :: _ => isdigit c = false
  | [] => True
  end.

Lemma scan_digits_stops n rest : stops rest → scan_digits n rest = (n, rest).
Proof. destruct rest as [|c rest]; cbn; [done|]. by intros ->. Qed.

Lemma scan_number_nat n rest :
  0 ≤ n < 10 ^ 11 → stops rest → scan_number (print_nat n ++ rest) = (Some n, rest).
Proof.
  intros Hn Hs. unfold print_nat. rewrite digits_app. cbn [app].
  destruct (digits_head 11 n rest) as (k & l & Hk & E); [lia|lia|].
  pose proof (scan_digits_print 11 n rest) as Hsc. rewrite E in *.
  destruct (digit_ok k Hk) as (Hd & _ & Hsp & Hm & Hp).
  unfold scan_number. cbn [skip_space]. rewrite Hsp, Hm, Hp, Hd, Hsc by (lia || done).
  by rewrite scan_digits_stops.
Qed.

Lemma scan_number_space c s : isspace c = true → scan_number (c :: s) = scan_number s.
Proof. intros Hc. unfold scan_number. cbn [skip_space]. by rewrite Hc. Qed.

Lemma scan_number_int n rest :
  - 10 ^ 11 < n < 10 ^ 11 → stops rest → scan_number (print_int n ++ rest) = (Some n, rest).
Proof.
  intros Hn Hs. unfold print_int. destruct (Z.ltb_spec n 0); [|apply scan_number_nat; [lia|done]].
  unfold print_nat. cbn [app]. rewrite digits_app. cbn [app].
  destruct (digits_head 11 (- n) rest) as (k & l & Hk & E); [lia|lia|].
  pose proof (scan_digits_print 11 (- n) rest) as Hsc. rewrite E in *.
  destruct (digit_ok k Hk) as (Hd & _).
  unfold scan_number. change (skip_space ("-"%char :: digit k :: l)) with ("-"%char :: digit k :: l).
  cbn [Ascii.eqb Bool.eqb]. rewrite Hd, Hsc by (lia || done).
  rewrite scan_digits_stops by done. by rewrite Z.opp_involutive.
Qed.

(** ** Reading back a printed trace *)
Definition printable_op (op : traceop_t) : bool :=
  (0 <=? op_index op) && (op_index op <? 2147483648) &&
  (0 <=? op_size op) && (op_size op <? 2147483648) &&
  (negb (bool_decide (op_type op = FREE)) || (op_size op =? 0)).

(** The largest index of the [a] and [r] lines. *)
Definition next_max (mx : Z) (op : traceop_t) : Z :=
  match op_type op with
  | FREE => mx
  | _ => if mx <? op_index op then op_index op else mx
  end.

(** The header of the file agrees with its requests. *)
Definition printable (tr : trace_t) : bool :=
  int_range (sugg_heapsize tr) && int_range (weight tr) &&
  (0 <? num_ids tr) && (num_ids tr <? 2147483648) &&
  (num_ops tr =? Z.of_nat (length (ops tr))) && (num_ops tr <? 357913941) &&
  forallb printable_op (ops tr) && (foldl next_max 0 (ops tr) =? num_ids tr - 1).

Section RoundTrip.
Context (host_malloc : Z → bool).
Hypothesis Hmalloc : ∀ n, host_malloc n = true.

Lemma run_bind {S A B} (c : M S A) (k : A → M S B) s a s' :
  c s = Ok (a, s') → (c ≫= k) s = k a s'.
Proof. unfold mbind, M_bind. by intros ->. Qed.

Lemma scan_u_print n rest :
  0 ≤ n < 2147483648 → stops rest → scan_u (" "%char :: print_nat n ++ rest) = Ok (Some n, rest).
Proof.
  intros Hn Hs. unfold scan_u. rewrite scan_number_space, scan_number_nat by (done || lia).
  rewrite Z.abs_eq, u32_small by (unfold W32; lia). destruct (Z.ltb_spec n W32); [done|unfold W32 in *; lia].
Qed.

Lemma scan_d_print n rest :
  int_range n = true → stops rest →
  scan_d (print_int n ++ rest) = Ok (Some n, rest) ∧
  scan_d (newline :: print_int n ++ rest) = Ok (Some n, rest).
Proof.
  intros Hn Hs. assert (H : scan_number (print_int n ++ rest) = (Some n, rest)).
  { apply scan_number_int; [unfold int_range in Hn; lia|done]. }
  unfold scan_d. rewrite scan_number_space, H, Hn by done. done.
Qed.

Lemma scan_s_line c rest :
  isspace c = false → scan_s (newline :: c :: " "%char :: rest) = Ok (Some [c], " "%char :: rest).
Proof.
  intros Hc. unfold scan_s. cbn [skip_space]. change (isspace newline) with true. cbv iota.
  rewrite Hc. cbn [scan_word]. rewrite Hc. by change (isspace " "%char) with true.
Qed.

Lemma store_op_ok bytes op l s :
  12 * Z.of_nat (length l) + 12 ≤ bytes → store_op bytes op l s = Ok (l ++ [op], s).
Proof.
  intros Hb. unfold store_op, sizeof_traceop_t.
  destruct (Z.leb_spec (12 * Z.of_nat (length l) + 12) bytes); [done|lia].
Qed.

(** One line is read as the request that was printed. *)
Lemma read_line fuel bytes l mx op rest :
  printable_op op = true → 12 * Z.of_nat (length l) + 12 ≤ bytes →
  read_ops (S fuel) bytes l mx (newline :: print_op op ++ rest) =
  read_ops fuel bytes (l ++ [op]) (next_max mx op) (newline :: rest).
Proof.
  intros Hp Hb. destruct op as [ty i n]. unfold printable_op in Hp. cbn [op_type op_index op_size] in Hp.
  rewrite !andb_true_iff in Hp. destruct_and!. cbn [read_ops].
  assert (Hst : ∀ r, stops (" "%char :: r)) by done.
  assert (Hst2 : ∀ r, stops (newline :: r)) by done.
  destruct ty; cbn [print_op op_type op_index op_size app]; rewrite <- ?app_assoc; cbn [app];
    rewrite <- ?app_assoc; cbn [app].
  - rewrite (run_bind _ _ _ _ _ (scan_s_line "a"%char _ eq_refl)). cbn [Ascii.eqb Bool.eqb orb].
    rewrite (run_bind _ _ _ _ _ (scan_u_print i _ ltac:(lia) (Hst _))).
    rewrite (run_bind (expect (Some i)) _ _ i _ eq_refl).
    rewrite (run_bind _ _ _ _ _ (scan_u_print n _ ltac:(lia) (Hst2 _))).
    rewrite (run_bind (expect (Some n)) _ _ n _ eq_refl). rewrite !s32_small by lia.
    by rewrite (run_bind _ _ _ _ _ (store_op_ok bytes (Op ALLOC i n) l _ Hb)).
  - rewrite (run_bind _ _ _ _ _ (scan_s_line "f"%char _ eq_refl)). cbn [Ascii.eqb Bool.eqb orb].
    rewrite (run_bind _ _ _ _ _ (scan_u_print i _ ltac:(lia) (Hst2 _))).
    rewrite (run_bind (scan_literal "d"%char) _ (newline :: rest) tt (newline :: rest) eq_refl).
    rewrite (run_bind (expect (Some i)) _ _ i _ eq_refl). rewrite s32_small by lia.
    replace n with 0 by (destruct (Z.eqb_spec n 0); [done|]; by rewrite (bool_decide_true (FREE = FREE)) in *).
    by rewrite (run_bind _ _ _ _ _ (store_op_ok bytes (Op FREE i 0) l _ Hb)).
  - rewrite (run_bind _ _ _ _ _ (scan_s_line "r"%char _ eq_refl)). cbn [Ascii.eqb Bool.eqb orb].
    rewrite (run_bind _ _ _ _ _ (scan_u_print i _ ltac:(lia) (Hst _))).
    rewrite (run_bind (expect (Some i)) _ _ i _ eq_refl).
    rewrite (run_bind _ _ _ _ _ (scan_u_print n _ ltac:(lia) (Hst2 _))).
    rewrite (run_bind (expect (Some n)) _ _ n _ eq_refl). rewrite !s32_small by lia.
    by rewrite (run_bind _ _ _ _ _ (store_op_ok bytes (Op REALLOC i n) l _ Hb)).
Qed.

Lemma read_ops_print ol : ∀ fuel bytes l mx,
  forallb printable_op ol = true → (length ol < fuel)%nat →
  12 * Z.of_nat (length l + length ol) ≤ bytes →
  read_ops fuel bytes l mx (newline :: print_ops ol) = Ok ((l ++ ol, foldl next_max mx ol), []).
Proof.
  induction ol as [|op ol IH]; intros fuel bytes l mx Hp Hf Hb;
    (destruct fuel as [|fuel]; cbn [length] in *; [lia|]).
  - by rewrite app_nil_r.
  - cbn [forallb] in Hp. apply andb_prop in Hp as [Hp Hps].
    change (print_ops (op :: ol)) with (print_op op ++ print_ops ol).
    rewrite read_line by (done || lia). rewrite IH; [|done|lia|rewrite length_app; cbn; lia].
    by rewrite <- app_assoc.
Qed.

Lemma print_ops_length ol : (length ol ≤ length (print_ops ol))%nat.
Proof.
  induction ol as [|[ty i n] ol IH]; [done|]. change (print_ops (_ :: ol)) with (print_op (Op ty i n) ++ print_ops ol).
  rewrite length_app. destruct ty; cbn [print_op op_type op_index op_size length]; lia.
Qed.

Lemma read_body_print fuel tr :
  printable tr = true → (length (ops tr) < fuel)%nat →
  read_body host_malloc fuel (print_trace tr) = Ok (tr, []).
Proof.
  intros Hp Hf. destruct tr as [sg ids nops wt ol]. unfold printable in Hp.
  cbn [sugg_heapsize num_ids num_ops weight ops] in *. rewrite !andb_true_iff in Hp. destruct_and!.
  assert (Hst : ∀ r, stops (newline :: r)) by done.
  unfold print_trace, read_body. cbn [sugg_heapsize num_ids num_ops weight ops].
  assert (Hr : ∀ n, 0 ≤ n < 2147483648 → int_range n = true) by (intros n Hn; unfold int_range; lia).
  rewrite (run_bind _ _ _ _ _ (proj1 (scan_d_print sg _ ltac:(done) (Hst _)))).
  rewrite (run_bind (expect (Some sg)) _ _ sg _ eq_refl).
  rewrite (run_bind _ _ _ _ _ (proj2 (scan_d_print ids _ ltac:(apply Hr; lia) (Hst _)))).
  rewrite (run_bind (expect (Some ids)) _ _ ids _ eq_refl).
  rewrite (run_bind _ _ _ _ _ (proj2 (scan_d_print nops _ ltac:(apply Hr; lia) (Hst _)))).
  rewrite (run_bind (expect (Some nops)) _ _ nops _ eq_refl).
  rewrite (run_bind _ _ _ _ _ (proj2 (scan_d_print wt _ ltac:(done) (Hst _)))).
  rewrite (run_bind (expect (Some wt)) _ _ wt _ eq_refl).
  rewrite (u32_small nops), mul32_small by (unfold W32, sizeof_traceop_t; lia).
  unfold host_alloc. rewrite !Hmalloc.
  do 3 rewrite (run_bind (mret tt) _ _ tt _ eq_refl).
  unfold sizeof_traceop_t. rewrite (run_bind _ _ _ _ _ (read_ops_print ol fuel (nops * 12) [] 0 ltac:(done) Hf ltac:(cbn [length]; lia))).
  cbv beta iota. cbn [app]. rewrite (Hr (ids - 1)) by lia.
  rewrite (run_bind (mret tt) _ _ tt _ eq_refl). rewrite (u32_small (ids - 1)) by (unfold W32; lia).
  match goal with H : (foldl _ _ _ =? _) = true |- _ => rewrite H end.
  match goal with H : (nops =? _) = true |- _ => rewrite H end. done.
Qed.

Lemma read_trace_print fopen dir name tr :
  printable tr = true → Z.of_nat (length (dir ++ name)) < MAXLINE →
  fopen (dir ++ name) = Some (print_trace tr) →
  read_trace host_malloc fopen dir name = Ok tr.
Proof.
  intros Hp Hl Hf. unfold read_trace. rewrite Hmalloc.
  destruct (Z.leb_spec MAXLINE (Z.of_nat (length (dir ++ name)))); [lia|].
  rewrite Hf, read_body_print; [done..|].
  pose proof (print_ops_length (ops tr)). unfold print_trace.
  repeat (rewrite length_app; cbn [length]). lia.
Qed.
End RoundTrip.

(** ** What an accepted file looks like, and termination *)
Definition not_fuel (e : err) : Prop := e ≠ OutOfFuel.

Lemma skip_space_length s : (length (skip_space s) ≤ length s)%nat.
Proof. induction s as [|c s IH]; cbn [skip_space]; [done|]. destruct (isspace c); cbn [length]; lia. Qed.

Lemma scan_digits_length acc s : (length (scan_digits acc s).2 ≤ length s)%nat.
Proof.
  revert acc. induction s as [|c s IH]; intros acc; cbn [scan_digits]; [done|].
  destruct (isdigit c); [|done]. specialize (IH (10 * acc + digit_value c)). cbn [length]. lia.
Qed.

Lemma scan_number_length s : (length (scan_number s).2 ≤ length s)%nat.
Proof.
  unfold scan_number. pose proof (skip_space_length s) as H.
  destruct (skip_space s) as [|c s1]; [done|]. cbn [length] in H.
  assert (Hgen : ∀ (neg : bool) s2, (length s2 ≤ length s)%nat →
    (length (match s2 with
     | c :: _ => if isdigit c
                 then let '(v, s3) := scan_digits 0 s2 in (Some (if neg then - v else v), s3)
                 else (None, s2)
     | [] => (None, [])
     end).2 ≤ length s)%nat).
  { intros neg [|c2 s2] H2; [cbn; lia|]. destruct (isdigit c2); [|done].
    pose proof (scan_digits_length 0 (c2 :: s2)). destruct (scan_digits 0 (c2 :: s2)). cbn in *. lia. }
  destruct (Ascii.eqb c "-"%char); [apply (Hgen true); lia|].
  destruct (Ascii.eqb c "+"%char); [apply (Hgen false)|apply (Hgen false (c :: s1))]; cbn [length]; lia.
Qed.

Lemma scan_word_length s : (length (scan_word s).2 ≤ length s)%nat.
Proof.
  induction s as [|c s IH]; cbn [scan_word]; [done|]. destruct (isspace c); [done|].
  destruct (scan_word s). cbn in *. lia.
Qed.

Lemma skip_space_head s c s1 : skip_space s = c :: s1 → isspace c = false.
Proof.
  induction s as [|c' s IH]; cbn [skip_space]; [done|]. destruct (isspace c') eqn:E; [done|].
  by intros [= <- _].
Qed.

Lemma wpx_scan_s s :
  wpx not_fuel scan_s s (λ o s', match o with Some _ => (length s' < length s)%nat | None => True end).
Proof.
  unfold wpx, scan_s. pose proof (skip_space_length s) as H.
  destruct (skip_space s) as [|c s1] eqn:E; [done|].
  pose proof (scan_word_length s1) as Hw. cbn [scan_word]. rewrite (skip_space_head _ _ _ E).
  destruct (scan_word s1) as [w r]. cbn [length snd] in *.
  destruct (_ <? MAXLINE); [lia|done].
Qed.

Lemma wpx_scan_u s :
  wpx not_fuel scan_u s (λ o s', (length s' ≤ length s)%nat ∧
    match o with Some v => 0 ≤ v < W32 | None => True end).
Proof.
  unfold wpx, scan_u. pose proof (scan_number_length s) as H.
  destruct (scan_number s) as [[v|] s']; [|done]. cbn [snd] in H.
  destruct (Z.abs v <? W32); [|done]. split; [done|apply u32_range].
Qed.

Lemma wpx_scan_d s : wpx not_fuel scan_d s (λ o s', (length s' ≤ length s)%nat).
Proof.
  unfold wpx, scan_d. pose proof (scan_number_length s) as H.
  destruct (scan_number s) as [[v|] s']; [|done]. cbn [snd] in H. by destruct (int_range v).
Qed.

Lemma wpx_expect o s (P : Z → Prop) (Q : Z → input → Prop) :
  match o with Some v => P v | None => True end → (∀ v, P v → Q v s) →
  wpx not_fuel (expect o) s Q.
Proof. intros Ho HQ. destruct o as [v|]; [by apply HQ|done]. Qed.

Lemma s32_u32 v : 0 ≤ v < W32 → u32 (s32 v) = v.
Proof.
  intros Hv. unfold s32. rewrite (u32_small v) by done. destruct (v <? 2147483648); [by apply u32_small|].
  unfold u32. rewrite <- (Z.mod_add (v - W32) 1 W32) by done.
  replace (v - W32 + 1 * W32) with v by lia. by apply Z.mod_small.
Qed.

(** The index of an [a] or [r] line is at most [m]. *)
Definition index_le (m : Z) (op : traceop_t) : Prop :=
  op_type op ≠ FREE → u32 (op_index op) ≤ m.

Lemma index_le_mono m m' l : m ≤ m' → Forall (index_le m) l → Forall (index_le m') l.
Proof. intros Hm Hl. eapply Forall_impl; [exact Hl|]. intros op Ho Hf. specialize (Ho Hf). lia. Qed.

Lemma wpx_read_ops fuel : ∀ bytes l mx s,
  (length s < fuel)%nat → 0 ≤ mx < W32 → Forall (index_le mx) l →
  wpx not_fuel (read_ops fuel bytes l mx) s
    (λ r _, 0 ≤ r.2 < W32 ∧ Forall (index_le r.2) r.1).
Proof.
  induction fuel as [|fuel IH]; intros bytes l mx s Hf Hmx Hl; [lia|]. cbn [read_ops].
  assert (Hst : ∀ op s' mx', (length s' < fuel)%nat → 0 ≤ mx' < W32 → mx ≤ mx' → index_le mx' op →
    wpx not_fuel (l' ← store_op bytes op l; read_ops fuel bytes l' mx') s'
      (λ r _, 0 ≤ r.2 < W32 ∧ Forall (index_le r.2) r.1)).
  { intros op s' mx' Hs Hm Hle Ho. unfold store_op. destruct (_ <=? bytes); [|done].
    apply wpx_bind, wpx_ret, IH; [done|done|].
    apply Forall_app. split; [by eapply index_le_mono|by constructor]. }
  apply wpx_bind. eapply wpx_mono; [apply wpx_scan_s|]. intros [w|] s1 H1; [|by apply wpx_ret].
  destruct w as [|c w]; [by apply wpx_fail|]. destruct (_ || _).
  - apply wpx_bind. eapply wpx_mono; [apply wpx_scan_u|]. intros i s2 [H2 Hi].
    apply wpx_bind. eapply wpx_expect; [exact Hi|]. clear i Hi. intros i Hi.
    apply wpx_bind. eapply wpx_mono; [apply wpx_scan_u|]. intros n s3 [H3 Hn].
    apply wpx_bind. eapply wpx_expect; [exact Hn|]. clear n Hn. intros n Hn. cbv beta in Hi, Hn.
    apply Hst; [lia|destruct (Z.ltb_spec mx i); lia..|]. intros _. cbn [op_index].
    rewrite s32_u32 by done. destruct (Z.ltb_spec mx i); lia.
  - destruct (Ascii.eqb c "f"%char); [|by apply wpx_fail].
    apply wpx_bind. eapply wpx_mono; [apply wpx_scan_u|]. intros i s2 [H2 Hi].
    apply wpx_bind. eapply (wpx_mono _ _ _ (λ _ s3, (length s3 ≤ length s2)%nat)).
    { destruct s2 as [|c2 s2]; cbn; [lia|]. unfold wpx, scan_literal.
      destruct (Ascii.eqb c2 "d"%char); cbn; lia. }
    intros _ s3 H3. apply wpx_bind. eapply wpx_expect; [exact Hi|]. clear i Hi. intros i Hi.
    apply Hst; [lia|done|lia|]. by intros Hty.
Qed.

(** What [read_trace] guarantees to the interpreters. *)
Definition header_ok (tr : trace_t) : Prop :=
  u32 (num_ops tr) = Z.of_nat (length (ops tr)) ∧
  Forall (index_le (u32 (num_ids tr - 1))) (ops tr).

Lemma wpx_read_body host_malloc fuel s :
  (length s < fuel)%nat → wpx not_fuel (read_body host_malloc fuel) s (λ tr _, header_ok tr).
Proof.
  intros Hf. unfold read_body.
  assert (Hd : ∀ {A} (k : Z → M input A) (Q : A → input → Prop) s1, (length s1 ≤ length s)%nat →
    (∀ v s2, (length s2 ≤ length s)%nat → wpx not_fuel (k v) s2 Q) →
    wpx not_fuel (o ← scan_d; v ← expect o; k v) s1 Q).
  { intros A k Q s1 H1 Hk. apply wpx_bind. eapply wpx_mono; [apply wpx_scan_d|]. intros o s2 H2. cbv beta in H2.
    apply wpx_bind. apply (wpx_expect _ _ (λ _, True)); [by destruct o|]. intros v _. apply Hk. lia. }
  apply Hd; [done|]. intros sg s1 H1. apply Hd; [done|]. intros ids s2 H2.
  apply Hd; [done|]. intros nops s3 H3. apply Hd; [done|]. intros wt s4 H4.
  cbv zeta. unfold host_alloc. do 2 (apply wpx_bind; match goal with |- context [host_malloc ?n] => destruct (host_malloc n) end;
    [apply wpx_ret|by apply wpx_fail]).
  apply wpx_bind, wpx_ret, wpx_bind. eapply wpx_mono; [apply wpx_read_ops; [lia|done|constructor]|].
  intros [l mx] s5 [Hm Hl]. cbn [fst snd] in *. cbv beta iota.
  apply wpx_bind. destruct (int_range (ids - 1)); [apply wpx_ret|by apply wpx_fail].
  apply wpx_bind. unfold assert_c. destruct (Z.eqb_spec mx (u32 (ids - 1))) as [->|]; [|by apply wpx_fail].
  apply wpx_ret, wpx_bind.
  destruct (Z.eqb_spec (u32 nops) (Z.of_nat (length l))); [|by apply wpx_fail].
  by apply wpx_ret, wpx_ret.
Qed.

Lemma read_trace_sound host_malloc fopen dir name :
  match read_trace host_malloc fopen dir name with
  | Ok tr => header_ok tr
  | Err e => e ≠ OutOfFuel
  end.
Proof.
  unfold read_trace. destruct (host_malloc sizeof_trace_t); [|done].
  destruct (MAXLINE <=? _); [done|]. destruct (fopen (dir ++ name)) as [file|]; [|by destruct (MAXLINE <=? _)].
  pose proof (wpx_read_body host_malloc (S (length file)) file ltac:(lia)) as H. unfold wpx in H.
  by destruct (read_body _ _ _) as [[tr s']|e].
Qed.
