(* ===== verification/Demo.v ===== *)
(** * A concrete process

    An instance of the C library parameters and the states it leads to, at
    which the theorems are applied: [malloc] hands out arenas 24 MiB apart
    from 0x08000000 on, fresh memory reads as zero, a page has 4096 bytes. *)

From Stdlib Require Import ZArith Lia.
From stdpp Require Import base gmap numbers list.
From S2P Require Import Prelude Memory Memlib Contract Sizes Blocks FreeList Heap HeapRules Alloc Malloc MmAllocator.

#[export] Instance demo_libc : Libc := {
  libc_malloc l n :=
    if (Z.of_nat (length l) <? 16) && (n <=? MAX_HEAP)
    then 134217728 + 25165824 * Z.of_nat (length l) else 0;
  libc_junk _ := 0;
  libc_getpagesize := 4096
}.

#[export] Instance demo_libc_ok : LibcOk demo_libc.
Proof.
  assert (H : ∀ l, libc_malloc l MAX_HEAP =
    if Z.of_nat (length l) <? 16 then 134217728 + 25165824 * Z.of_nat (length l) else 0).
  { intros l. cbn [libc_malloc demo_libc]. rewrite Z.leb_refl, andb_true_r. done. }
  split.
  - intros l. rewrite H. destruct (Z.ltb_spec (Z.of_nat (length l)) 16); [|by exists 0].
    exists (16777216 + 3145728 * Z.of_nat (length l)). lia.
  - intros l. rewrite H, MAX_HEAP_eq.
    destruct (Z.ltb_spec (Z.of_nat (length l)) 16); unfold W32; lia.
  - done.
Qed.

(** The state of a run, [st0] if it did not return. *)
Definition final {A} (c : M st A) (s : st) : st :=
  match c s with
  | Ok (_, s') => s'
  | Err _ => s
  end.

Lemma final_spec {A} (c : M st A) s (Q : A → st → Prop) :
  wp c s Q → ∃ a, c s = Ok (a, final c s) ∧ Q a (final c s).
Proof. unfold wp, final. destruct (c s) as [[a s']|]; [eauto|done]. Qed.

(** After [mm_init]. *)
Definition demo_B : Z := 134217728.
Definition demo_n : Z := 8200.
Definition demo_st : st := final mm_init st0.
Definition demo_heap : heap := init_heap demo_B demo_n.

Lemma demo_env :
  libc_malloc (arenas st0) MAX_HEAP = demo_B ∧
  ADJUST_BYTESIZE (mul32 (u32 libc_getpagesize) 2) = demo_n.
Proof. by split; vm_compute. Qed.

Lemma demo_init :
  mm_init st0 = Ok (0, demo_st) ∧ rep demo_st demo_heap ∧ mem_start_brk demo_st = demo_B ∧
  mem_brk demo_st = demo_B + demo_n + 16 ∧ mem_max_addr demo_st = demo_B + MAX_HEAP ∧
  ADJUSTED_PAGESIZE demo_st = demo_n ∧ arenas demo_st = [demo_B].
Proof.
  destruct demo_env as [E1 E2].
  destruct (final_spec mm_init st0 (λ r s, r = 0 ∧ rep s demo_heap ∧
    mem_start_brk s = demo_B ∧ mem_brk s = demo_B + demo_n + 16 ∧
    mem_max_addr s = demo_B + MAX_HEAP ∧ ADJUSTED_PAGESIZE s = demo_n ∧ arenas s = [demo_B]))
    as (r & Hr & -> & H).
  - apply (wp_mm_init demo_libc_ok st0); rewrite E1, ?E2; [done|].
    intros s Hrep H1 H2 H3 H4 _ H6. by split_and!.
  - by split.
Qed.

Lemma demo_rep : rep demo_st demo_heap.
Proof. apply demo_init. Qed.

(** Requests up to a gigabyte do not wrap. *)
Lemma demo_no_wrap size : 0 ≤ size ≤ 1073741824 → no_wrap demo_st size.
Proof.
  intros Hs _. unfold request. rewrite MAX_eq.
  destruct demo_init as (_ & _ & _ & E1 & _ & E2 & _). rewrite E1, E2.
  destruct (ADJUST_BYTESIZE_bounds size) as (_ & _ & _ & ? & _); [lia|].
  unfold demo_B, demo_n, W32. lia.
Qed.

(** After a first [mm_malloc(24)], which returns the first payload. *)
Definition demo_p : Z := demo_B + 16.
Definition demo_st1 : st := final (mm_malloc 24) demo_st.

Lemma demo_malloc :
  ∃ h d, rep demo_st1 h ∧ live_map h = {[demo_p := d]} ∧ (24 ≤ length d)%nat ∧
         no_wrap demo_st1 40.
Proof.
  destruct (ADJUST_BYTESIZE_bounds 24) as (_ & H16 & Hsz & _); [lia|].
  destruct (final_spec (mm_malloc 24) demo_st (λ p s, p = 0 ∨ (∃ h d, rep s h ∧
    live_map h = {[p := d]} ∧ (24 ≤ length d)%nat ∧ no_wrap s 40)))
    as (p & Hp & H).
  - apply (wp_mm_malloc _ _ _ _ demo_rep); [lia|apply demo_no_wrap; lia| |by left].
    intros s h p d Hf Hrep Hm. right.
    destruct (malloced_payload _ _ _ _ _ _ _ _ _ (rp_irep _ _ Hrep) Hm H16 (rp_irep _ _ demo_rep))
      as (El & _ & _ & Hlen & _). exists h, d. split; [done|]. split; [done|]. split; [lia|].
    intros _. unfold request. rewrite MAX_eq.
    destruct Hf as [(_ & _ & E1 & _ & E2 & _) _]. destruct demo_init as (_ & _ & _ & _ & E3 & E4 & _).
    rewrite E2, E4. pose proof (mo_brk _ (ir_memlib _ _ (rp_irep _ _ Hrep))) as [_ Hb].
    rewrite E1, E3 in Hb. replace (ADJUST_BYTESIZE 40) with 48 by done.
    rewrite MAX_HEAP_eq in Hb. unfold demo_B, demo_n, W32 in *. lia.
  - assert (E : match mm_malloc 24 demo_st with Ok (p, _) => p | Err _ => 0 end = demo_p)
      by by vm_compute.
    rewrite Hp in E. subst p. destruct H as [H|H]; [unfold demo_p, demo_B in H; lia|].
    unfold demo_st1. exact H.
Qed.

(** And a second one, which returns the payload behind it. *)
Definition demo_st2 : st := final (mm_malloc 24) demo_st1.

Lemma demo_malloc2 :
  ∃ h d e, rep demo_st2 h ∧ live_map h !! demo_p = Some d ∧ live_map h !! (demo_p + 32) = Some e.
Proof.
  destruct demo_malloc as (h1 & d & Hrep1 & El1 & _).
  destruct (ADJUST_BYTESIZE_bounds 24) as (_ & H16 & _); [lia|].
  destruct (final_spec (mm_malloc 24) demo_st1 (λ q s, q = 0 ∨ (∃ h e, rep s h ∧
    live_map h = <[q := e]> {[demo_p := d]} ∧ q ≠ demo_p))) as (q & Hq & H).
  - apply (wp_mm_malloc _ _ _ _ Hrep1); [lia|intros _; by vm_compute| |by left].
    intros s h q e _ Hrep Hm. right.
    destruct (malloced_payload _ _ _ _ _ _ _ _ _ (rp_irep _ _ Hrep) Hm H16 (rp_irep _ _ Hrep1))
      as (El & Hn & _). exists h, e. rewrite El1 in El, Hn. split; [done|]. split; [done|].
    intros ->. by rewrite lookup_singleton_eq in Hn.
  - assert (E : match mm_malloc 24 demo_st1 with Ok (p, _) => p | Err _ => 0 end = demo_p + 32)
      by by vm_compute.
    rewrite Hq in E. subst q. destruct H as [H|(h & e & Hrep & El & Hne)]; [unfold demo_p, demo_B in H; lia|].
    exists h, d, e. rewrite El. clear -Hrep. split; [exact Hrep|].
    rewrite lookup_insert_ne, lookup_singleton_eq by lia. split; [reflexivity|apply lookup_insert_eq].
Qed.
