(* ===== verification/Doubles.v ===== *)
(** * IEEE double-precision numbers

    The type [double] of C as the binary64 format of the Standard Library's
    [SpecFloat], which defines the operations with rounding to nearest even;
    operations are evaluated in double precision.  Integers are converted by
    rounding, and a decimal constant is the quotient of two exact doubles,
    which is the nearest double.  The comparison is shown to be a total
    order on the numbers that are not NaN. *)

From Stdlib Require Import ZArith Lia SpecFloat.
From stdpp Require Import base numbers list.
From S2P Require Import Prelude.

Definition prec : Z := 53.
Definition emax : Z := 1024.

Abbreviation double := spec_float.

Definition of_Z (n : Z) : double := binary_normalize prec emax n 0 false.
Definition dadd : double → double → double := SFadd prec emax.
Definition dsub : double → double → double := SFsub prec emax.
Definition dmul : double → double → double := SFmul prec emax.
Definition ddiv : double → double → double := SFdiv prec emax.
Definition dlt : double → double → bool := SFltb.
Definition dle : double → double → bool := SFleb.
Definition deq : double → double → bool := SFeqb.

(** [decimal n d] is the constant n / d; n and d below 2^53. *)
Definition decimal (n d : Z) : double := ddiv (of_Z n) (of_Z d).

Definition zero : double := S754_zero false.
Definition is_nan (x : double) : bool :=
  match x with
  | S754_nan => true
  | _ => false
  end.

#[global] Instance double_eq_dec : EqDecision double.
Proof. solve_decision. Defined.

(** ** The order *)

(** A triple that is compared lexicographically. *)
Definition key (x : double) : Z * Z * Z :=
  match x with
  | S754_zero _ | S754_nan => (0, 0, 0)
  | S754_infinity s => (if s then -2 else 2, 0, 0)
  | S754_finite s m e => if s then (-1, - e, - Zpos m) else (1, e, Zpos m)
  end.

Definition lex (a b : Z * Z * Z) : comparison :=
  let '(x, y, z) := a in
  let '(x', y', z') := b in
  match x ?= x' with
  | Eq => match y ?= y' with
          | Eq => z ?= z'
          | c => c
          end
  | c => c
  end.

Lemma lex_spec a b :
  let '(x, y, z) := a in
  let '(x', y', z') := b in
  match lex a b with
  | Eq => x = x' ∧ y = y' ∧ z = z'
  | Lt => x < x' ∨ (x = x' ∧ (y < y' ∨ (y = y' ∧ z < z')))
  | Gt => x' < x ∨ (x = x' ∧ (y' < y ∨ (y = y' ∧ z' < z)))
  end.
Proof.
  destruct a as [[x y] z], b as [[x' y'] z']. unfold lex.
  destruct (Z.compare_spec x x'), (Z.compare_spec y y'), (Z.compare_spec z z'); lia.
Qed.

Lemma compare_key x y :
  is_nan x = false → is_nan y = false → SFcompare x y = Some (lex (key x) (key y)).
Proof.
  destruct x as [?|[]| |[] m e], y as [?|[]| |[] m' e']; try done; intros _ _; cbn.
  rewrite Z.compare_opp, (Z.compare_antisym e e'). by destruct (e ?= e').
Qed.

Section Order.
Implicit Types (x y z : double).

Lemma dlt_dle x y : is_nan x = false → is_nan y = false → dlt x y = negb (dle y x).
Proof.
  intros Hx Hy. unfold dlt, dle, SFltb, SFleb. rewrite !compare_key by done.
  pose proof (lex_spec (key x) (key y)) as H1. pose proof (lex_spec (key y) (key x)) as H2.
  destruct (key x) as [[??]?], (key y) as [[??]?].
  destruct (lex _ _), (lex _ _); (done || lia).
Qed.

Lemma dle_refl x : is_nan x = false → dle x x = true.
Proof.
  intros Hx. unfold dle, SFleb. rewrite compare_key by done.
  pose proof (lex_spec (key x) (key x)) as H. destruct (key x) as [[??]?].
  destruct (lex _ _); (done || lia).
Qed.

Lemma dle_total x y :
  is_nan x = false → is_nan y = false → dle x y = true ∨ dle y x = true.
Proof.
  intros Hx Hy. unfold dle, SFleb. rewrite !compare_key by done.
  pose proof (lex_spec (key x) (key y)) as H1. pose proof (lex_spec (key y) (key x)) as H2.
  destruct (key x) as [[??]?], (key y) as [[??]?].
  destruct (lex _ _), (lex _ _); (by left) || (by right) || lia.
Qed.

Lemma dle_trans x y z :
  is_nan x = false → is_nan y = false → is_nan z = false →
  dle x y = true → dle y z = true → dle x z = true.
Proof.
  intros Hx Hy Hz. unfold dle, SFleb. rewrite !compare_key by done.
  pose proof (lex_spec (key x) (key y)) as H1. pose proof (lex_spec (key y) (key z)) as H2.
  pose proof (lex_spec (key x) (key z)) as H3.
  destruct (key x) as [[??]?], (key y) as [[??]?], (key z) as [[??]?].
  destruct (lex _ _), (lex _ _), (lex _ _); (done || lia).
Qed.
End Order.

(** ** Numbers that are not negative *)
Definition nonneg (x : double) : bool :=
  match x with
  | S754_zero s | S754_infinity s | S754_finite s _ _ => negb s
  | S754_nan => false
  end.

Lemma nonneg_not_nan x : nonneg x = true → is_nan x = false.
Proof. by destruct x. Qed.

Lemma shr_1_nonneg r : 0 ≤ shr_m r → 0 ≤ shr_m (shr_1 r).
Proof. destruct r as [[|[p|p|]|p] ? ?]; cbn; lia. Qed.

Lemma iter_shr_nonneg p : ∀ r, 0 ≤ shr_m r → 0 ≤ shr_m (SpecFloat.iter_pos shr_1 p r).
Proof. induction p as [p IH|p IH|]; intros r Hr; cbn [SpecFloat.iter_pos]; auto using shr_1_nonneg. Qed.

Lemma shr_fexp_nonneg m e l : 0 ≤ m → 0 ≤ shr_m (shr_fexp prec emax m e l).1.
Proof.
  intros Hm. unfold shr_fexp, shr.
  assert (H : 0 ≤ shr_m (shr_record_of_loc m l)) by by destruct l as [|[]].
  destruct (fexp _ _ _ - e); [done| |done]. by apply iter_shr_nonneg.
Qed.

Lemma round_aux_nonneg m e l : 0 ≤ m → nonneg (binary_round_aux prec emax false m e l) = true.
Proof.
  intros Hm. unfold binary_round_aux.
  pose proof (shr_fexp_nonneg m e l Hm) as H1. destruct (shr_fexp _ _ m e l) as [r e1]. cbn [fst] in H1.
  set (n := round_nearest_even _ _).
  assert (Hn : 0 ≤ n).
  { subst n. unfold round_nearest_even. destruct (loc_of_shr_record r) as [|[]]; try lia.
    destruct (Z.even (shr_m r)); lia. }
  pose proof (shr_fexp_nonneg n e1 loc_Exact Hn) as H2.
  destruct (shr_fexp _ _ n e1 _) as [r2 e2]. cbn [fst] in H2.
  destruct (shr_m r2); [done|by destruct (e2 <=? emax - prec)|lia].
Qed.

Lemma normalize_nonneg m e : 0 ≤ m → nonneg (binary_normalize prec emax m e false) = true.
Proof.
  intros Hm. destruct m as [|p|p]; [done| |lia]. cbn [binary_normalize]. unfold binary_round.
  destruct (shl_align _ _ _). by apply round_aux_nonneg.
Qed.

Lemma of_Z_nonneg n : 0 ≤ n → nonneg (of_Z n) = true.
Proof. apply normalize_nonneg. Qed.

Lemma dadd_nonneg x y : nonneg x = true → nonneg y = true → nonneg (dadd x y) = true.
Proof.
  destruct x as [[]|[]| |[] m e], y as [[]|[]| |[] m' e']; try done; intros _ _.
  unfold dadd, SFadd. by apply normalize_nonneg.
Qed.

(** A product with a positive number. *)
Lemma dmul_nonneg x m e :
  nonneg x = true → nonneg (dmul x (S754_finite false m e)) = true.
Proof.
  destruct x as [[]|[]| |[] m' e']; try done; intros _. by apply round_aux_nonneg.
Qed.
