(* ===== verification/ExactDoubles.v ===== *)
(** * Exact and bounded arithmetic of doubles

    Below 2^53 in absolute value the sums, differences and products of
    integers are exact and ordered like the integers; and a magnitude that
    bounds the results of the operations, so that counters and ratios of them
    are never infinite or NaN. *)

From Stdlib Require Import ZArith Lia SpecFloat.
From stdpp Require Import base numbers list.
From S2P Require Import Prelude Doubles.

Abbreviation P53 := 9007199254740992 (only parsing).

(** ** Digits and shifts *)
Definition digits (n : Z) : Z := Zdigits2 n.

Lemma digits2_log2 p : Zpos (digits2_pos p) = Z.log2 (Zpos p) + 1.
Proof.
  assert (H : digits2_pos p = Pos.size p) by (induction p; cbn; congruence).
  rewrite H. destruct p; cbn [Z.log2 Pos.size]; lia.
Qed.

Lemma digits_pos n : 0 < n → digits n = Z.log2 n + 1.
Proof. destruct n; [lia|intros _; apply digits2_log2|lia]. Qed.

Lemma digits_opp n : digits (- n) = digits n.
Proof. by destruct n. Qed.

Lemma digits_nonneg n : 0 ≤ digits n.
Proof. destruct n; cbn; lia. Qed.

(** [digits] is the least number of bits. *)
Lemma digits_le n b : 0 ≤ n → 0 ≤ b → digits n ≤ b ↔ n < 2 ^ b.
Proof.
  intros Hn Hb. destruct (Z.eq_dec n 0) as [->|].
  - cbn. pose proof (Z.pow_pos_nonneg 2 b). lia.
  - rewrite digits_pos by lia. pose proof (Z.log2_lt_pow2 n b). lia.
Qed.

Lemma digits_shift n k : 0 < n → 0 ≤ k → digits (n * 2 ^ k) = digits n + k.
Proof.
  intros Hn Hk. assert (0 < 2 ^ k) by (apply Z.pow_pos_nonneg; lia).
  rewrite !digits_pos by nia. rewrite Z.log2_mul_pow2 by lia. lia.
Qed.

Lemma shift_pos p k : 0 < k → Zpos (Pos.iter xO p (Z.to_pos k)) = Zpos p * 2 ^ k.
Proof.
  intros Hk. rewrite <- (Z2Pos.id k) at 2 by done. generalize (Z.to_pos k). clear.
  intros k. rewrite <- Z.pow_pos_fold. unfold Z.pow_pos.
  induction k as [|k IH] using Pos.peano_ind; [cbn; lia|]. rewrite !Pos.iter_succ, Z.mul_comm in *.
  change (Zpos (Pos.iter xO p k)~0) with (2 * Zpos (Pos.iter xO p k)). rewrite IH. lia.
Qed.

Lemma shl_align_spec p e e' :
  Zpos (shl_align p e e').1 = Zpos p * 2 ^ (e - (shl_align p e e').2) ∧
  (shl_align p e e').2 = Z.min e e'.
Proof.
  unfold shl_align. destruct (e' - e) as [|q|q] eqn:E; cbn [fst snd].
  - rewrite Z.sub_diag. lia.
  - rewrite Z.sub_diag. lia.
  - split; [|lia]. replace (e - e') with (Zpos q) by lia. rewrite <- shift_pos by done. done.
Qed.

(** [k] single shifts to the right. *)
Lemma shr_1_div r : 0 ≤ shr_m r → shr_m (shr_1 r) = shr_m r / 2.
Proof.
  destruct r as [[|[p|p|]|p] ? ?]; cbn [shr_m shr_1]; intros H; try (done || lia).
  - apply (Z.div_unique _ _ _ 1); lia.
  - apply (Z.div_unique _ _ _ 0); lia.
Qed.

Lemma iter_shr_div p : ∀ r, 0 ≤ shr_m r →
  shr_m (SpecFloat.iter_pos shr_1 p r) = shr_m r / 2 ^ Zpos p.
Proof.
  assert (Hsplit : ∀ n a b, 0 ≤ a → 0 ≤ b → n / 2 ^ a / 2 ^ b = n / 2 ^ (a + b)).
  { intros n a b Ha Hb. rewrite Z.pow_add_r, Z.div_div by (try apply Z.pow_pos_nonneg; lia). done. }
  induction p as [p IH|p IH|]; intros r Hr; cbn [SpecFloat.iter_pos].
  - rewrite IH, IH, shr_1_div by auto using iter_shr_nonneg, shr_1_nonneg.
    rewrite <- (Z.pow_1_r 2) at 1. rewrite !Hsplit by lia. do 2 f_equal. lia.
  - rewrite IH, IH by auto using iter_shr_nonneg. rewrite Hsplit by lia. do 2 f_equal. lia.
  - by rewrite shr_1_div.
Qed.

(** Nothing is lost when the bits shifted out are zero. *)
Lemma iter_shr_exact p : ∀ n, 0 ≤ n →
  SpecFloat.iter_pos shr_1 p (Build_shr_record (n * 2 ^ Zpos p) false false) =
  Build_shr_record n false false.
Proof.
  assert (H1 : ∀ n, 0 ≤ n → shr_1 (Build_shr_record (n * 2) false false) = Build_shr_record n false false).
  { intros [|q|q] Hn; [done| |lia]. by replace (Zpos q * 2) with (Zpos q~0) by lia. }
  induction p as [p IH|p IH|]; intros n Hn; cbn [SpecFloat.iter_pos]; [| |by apply H1].
  - replace (n * 2 ^ Zpos p~1) with (n * 2 ^ Zpos p * 2 ^ Zpos p * 2).
    + rewrite H1 by (pose proof (Z.pow_nonneg 2 (Zpos p)); nia).
      rewrite IH by (pose proof (Z.pow_nonneg 2 (Zpos p)); nia). by apply IH.
    + replace (Zpos p~1) with (Zpos p + Zpos p + 1) by lia.
      rewrite !Z.pow_add_r by lia. lia.
  - replace (n * 2 ^ Zpos p~0) with (n * 2 ^ Zpos p * 2 ^ Zpos p).
    + rewrite IH by (pose proof (Z.pow_nonneg 2 (Zpos p)); nia). by apply IH.
    + replace (Zpos p~0) with (Zpos p + Zpos p) by lia. rewrite Z.pow_add_r by lia. lia.
Qed.

Lemma fexp_eq e : fexp prec emax e = Z.max (e - 53) (-1074).
Proof. done. Qed.

(** ** Integers *)

(** The double of an integer that fits 53 bits. *)
Definition whole (s : bool) (n : Z) : double :=
  S754_finite s (Z.to_pos (n * 2 ^ (53 - digits n))) (digits n - 53).

Section Whole.
Context (n : Z).
Hypothesis Hn : 0 < n < P53.

Lemma digits_range : 1 ≤ digits n ≤ 53.
Proof.
  split; [rewrite digits_pos by lia; pose proof (Z.log2_nonneg n); lia|].
  apply digits_le; [lia|lia|]. exact (proj2 Hn).
Qed.

Lemma round_whole s j :
  53 - digits n ≤ j →
  binary_round_aux prec emax s (n * 2 ^ j) (- j) loc_Exact = whole s n.
Proof.
  intros Hj. pose proof digits_range as Hd. set (d := digits n) in *.
  assert (Hm : 0 < n * 2 ^ (53 - d)) by (pose proof (Z.pow_pos_nonneg 2 (53 - d)); nia).
  assert (Ed : digits (n * 2 ^ (53 - d)) = 53) by (rewrite digits_shift by lia; fold d; lia).
  assert (E1 : shr_fexp prec emax (n * 2 ^ j) (- j) loc_Exact =
               (Build_shr_record (n * 2 ^ (53 - d)) false false, d - 53)).
  { unfold shr_fexp. change (Zdigits2 (n * 2 ^ j)) with (digits (n * 2 ^ j)).
    rewrite digits_shift by lia. fold d. rewrite fexp_eq.
    replace (Z.max (d + j + - j - 53) (-1074) - - j) with (d - 53 + j) by lia.
    replace (n * 2 ^ j) with (n * 2 ^ (53 - d) * 2 ^ (d - 53 + j))
      by (rewrite <- Z.mul_assoc, <- Z.pow_add_r by lia; do 2 f_equal; lia).
    unfold shr. destruct (d - 53 + j) as [|q|q] eqn:Eq; [| |lia].
    - rewrite Z.pow_0_r, Z.mul_1_r. f_equal. lia.
    - cbn [shr_record_of_loc]. rewrite iter_shr_exact by lia. f_equal. lia. }
  unfold binary_round_aux. rewrite E1. cbn [shr_m loc_of_shr_record round_nearest_even].
  assert (E2 : shr_fexp prec emax (n * 2 ^ (53 - d)) (d - 53) loc_Exact =
               (Build_shr_record (n * 2 ^ (53 - d)) false false, d - 53)).
  { unfold shr_fexp. change (Zdigits2 (n * 2 ^ (53 - d))) with (digits (n * 2 ^ (53 - d))).
    rewrite Ed, fexp_eq. by replace (Z.max (53 + (d - 53) - 53) (-1074) - (d - 53)) with 0 by lia. }
  rewrite E2. cbn [shr_m]. unfold whole. fold d.
  destruct (n * 2 ^ (53 - d)) as [|q|q] eqn:Eq; [lia| |lia].
  unfold prec, emax. destruct (Z.leb_spec (d - 53) (1024 - 53)); [done|lia].
Qed.

Lemma binary_round_whole s j :
  0 ≤ j → binary_round prec emax s (Z.to_pos (n * 2 ^ j)) (- j) = whole s n.
Proof.
  intros Hj. pose proof digits_range as Hd. unfold binary_round.
  assert (Hp : Zpos (Z.to_pos (n * 2 ^ j)) = n * 2 ^ j).
  { apply Z2Pos.id. pose proof (Z.pow_pos_nonneg 2 j). nia. }
  assert (Ed : Zpos (digits2_pos (Z.to_pos (n * 2 ^ j))) = digits n + j).
  { change (digits (Zpos (Z.to_pos (n * 2 ^ j))) = digits n + j). rewrite Hp. apply digits_shift; lia. }
  rewrite Ed, fexp_eq. replace (Z.max (digits n + j + - j - 53) (-1074)) with (digits n - 53) by lia.
  destruct (shl_align_spec (Z.to_pos (n * 2 ^ j)) (- j) (digits n - 53)) as [E1 E2].
  destruct (shl_align _ _ _) as [m e]. cbn [fst snd] in *. rewrite Hp in E1. rewrite E1.
  rewrite <- Z.mul_assoc, <- Z.pow_add_r by lia.
  replace (j + (- j - e)) with (- e) by lia. rewrite <- (Z.opp_involutive e) at 2.
  apply round_whole. lia.
Qed.
End Whole.

(** Every way to write [n] as a mantissa gives the same number. *)
Lemma normalize_whole n j :
  - P53 < n < P53 → 0 ≤ j → binary_normalize prec emax (n * 2 ^ j) (- j) false = of_Z n.
Proof.
  intros Hn Hj. pose proof (Z.pow_pos_nonneg 2 j ltac:(lia) Hj) as Hp.
  assert (Hpos : ∀ k, 0 < k < P53 → ∀ s, binary_round prec emax s (Z.to_pos (k * 2 ^ j)) (- j) =
                                       binary_round prec emax s (Z.to_pos k) 0).
  { intros k Hk s. rewrite binary_round_whole by lia. rewrite <- (binary_round_whole k Hk s 0) by lia.
    by rewrite Z.pow_0_r, Z.mul_1_r. }
  unfold of_Z. destruct n as [|p|p]; [done| |].
  - specialize (Hpos (Zpos p) ltac:(lia) false). cbn [Z.to_pos] in Hpos. cbn [binary_normalize].
    destruct (Zpos p * 2 ^ j) as [|q|q] eqn:E; [lia|exact Hpos|lia].
  - specialize (Hpos (Zpos p) ltac:(lia) true). cbn [Z.to_pos] in Hpos. cbn [binary_normalize].
    replace (Zneg p * 2 ^ j) with (- (Zpos p * 2 ^ j)) by lia.
    destruct (Zpos p * 2 ^ j) as [|q|q] eqn:E; [lia|exact Hpos|lia].
Qed.

Lemma of_Z_whole n :
  n ≠ 0 → - P53 < n < P53 → of_Z n = whole (n <? 0) (Z.abs n).
Proof.
  intros H0 Hn. rewrite <- (binary_round_whole (Z.abs n) ltac:(lia) _ 0) by lia.
  rewrite Z.pow_0_r, Z.mul_1_r. by destruct n.
Qed.

Lemma whole_mantissa n :
  0 < n < P53 → Zpos (Z.to_pos (n * 2 ^ (53 - digits n))) = n * 2 ^ (53 - digits n).
Proof.
  intros Hn. apply Z2Pos.id. pose proof (digits_range n Hn). pose proof (Z.pow_pos_nonneg 2 (53 - digits n)). nia.
Qed.

(** The signed mantissa of a whole number, aligned to a smaller exponent. *)
Lemma whole_aligned n e :
  n ≠ 0 → - P53 < n < P53 → e ≤ digits n - 53 →
  cond_Zopp (n <? 0) (Zpos (shl_align (Z.to_pos (Z.abs n * 2 ^ (53 - digits (Z.abs n))))
                                (digits (Z.abs n) - 53) e).1) = n * 2 ^ (- e).
Proof.
  intros H0 Hn He. assert (Ed : digits (Z.abs n) = digits n) by by destruct n.
  pose proof (digits_range (Z.abs n) ltac:(lia)) as Hd.
  destruct (shl_align_spec (Z.to_pos (Z.abs n * 2 ^ (53 - digits (Z.abs n)))) (digits (Z.abs n) - 53) e) as [E1 E2].
  rewrite whole_mantissa in E1 by lia. rewrite E2 in E1.
  replace (Z.min (digits (Z.abs n) - 53) e) with e in E1 by lia.
  rewrite <- Z.mul_assoc, <- Z.pow_add_r in E1 by lia.
  replace (53 - digits (Z.abs n) + (digits (Z.abs n) - 53 - e)) with (- e) in E1 by lia.
  rewrite E1. unfold cond_Zopp. destruct (Z.ltb_spec n 0).
  - rewrite Z.abs_neq by lia. lia.
  - by rewrite Z.abs_eq by lia.
Qed.

Section Exact.
Context (a b : Z).
Hypothesis Ha : - P53 < a < P53.
Hypothesis Hb : - P53 < b < P53.

Let ez : Z := Z.min (digits (Z.abs a) - 53) (digits (Z.abs b) - 53).

Lemma ez_le : a ≠ 0 → b ≠ 0 → ez ≤ digits a - 53 ∧ ez ≤ digits b - 53 ∧ 0 ≤ - ez.
Proof.
  intros Ha0 Hb0. subst ez. assert (digits (Z.abs a) = digits a) by by destruct a.
  assert (digits (Z.abs b) = digits b) by by destruct b.
  pose proof (digits_range (Z.abs a) ltac:(lia)). pose proof (digits_range (Z.abs b) ltac:(lia)). lia.
Qed.

Lemma dadd_of_Z : - P53 < a + b < P53 → dadd (of_Z a) (of_Z b) = of_Z (a + b).
Proof.
  intros Hab. destruct (Z.eq_dec a 0) as [->|Ha0].
  { rewrite Z.add_0_l. unfold dadd. destruct (Z.eq_dec b 0) as [->|Hb0]; [done|]. by rewrite (of_Z_whole b). }
  destruct (Z.eq_dec b 0) as [->|Hb0].
  { rewrite Z.add_0_r. unfold dadd. by rewrite (of_Z_whole a). }
  destruct (ez_le Ha0 Hb0) as (H1 & H2 & H3).
  rewrite (of_Z_whole a), (of_Z_whole b) by done. unfold dadd, whole, SFadd. fold ez.
  rewrite !whole_aligned by done. rewrite <- Z.mul_add_distr_r.
  rewrite <- (Z.opp_involutive ez) at 2. by apply normalize_whole.
Qed.

Lemma dsub_of_Z : - P53 < a - b < P53 → dsub (of_Z a) (of_Z b) = of_Z (a - b).
Proof.
  intros Hab. destruct (Z.eq_dec b 0) as [->|Hb0].
  { rewrite Z.sub_0_r. unfold dsub. destruct (Z.eq_dec a 0) as [->|Ha0]; [done|]. by rewrite (of_Z_whole a). }
  destruct (Z.eq_dec a 0) as [->|Ha0].
  { change (0 - b) with (- b). unfold dsub. rewrite (of_Z_whole b), (of_Z_whole (- b)) by lia.
    unfold whole. cbn [SFsub]. rewrite Z.abs_opp.
    replace (- b <? 0) with (negb (b <? 0)); [done|].
    destruct (Z.ltb_spec b 0), (Z.ltb_spec (- b) 0); (done || lia). }
  destruct (ez_le Ha0 Hb0) as (H1 & H2 & H3).
  rewrite (of_Z_whole a), (of_Z_whole b) by done. unfold dsub, whole, SFsub. fold ez.
  rewrite !whole_aligned by done. rewrite <- Z.mul_sub_distr_r.
  rewrite <- (Z.opp_involutive ez) at 2. by apply normalize_whole.
Qed.
End Exact.

Lemma dmul_of_Z a b :
  0 ≤ a → 0 < b < P53 → a * b < P53 → dmul (of_Z a) (of_Z b) = of_Z (a * b).
Proof.
  intros Ha Hb Hab. destruct (Z.eq_dec a 0) as [->|Ha0].
  { rewrite (of_Z_whole b) by lia. destruct (Z.ltb_spec b 0); [lia|done]. }
  assert (Ha' : 0 < a < P53) by nia. assert (Hab' : 0 < a * b < P53) by nia.
  pose proof (digits_range a Ha') as Hda. pose proof (digits_range b Hb) as Hdb.
  rewrite (of_Z_whole a), (of_Z_whole b), (of_Z_whole (a * b)) by lia.
  rewrite !Z.abs_eq by lia.
  destruct (Z.ltb_spec a 0), (Z.ltb_spec b 0), (Z.ltb_spec (a * b) 0); [lia..|].
  unfold dmul, whole at 1 2, SFmul. cbn [xorb].
  set (j := 53 - digits a + (53 - digits b)).
  replace (digits a - 53 + (digits b - 53)) with (- j) by lia.
  rewrite Pos2Z.inj_mul, !whole_mantissa by lia.
  replace (a * 2 ^ (53 - digits a) * (b * 2 ^ (53 - digits b))) with (a * b * 2 ^ j)
    by (unfold j; rewrite Z.pow_add_r by lia; lia).
  apply round_whole; [done|].
  enough (digits a + digits b ≤ digits (a * b) + 1) by lia.
  rewrite !digits_pos by lia. pose proof (Z.log2_mul_below a b ltac:(lia) ltac:(lia)). lia.
Qed.

Lemma digits_mono a b : 0 ≤ a → a ≤ b → digits a ≤ digits b.
Proof.
  intros Ha Hab. destruct (Z.eq_dec a 0) as [->|]; [apply digits_nonneg|].
  rewrite !digits_pos by lia. pose proof (Z.log2_le_mono a b Hab). lia.
Qed.

Lemma dle_of_Z a b : 0 ≤ a < P53 → 0 ≤ b < P53 → dle (of_Z a) (of_Z b) = (a <=? b).
Proof.
  intros Ha Hb. destruct (Z.eq_dec a 0) as [->|Ha0].
  { destruct (Z.leb_spec 0 b); [|lia]. destruct (Z.eq_dec b 0) as [->|Hb0]; [done|].
    rewrite (of_Z_whole b) by lia. destruct (Z.ltb_spec b 0); [lia|done]. }
  destruct (Z.eq_dec b 0) as [->|Hb0].
  { rewrite (of_Z_whole a) by lia. destruct (Z.ltb_spec a 0), (Z.leb_spec a 0); (lia || done). }
  rewrite (of_Z_whole a), (of_Z_whole b) by lia. rewrite !Z.abs_eq by lia.
  destruct (Z.ltb_spec a 0), (Z.ltb_spec b 0); [lia..|].
  unfold dle, SFleb. rewrite compare_key by done. unfold whole, key, lex. rewrite Z.compare_refl.
  rewrite !whole_mantissa by lia.
  destruct (Z.compare_spec (digits a - 53) (digits b - 53)) as [E|E|E].
  - replace (digits b) with (digits a) by lia.
    pose proof (digits_range a ltac:(lia)). pose proof (Z.pow_pos_nonneg 2 (53 - digits a)).
    destruct (Z.compare_spec (a * 2 ^ (53 - digits a)) (b * 2 ^ (53 - digits a))), (Z.leb_spec a b); (done || nia).
  - destruct (Z.leb_spec a b); [done|]. pose proof (digits_mono b a). lia.
  - destruct (Z.leb_spec a b); [|done]. pose proof (digits_mono a b). lia.
Qed.

Lemma of_Z_not_nan n : 0 ≤ n → is_nan (of_Z n) = false.
Proof. intros Hn. by apply nonneg_not_nan, of_Z_nonneg. Qed.

Lemma dlt_of_Z a b : 0 ≤ a < P53 → 0 ≤ b < P53 → dlt (of_Z a) (of_Z b) = (a <? b).
Proof.
  intros Ha Hb. rewrite dlt_dle, dle_of_Z by (try apply of_Z_not_nan; lia).
  destruct (Z.leb_spec b a), (Z.ltb_spec a b); (done || lia).
Qed.

(** ** Magnitudes *)

(** The absolute value is below [2 ^ B]; in particular it is finite. *)
Definition below (B : Z) (x : double) : Prop :=
  match x with
  | S754_zero _ => True
  | S754_finite _ m e => digits (Zpos m) + e ≤ B
  | _ => False
  end.

Lemma below_mono B B' x : B ≤ B' → below B x → below B' x.
Proof. destruct x; cbn; [done..|lia]. Qed.

Lemma below_not_nan B x : below B x → is_nan x = false.
Proof. by destruct x. Qed.

(** A rounding step: the mantissa loses [k] bits. *)
Lemma shr_fexp_spec m e l :
  0 ≤ m →
  let r := shr_fexp prec emax m e l in
  ∃ k, 0 ≤ k ∧ r.2 = e + k ∧ shr_m r.1 = m / 2 ^ k ∧
       r.2 = Z.max e (fexp prec emax (digits m + e)).
Proof.
  intros Hm. cbn zeta. unfold shr_fexp. change (Zdigits2 m) with (digits m).
  assert (Hr : shr_m (shr_record_of_loc m l) = m) by by destruct l as [|[]].
  set (f := fexp prec emax (digits m + e)). unfold shr.
  destruct (f - e) as [|q|q] eqn:E; cbn [fst snd].
  - exists 0. rewrite Z.div_1_r, Hr. lia.
  - exists (Zpos q). rewrite iter_shr_div by by rewrite Hr. rewrite Hr. lia.
  - exists 0. rewrite Z.div_1_r, Hr. lia.
Qed.

(** What is left after the shift still fits. *)
Lemma digits_div m k b : 0 ≤ m → 0 ≤ k → digits m ≤ b + k → 0 ≤ b → m / 2 ^ k < 2 ^ b.
Proof.
  intros Hm Hk Hd Hb. apply Z.div_lt_upper_bound; [apply Z.pow_pos_nonneg; lia|].
  rewrite <- Z.pow_add_r by lia. rewrite Z.add_comm. apply digits_le; lia.
Qed.

Lemma round_below s m e l B :
  0 ≤ m → 0 ≤ B ≤ 900 → digits m + e ≤ B → e < B →
  below (B + 1) (binary_round_aux prec emax s m e l).
Proof.
  intros Hm HB Hd He. unfold binary_round_aux.
  destruct (shr_fexp_spec m e l Hm) as (k & Hk & E1 & E2 & E3).
  destruct (shr_fexp prec emax m e l) as [r e1]. cbn [fst snd] in *. rewrite fexp_eq in E3.
  assert (He1 : e1 < B) by lia.
  assert (Hm1 : m / 2 ^ k < 2 ^ (B - e1)) by (apply digits_div; lia).
  assert (Hm0 : 0 ≤ m / 2 ^ k) by (apply Z.div_pos; [done|apply Z.pow_pos_nonneg; lia]).
  set (n := round_nearest_even _ _).
  assert (Hn : 0 ≤ n ≤ 2 ^ (B - e1)).
  { subst n. unfold round_nearest_even. rewrite E2. destruct (loc_of_shr_record r) as [|[]]; try lia.
    destruct (Z.even _); lia. }
  assert (Hdn : digits n ≤ B - e1 + 1).
  { apply digits_le; [lia|lia|]. rewrite Z.pow_add_r by lia. lia. }
  destruct (shr_fexp_spec n e1 loc_Exact (proj1 Hn)) as (k2 & Hk2 & F1 & F2 & F3).
  destruct (shr_fexp prec emax n e1 loc_Exact) as [r2 e2]. cbn [fst snd] in *. rewrite fexp_eq in F3.
  assert (He2 : e2 < B) by lia.
  assert (Hr2 : shr_m r2 < 2 ^ (B + 1 - e2)) by (rewrite F2; apply digits_div; lia).
  assert (Hr0 : 0 ≤ shr_m r2) by (rewrite F2; apply Z.div_pos; [lia|apply Z.pow_pos_nonneg; lia]).
  destruct (shr_m r2) as [|q|q]; [done| |lia].
  unfold prec, emax. destruct (Z.leb_spec e2 (1024 - 53)); [|lia].
  cbn [below]. enough (digits (Zpos q) ≤ B + 1 - e2) by lia. apply digits_le; [lia|lia|done].
Qed.

Lemma normalize_below m e B :
  0 ≤ B ≤ 900 → digits m + e ≤ B → e < B →
  below (B + 1) (binary_normalize prec emax m e false).
Proof.
  intros HB Hd He.
  assert (Hp : ∀ s p, digits (Zpos p) + e ≤ B → below (B + 1) (binary_round prec emax s p e)).
  { intros s p Hp. unfold binary_round.
    destruct (shl_align_spec p e (fexp prec emax (Zpos (digits2_pos p) + e))) as [E1 E2].
    destruct (shl_align _ _ _) as [q e']. cbn [fst snd] in *.
    apply round_below; [lia|done| |lia]. rewrite E1, digits_shift by lia. lia. }
  destruct m as [|p|p]; cbn [binary_normalize]; [done|by apply Hp..].
Qed.

(** Aligned mantissas. *)
Lemma aligned_bound s m e ez B :
  ez ≤ e → digits (Zpos m) + e ≤ B → Z.abs (cond_Zopp s (Zpos (shl_align m e ez).1)) < 2 ^ (B - ez).
Proof.
  intros Hez Hd. destruct (shl_align_spec m e ez) as [E1 E2]. rewrite E2 in E1.
  replace (Z.min e ez) with ez in E1 by lia.
  assert (H : Zpos (shl_align m e ez).1 < 2 ^ (B - ez)).
  { pose proof (digits_nonneg (Zpos m)). apply digits_le; [lia|lia|]. rewrite E1, digits_shift by lia. lia. }
  unfold cond_Zopp. destruct s; lia.
Qed.

Lemma digits_abs n b : 0 ≤ b → Z.abs n < 2 ^ b → digits n ≤ b.
Proof.
  intros Hb Hn. assert (E : digits n = digits (Z.abs n)) by by destruct n.
  rewrite E. by apply digits_le; [lia|lia|].
Qed.

Lemma abs_sub_le a b : Z.abs (a - b) ≤ Z.abs a + Z.abs b.
Proof. lia. Qed.

Section Below.
Context (B : Z).
Hypothesis HB : 0 ≤ B ≤ 890.

Lemma sum_below m e m' e' s s' n :
  digits (Zpos m) + e ≤ B → digits (Zpos m') + e' ≤ B →
  let ez := Z.min e e' in
  Z.abs n ≤ Z.abs (cond_Zopp s (Zpos (shl_align m e ez).1)) +
            Z.abs (cond_Zopp s' (Zpos (shl_align m' e' ez).1)) →
  below (B + 2) (binary_normalize prec emax n ez false).
Proof.
  intros H1 H2 ez Hn. pose proof (digits_nonneg (Zpos m)). pose proof (digits_nonneg (Zpos m')).
  pose proof (aligned_bound s m e ez B ltac:(lia) H1). pose proof (aligned_bound s' m' e' ez B ltac:(lia) H2).
  assert (1 ≤ digits (Zpos m)) by (cbn; lia). assert (1 ≤ digits (Zpos m')) by (cbn; lia).
  replace (B + 2) with (B + 1 + 1) by lia. apply normalize_below; [lia| |lia].
  enough (digits n ≤ B + 1 - ez) by lia. apply digits_abs; [lia|].
  replace (B + 1 - ez) with (B - ez + 1) by lia. rewrite Z.pow_add_r by lia. lia.
Qed.

Lemma dadd_below x y : below B x → below B y → below (B + 2) (dadd x y).
Proof.
  destruct x as [s|s| |s m e], y as [s'|s'| |s' m' e']; try done.
  - intros _ _. by destruct s, s'.
  - intros _. apply below_mono. lia.
  - intros H _. revert H. apply below_mono. lia.
  - intros H1 H2. unfold dadd, SFadd. apply (sum_below m e m' e' s s'); [done|done|apply Z.abs_triangle].
Qed.

Lemma dsub_below x y : below B x → below B y → below (B + 2) (dsub x y).
Proof.
  destruct x as [s|s| |s m e], y as [s'|s'| |s' m' e']; try done.
  - intros _ _. by destruct s, s'.
  - intros _ H. cbn in *. lia.
  - intros H _. revert H. apply below_mono. lia.
  - intros H1 H2. unfold dsub, SFsub.
    apply (sum_below m e m' e' s s'); [done|done|apply abs_sub_le].
Qed.

(** A quotient by a positive integer. *)
Lemma ddiv_below x n : below B x → 0 < n < P53 → below (B + 2) (ddiv x (of_Z n)).
Proof.
  intros Hx Hn. rewrite (of_Z_whole n) by lia. destruct (Z.ltb_spec n 0); [lia|]. rewrite Z.abs_eq by lia.
  destruct x as [s|s| |s m e]; try done. cbn [below] in Hx.
  pose proof (digits_range n Hn) as Hd. pose proof (whole_mantissa n Hn) as Hw.
  assert (Hdw : digits (Zpos (Z.to_pos (n * 2 ^ (53 - digits n)))) = 53)
    by (rewrite Hw, digits_shift by lia; lia).
  unfold ddiv, whole, SFdiv. set (w := Z.to_pos _) in *. unfold SFdiv_core_binary.
  change (Zdigits2 (Zpos m)) with (digits (Zpos m)). change (Zdigits2 (Zpos w)) with (digits (Zpos w)).
  rewrite Hdw, fexp_eq. set (e' := Z.min _ _). assert (H1 : 1 ≤ digits (Zpos m)) by (cbn; lia).
  set (sh := e - (digits n - 53) - e'). assert (Hsh : 0 ≤ sh) by lia.
  assert (Em : match sh with Z0 => Zpos m | Zpos _ => Z.shiftl (Zpos m) sh | Zneg _ => 0 end = Zpos m * 2 ^ sh).
  { destruct sh eqn:E; [by rewrite Z.mul_1_r|by apply Z.shiftl_mul_pow2|lia]. }
  rewrite Em. pose proof (Z.div_eucl_eq (Zpos m * 2 ^ sh) (Zpos w) ltac:(lia)) as Hq.
  pose proof (Z.mod_pos_bound (Zpos m * 2 ^ sh) (Zpos w) ltac:(lia)) as Hr. unfold Z.modulo in Hr.
  destruct (Z.div_eucl _ _) as [q r]. assert (Hm2 : 0 ≤ Zpos m * 2 ^ sh) by (pose proof (Z.pow_nonneg 2 sh); nia).
  assert (Hq0 : 0 ≤ q) by nia. replace (B + 2) with (B + 1 + 1) by lia.
  apply round_below; [done|lia| |lia].
  assert (Hms : Zpos m < 2 ^ digits (Zpos m)) by (apply digits_le; lia).
  assert (Hw1 : 2 ^ 52 ≤ Zpos w).
  { destruct (Z.le_gt_cases (2 ^ 52) (Zpos w)) as [|Hlt]; [done|].
    apply digits_le in Hlt; lia. }
  assert (Hqb : q * 2 ^ 52 < 2 ^ (digits (Zpos m) + sh)).
  { rewrite Z.pow_add_r by lia. pose proof (Z.pow_pos_nonneg 2 sh). nia. }
  destruct (Z.le_gt_cases 0 (digits (Zpos m) + sh - 52)) as [Hb|Hb].
  - enough (digits q ≤ digits (Zpos m) + sh - 52) by lia. apply digits_le; [done|done|].
    replace (digits (Zpos m) + sh) with (digits (Zpos m) + sh - 52 + 52) in Hqb by lia.
    rewrite (Z.pow_add_r 2 (_ - 52)) in Hqb by lia. nia.
  - assert (2 ^ (digits (Zpos m) + sh) ≤ 2 ^ 52) by (apply Z.pow_le_mono_r; lia).
    replace q with 0 by nia. cbn [digits Zdigits2]. lia.
Qed.
End Below.

Lemma dmul_below A B x y :
  0 ≤ A + B ≤ 890 → below A x → below B y → below (A + B + 1) (dmul x y).
Proof.
  intros HAB. destruct x as [s|s| |s m e], y as [s'|s'| |s' m' e']; try done.
  cbn [below]. intros Hx Hy. unfold dmul, SFmul.
  assert (1 ≤ digits (Zpos m)) by (cbn; lia). assert (1 ≤ digits (Zpos m')) by (cbn; lia).
  apply round_below; [lia|lia| |lia].
  enough (digits (Zpos (m * m')) ≤ digits (Zpos m) + digits (Zpos m')) by lia.
  apply digits_le; [lia|lia|]. rewrite Z.pow_add_r, Pos2Z.inj_mul by lia.
  assert (Zpos m < 2 ^ digits (Zpos m)) by (apply digits_le; lia).
  assert (Zpos m' < 2 ^ digits (Zpos m')) by (apply digits_le; lia). nia.
Qed.

Lemma of_Z_below n B : 0 ≤ B ≤ 890 → Z.abs n < 2 ^ B → below (B + 1) (of_Z n).
Proof.
  intros HB Hn. destruct (Z.eq_dec B 0) as [->|].
  { by replace n with 0 by lia. }
  apply normalize_below; [lia| |lia]. rewrite Z.add_0_r. by apply digits_abs; [lia|].
Qed.
