(* ===== verification/Clock.v ===== *)
(** * The cycle counter (src/clock.c)

    The x86 version of [start_counter] and [get_counter] with its borrow
    arithmetic on two halves, the machine-independent functions, and the
    counters that compensate for timer interrupts.  Reading the time-stamp
    counter (inline assembly), the process times and sleeping are the
    operations of a machine. *)

From Stdlib Require Import ZArith Lia SpecFloat.
From stdpp Require Import base numbers list.
From S2P Require Import Prelude Doubles ExactDoubles.

(** What the code reads from outside: [rdtsc] as the two halves it puts into
    edx and eax, [times] as the field [tms_utime], and [sleep]. *)
Class Machine (E : Type) := {
  rdtsc : M E (Z * Z);
  tms_utime : M E Z;
  sleep : Z → M E unit
}.

(** The static variables of clock.c and the machine. *)
Record clock (E : Type) := Clock {
  cyc_hi : Z;
  cyc_lo : Z;
  cyc_per_tick : double;
  start_tick : Z;
  machine : E
}.
Arguments Clock {E}.
Arguments cyc_hi {E}.
Arguments cyc_lo {E}.
Arguments cyc_per_tick {E}.
Arguments start_tick {E}.
Arguments machine {E}.

Section Clock.
Context {E : Type} {MA : Machine E}.

Definition set_cyc (hi lo : Z) (c : clock E) : clock E :=
  Clock hi lo (cyc_per_tick c) (start_tick c) (machine c).
Definition set_cyc_per_tick (t : double) (c : clock E) : clock E :=
  Clock (cyc_hi c) (cyc_lo c) t (start_tick c) (machine c).
Definition set_start_tick (t : Z) (c : clock E) : clock E :=
  Clock (cyc_hi c) (cyc_lo c) (cyc_per_tick c) t (machine c).
Definition set_machine (e : E) (c : clock E) : clock E :=
  Clock (cyc_hi c) (cyc_lo c) (cyc_per_tick c) (start_tick c) e.

(** An operation of the machine. *)
Definition outside_op {A} (op : M E A) : M (clock E) A := λ c,
  match op (machine c) with
  | Ok (a, e) => Ok (a, set_machine e c)
  | Err x => Err x
  end.

(** ** The counter *)
Definition access_counter : M (clock E) (Z * Z) :=
  '(hi, lo) ← outside_op rdtsc;
  mret (u32 hi, u32 lo).

Definition start_counter : M (clock E) unit :=
  '(hi, lo) ← access_counter;
  modify (set_cyc hi lo).

(** [(double) hi * (1 << 30) * 4 + lo]; it is never negative, so the message
    behind it is not printed. *)
Definition cycles (hi lo : Z) : double :=
  dadd (dmul (dmul (of_Z hi) (of_Z (Z.shiftl 1 30))) (of_Z 4)) (of_Z lo).

Definition get_counter : M (clock E) double :=
  '(ncyc_hi, ncyc_lo) ← access_counter;
  old_lo ← gets cyc_lo;
  old_hi ← gets cyc_hi;
  let lo := sub32 ncyc_lo old_lo in
  let borrow := b2z (ncyc_lo <? lo) in
  let hi := sub32 (sub32 ncyc_hi old_hi) borrow in
  mret (cycles hi lo).

(** ** Overhead and clock rate *)
Definition ovhd : M (clock E) double :=
  start_counter;;
  _ ← get_counter;
  start_counter;;
  get_counter.

Definition mhz_full (sleeptime : Z) : M (clock E) double :=
  start_counter;;
  outside_op (sleep sleeptime);;
  c ← get_counter;
  mret (ddiv c (dmul (of_Z 1000000) (of_Z sleeptime))).

Definition mhz : M (clock E) double := mhz_full 2.

(** ** Compensation for timer interrupts *)
Definition NEVENT : Z := 100.
Definition THRESHOLD : Z := 1000.
Definition RECORDTHRESH : Z := 3000.

(** The loop of [callibrate]; it ends when [NEVENT] ticks were seen, so the
    number of readings is up to the machine and is bounded by the fuel. *)
Fixpoint callibrate_loop (fuel : nat) (e : Z) (oldt : double) (oldc : Z) : M (clock E) unit :=
  match fuel with
  | O => fail OutOfFuel
  | S fuel' =>
      if e <? NEVENT then
        newt ← get_counter;
        if dle (of_Z THRESHOLD) (dsub newt oldt) then
          newc ← outside_op tms_utime;
          if oldc <? newc then
            ticks ← int_result (newc - oldc);
            let cpt := ddiv (dsub newt oldt) (of_Z ticks) in
            cur ← gets cyc_per_tick;
            (if (deq cur zero || dlt cpt cur) && dlt (of_Z RECORDTHRESH) cpt
             then modify (set_cyc_per_tick cpt) else mret tt);;
            callibrate_loop fuel' (e + 1) newt newc
          else callibrate_loop fuel' e newt oldc
        else callibrate_loop fuel' e oldt oldc
      else mret tt
  end.

Definition callibrate (fuel : nat) : M (clock E) unit :=
  oldc ← outside_op tms_utime;
  start_counter;;
  oldt ← get_counter;
  callibrate_loop fuel 0 oldt oldc.

Definition start_comp_counter (fuel : nat) : M (clock E) unit :=
  t ← gets cyc_per_tick;
  (if deq t zero then callibrate fuel else mret tt);;
  tick ← outside_op tms_utime;
  modify (set_start_tick tick);;
  start_counter.

Definition get_comp_counter : M (clock E) double :=
  time ← get_counter;
  tick ← outside_op tms_utime;
  start ← gets start_tick;
  ticks ← int_result (tick - start);
  per_tick ← gets cyc_per_tick;
  mret (dsub time (dmul (of_Z ticks) per_tick)).

(** ** What the counter measures *)

(** Borrowing: the two halves of a 64-bit difference. *)
Lemma borrow_sub hi lo hi' lo' :
  0 ≤ hi < W32 → 0 ≤ lo < W32 → 0 ≤ hi' < W32 → 0 ≤ lo' < W32 →
  let l := sub32 lo' lo in
  let h := sub32 (sub32 hi' hi) (b2z (lo' <? l)) in
  0 ≤ h < W32 ∧ 0 ≤ l < W32 ∧
  h * W32 + l = (hi' * W32 + lo' - (hi * W32 + lo)) mod (W32 * W32).
Proof.
  intros H1 H2 H3 H4 l h.
  assert (Hl : 0 ≤ l < W32) by (apply Z.mod_pos_bound; unfold W32; lia).
  assert (Hh : 0 ≤ h < W32) by (apply Z.mod_pos_bound; unfold W32; lia).
  split_and!; try lia. symmetry.
  assert (Hq : ∃ q, hi' * W32 + lo' - (hi * W32 + lo) = q * (W32 * W32) + (h * W32 + l)).
  { subst h. unfold sub32, u32, b2z in *.
    pose proof (Z.div_mod (lo' - lo) W32 ltac:(done)) as D1.
    pose proof (Z.div_mod (hi' - hi) W32 ltac:(done)) as D2.
    fold l in D1.
    set (b := if lo' <? l then 1 else 0) in *.
    pose proof (Z.div_mod ((hi' - hi) mod W32 - b) W32 ltac:(done)) as D3.
    assert (Hb : (lo' - lo) / W32 = - b).
    { subst b. unfold W32 in *. destruct (Z.ltb_spec lo' l); lia. }
    exists ((hi' - hi) / W32 + ((hi' - hi) mod W32 - b) / W32).
    rewrite Hb in D1. nia. }
  destruct Hq as [q ->]. rewrite Z.add_comm, Z_mod_plus_full. apply Z.mod_small.
  unfold W32 in *. nia.
Qed.

Lemma run_get_counter c hi lo e' :
  rdtsc (machine c) = Ok ((hi, lo), e') →
  get_counter c =
    Ok (cycles (sub32 (sub32 (u32 hi) (cyc_hi c)) (b2z (u32 lo <? sub32 (u32 lo) (cyc_lo c))))
          (sub32 (u32 lo) (cyc_lo c)), set_machine e' c).
Proof.
  intros H. unfold get_counter, access_counter, outside_op, mbind, M_bind. by rewrite H.
Qed.

Lemma run_start_counter c hi lo e' :
  rdtsc (machine c) = Ok ((hi, lo), e') →
  start_counter c = Ok (tt, set_machine e' (set_cyc (u32 hi) (u32 lo) c)).
Proof.
  intros H. unfold start_counter, access_counter, outside_op, mbind, M_bind. by rewrite H.
Qed.
(** The number of the two halves: exact below 2^53, and never infinite. *)
Lemma cycles_exact hi lo :
  0 ≤ hi < W32 → 0 ≤ lo < W32 → hi * W32 + lo < P53 → cycles hi lo = of_Z (hi * W32 + lo).
Proof.
  unfold W32. intros Hh Hl Hs. unfold cycles. change (Z.shiftl 1 30) with 1073741824.
  rewrite !dmul_of_Z by lia. rewrite dadd_of_Z by lia. f_equal. lia.
Qed.

Lemma cycles_below hi lo : 0 ≤ hi < W32 → 0 ≤ lo < W32 → below 73 (cycles hi lo).
Proof.
  unfold W32. intros Hh Hl. unfold cycles. apply (dadd_below 71); [lia| |].
  - apply (dmul_below 66 4); [lia| |by apply (of_Z_below 4 3)].
    apply (dmul_below 33 32); [lia|apply (of_Z_below hi 32); lia|].
    apply (of_Z_below _ 31); [lia|]. change (Z.shiftl 1 30) with 1073741824. lia.
  - apply (below_mono 33); [lia|]. apply (of_Z_below lo 32); lia.
Qed.

Lemma cycles_not_nan hi lo :
  0 ≤ hi < W32 → 0 ≤ lo < W32 → is_nan (cycles hi lo) = false.
Proof. intros Hh Hl. by eapply below_not_nan, cycles_below. Qed.

(** [get_counter] is the 64-bit difference of the readings. *)
Definition elapsed (c : clock E) (hi lo : Z) : Z :=
  (hi * W32 + lo - (cyc_hi c * W32 + cyc_lo c)) mod (W32 * W32).

Lemma get_counter_halves c hi lo e :
  0 ≤ cyc_hi c < W32 → 0 ≤ cyc_lo c < W32 → 0 ≤ hi < W32 → 0 ≤ lo < W32 →
  rdtsc (machine c) = Ok ((hi, lo), e) →
  ∃ h l, get_counter c = Ok (cycles h l, set_machine e c) ∧ 0 ≤ h < W32 ∧ 0 ≤ l < W32 ∧
    h * W32 + l = elapsed c hi lo.
Proof.
  intros H1 H2 H3 H4 Hr. rewrite (run_get_counter c hi lo e Hr), !u32_small by done.
  destruct (borrow_sub (cyc_hi c) (cyc_lo c) hi lo) as (Hh & Hl & Hd); [done..|].
  by eexists _, _.
Qed.
End Clock.
