(* ===== verification/Counters.v ===== *)
(** * The counters of other processors (src/clock.c)

    The versions of [start_counter] and [get_counter] compiled for the Alpha,
    and those compiled when no counter is known, with what they return.  The
    Alpha's counter is read by an array of machine instructions, which is an
    operation of the machine here. *)

From Stdlib Require Import ZArith Lia SpecFloat.
From stdpp Require Import base numbers list.
From S2P Require Import Prelude Doubles ExactDoubles Clock.

(** Calling [counterRoutine]: the low half of the cycle counter. *)
Class AlphaMachine (E : Type) := {
  counter : M E Z
}.

Module Alpha.
Section Alpha.
Context {E : Type} {AM : AlphaMachine E}.

(** A call of the function pointer [counter], an [unsigned]. *)
Definition read_counter : M (clock E) Z :=
  c ← outside_op counter;
  mret (u32 c).

Definition start_counter : M (clock E) unit :=
  hi ← mret 0;
  lo ← read_counter;
  modify (set_cyc hi lo).

Definition get_counter : M (clock E) double :=
  ncyc_lo ← read_counter;
  let ncyc_hi := 0 in
  old_lo ← gets cyc_lo;
  old_hi ← gets cyc_hi;
  let lo := sub32 ncyc_lo old_lo in
  let borrow := b2z (ncyc_lo <? lo) in
  let hi := sub32 (sub32 ncyc_hi old_hi) borrow in
  mret (cycles hi lo).

(** The difference of two readings; one that has wrapped around borrows from
    a high half that is always zero. *)
Lemma alpha_get_counter c lo e :
  cyc_hi c = 0 → 0 ≤ cyc_lo c < W32 → 0 ≤ lo < W32 → counter (machine c) = Ok (lo, e) →
  get_counter c =
    Ok (if cyc_lo c <=? lo then of_Z (lo - cyc_lo c) else cycles (W32 - 1) (lo + W32 - cyc_lo c),
        set_machine e c).
Proof.
  intros Hhi H1 H2 Hc. unfold get_counter, read_counter, outside_op, gets, mbind, M_bind. rewrite Hc.
  cbn -[sub32 u32 cycles b2z]. rewrite Hhi, u32_small by done.
  pose proof (Z.leb_spec (cyc_lo c) lo) as Hle. destruct (cyc_lo c <=? lo); inversion Hle.
  - rewrite (sub32_small lo) by (unfold W32 in *; lia).
    destruct (Z.ltb_spec lo (lo - cyc_lo c)); [lia|]. 
    change (sub32 (sub32 0 0) (b2z false)) with 0. rewrite cycles_exact by (unfold W32 in *; lia). by rewrite Z.mul_0_l, Z.add_0_l.
  - assert (E1 : sub32 lo (cyc_lo c) = lo + W32 - cyc_lo c).
    { unfold sub32, u32. rewrite <- (Z.mod_add _ 1) by done.
      replace (lo - cyc_lo c + 1 * W32) with (lo + W32 - cyc_lo c) by lia.
      apply Z.mod_small. unfold W32 in *. lia. }
    rewrite E1. destruct (Z.ltb_spec lo (lo + W32 - cyc_lo c)); [done|]. unfold W32 in *. lia.
Qed.

Lemma alpha_start_counter c lo e : 0 ≤ lo < W32 → counter (machine c) = Ok (lo, e) →
  start_counter c = Ok (tt, set_machine e (set_cyc 0 lo c)).
Proof.
  intros Hl Hc. unfold start_counter, read_counter, outside_op, mbind, M_bind. cbn. rewrite Hc.
  cbn. by rewrite u32_small.
Qed.
End Alpha.
End Alpha.

(** Platforms without a counter. *)
Module Unsupported.
Definition start_counter {E} : M (clock E) unit := fail (Exit 1).
Definition get_counter {E} : M (clock E) double := fail (Exit 1).
End Unsupported.
