(* ===== verification/Calibrate.v ===== *)
(** * Calibration on a steady machine (src/clock.c)

    [callibrate] waits for [NEVENT] timer ticks.  On a machine whose counter
    advances with every reading, by a bounded number of cycles, and whose
    user time advances within a bounded number of cycles, it ends, having
    observed that many ticks ([seen]), and keeps the smallest of the ratios
    it computed ([smallest]); the counters that compensate for timer
    interrupts then always give a number. *)

From Stdlib Require Import ZArith Lia SpecFloat.
From stdpp Require Import base numbers list.
From S2P Require Import Prelude Doubles ExactDoubles Clock.

(** A machine seen as a cycle count [now] and a function [user] from it to
    the user time.  Reading the counter takes at least one and, like reading
    the time, at most [gap] cycles; the user time advances within any
    [period] cycles.  All this is only asked for below [limit]. *)
Record steady {E} {MA : Machine E} (now : E → Z) (user : Z → Z) (period gap limit : Z) : Prop := {
  sd_sizes : 0 < period ∧ 0 < gap ∧ limit ≤ W32 * W32;
  sd_user n : 0 ≤ n < limit → 0 ≤ user n < 2147483648;
  sd_mono n n' : 0 ≤ n → n ≤ n' → n' < limit → user n ≤ user n';
  sd_tick n : 0 ≤ n → n + period < limit → user n < user (n + period);
  sd_rdtsc e : 0 ≤ now e → now e + gap < limit →
    ∃ e', rdtsc e = Ok ((now e / W32, now e mod W32), e') ∧ now e < now e' ≤ now e + gap;
  sd_times e : 0 ≤ now e → now e + gap < limit →
    ∃ e', tms_utime e = Ok (user (now e), e') ∧ now e ≤ now e' ≤ now e + gap
}.

(** ** The smallest ratio *)

(** What one observation does to [cyc_per_tick]. *)
Definition recorded (cur cpt : double) : double :=
  if (deq cur zero || dlt cpt cur) && dlt (of_Z RECORDTHRESH) cpt then cpt else cur.

(** Of the ratios above the threshold, and the old value unless that was
    zero, [final] is the smallest; it is the old value if there are none. *)
Definition smallest (old : double) (ratios : list double) (final : double) : Prop :=
  let above := filter (λ x, dlt (of_Z RECORDTHRESH) x = true) ratios in
  let candidates := if deq old zero then above else old :: above in
  if bool_decide (candidates = []) then final = old
  else final ∈ candidates ∧ Forall (λ x, dle final x = true) candidates.

Lemma threshold_not_zero x : dlt (of_Z RECORDTHRESH) x = true → deq x zero = false.
Proof. by destruct x as [[]|[]| |[] m e]. Qed.

(** The case of a candidate at hand. *)
Lemma smallest_cons old l final :
  deq old zero = false → smallest old l final →
  (final = old ∨ final ∈ filter (λ x, dlt (of_Z RECORDTHRESH) x = true) l) ∧
  dle final old = true ∧ Forall (λ x, dle final x = true) (filter (λ x, dlt (of_Z RECORDTHRESH) x = true) l).
Proof.
  unfold smallest. intros ->. rewrite bool_decide_false by done.
  by intros [?%elem_of_cons [? ?]%Forall_cons].
Qed.

Lemma foldl_recorded l : ∀ old,
  is_nan old = false → Forall (λ x, is_nan x = false) l → smallest old l (foldl recorded old l).
Proof.
  induction l as [|x l IH]; intros old Ho Hl; cbn [foldl].
  { unfold smallest. rewrite filter_nil. destruct (deq old zero); [by rewrite bool_decide_true|].
    rewrite bool_decide_false by done. split; [by left|]. by repeat constructor; apply dle_refl. }
  apply Forall_cons in Hl as [Hx Hl]. unfold recorded at 2. unfold smallest. rewrite filter_cons.
  destruct (dlt (of_Z RECORDTHRESH) x) eqn:Ex; [rewrite decide_True by done|rewrite decide_False by done];
    cbn [andb]; [|rewrite andb_false_r; by apply IH].
  rewrite andb_true_r. pose proof (IH x Hx Hl) as Hnew. pose proof (IH old Ho Hl) as Hold.
  apply smallest_cons in Hnew; [|by apply threshold_not_zero].
  assert (Hnan : ∀ r, r = x ∨ r ∈ filter (λ x, dlt (of_Z RECORDTHRESH) x = true) l → is_nan r = false).
  { intros r [->|[_ Hr]%list_elem_of_filter]; [done|]. by eapply Forall_forall in Hl. }
  destruct (deq old zero) eqn:Eo; cbn [orb].
  { rewrite bool_decide_false by done. destruct Hnew as (Hin & Hle & Hall).
    split; [by apply elem_of_cons|by constructor]. }
  rewrite bool_decide_false by done. destruct (dlt x old) eqn:Elt.
  - destruct Hnew as (Hin & Hle & Hall). split.
    + right. by apply elem_of_cons.
    + repeat constructor; [|done|done]. eapply (dle_trans _ x); [by apply Hnan|done|done|done|].
      destruct (dle_total x old) as [|H]; [done..|]. rewrite dlt_dle, H in Elt; done.
  - apply smallest_cons in Hold as (Hin & Hle & Hall); [|done]. split.
    + apply elem_of_cons. destruct Hin as [->|Hin]; [by left|right; by right].
    + repeat constructor; [done| |done]. eapply (dle_trans _ old); [|done|done|done|].
      * destruct Hin as [->|Hin]; [done|]. apply Hnan. by right.
      * rewrite dlt_dle in Elt by done. by destruct (dle old x).
Qed.

Section Calibrate.
Context {E : Type} {MA : Machine E} {now : E → Z} {user : Z → Z} {period gap limit : Z}.
Context (Hst : steady now user period gap limit).
Implicit Types (c : clock E).

Abbreviation at_ c := (now (machine c)).

(** ** The counter *)

(** The reading of [start_counter]. *)
Definition since c : Z := cyc_hi c * W32 + cyc_lo c.
Definition halves_ok c : Prop := 0 ≤ cyc_hi c < W32 ∧ 0 ≤ cyc_lo c < W32.

Lemma halves n : 0 ≤ n < W32 * W32 →
  0 ≤ n / W32 < W32 ∧ 0 ≤ n mod W32 < W32 ∧ n / W32 * W32 + n mod W32 = n.
Proof.
  intros Hn. unfold W32 in *. pose proof (Z.div_mod n 4294967296 ltac:(lia)).
  pose proof (Z.mod_pos_bound n 4294967296 ltac:(lia)). lia.
Qed.

Lemma wp_start_counter c (Q : unit → clock E → Prop) :
  0 ≤ at_ c → at_ c + gap < limit →
  (∀ c', at_ c < at_ c' ≤ at_ c + gap → halves_ok c' → since c' = at_ c →
     cyc_per_tick c' = cyc_per_tick c → start_tick c' = start_tick c → Q tt c') →
  wp start_counter c Q.
Proof.
  intros H0 Hl HQ. destruct (sd_sizes _ _ _ _ _ Hst) as (_ & _ & HX).
  destruct (sd_rdtsc _ _ _ _ _ Hst (machine c) H0 Hl) as (e' & Hr & He).
  destruct (halves (at_ c)) as (Hh & Hlo & Hs); [lia|].
  unfold wp. rewrite (run_start_counter _ _ _ _ Hr), !u32_small by done. by apply HQ.
Qed.

Lemma wp_get_counter c (Q : double → clock E → Prop) :
  halves_ok c → since c ≤ at_ c → 0 ≤ at_ c → at_ c - since c < P53 → at_ c + gap < limit →
  (∀ c', at_ c < at_ c' ≤ at_ c + gap → halves_ok c' → since c' = since c →
     cyc_per_tick c' = cyc_per_tick c → start_tick c' = start_tick c →
     Q (of_Z (at_ c - since c)) c') →
  wp get_counter c Q.
Proof.
  intros [Hh Hlo] Hs H0 H53 Hl HQ. destruct (sd_sizes _ _ _ _ _ Hst) as (_ & _ & HX).
  destruct (sd_rdtsc _ _ _ _ _ Hst (machine c) H0 Hl) as (e' & Hr & He).
  destruct (halves (at_ c)) as (Hh' & Hlo' & Hn); [lia|].
  destruct (get_counter_halves c _ _ _ Hh Hlo Hh' Hlo' Hr) as (h & l & Eg & Hhr & Hlr & Ed).
  assert (Ee : h * W32 + l = at_ c - since c).
  { rewrite Ed. unfold elapsed. rewrite Hn. fold (since c). apply Z.mod_small. unfold W32. lia. }
  unfold wp. rewrite Eg, cycles_exact, Ee by lia. by apply HQ.
Qed.

Lemma wp_times c (Q : Z → clock E → Prop) :
  0 ≤ at_ c → at_ c + gap < limit →
  (∀ e', at_ c ≤ now e' ≤ at_ c + gap → Q (user (at_ c)) (set_machine e' c)) →
  wp (outside_op tms_utime) c Q.
Proof.
  intros H0 Hl HQ. destruct (sd_times _ _ _ _ _ Hst (machine c) H0 Hl) as (e' & Hr & He).
  unfold wp, outside_op. rewrite Hr. by apply HQ.
Qed.

(** ** [callibrate] *)

(** The cycles between two ticks that are noticed, at most. *)
Definition lap : Z := period + THRESHOLD + 6 * gap.

(** What calibration knows of [cyc_per_tick]. *)
Definition calibrated (old : double) c : Prop :=
  below 56 (cyc_per_tick c) ∧
  (cyc_per_tick c = old ∨ dlt (of_Z RECORDTHRESH) (cyc_per_tick c) = true).

(** A tick as the loop observes it: the counter is read at [tk_from] and,
    next, at [tk_to], no less than [THRESHOLD] cycles apart; the user time is
    then read at [tk_time] and has grown since [tk_last], when the last tick
    was noticed. *)
Record tick := Tick {
  tk_last : Z;
  tk_from : Z;
  tk_to : Z;
  tk_time : Z
}.

Definition tick_ok (t : tick) : Prop :=
  tk_from t + THRESHOLD ≤ tk_to t ∧ tk_to t ≤ tk_time t ≤ tk_to t + gap ∧
  tk_last t ≤ tk_time t ∧ user (tk_last t) < user (tk_time t).

(** The ratio the loop computes. *)
Definition ratio (t : tick) : double :=
  ddiv (of_Z (tk_to t - tk_from t)) (of_Z (user (tk_time t) - user (tk_last t))).

(** Successive observations, between the cycles [n] and [m]; the time was
    last noticed to grow at [u]. *)
Inductive seen : Z → Z → list tick → Z → Prop :=
  | seen_nil u n m : u ≤ m → n ≤ m → seen u n [] m
  | seen_cons u n t l m :
      tk_last t = u → n ≤ tk_from t → tick_ok t → seen (tk_time t) (tk_to t) l m →
      seen u n (t :: l) m.

Lemma seen_earlier u n n' l m : n ≤ n' → seen u n' l m → seen u n l m.
Proof. intros Hn. inversion 1; subst; constructor; (done || lia). Qed.

(** Every observation is a tick of its own. *)
Lemma seen_time u n l m : seen u n l m → u ≤ m ∧ n ≤ m.
Proof.
  induction 1 as [|u n t l m <- Hn (H1 & H2 & H3 & H4) _ IH]; [done|]. unfold THRESHOLD in *. lia.
Qed.

Lemma seen_user u n l m : 0 ≤ u → m < limit → seen u n l m → user u + Z.of_nat (length l) ≤ user m.
Proof.
  intros Hu Hm. induction 1 as [u n m Hum _|u n t l m <- Hn (H1 & H2 & H3 & H4) Hs IH].
  - cbn [length]. pose proof (sd_mono _ _ _ _ _ Hst u m Hu Hum Hm). lia.
  - cbn [length]. specialize (IH ltac:(lia) Hm). lia.
Qed.

(** The state of the loop: [u] is the cycle at which the last tick was
    noticed, [o] that of the last reading that passed the threshold. *)
Record loop_inv (old : double) (last e : Z) (oldt : double) (oldc u o : Z) c : Prop := {
  li_halves : halves_ok c;
  li_events : 0 ≤ e ≤ NEVENT;
  li_order : 0 ≤ since c ∧ since c ≤ o ∧ o ≤ at_ c;
  li_oldt : oldt = of_Z (o - since c);
  li_oldc : oldc = user u;
  li_u : 0 ≤ u ∧ u ≤ at_ c;
  li_o : o ≤ u + period + 2 * gap;
  li_near : at_ c ≤ o + THRESHOLD + 2 * gap;
  li_budget : u + (NEVENT - e) * lap ≤ last;
  li_exact : last + lap - since c < P53;
  li_cpt : calibrated old c
}.

Definition rank (e u n : Z) : Z := (NEVENT - e) * lap + u - n.

Lemma lap_eq : lap = period + 1000 + 6 * gap.
Proof. done. Qed.

(** A tick that is noticed gives a finite ratio. *)
Lemma calibrated_step old c cpt :
  calibrated old c → below 56 cpt →
  wp (if (deq (cyc_per_tick c) zero || dlt cpt (cyc_per_tick c)) && dlt (of_Z RECORDTHRESH) cpt
      then modify (set_cyc_per_tick cpt) else mret tt) c
    (λ _ c', calibrated old c' ∧ machine c' = machine c ∧ since c' = since c ∧
             (halves_ok c → halves_ok c') ∧ cyc_per_tick c' = recorded (cyc_per_tick c) cpt).
Proof.
  intros Hc Hb. unfold recorded. destruct (_ || _) eqn:E1; cbn [andb].
  - destruct (dlt (of_Z RECORDTHRESH) cpt) eqn:E2.
    + apply wp_modify. split; [|by split_and!]. split; [exact Hb|by right].
    + by apply wp_ret.
  - by apply wp_ret.
Qed.

(** What the rest of the loop observes. *)
Definition observes (e u o : Z) c c' : Prop :=
  ∃ l, Z.of_nat (length l) = NEVENT - e ∧ seen u o l (at_ c') ∧
       Forall (λ t, below 56 (ratio t)) l ∧
       cyc_per_tick c' = foldl recorded (cyc_per_tick c) (map ratio l).

Lemma observes_later e u o o' c c1 c' :
  o ≤ o' → cyc_per_tick c1 = cyc_per_tick c → observes e u o' c1 c' → observes e u o c c'.
Proof.
  intros Ho Ec (l & Hl & Hs & Hb & Hf). exists l. rewrite <- Ec. split_and!; try done.
  by eapply seen_earlier.
Qed.

Lemma observes_tick e u o n r f c c1 c' :
  o ≤ f → tick_ok (Tick u f n r) → below 56 (ratio (Tick u f n r)) →
  cyc_per_tick c1 = recorded (cyc_per_tick c) (ratio (Tick u f n r)) →
  observes (e + 1) r n c1 c' → observes e u o c c'.
Proof.
  intros Ho Ht Hb Ec (l & Hl & Hs & Hbl & Hf). exists (Tick u f n r :: l). split_and!.
  - cbn [length]. lia.
  - by apply seen_cons.
  - by constructor.
  - cbn [map foldl]. by rewrite <- Ec.
Qed.

Section Loop.
Context (old : double) (last : Z).
Hypothesis Hlast : last + lap < limit.

Lemma wp_callibrate_loop fuel : ∀ e oldt oldc u o c,
  loop_inv old last e oldt oldc u o c → (Z.to_nat (rank e u (at_ c)) < fuel)%nat →
  wp (callibrate_loop fuel e oldt oldc) c
    (λ _ c', at_ c ≤ at_ c' ≤ last + lap ∧ calibrated old c' ∧ observes e u o c c').
Proof.
  destruct (sd_sizes _ _ _ _ _ Hst) as (Hp & Hg & _). pose proof lap_eq as HL.
  induction fuel as [|fuel IH]; intros e oldt oldc u o c HI Hf; [lia|].
  destruct HI as [Hh He Ho Eo Ec Hu Hou Hn Hb H53 Hcpt]. unfold NEVENT, THRESHOLD in *.
  cbn [callibrate_loop]. unfold NEVENT, THRESHOLD.
  destruct (Z.ltb_spec e 100) as [He1|He1]; [|apply wp_ret; split; [nia|split; [done|]]].
  2: { exists []. split; [cbn; unfold NEVENT; lia|]. split; [constructor; lia|by split]. }
  assert (Hlap : lap ≤ (100 - e) * lap) by nia.
  wp_bind. apply wp_get_counter; [done|lia..|]. intros c1 H1 Hh1 Es1 Ecp1 _.
  rewrite Eo, dsub_of_Z by lia. replace (at_ c - since c - (o - since c)) with (at_ c - o) by lia.
  rewrite dle_of_Z by lia. destruct (Z.leb_spec 1000 (at_ c - o)) as [Hpass|Hno].
  - wp_bind. apply wp_times; [lia..|]. intros e' He'. set (c2 := set_machine e' c1).
    assert (Hu1 : 0 ≤ user (at_ c1) < 2147483648) by (apply (sd_user _ _ _ _ _ Hst); lia).
    assert (Hu0 : 0 ≤ oldc < 2147483648) by (rewrite Ec; apply (sd_user _ _ _ _ _ Hst); lia).
    destruct (Z.ltb_spec oldc (user (at_ c1))) as [Htick|Hsame].
    + unfold int_result, int_range.
      destruct (Z.leb_spec (-2147483648) (user (at_ c1) - oldc)); [|lia].
      destruct (Z.ltb_spec (user (at_ c1) - oldc) 2147483648); [|lia]. cbn [andb].
      wp_pure.
      set (t := Tick u (o) (at_ c) (at_ c1)).
      assert (Hrat : below 56 (ratio t)).
      { apply (ddiv_below 54); [lia| |cbn; lia]. apply (of_Z_below _ 53); cbn; lia. }
      assert (Er : ddiv (of_Z (at_ c - o)) (of_Z (user (at_ c1) - oldc)) = ratio t)
        by (unfold ratio, t; cbn; by rewrite Ec).
      rewrite Er. eapply wp_mono; [apply (calibrated_step old c2); [|exact Hrat]|].
      * by unfold calibrated in *; cbn; rewrite Ecp1.
      * cbv beta. intros _ c3 (Hcal & Em & Es & Hh3 & Erec). subst c2. cbn [machine set_machine] in *.
        eapply wp_mono; [apply (IH (e + 1) _ _ (at_ c1) (at_ c))|].
        -- assert (Es3 : since c3 = since c) by (rewrite Es, <- Es1; done).
           split; rewrite ?Em, ?Es3; unfold NEVENT, THRESHOLD; try done; try lia. by apply Hh3.
        -- rewrite Em. unfold rank, NEVENT in *. lia.
        -- cbv beta. rewrite Em. intros _ c4 (? & ? & Hobs). split; [lia|]. split; [done|].
           eapply (observes_tick e u o (at_ c) (at_ c1) o); [lia| |exact Hrat| |exact Hobs].
           ++ unfold tick_ok; cbn. unfold THRESHOLD. rewrite Ec in Htick. lia.
           ++ rewrite Erec. cbn. by rewrite Ecp1.
    + eapply wp_mono; [apply (IH e _ _ u (at_ c) c2)|].
      * assert (Hlt : at_ c < u + period).
        { destruct (Z.lt_ge_cases (at_ c) (u + period)) as [|Hge]; [done|]. exfalso.
          pose proof (sd_tick _ _ _ _ _ Hst u ltac:(lia) ltac:(lia)).
          pose proof (sd_mono _ _ _ _ _ Hst (u + period) (at_ c1) ltac:(lia) ltac:(lia) ltac:(lia)). lia. }
        split; subst c2; change (since (set_machine e' c1)) with (since c1);
          cbn [machine set_machine]; rewrite ?Es1; unfold NEVENT, THRESHOLD; try done; try lia.
        unfold calibrated in *. cbn. by rewrite Ecp1.
      * subst c2. cbn [machine set_machine]. unfold rank, NEVENT in *. lia.
      * subst c2. cbn [machine set_machine]. cbv beta. intros _ c4 (? & ? & Hobs). split; [lia|].
        split; [done|]. by eapply (observes_later _ _ o (at_ c)); [lia|..|exact Hobs].
  - eapply wp_mono; [apply (IH e _ _ u o c1)|].
    + split; rewrite ?Es1; unfold NEVENT, THRESHOLD; try done; try lia.
      unfold calibrated in *. by rewrite Ecp1.
    + unfold rank, NEVENT in *. lia.
    + cbv beta. intros _ c4 (? & ? & Hobs). split; [lia|].
      split; [done|]. by eapply (observes_later _ _ o o); [lia|..|exact Hobs].
Qed.
End Loop.
(** The cycles calibration takes at most, and the rounds of its loop. *)
Definition calibration : Z := (NEVENT + 1) * lap.
Definition enough (fuel : nat) : Prop := Z.of_nat fuel > calibration.

Lemma wp_callibrate c fuel :
  0 ≤ at_ c → at_ c + calibration < limit → calibration < P53 → enough fuel →
  below 56 (cyc_per_tick c) →
  wp (callibrate fuel) c (λ _ c',
    at_ c ≤ at_ c' ≤ at_ c + calibration ∧ calibrated (cyc_per_tick c) c' ∧
    observes 0 (at_ c) (at_ c) c c').
Proof.
  destruct (sd_sizes _ _ _ _ _ Hst) as (Hp & Hg & _). pose proof lap_eq as HL.
  unfold calibration, enough, NEVENT. intros H0 Hlim H53 Hfuel Hb. unfold calibration, NEVENT in Hfuel.
  unfold callibrate. wp_bind. apply wp_times; [lia..|]. intros e' He'.
  wp_bind. apply wp_start_counter; cbn [machine set_machine]; [lia..|].
  cbn [cyc_per_tick set_machine]. intros c1 H1 Hh1 Es1 Ec1 _.
  wp_bind. apply wp_get_counter; [done|lia..|]. intros c2 H2 Hh2 Es2 Ec2 _.
  eapply wp_mono; [apply (wp_callibrate_loop (cyc_per_tick c) (at_ c + 100 * lap) ltac:(lia) _ _ _ _ (at_ c) (at_ c1))|].
  - split; unfold NEVENT, THRESHOLD; rewrite ?Es2, ?Es1; try done; try lia.
    split; rewrite Ec2, Ec1; [done|by left].
  - unfold rank, NEVENT. lia.
  - cbv beta. intros _ c3 (? & ? & Hobs). split; [lia|]. split; [done|].
    eapply (observes_later _ _ _ (at_ c1)); [lia| |exact Hobs]. by rewrite Ec2, Ec1.
Qed.

(** The final ratio is the smallest one. *)
Lemma observes_smallest e u o c c' :
  is_nan (cyc_per_tick c) = false → observes e u o c c' →
  ∃ l, Z.of_nat (length l) = NEVENT - e ∧ seen u o l (at_ c') ∧
       smallest (cyc_per_tick c) (map ratio l) (cyc_per_tick c').
Proof.
  intros Hn (l & Hl & Hs & Hb & ->). exists l. split_and!; [done|done|]. apply foldl_recorded; [done|].
  change (map ratio l) with (ratio <$> l). apply Forall_fmap. eapply Forall_impl; [exact Hb|].
  intros t. apply below_not_nan.
Qed.

(** ** The compensated counters *)

(** The ratio in use when the last one was [old]: it is only looked for if
    that was zero. *)
Definition calibrated_by (old cpt : double) : Prop :=
  if deq old zero
  then ∃ n l m, 0 ≤ n ∧ Z.of_nat (length l) = NEVENT ∧ seen n n l m ∧ smallest old (map ratio l) cpt
  else cpt = old.

(** Looking again changes nothing. *)
Definition settled (old cpt : double) : Prop :=
  cpt = old ∨ (calibrated_by old cpt ∧ deq cpt zero = false).

Lemma settled_next old cpt cpt' :
  settled old cpt → calibrated_by cpt cpt' → calibrated_by old cpt' ∧ settled old cpt'.
Proof.
  intros [->|[Hc Ez]] H.
  - split; [done|]. unfold settled, calibrated_by in *. destruct (deq old zero) eqn:Ez; [|by left].
    destruct H as (n & l & m & H0 & Hl & Hs & H). pose proof H as Hsm. unfold smallest in H. rewrite Ez in H.
    case_bool_decide as Hb; [by left|right]. destruct H as [[H _]%list_elem_of_filter _].
    split; [by exists n, l, m|]. by apply threshold_not_zero.
  - unfold calibrated_by in H. rewrite Ez in H. subst cpt'. split; [done|by right].
Qed.

(** Both read the counter once and the time once. *)
Definition comp_budget : Z := calibration + 2 * gap.

Lemma wp_start_comp_counter c fuel :
  0 ≤ at_ c → at_ c + comp_budget < limit → calibration < P53 → enough fuel →
  below 56 (cyc_per_tick c) →
  wp (start_comp_counter fuel) c (λ _ c',
    at_ c ≤ at_ c' ≤ at_ c + comp_budget ∧ halves_ok c' ∧
    at_ c ≤ since c' ∧ since c' ≤ at_ c' ∧ 0 ≤ start_tick c' < 2147483648 ∧
    calibrated (cyc_per_tick c) c' ∧ calibrated_by (cyc_per_tick c) (cyc_per_tick c') ∧
    at_ c' ≤ since c' + gap ∧
    ∃ n, at_ c ≤ n ≤ since c' ∧ since c' ≤ n + gap ∧ start_tick c' = user n).
Proof.
  destruct (sd_sizes _ _ _ _ _ Hst) as (Hp & Hg & _). unfold comp_budget. intros H0 Hlim H53 Hfuel Hb.
  assert (Hcal : 0 < calibration) by (unfold calibration, NEVENT; rewrite lap_eq; lia).
  unfold start_comp_counter. wp_pure.
  apply (wp_mono _ _ (λ _ c', at_ c ≤ at_ c' ≤ at_ c + calibration ∧ calibrated (cyc_per_tick c) c' ∧
                              calibrated_by (cyc_per_tick c) (cyc_per_tick c'))).
  { unfold calibrated_by. destruct (deq _ zero).
    - eapply wp_mono; [apply wp_callibrate; (done || lia)|]. intros _ c' (? & ? & Hobs).
      split; [done|]. split; [done|].
      apply observes_smallest in Hobs as (l & Hl & Hs & Hsm); [|by eapply below_not_nan].
      exists (at_ c), l, (at_ c'). rewrite Z.sub_0_r in Hl. by split_and!.
    - apply wp_ret. split; [lia|]. split; [|done]. split; [done|by left]. }
  cbv beta. intros _ c1 (H1 & Hc1 & Hby). wp_bind. apply wp_times; [lia..|]. intros e' He'. wp_pure.
  assert (Hu : 0 ≤ user (at_ c1) < 2147483648) by (apply (sd_user _ _ _ _ _ Hst); lia).
  apply wp_start_counter; cbn [machine set_machine set_start_tick]; [lia..|].
  cbn [cyc_per_tick start_tick set_machine set_start_tick]. intros c2 H2 Hh2 Es2 Ec2 Et2.
  split; [lia|]. split; [done|]. rewrite Es2, Et2. split; [lia|]. split; [lia|]. split; [done|].
  split; [unfold calibrated in *; by rewrite Ec2|]. rewrite Ec2. split; [done|]. split; [lia|].
  exists (at_ c1). split; [lia|]. by split; [lia|].
Qed.

Lemma wp_get_comp_counter old c :
  halves_ok c → 0 ≤ since c ≤ at_ c → at_ c + 2 * gap < limit → at_ c - since c < P53 →
  0 ≤ start_tick c < 2147483648 → calibrated old c →
  wp get_comp_counter c (λ v c',
    is_nan v = false ∧ at_ c ≤ at_ c' ≤ at_ c + 2 * gap ∧ calibrated old c' ∧
    cyc_per_tick c' = cyc_per_tick c ∧
    ∃ n, at_ c ≤ n ≤ at_ c' ∧
      v = dsub (of_Z (at_ c - since c)) (dmul (of_Z (user n - start_tick c)) (cyc_per_tick c))).
Proof.
  destruct (sd_sizes _ _ _ _ _ Hst) as (Hp & Hg & _). intros Hh Hs Hlim H53 Ht Hc.
  unfold get_comp_counter. wp_bind. apply wp_get_counter; [done|lia..|]. intros c1 H1 Hh1 Es1 Ec1 Et1.
  wp_bind. apply wp_times; [lia..|]. intros e' He'.
  assert (Hu : 0 ≤ user (at_ c1) < 2147483648) by (apply (sd_user _ _ _ _ _ Hst); lia).
  wp_pure. cbn [start_tick set_machine]. rewrite Et1. unfold int_result, int_range.
  destruct (Z.leb_spec (-2147483648) (user (at_ c1) - start_tick c)); [|lia].
  destruct (Z.ltb_spec (user (at_ c1) - start_tick c) 2147483648); [|lia]. cbn [andb]. wp_pure.
  cbn [cyc_per_tick machine set_machine]. rewrite Ec1. split_and!; [|lia|lia| | |].
  - apply (below_not_nan 91), (dsub_below 89); [lia| |].
    + apply (below_mono 54); [lia|]. apply (of_Z_below _ 53); lia.
    + apply (dmul_below 32 56); [lia| |apply Hc]. apply (of_Z_below _ 31); lia.
  - unfold calibrated in *. cbn. by rewrite Ec1.
  - done.
  - exists (at_ c1). by split; [lia|].
Qed.
End Calibrate.
