(* ===== verification/Fcyc.v ===== *)
(** * The K-best measurement scheme (src/fcyc.c)

    [init_sampler], [add_sample], [has_converged], [clear], [fcyc] and the
    functions that set the parameters.  [add_sample] is shown to keep the
    [kbest] smallest samples in ascending order, and [fcyc] to return the
    smallest of the samples it took.  The measured function, and whether the
    memory of the host suffices, are parameters. *)

From Stdlib Require Import ZArith Lia SpecFloat Sorting.Sorted.
From stdpp Require Import base numbers list.
From S2P Require Import Prelude Doubles Clock.

Definition K : Z := 3.
Definition MAXSAMPLES : Z := 20.
Definition EPSILON : double := decimal 1 100.
Definition COMPENSATE : Z := 0.
Definition CLEAR_CACHE : Z := 0.
Definition CACHE_BYTES : Z := Z.shiftl 1 19.
Definition CACHE_BLOCK : Z := 32.

Definition sizeof_int : Z := 4.
Definition sizeof_double : Z := 8.

(** The static variables of fcyc.c, and those of clock.c with the machine.
    [cache_buf] has the contents of the buffer, [None] is NULL. *)
Record sampler (E : Type) := Sampler {
  kbest : Z;
  maxsamples : Z;
  epsilon : double;
  compensate : Z;
  clear_cache : Z;
  cache_bytes : Z;
  cache_block : Z;
  cache_buf : option (list Z);
  values : option (list double);
  samplecount : Z;
  sink : Z;
  ticker : clock E
}.
Arguments Sampler {E}.
Arguments kbest {E}.
Arguments maxsamples {E}.
Arguments epsilon {E}.
Arguments compensate {E}.
Arguments clear_cache {E}.
Arguments cache_bytes {E}.
Arguments cache_block {E}.
Arguments cache_buf {E}.
Arguments values {E}.
Arguments samplecount {E}.
Arguments sink {E}.
Arguments ticker {E}.

Section Fcyc.
Context {E : Type} {MA : Machine E}.

(** [malloc] and [calloc] succeed for this number of bytes; the integers a
    new buffer happens to hold; the function [f(argp)]. *)
Context (host_malloc : Z → bool) (junk : nat → Z) (f : M E unit).

Abbreviation fc := (sampler E).

Definition fcyc_statics (c : clock E) : fc :=
  Sampler K MAXSAMPLES EPSILON COMPENSATE CLEAR_CACHE CACHE_BYTES CACHE_BLOCK None None 0 0 c.

Definition set_values (v : option (list double)) (s : fc) : fc :=
  Sampler (kbest s) (maxsamples s) (epsilon s) (compensate s) (clear_cache s) (cache_bytes s)
    (cache_block s) (cache_buf s) v (samplecount s) (sink s) (ticker s).
Definition set_samplecount (n : Z) (s : fc) : fc :=
  Sampler (kbest s) (maxsamples s) (epsilon s) (compensate s) (clear_cache s) (cache_bytes s)
    (cache_block s) (cache_buf s) (values s) n (sink s) (ticker s).
Definition set_cache_buf (b : option (list Z)) (s : fc) : fc :=
  Sampler (kbest s) (maxsamples s) (epsilon s) (compensate s) (clear_cache s) (cache_bytes s)
    (cache_block s) b (values s) (samplecount s) (sink s) (ticker s).
Definition set_sink (x : Z) (s : fc) : fc :=
  Sampler (kbest s) (maxsamples s) (epsilon s) (compensate s) (clear_cache s) (cache_bytes s)
    (cache_block s) (cache_buf s) (values s) (samplecount s) x (ticker s).
Definition set_ticker (c : clock E) (s : fc) : fc :=
  Sampler (kbest s) (maxsamples s) (epsilon s) (compensate s) (clear_cache s) (cache_bytes s)
    (cache_block s) (cache_buf s) (values s) (samplecount s) (sink s) c.

(** A call into clock.c. *)
Definition on_clock {A} (op : M (clock E) A) : M fc A := λ s,
  match op (ticker s) with
  | Ok (a, c) => Ok (a, set_ticker c s)
  | Err x => Err x
  end.

(** [values[i]], read and written. *)
Definition get_value (i : Z) : M fc double := λ s,
  match values s with
  | Some l => if i <? 0 then Err UB
              else match l !! Z.to_nat i with
                   | Some v => Ok (v, s)
                   | None => Err UB
                   end
  | None => Err UB
  end.
Definition set_value (i : Z) (v : double) : M fc unit := λ s,
  match values s with
  | Some l => if (i <? 0) || (Z.of_nat (length l) <=? i) then Err UB
              else Ok (tt, set_values (Some (<[Z.to_nat i := v]> l)) s)
  | None => Err UB
  end.

(** ** The code *)
Definition init_sampler : M fc unit :=
  k ← gets kbest;
  modify (set_values (if host_malloc (u32 k * sizeof_double)
                      then Some (replicate (Z.to_nat (u32 k)) zero) else None));;
  modify (set_samplecount 0).

(** The loop of the insertion sort. *)
Fixpoint sort_down (pos : nat) : M fc unit :=
  match pos with
  | O => mret tt
  | S pos' =>
      a ← get_value (Z.of_nat pos');
      b ← get_value (Z.of_nat pos);
      if dlt b a then
        temp ← get_value (Z.of_nat pos');
        b ← get_value (Z.of_nat pos);
        set_value (Z.of_nat pos') b;;
        set_value (Z.of_nat pos) temp;;
        sort_down pos'
      else mret tt
  end.

Definition add_sample (val : double) : M fc unit :=
  n ← gets samplecount;
  k ← gets kbest;
  pos ← (if n <? k then
           set_value n val;;
           mret n
         else
           last ← get_value (k - 1);
           if dlt val last then
             set_value (k - 1) val;;
             mret (k - 1)
           else mret 0);
  n1 ← int_result (n + 1);
  modify (set_samplecount n1);;
  sort_down (Z.to_nat pos).

Definition has_converged : M fc bool :=
  n ← gets samplecount;
  k ← gets kbest;
  if k <=? n then
    eps ← gets epsilon;
    v0 ← get_value 0;
    vk ← get_value (k - 1);
    mret (dle vk (dmul (dadd (of_Z 1) eps) v0))
  else mret false.

(** The loop of [clear] over [n] integers: [i] counts integers, [incr] is the
    stride. *)
Fixpoint clear_loop (fuel : nat) (buf : list Z) (n i incr x : Z) : M fc Z :=
  match fuel with
  | O => fail OutOfFuel
  | S fuel' =>
      if i <? n then
        if i <? 0 then fail UB
        else match buf !! Z.to_nat i with
             | Some v =>
                 x ← int_result (x + v);
                 clear_loop fuel' buf n (i + incr) incr x
             | None => fail UB
             end
      else mret x
  end.

Definition clear : M fc unit :=
  x ← gets sink;
  block ← gets cache_block;
  bytes ← gets cache_bytes;
  buf ← gets cache_buf;
  buf ← match buf with
        | Some l => mret l
        | None =>
            if host_malloc (u32 bytes) then
              let l := map junk (seq 0 (Z.to_nat (u32 bytes / sizeof_int))) in
              modify (set_cache_buf (Some l));;
              mret l
            else fail (Exit 1)
        end;
  x ← clear_loop (S (length buf)) buf (u32 bytes / sizeof_int) 0 (u32 block / sizeof_int) x;
  modify (set_sink x).

(** One measurement, with and without compensation; [ticks] bounds the
    readings of the calibration. *)
Definition measure (ticks : nat) : M fc double :=
  comp ← gets compensate;
  cc ← gets clear_cache;
  (if negb (cc =? 0) then clear else mret tt);;
  if negb (comp =? 0) then
    on_clock (start_comp_counter ticks);;
    on_clock (outside_op f);;
    on_clock get_comp_counter
  else
    on_clock start_counter;;
    on_clock (outside_op f);;
    on_clock get_counter.

(** The two [do] loops, which differ in the counter only; the fuel bounds
    the number of rounds. *)
Fixpoint fcyc_loop (fuel ticks : nat) : M fc unit :=
  match fuel with
  | O => fail OutOfFuel
  | S fuel' =>
      cyc ← measure ticks;
      add_sample cyc;;
      done ← has_converged;
      n ← gets samplecount;
      m ← gets maxsamples;
      if negb (done : bool) && (n <? m) then fcyc_loop fuel' ticks else mret tt
  end.

Definition fcyc (ticks : nat) : M fc double :=
  init_sampler;;
  m ← gets maxsamples;
  fcyc_loop (S (Z.to_nat m)) ticks;;
  result ← get_value 0;
  modify (set_values None);;
  mret result.

(** ** The parameters *)
Definition set_fcyc_clear_cache (clear : Z) : M fc unit := modify (λ s,
  Sampler (kbest s) (maxsamples s) (epsilon s) (compensate s) clear (cache_bytes s)
    (cache_block s) (cache_buf s) (values s) (samplecount s) (sink s) (ticker s)).

Definition set_fcyc_cache_size (bytes : Z) : M fc unit := modify (λ s,
  if negb (bytes =? cache_bytes s) then
    Sampler (kbest s) (maxsamples s) (epsilon s) (compensate s) (clear_cache s) bytes
      (cache_block s) None (values s) (samplecount s) (sink s) (ticker s)
  else s).

Definition set_fcyc_cache_block (bytes : Z) : M fc unit := modify (λ s,
  Sampler (kbest s) (maxsamples s) (epsilon s) (compensate s) (clear_cache s) (cache_bytes s)
    bytes (cache_buf s) (values s) (samplecount s) (sink s) (ticker s)).

Definition set_fcyc_compensate (compensate_arg : Z) : M fc unit := modify (λ s,
  Sampler (kbest s) (maxsamples s) (epsilon s) compensate_arg (clear_cache s) (cache_bytes s)
    (cache_block s) (cache_buf s) (values s) (samplecount s) (sink s) (ticker s)).

Definition set_fcyc_k (k : Z) : M fc unit := modify (λ s,
  Sampler k (maxsamples s) (epsilon s) (compensate s) (clear_cache s) (cache_bytes s)
    (cache_block s) (cache_buf s) (values s) (samplecount s) (sink s) (ticker s)).

Definition set_fcyc_maxsamples (maxsamples_arg : Z) : M fc unit := modify (λ s,
  Sampler (kbest s) maxsamples_arg (epsilon s) (compensate s) (clear_cache s) (cache_bytes s)
    (cache_block s) (cache_buf s) (values s) (samplecount s) (sink s) (ticker s)).

Definition set_fcyc_epsilon (epsilon_arg : double) : M fc unit := modify (λ s,
  Sampler (kbest s) (maxsamples s) epsilon_arg (compensate s) (clear_cache s) (cache_bytes s)
    (cache_block s) (cache_buf s) (values s) (samplecount s) (sink s) (ticker s)).

End Fcyc.

(** ** Keeping the smallest samples *)

(** Insertion behind the elements that are not larger. *)
Fixpoint ins (v : double) (l : list double) : list double :=
  match l with
  | [] => [v]
  | x :: l' => if dlt v x then v :: l else x :: ins v l'
  end.

(** The samples in ascending order. *)
Definition sorted_of (vs : list double) : list double := foldl (λ l v, ins v l) [] vs.

Definition no_nan (l : list double) : Prop := Forall (λ v, is_nan v = false) l.

Lemma ins_perm v l : ins v l ≡ₚ v :: l.
Proof.
  induction l as [|x l IH]; [done|]. cbn [ins]. destruct (dlt v x); [done|].
  rewrite IH. apply Permutation_swap.
Qed.

Lemma ins_length v l : length (ins v l) = S (length l).
Proof. by rewrite (Permutation_length (ins_perm v l)). Qed.

Lemma sorted_of_snoc vs v : sorted_of (vs ++ [v]) = ins v (sorted_of vs).
Proof. unfold sorted_of. by rewrite foldl_app. Qed.

Lemma sorted_of_perm vs : sorted_of vs ≡ₚ vs.
Proof.
  induction vs as [|v vs IH] using rev_ind; [done|].
  rewrite sorted_of_snoc, ins_perm, IH. apply Permutation_cons_append.
Qed.

Lemma sorted_of_length vs : length (sorted_of vs) = length vs.
Proof. by rewrite (Permutation_length (sorted_of_perm vs)). Qed.

Abbreviation ascending := (StronglySorted (λ x y, dle x y = true)).

Lemma no_nan_ins v l : is_nan v = false → no_nan l → no_nan (ins v l).
Proof. intros Hv Hl. unfold no_nan. rewrite (ins_perm v l). by constructor. Qed.

Lemma no_nan_sorted vs : no_nan vs → no_nan (sorted_of vs).
Proof. unfold no_nan. by rewrite (sorted_of_perm vs). Qed.

Lemma ascending_ins v l :
  is_nan v = false → no_nan l → ascending l → ascending (ins v l).
Proof.
  intros Hv. induction l as [|x l IH]; intros Hn Hs; cbn [ins].
  { repeat constructor. }
  apply Forall_cons in Hn as [Hx Hn]. inversion Hs as [|? ? Hs' Hall]; subst.
  destruct (dlt v x) eqn:E.
  - rewrite dlt_dle in E by done. apply negb_true_iff in E.
    assert (Hvx : dle v x = true) by (destruct (dle_total v x); congruence).
    constructor; [done|]. constructor; [done|].
    rewrite Forall_forall in *. intros y Hy. by eapply (dle_trans v x y); eauto.
  - rewrite dlt_dle in E by done. apply negb_false_iff in E.
    constructor; [by apply IH|]. rewrite (ins_perm v l). by constructor.
Qed.

Lemma ascending_sorted vs : no_nan vs → ascending (sorted_of vs).
Proof.
  induction vs as [|v vs IH] using rev_ind; intros Hn; [constructor|].
  apply Forall_app in Hn as [Hn [Hv _]%Forall_cons]. rewrite sorted_of_snoc.
  apply ascending_ins; [done|by apply no_nan_sorted|by apply IH].
Qed.

(** What the insertion sort does at the last element. *)
Lemma ins_snoc_lt v l x : dlt v x = true → ins v (l ++ [x]) = ins v l ++ [x].
Proof.
  intros Hv. induction l as [|y l IH]; cbn [ins app]; [by rewrite Hv|].
  destruct (dlt v y); [done|]. by rewrite IH.
Qed.

Lemma ins_end v l x :
  is_nan v = false → no_nan (l ++ [x]) → ascending (l ++ [x]) → dlt v x = false →
  ins v (l ++ [x]) = l ++ [x; v].
Proof.
  intros Hv Hn Hs Hx. induction l as [|y l IH]; cbn [ins app] in *; [by rewrite Hx|].
  apply Forall_cons in Hn as [Hy Hn]. inversion Hs as [|? ? Hs' Hall]; subst.
  apply Forall_app in Hall as [_ [Hyx _]%Forall_cons].
  pose proof Hn as [_ [Hxn _]%Forall_cons]%Forall_app.
  assert (E : dlt v y = false).
  { rewrite dlt_dle in * by done. apply negb_false_iff in Hx. apply negb_false_iff.
    by apply (dle_trans y x v). }
  rewrite E. f_equal. by apply IH.
Qed.

(** Inserting into the smallest elements only. *)
Lemma take_ins_small v l j x :
  l !! j = Some x → dlt v x = true → ins v (take j l) = take (S j) (ins v l).
Proof.
  revert j. induction l as [|y l IH]; intros j Hj Hv; [done|].
  destruct j as [|j]; cbn in Hj.
  - injection Hj as ->. cbn [ins take]. rewrite Hv. done.
  - cbn [take ins]. destruct (dlt v y); [done|]. cbn [take]. f_equal. by apply IH.
Qed.

Lemma take_ins_large v l j x :
  is_nan v = false → no_nan l → ascending l →
  l !! j = Some x → dlt v x = false → take (S j) (ins v l) = take (S j) l.
Proof.
  intros Hv. revert j. induction l as [|y l IH]; intros j Hn Hs Hj Hx; [done|].
  apply Forall_cons in Hn as [Hy Hn]. inversion Hs as [|? ? Hs' Hall]; subst.
  assert (E : dlt v y = false).
  { destruct j as [|j]; cbn in Hj; [congruence|].
    apply list_elem_of_lookup_2 in Hj. unfold no_nan in *. rewrite Forall_forall in Hall, Hn.
    specialize (Hall _ Hj). specialize (Hn _ Hj). cbv beta in Hn.
    rewrite dlt_dle in * by done. apply negb_false_iff in Hx. apply negb_false_iff.
    by apply (dle_trans y x v). }
  cbn [ins]. rewrite E. destruct j as [|j]; [done|]. cbn [take]. f_equal. by apply IH.
Qed.

(** ** Execution *)
Section Exec.
Context {E : Type} {MA : Machine E} (host_malloc : Z → bool) (junk : nat → Z) (f : M E unit).
Implicit Types (s : sampler E) (vs l : list double).

Lemma wp_get_value s l i v (Q : double → sampler E → Prop) :
  values s = Some l → l !! i = Some v → Q v s → wp (get_value (Z.of_nat i)) s Q.
Proof.
  intros Hl Hi HQ. unfold wp, get_value. rewrite Hl.
  destruct (Z.ltb_spec (Z.of_nat i) 0); [lia|]. by rewrite Nat2Z.id, Hi.
Qed.

Lemma wp_set_value s l i v (Q : unit → sampler E → Prop) :
  values s = Some l → (i < length l)%nat →
  Q tt (set_values (Some (<[i := v]> l)) s) → wp (set_value (Z.of_nat i) v) s Q.
Proof.
  intros Hl Hi HQ. unfold wp, set_value. rewrite Hl.
  destruct (Z.ltb_spec (Z.of_nat i) 0), (Z.leb_spec (Z.of_nat (length l)) (Z.of_nat i)); [lia..|].
  cbn [orb]. by rewrite Nat2Z.id.
Qed.

(** The insertion sort moves the element behind an ascending segment to its
    place. *)
Lemma wp_sort_down v l2 l1 : ∀ s (Q : unit → sampler E → Prop),
  is_nan v = false → no_nan l1 → ascending l1 →
  values s = Some (l1 ++ v :: l2) →
  Q tt (set_values (Some (ins v l1 ++ l2)) s) →
  wp (sort_down (length l1)) s Q.
Proof.
  revert l2. induction l1 as [|x l1 IH] using rev_ind; intros l2 s Q Hv Hn Hs Hl HQ.
  { apply wp_ret. cbn in *. by destruct s; cbn in *; subst. }
  rewrite length_app, Nat.add_1_r. cbn [sort_down]. rewrite <- app_assoc in Hl. cbn [app] in Hl.
  assert (H1 : (l1 ++ x :: v :: l2) !! length l1 = Some x) by by apply list_lookup_middle.
  assert (H2 : (l1 ++ x :: v :: l2) !! S (length l1) = Some v).
  { rewrite lookup_app_r by lia. by replace (S (length l1) - length l1)%nat with 1%nat by lia. }
  wp_bind. apply (wp_get_value _ _ _ _ _ Hl H1). wp_bind. apply (wp_get_value _ _ _ _ _ Hl H2).
  destruct (dlt v x) eqn:Hc.
  - wp_bind. apply (wp_get_value _ _ _ _ _ Hl H1). wp_bind. apply (wp_get_value _ _ _ _ _ Hl H2).
    wp_bind. apply (wp_set_value _ _ _ _ _ Hl); [rewrite length_app; cbn; lia|].
    rewrite insert_app_r_alt by lia. rewrite Nat.sub_diag. cbn [insert list_insert].
    wp_bind. eapply (wp_set_value _ _ (S (length l1))); [done|rewrite length_app; cbn; lia|].
    rewrite insert_app_r_alt by lia. replace (S (length l1) - length l1)%nat with 1%nat by lia.
    cbn [insert list_insert].
    apply Forall_app in Hn as [Hn _].
    apply (IH (x :: l2)); [done|done| |done|].
    + clear -Hs. induction l1 as [|y l1 IH]; [constructor|]. inversion Hs as [|? ? Hs' Hall]; subst.
      constructor; [by apply IH|]. by apply Forall_app in Hall as [? _].
    + rewrite ins_snoc_lt, <- app_assoc in HQ by done. exact HQ.
  - apply wp_ret. rewrite ins_end, <- app_assoc in HQ by done. cbn [app] in HQ.
    destruct s; cbn in *. by subst.
Qed.
(** The cells hold the smallest samples so far, in ascending order. *)
Record kb_inv (vs : list double) (s : sampler E) : Prop := {
  kb_k : 0 < kbest s < 2147483648;
  kb_count : samplecount s = Z.of_nat (length vs);
  kb_nan : no_nan vs;
  kb_values : ∃ l, values s = Some l ∧ length l = Z.to_nat (kbest s) ∧
                   take (length vs) l = take (Z.to_nat (kbest s)) (sorted_of vs)
}.

(** The effect of [add_sample] on the state. *)
Definition sampled (n : nat) (l : list double) (s : sampler E) : sampler E :=
  set_samplecount (Z.of_nat n) (set_values (Some l) s).

Lemma kb_sampled vs s l :
  0 < kbest s < 2147483648 → no_nan vs → length l = Z.to_nat (kbest s) →
  take (length vs) l = take (Z.to_nat (kbest s)) (sorted_of vs) →
  kb_inv vs (sampled (length vs) l s).
Proof. intros. split; [done|done|done|by exists l]. Qed.

Lemma ascending_take j l : ascending l → ascending (take j l).
Proof.
  intros Hs. revert j. induction Hs as [|x l Hs IH Hall]; intros [|j]; try constructor.
  - apply IH.
  - by apply Forall_take.
Qed.

(** The new sample in the last free cell, or in the place of the largest. *)
Lemma wp_sort_last v l j (s : sampler E) (Q : unit → sampler E → Prop) :
  is_nan v = false → no_nan (take j l) → ascending (take j l) → (j < length l)%nat →
  values s = Some (<[j := v]> l) →
  Q tt (set_values (Some (ins v (take j l) ++ drop (S j) l)) s) →
  wp (sort_down j) s Q.
Proof.
  intros Hv Hn Hs Hj Hl HQ.
  assert (Elen : length (take j l) = j) by (rewrite length_take; lia).
  rewrite <- Elen at 1. eapply wp_sort_down; [exact Hv|done|done| |exact HQ].
  rewrite Hl. f_equal. by rewrite insert_take_drop.
Qed.

Lemma wp_add_sample s vs v (Q : unit → sampler E → Prop) :
  kb_inv vs s → is_nan v = false → Z.of_nat (length vs) + 1 < 2147483648 →
  (∀ l, kb_inv (vs ++ [v]) (sampled (S (length vs)) l s) → Q tt (sampled (S (length vs)) l s)) →
  wp (add_sample v) s Q.
Proof.
  intros [Hk Hc Hn (l & Hl & Hlen & Htake)] Hv Hmax HQ.
  assert (Hnv : no_nan (vs ++ [v])) by (apply Forall_app; by repeat constructor).
  pose proof (no_nan_sorted _ Hn) as Hns. pose proof (ascending_sorted _ Hn) as Has.
  set (k := Z.to_nat (kbest s)) in *. set (n := length vs) in *.
  assert (Hgo : ∀ l', length l' = k → take (S n) l' = take k (ins v (sorted_of vs)) →
            Q tt (sampled (S n) l' s)).
  { intros l' H1 H2. apply HQ. subst n. replace (S (length vs)) with (length (vs ++ [v])) in *
      by (rewrite length_app; cbn; lia).
    apply kb_sampled; [done|done|done|]. by rewrite sorted_of_snoc. }
  assert (Hint : int_range (Z.of_nat n + 1) = true) by (unfold int_range; lia).
  unfold add_sample. wp_bind. apply wp_gets. wp_bind. apply wp_gets. rewrite Hc.
  destruct (Z.ltb_spec (Z.of_nat n) (kbest s)) as [Hnk|Hnk].
  - wp_bind. apply wp_bind, (wp_set_value _ _ _ _ _ Hl); [lia|]. apply wp_ret.
    unfold int_result. rewrite Hint. wp_bind. apply wp_ret. wp_bind. apply wp_modify.
    rewrite Nat2Z.id.
    assert (Et : take n l = sorted_of vs).
    { rewrite Htake. apply take_ge. rewrite sorted_of_length. lia. }
    eapply (wp_sort_last v l n); [done|by rewrite Et|by rewrite Et|lia|done|]. rewrite Et.
    replace (Z.of_nat n + 1) with (Z.of_nat (S n)) by lia. apply (Hgo _).
    + rewrite length_app, length_drop, ins_length, sorted_of_length. fold n. lia.
    + rewrite take_app_length' by (rewrite ins_length, sorted_of_length; done).
      symmetry. apply take_ge. rewrite ins_length, sorted_of_length. fold n. lia.
  - assert (El : l = take k (sorted_of vs)) by (rewrite <- Htake, take_ge by lia; done).
    destruct (lookup_lt_is_Some_2 (sorted_of vs) (k - 1)) as [x Hx].
    { rewrite sorted_of_length. fold n. lia. }
    replace (kbest s - 1) with (Z.of_nat (k - 1)) by lia.
    assert (Hlx : l !! (k - 1)%nat = Some x).
    { rewrite El, lookup_take_lt by lia. done. }
    replace k with (S (k - 1)) in Hgo by lia.
    wp_bind. wp_bind. apply (wp_get_value _ _ _ _ _ Hl Hlx). destruct (dlt v x) eqn:Ev.
    + wp_bind. apply (wp_set_value _ _ _ _ _ Hl); [lia|]. apply wp_ret.
      unfold int_result. rewrite Hint. wp_bind. apply wp_ret. wp_bind. apply wp_modify.
      rewrite Nat2Z.id.
      assert (Et : take (k - 1) l = take (k - 1) (sorted_of vs)).
      { rewrite El, take_take. f_equal. lia. }
      eapply (wp_sort_last v l (k - 1)); [done|rewrite Et; by apply Forall_take| |lia|done|].
      { rewrite Et. by apply ascending_take. }
      rewrite Et, (take_ins_small v _ _ x Hx Ev), drop_ge, app_nil_r by lia.
      replace (Z.of_nat n + 1) with (Z.of_nat (S n)) by lia. apply (Hgo _).
      * rewrite length_take, ins_length, sorted_of_length. fold n. lia.
      * rewrite take_take. f_equal. lia.
    + apply wp_ret. unfold int_result. rewrite Hint. wp_bind. apply wp_ret.
      wp_bind. apply wp_modify. change (Z.to_nat 0) with O. apply wp_ret.
      replace (Z.of_nat n + 1) with (Z.of_nat (S n)) by lia.
      replace (set_samplecount (Z.of_nat (S n)) s) with (sampled (S n) l s)
        by (unfold sampled; destruct s; cbn in *; by subst).
      apply Hgo; [lia|].
      rewrite (take_ins_large v _ _ x Hv Hns Has Hx Ev), take_ge by lia. rewrite El.
      f_equal. lia.
Qed.
(** The [kbest] smallest samples are within epsilon of each other. *)
Definition converged (k : Z) (eps : double) (vs : list double) : bool :=
  (k <=? Z.of_nat (length vs)) &&
  match sorted_of vs !! 0%nat, sorted_of vs !! Z.to_nat (k - 1) with
  | Some v0, Some vk => dle vk (dmul (dadd (of_Z 1) eps) v0)
  | _, _ => false
  end.

(** A cell that is in use. *)
Lemma kb_cell vs s l i :
  kb_inv vs s → values s = Some l → (i < length vs)%nat → (i < Z.to_nat (kbest s))%nat →
  l !! i = sorted_of vs !! i.
Proof.
  intros [_ _ _ (l' & Hl & _ & Ht)] Hl' Hi Hk.
  rewrite Hl in Hl'. injection Hl' as ->. rewrite <- (lookup_take_lt l (length vs)) by done.
  by rewrite Ht, lookup_take_lt by done.
Qed.

Lemma wp_has_converged s vs (Q : bool → sampler E → Prop) :
  kb_inv vs s → Q (converged (kbest s) (epsilon s) vs) s → wp has_converged s Q.
Proof.
  intros Hkb HQ. pose proof Hkb as [Hk Hc Hn (l & Hl & Hlen & Ht)]. unfold converged in HQ.
  unfold has_converged. wp_pure. rewrite Hc.
  destruct (Z.leb_spec (kbest s) (Z.of_nat (length vs))) as [Hle|]; [|by apply wp_ret].
  cbn [andb] in HQ. wp_pure.
  destruct (lookup_lt_is_Some_2 (sorted_of vs) 0) as [v0 H0]; [rewrite sorted_of_length; lia|].
  destruct (lookup_lt_is_Some_2 (sorted_of vs) (Z.to_nat (kbest s - 1))) as [vk H1];
    [rewrite sorted_of_length; lia|].
  rewrite H0, H1 in HQ.
  apply (wp_get_value _ _ 0 v0 _ Hl); [by rewrite (kb_cell vs s l) by (done || lia)|].
  rewrite <- (Z2Nat.id (kbest s - 1)) by lia.
  wp_bind. apply (wp_get_value _ _ _ vk _ Hl); [by rewrite (kb_cell vs s l) by (done || lia)|].
  by apply wp_ret.
Qed.

(** The smallest sample. *)
Lemma sorted_head vs :
  no_nan vs → vs ≠ [] → ∃ r, sorted_of vs !! 0%nat = Some r ∧ r ∈ vs ∧ Forall (λ v, dle r v = true) vs.
Proof.
  intros Hn Hne. pose proof (ascending_sorted _ Hn) as Has. pose proof (sorted_of_perm vs) as Hp.
  pose proof (no_nan_sorted _ Hn) as Hns.
  destruct (sorted_of vs) as [|r l].
  - apply Permutation_nil in Hp. done.
  - exists r. apply Forall_cons in Hns as [Hr _]. inversion Has as [|? ? _ Hall]; subst.
    split_and!; [done| |].
    + rewrite <- Hp. by left.
    + rewrite <- Hp. constructor; [by apply dle_refl|done].
Qed.
End Exec.
