(* ===== verification/FcycSpec.v ===== *)
(** * What [fcyc] returns (src/fcyc.c)

    The loop of [fcyc] for any way of measuring that gives numbers, and the
    two ways there are: with the plain counter on any machine that can be
    read, and with the compensated one on a steady machine; in both the cache
    may be cleared before each measurement. *)

From Stdlib Require Import ZArith Lia SpecFloat Sorting.Sorted.
From stdpp Require Import base numbers list.
From S2P Require Import Prelude Doubles ExactDoubles Clock Calibrate Fcyc.

Section Loop.
Context {E : Type} {MA : Machine E} (host_malloc : Z → bool) (junk : nat → Z) (f : M E unit).
Context (ticks : nat).
Implicit Types (s : sampler E) (vs : list double).

(** Other samples in the cells. *)
Definition with_cells (v : option (list double)) (n : Z) s : sampler E :=
  set_samplecount n (set_values v s).

(** The readings of successive measurements; what is in the cells when a
    measurement starts does not matter. *)
Inductive readings s : list double → sampler E → Prop :=
  | readings_nil : readings s [] s
  | readings_snoc vs s1 l n v s2 :
      readings s vs s1 →
      measure host_malloc junk f ticks (with_cells l n s1) = Ok (v, s2) →
      readings s (vs ++ [v]) s2.

(** A measurement leaves the parameters and the cells alone. *)
Record keeps s s' : Prop := {
  kp_kbest : kbest s' = kbest s;
  kp_maxsamples : maxsamples s' = maxsamples s;
  kp_epsilon : epsilon s' = epsilon s;
  kp_values : values s' = values s;
  kp_count : samplecount s' = samplecount s
}.

(** [I k s]: [k] more measurements can be made in [s], and give numbers of
    which [G] holds. *)
Context (I : nat → sampler E → Prop) (G : double → Prop).
Hypothesis I_cells : ∀ k s l n, I k s → I k (with_cells l n s).
Hypothesis I_measure : ∀ k s, I (S k) s →
  wp (measure host_malloc junk f ticks) s (λ v s', is_nan v = false ∧ G v ∧ keeps s s' ∧ I k s').

(** How many measurements there are at most. *)
Definition most (m : Z) : Z := Z.max 1 m.

(** The state after some rounds from [s0]. *)
Record rounds (s0 : sampler E) vs s : Prop := {
  rd_kb : kb_inv vs s;
  rd_all : Forall G vs;
  rd_readings : ∃ s1 l n, readings s0 vs s1 ∧ s = with_cells l n s1;
  rd_more : I (Z.to_nat (most (maxsamples s0)) - length vs) s;
  rd_params : kbest s = kbest s0 ∧ epsilon s = epsilon s0 ∧ maxsamples s = maxsamples s0
}.

Lemma wp_fcyc_loop s0 : maxsamples s0 < 2147483647 → ∀ fuel s vs,
  rounds s0 vs s → (Z.to_nat (maxsamples s0) < fuel + length vs)%nat → (0 < fuel)%nat →
  Z.of_nat (length vs) < most (maxsamples s0) →
  wp (fcyc_loop host_malloc junk f fuel ticks) s (λ _ s', ∃ vs', rounds s0 vs' s' ∧
    (1 ≤ length vs')%nat ∧ Z.of_nat (length vs') ≤ most (maxsamples s0) ∧
    (converged (kbest s0) (epsilon s0) vs' = true ∨
     Z.of_nat (length vs') = most (maxsamples s0))).
Proof.
  unfold most. intros Hmax. induction fuel as [|fuel IH]; intros s vs Hr Hfuel Hpos Hlt; [lia|].
  destruct Hr as [Hkb Hall (s1 & l1 & n1 & Hrd & Es) Hmore (Hk & Heps & Hm)]. cbn [fcyc_loop].
  unfold most in Hmore. set (k := (Z.to_nat (Z.max 1 (maxsamples s0)) - S (length vs))%nat).
  replace (Z.to_nat (Z.max 1 (maxsamples s0)) - length vs)%nat with (S k) in Hmore by lia.
  wp_bind. apply wp_run. apply I_measure, wp_run in Hmore as (v & s2 & Ev & Hv & HG & Hkp & HI).
  exists v, s2. split; [done|]. destruct Hkp as [Ek Em Ee Evs Ec].
  wp_bind. apply (wp_add_sample _ vs); [|done|lia|].
  { destruct Hkb as [Hk0 Hc0 Hn0 (l0 & Hl0 & Hlen0 & Ht0)]. split; rewrite ?Ek, ?Ec; try done.
    exists l0. by rewrite Evs. }
  intros l Hkb'. assert (Elen : length (vs ++ [v]) = S (length vs)) by (rewrite length_app; cbn; lia).
  assert (Hr' : rounds s0 (vs ++ [v]) (sampled (S (length vs)) l s2)).
  { split; [done| | | |cbn; split_and!; congruence].
    - apply Forall_app. by split; [|constructor].
    - exists s2, (Some l), (Z.of_nat (S (length vs))). split; [|done].
      apply (readings_snoc _ _ s1 l1 n1); [done|]. by rewrite <- Es.
    - rewrite Elen. by apply I_cells. }
  wp_bind. apply (wp_has_converged _ (vs ++ [v])); [done|]. wp_pure.
  change (kbest (sampled _ _ _)) with (kbest s2). change (epsilon (sampled _ _ _)) with (epsilon s2).
  change (maxsamples (sampled _ _ _)) with (maxsamples s2).
  change (samplecount (sampled _ _ _)) with (Z.of_nat (S (length vs))).
  rewrite Ek, Hk, Ee, Heps, Em, Hm.
  destruct (converged _ _ _) eqn:Ecv; cbn [negb andb].
  - apply wp_ret. exists (vs ++ [v]). rewrite Elen. split_and!; [done|lia|lia|by left].
  - destruct (Z.ltb_spec (Z.of_nat (S (length vs))) (maxsamples s0)).
    + apply (IH _ (vs ++ [v])); [done|lia|lia|lia].
    + apply wp_ret. exists (vs ++ [v]). rewrite Elen. split_and!; [done|lia|lia|right; lia].
Qed.

(** The smallest reading, and why no more were taken. *)
Definition best s vs (r : double) : Prop :=
  r ∈ vs ∧ Forall (λ v, dle r v = true) vs ∧
  (1 ≤ length vs)%nat ∧ Z.of_nat (length vs) ≤ most (maxsamples s) ∧
  (converged (kbest s) (epsilon s) vs = true ∨ Z.of_nat (length vs) = most (maxsamples s)).

Lemma wp_fcyc s :
  (∀ n, host_malloc n = true) → 0 < kbest s < 2147483648 → maxsamples s < 2147483647 →
  I (Z.to_nat (most (maxsamples s))) s →
  wp (fcyc host_malloc junk f ticks) s (λ r s', ∃ vs s1,
    readings s vs s1 ∧ best s vs r ∧ s' = with_cells None (Z.of_nat (length vs)) s1 ∧ Forall G vs).
Proof.
  intros Hm Hk Hmax HI. unfold fcyc, init_sampler. wp_pure. rewrite Hm.
  cbn [kbest maxsamples set_values set_samplecount]. rewrite (u32_small (kbest s)) by (unfold W32; lia).
  set (s1 := set_samplecount 0 _).
  assert (Hr : rounds s [] s1).
  { split; [|constructor| |rewrite Nat.sub_0_r; by apply I_cells|done].
    - split; [done|done|constructor|].
      eexists. split; [done|]. split; [by rewrite length_replicate|]. cbn. by rewrite take_nil.
    - exists s, (values s1), 0. split; [constructor|done]. }
  eapply wp_mono; [apply (wp_fcyc_loop s Hmax _ s1 [] Hr); unfold most; cbn; lia|].
  cbv beta. intros _ s2 (vs & [Hkb Hall (s3 & l3 & n3 & Hrd & Es) _ _] & H1 & Hle & Hstop).
  pose proof Hkb as [Hks Hc Hn (l & Hl & Hlen & _)].
  destruct (sorted_head vs Hn) as (r & Hr0 & Hin & Hle0); [intros ->; cbn in H1; lia|].
  wp_bind. apply (wp_get_value _ _ 0 r _ Hl); [rewrite (kb_cell vs s2 l 0 Hkb Hl) by lia; done|].
  wp_pure. exists vs, s3. split; [done|]. split; [by split_and!|].
  split; [|done]. rewrite <- Hc, Es. done.
Qed.
End Loop.

(** ** Clearing the cache *)
Section Clear.
Context {E : Type} {MA : Machine E} (host_malloc : Z → bool) (junk : nat → Z).
Hypothesis Hm : ∀ n, host_malloc n = true.
Implicit Types (s : sampler E) (buf : list Z).

Definition weight buf : Z := foldr (λ x a, Z.abs x + a) 0 buf.

Lemma weight_nonneg buf : 0 ≤ weight buf.
Proof. induction buf as [|x buf IH]; cbn; unfold weight in *; lia. Qed.

Lemma weight_drop buf i k : weight (drop (i + k) buf) ≤ weight (drop i buf).
Proof.
  revert i. induction k as [|k IH]; intros i; [by rewrite Nat.add_0_r|].
  rewrite Nat.add_succ_r, <- Nat.add_succ_l. etransitivity; [apply IH|].
  destruct (decide (i < length buf)%nat) as [Hi|Hi].
  - destruct (lookup_lt_is_Some_2 buf i Hi) as [x Hx]. rewrite (drop_S _ x i Hx).
    unfold weight. cbn. lia.
  - by rewrite !drop_ge by lia.
Qed.

(** The sum of some of the integers does not overflow. *)
Lemma wp_clear_loop buf incr s : 0 < incr → ∀ fuel i x,
  0 ≤ i → (length buf < fuel + Z.to_nat i)%nat → (0 < fuel)%nat →
  Z.abs x + weight (drop (Z.to_nat i) buf) < 2147483648 →
  wp (clear_loop fuel buf (Z.of_nat (length buf)) i incr x) s
    (λ x' s', s' = s ∧ Z.abs x' ≤ Z.abs x + weight (drop (Z.to_nat i) buf)).
Proof.
  intros Hincr. induction fuel as [|fuel IH]; intros i x Hi Hf Hpos Hw; [lia|]. cbn [clear_loop].
  destruct (Z.ltb_spec i (Z.of_nat (length buf))) as [Hlt|].
  - destruct (Z.ltb_spec i 0); [lia|].
    destruct (lookup_lt_is_Some_2 buf (Z.to_nat i)) as [v Hv]; [lia|]. rewrite Hv.
    rewrite (drop_S _ v _ Hv) in Hw |- *. cbn [weight foldr] in Hw |- *.
    change (foldr _ 0 ?l) with (weight l) in *.
    pose proof (weight_nonneg (drop (S (Z.to_nat i)) buf)).
    pose proof (weight_drop buf (S (Z.to_nat i)) (Z.to_nat (incr - 1))) as Hd.
    replace (S (Z.to_nat i) + Z.to_nat (incr - 1))%nat with (Z.to_nat (i + incr)) in Hd by lia.
    unfold int_result, int_range.
    destruct (Z.leb_spec (-2147483648) (x + v)); [|lia].
    destruct (Z.ltb_spec (x + v) 2147483648); [|lia]. cbn [andb]. wp_pure.
    eapply wp_mono; [apply (IH (i + incr) (x + v)); lia|]. cbv beta. intros x' s' [-> Hx].
    split; [done|lia].
  - apply wp_ret. pose proof (weight_nonneg (drop (Z.to_nat i) buf)). split; [done|lia].
Qed.

(** The buffer [clear] sums up: the one there is, or a new one. *)
Definition buffer s : list Z :=
  match cache_buf s with
  | Some l => l
  | None => map junk (seq 0 (Z.to_nat (u32 (cache_bytes s) / sizeof_int)))
  end.

(** The cache can be cleared [k] times. *)
Record clearable (k : nat) s : Prop := {
  ca_stride : 4 ≤ u32 (cache_block s);
  ca_length : Z.of_nat (length (buffer s)) = u32 (cache_bytes s) / sizeof_int;
  ca_sink : Z.abs (sink s) + Z.of_nat k * weight (buffer s) < 2147483648
}.

Definition cache_ok (k : nat) s : Prop := clear_cache s = 0 ∨ clearable k s.

(** What [clear] leaves alone, apart from what every measurement does. *)
Record cleared s s' : Prop := {
  cd_keeps : keeps s s';
  cd_ticker : ticker s' = ticker s;
  cd_compensate : compensate s' = compensate s;
  cd_clear : clear_cache s' = clear_cache s
}.

Lemma wp_clear k s :
  clearable (S k) s → wp (clear host_malloc junk) s (λ _ s', cleared s s' ∧ clearable k s').
Proof.
  intros [Hst Hl Hw]. unfold clear. wp_pure.
  set (buf := buffer s) in *.
  apply (wp_mono _ _ (λ b s', b = buf ∧ s' = set_cache_buf (Some buf) s)).
  { unfold buffer in buf. subst buf. destruct (cache_buf s) as [l|] eqn:Ec.
    - apply wp_ret. split; [done|]. destruct s; cbn in *; by subst.
    - rewrite Hm. wp_pure. done. }
  cbv beta. intros ? ? [-> ->]. rewrite <- Hl.
  assert (Hincr : 1 ≤ u32 (cache_block s) / sizeof_int) by (apply Z.div_le_lower_bound; unfold sizeof_int; lia).
  pose proof (weight_nonneg buf).
  wp_bind. eapply wp_mono; [apply wp_clear_loop; [lia|lia|cbn; lia|lia|]|].
  { change (drop (Z.to_nat 0) buf) with buf. lia. }
  change (drop (Z.to_nat 0) buf) with buf. cbv beta. intros x s' [-> Hx]. wp_pure.
  split; [by repeat split|]. split; [done|exact Hl|].
  change (buffer (set_sink x (set_cache_buf (Some buf) s))) with buf.
  change (sink (set_sink x (set_cache_buf (Some buf) s))) with x. lia.
Qed.

(** The first lines of a round. *)
Lemma wp_clear_if k s :
  cache_ok (S k) s →
  wp (if negb (clear_cache s =? 0) then clear host_malloc junk else mret tt) s
    (λ _ s', cleared s s' ∧ cache_ok k s').
Proof.
  intros Hc. destruct (Z.eqb_spec (clear_cache s) 0) as [|]; cbn [negb].
  - apply wp_ret. split; [by repeat split|by left].
  - destruct Hc as [?|Hc]; [done|]. eapply wp_mono; [by apply wp_clear|]. cbv beta.
    intros _ s' [? ?]. split; [done|by right].
Qed.

Lemma cache_ok_cells k s l n : cache_ok k s → cache_ok k (with_cells l n s).
Proof. intros [?|[]]; [by left|right; by split]. Qed.

Lemma cache_ok_ticker k s c : cache_ok k s → cache_ok k (set_ticker c s).
Proof. intros [?|[]]; [by left|right; by split]. Qed.
End Clear.

(** ** The two ways of measuring *)
Section Measure.
Context {E : Type} {MA : Machine E} (host_malloc : Z → bool) (junk : nat → Z) (f : M E unit).
Context (ticks : nat).
Hypothesis Hm : ∀ n, host_malloc n = true.
Implicit Types (s : sampler E).

Lemma wp_on_clock {A} (op : M (clock E) A) s (Q : A → sampler E → Prop) :
  wp op (ticker s) (λ a c, Q a (set_ticker c s)) → wp (on_clock op) s Q.
Proof. unfold wp, on_clock. by destruct (op (ticker s)) as [[a c]|]. Qed.

Lemma cleared_ticker s s' c : cleared s s' → keeps s (set_ticker c s').
Proof. by intros [[] _ _ _]. Qed.

(** The plain counter, on any machine. *)
Definition total {A} (c : M E A) : Prop := ∀ e, ∃ a e', c e = Ok (a, e').

Definition plain (k : nat) s : Prop := compensate s = 0 ∧ cache_ok junk k s.

Lemma wp_plain_counter (c : clock E) :
  total rdtsc → total f →
  wp (start_counter;; outside_op f;; get_counter) c (λ v _, is_nan v = false).
Proof.
  intros Htsc Hf. destruct (Htsc (machine c)) as ([hi lo] & e1 & H1).
  destruct (Hf e1) as ([] & e2 & H2). destruct (Htsc e2) as ([hi' lo'] & e3 & H3).
  set (c1 := set_machine e1 (set_cyc (u32 hi) (u32 lo) c)).
  pose proof (run_get_counter (set_machine e2 c1) hi' lo' e3 H3) as Hg.
  wp_bind. unfold wp at 1. rewrite (run_start_counter c hi lo e1 H1). fold c1.
  wp_bind. unfold wp at 1, outside_op. change (machine c1) with e1. rewrite H2.
  unfold wp. rewrite Hg. apply cycles_not_nan; apply Z.mod_pos_bound; unfold W32; lia.
Qed.

Lemma wp_measure_plain k s :
  total rdtsc → total f → plain (S k) s →
  wp (measure host_malloc junk f ticks) s (λ v s', is_nan v = false ∧ True ∧ keeps s s' ∧ plain k s').
Proof.
  intros Htsc Hf [Hcomp Hc]. unfold measure. wp_pure.
  eapply wp_mono; [by apply wp_clear_if|]. cbv beta. intros _ s1 [Hcl Hc1].
  rewrite Hcomp. cbn [Z.eqb negb]. pose proof (wp_plain_counter (ticker s1) Htsc Hf) as H.
  apply wp_unbind in H. wp_bind. apply wp_on_clock. eapply wp_mono; [exact H|]. cbv beta.
  intros _ c2 H2. apply wp_unbind in H2. wp_bind. apply wp_on_clock. eapply wp_mono; [exact H2|]. cbv beta.
  intros _ c3 H3. apply wp_on_clock. eapply wp_mono; [exact H3|]. cbv beta.
  intros v c4 Hv. split; [done|]. split; [done|]. split; [by apply (cleared_ticker s s1)|]. split.
  - cbn. by rewrite (cd_compensate _ _ Hcl).
  - by apply (cache_ok_ticker junk k s1).
Qed.

(** The compensated counter, on a steady machine; the function takes at most
    [work] cycles. *)
Context {now : E → Z} {user : Z → Z} {period gap limit : Z} (work : Z).
Context (Hst : steady now user period gap limit).

Definition bounded_work : Prop :=
  ∀ e, 0 ≤ now e → now e + work < limit →
  ∃ e', f e = Ok (tt, e') ∧ now e ≤ now e' ≤ now e + work.

(** The cycles of one measurement, at most. *)
Definition round_budget : Z := comp_budget (period := period) (gap := gap) + work + 2 * gap.

(** [old] is the ratio there was at first. *)
Context (old : double).

Definition compensated (k : nat) s : Prop :=
  compensate s ≠ 0 ∧ cache_ok junk k s ∧ below 56 (cyc_per_tick (ticker s)) ∧
  settled (user := user) (gap := gap) old (cyc_per_tick (ticker s)) ∧
  0 ≤ now (machine (ticker s)) ∧
  now (machine (ticker s)) + Z.of_nat k * round_budget < limit.

(** What one reading is: the cycles from the reading [m] of the counter,
    just before the function is called in [e1], to its return in [e2], less
    the ticks between [n] and [n'], just before and just after, times the
    calibrated ratio. *)
Definition compensated_reading (v : double) : Prop :=
  ∃ e1 e2 m n n' cpt, f e1 = Ok (tt, e2) ∧
    0 ≤ n ∧ n ≤ m ≤ n + gap ∧ m ≤ now e1 ≤ m + gap ∧ now e2 ≤ n' ≤ now e2 + 2 * gap ∧
    calibrated_by (user := user) (gap := gap) old cpt ∧
    v = dsub (of_Z (now e2 - m)) (dmul (of_Z (user n' - user n)) cpt).

Lemma wp_measure_compensated k s :
  bounded_work → 0 ≤ work → round_budget < P53 → enough (period := period) (gap := gap) ticks →
  compensated (S k) s →
  wp (measure host_malloc junk f ticks) s
    (λ v s', is_nan v = false ∧ compensated_reading v ∧ keeps s s' ∧ compensated k s').
Proof.
  intros Hf Hwork H53 Hticks (Hcomp & Hc & Hb & Hset & H0 & Hlim).
  destruct (sd_sizes _ _ _ _ _ Hst) as (Hp & Hg & _).
  assert (Hcal : 0 < calibration (period := period) (gap := gap))
    by (unfold calibration, NEVENT, lap, THRESHOLD; lia).
  unfold round_budget, comp_budget in *.
  set (n0 := now (machine (ticker s))) in *. set (cal := calibration) in *.
  assert (Hone : n0 + (cal + 2 * gap + work + 2 * gap) < limit) by nia.
  unfold measure. wp_pure.
  eapply wp_mono; [by apply wp_clear_if|]. cbv beta. intros _ s1 [Hcl Hc1].
  destruct (Z.eqb_spec (compensate s) 0) as [|_]; [done|]. cbn [negb].
  wp_bind. apply wp_on_clock. rewrite (cd_ticker _ _ Hcl).
  eapply wp_mono; [apply (wp_start_comp_counter Hst)|]; fold n0; unfold comp_budget; fold cal;
    [done|lia|lia|done|done|].
  cbv beta. intros _ c1 (Hn1 & Hh1 & Hs1 & Hs1' & Ht1 & Hcal1 & Hby & Hs2 & n & Hn & Hn' & Etick).
  destruct (settled_next _ _ _ Hset Hby) as [Hby' Hset'].
  wp_bind. apply wp_on_clock. cbn [ticker set_ticker].
  destruct (Hf (machine c1)) as (e' & Ef & He'); [lia|lia|].
  unfold wp at 1, outside_op. rewrite Ef. apply wp_on_clock. cbn [ticker set_ticker].
  eapply wp_mono; [apply (wp_get_comp_counter Hst (cyc_per_tick (ticker s)))|];
    cbn [machine set_machine]; change (since (set_machine e' c1)) with (since c1); [done|lia|lia|lia|done|done|].
  cbv beta. cbn [machine set_machine]. intros v c3 (Hv & Hn3 & Hcal3 & Ecpt & n' & Hn'' & Ev).
  split; [done|]. split.
  { exists (machine c1), e', (since c1), n, n', (cyc_per_tick c1).
    cbn [start_tick cyc_per_tick set_machine] in Ev. rewrite Etick in Ev. split_and!; (done || lia). }
  split; [by apply (cleared_ticker s s1)|]. split; [cbn; by rewrite (cd_compensate _ _ Hcl)|].
  split; [by apply (cache_ok_ticker junk k s1)|]. split; [apply Hcal3|]. cbn [ticker set_ticker].
  split; [cbn in Ecpt; by rewrite Ecpt|]. unfold round_budget, comp_budget. fold cal. split; [lia|nia].
Qed.

Lemma compensated_cells k s l n : compensated k s → compensated k (with_cells l n s).
Proof. intros (? & ? & ?). split; [done|]. split; [by apply cache_ok_cells|done]. Qed.

Lemma plain_cells k s l n : plain k s → plain k (with_cells l n s).
Proof. intros (? & ?). split; [done|by apply cache_ok_cells]. Qed.
End Measure.
