(* ===== verification/Ftimer.v ===== *)
(** * Timers (src/ftimer.c and src/fsecs.c)

    The two function timers, which return the average running time of a
    number of runs, and the wrapper the driver uses, configured for
    [gettimeofday] as in src/config.h.  The clock of the wall and the
    interval timers are operations of the state the timed function runs in. *)

From Stdlib Require Import ZArith Lia SpecFloat.
From stdpp Require Import base numbers list.
From S2P Require Import Prelude Doubles.

(** The three interval timers. *)
Inductive itimer :=
  | ITIMER_VIRTUAL
  | ITIMER_REAL
  | ITIMER_PROF.

(** Times are pairs of seconds and microseconds; [setitimer] is given the
    interval and the initial value, [getitimer] returns the current value. *)
Class Timers (S : Type) := {
  gettimeofday : M S (Z * Z);
  setitimer : itimer → (Z * Z) → (Z * Z) → M S unit;
  getitimer : itimer → M S (Z * Z)
}.

Definition MAX_ETIME : Z := 86400.

(** [1E3], [1E-3] and [1e-6]. *)
Definition E3 : double := of_Z 1000.
Definition Em3 : double := decimal 1 1000.
Definition Em6 : double := decimal 1 1000000.

Section Ftimer.
Context {S : Type} {T : Timers S}.

(** [for (i = 0; i < n; i++) f(argp)] *)
Fixpoint runs (n : nat) (f : M S unit) : M S unit :=
  match n with
  | O => mret tt
  | Datatypes.S n' => f;; runs n' f
  end.

(** [first_u], [first_r] and [first_p] are set to the same value, which is
    what the timers start from. *)
Definition init_etime : M S unit :=
  setitimer ITIMER_VIRTUAL (0, 0) (MAX_ETIME, 0);;
  setitimer ITIMER_REAL (0, 0) (MAX_ETIME, 0);;
  setitimer ITIMER_PROF (0, 0) (MAX_ETIME, 0).

Definition get_etime : M S double :=
  _ ← getitimer ITIMER_VIRTUAL;
  '(sec, usec) ← getitimer ITIMER_REAL;
  _ ← getitimer ITIMER_PROF;
  dsec ← int_result (MAX_ETIME - sec);
  dusec ← int_result (0 - usec);
  mret (dadd (of_Z dsec) (dmul (of_Z dusec) Em6)).

Definition ftimer_itimer (f : M S unit) (n : Z) : M S double :=
  init_etime;;
  start ← get_etime;
  runs (Z.to_nat n) f;;
  now ← get_etime;
  mret (ddiv (dsub now start) (of_Z n)).

Definition ftimer_gettod (f : M S unit) (n : Z) : M S double :=
  '(ssec, susec) ← gettimeofday;
  runs (Z.to_nat n) f;;
  '(esec, eusec) ← gettimeofday;
  dsec ← int_result (esec - ssec);
  dusec ← int_result (eusec - susec);
  let diff := dadd (dmul E3 (of_Z dsec)) (dmul Em3 (of_Z dusec)) in
  let diff := ddiv diff (of_Z n) in
  mret (dmul Em3 diff).

(** [fsecs] with [USE_GETTOD]; [init_fsecs] only sets a variable that is not
    used in this configuration. *)
Definition fsecs (f : M S unit) : M S double := ftimer_gettod f 10.

(** ** Rules *)

(** [I k]: [k] more runs are to come. *)
Lemma wpx_runs E f (I : nat → S → Prop) n s :
  (∀ k s, I (Datatypes.S k) s → wpx E f s (λ _ s', I k s')) → I n s →
  wpx E (runs n f) s (λ _ s', I 0%nat s').
Proof.
  intros Hf. revert s. induction n as [|n IH]; intros s Hs; cbn [runs]; [by apply wpx_ret|].
  apply wpx_bind. eapply wpx_mono; [by apply Hf|]. cbv beta. intros _ s1 H1. by apply IH.
Qed.

(** A clock reading leaves [I] alone and the differences of two readings fit
    a [long]. *)
Definition clock_ok (I : S → Prop) : Prop :=
  ∀ s, I s → wp gettimeofday s (λ t s', I s' ∧ 0 ≤ t.1 < 2147483648 ∧ 0 ≤ t.2 < 1000000).

(** How often [fsecs] runs its argument. *)
Definition timed_runs : nat := 10.

Lemma wpx_fsecs E f (I : nat → S → Prop) s :
  (∀ k, clock_ok (I k)) → (∀ k s, I (Datatypes.S k) s → wpx E f s (λ _ s', I k s')) →
  I timed_runs s → wpx E (fsecs f) s (λ _ s', I 0%nat s').
Proof.
  intros Hc Hf Hs. unfold fsecs, ftimer_gettod. change (Z.to_nat 10) with timed_runs.
  apply wpx_bind_wp. eapply wp_mono; [by apply Hc|]. cbv beta. intros [a b] s1 (H1 & Ha & Hb).
  apply wpx_bind. eapply wpx_mono; [by apply (wpx_runs E f I)|]. cbv beta. intros _ s2 H2.
  apply wpx_bind_wp. eapply wp_mono; [by apply Hc|]. cbv beta. intros [a' b'] s3 (H3 & Ha' & Hb').
  cbn [fst snd] in *. unfold int_result, int_range.
  destruct (Z.leb_spec (-2147483648) (a' - a)), (Z.ltb_spec (a' - a) 2147483648); [|lia..].
  destruct (Z.leb_spec (-2147483648) (b' - b)), (Z.ltb_spec (b' - b) 2147483648); [|lia..].
  cbn [andb]. apply wpx_bind, wpx_ret, wpx_bind, wpx_ret. by apply wpx_ret.
Qed.
End Ftimer.
