(* ===== verification/Fsecs.v ===== *)
(** * The other timing methods (src/fsecs.c)

    [Ftimer] has [fsecs] for [USE_GETTOD], which src/config.h selects.  This
    file has the two other settings: the interval timer, and the cycle
    counter with the K-best scheme, for which [init_fsecs] sets up the
    packages and estimates the clock rate. *)

From Stdlib Require Import ZArith Lia SpecFloat.
From stdpp Require Import base numbers list.
From S2P Require Import Prelude Doubles ExactDoubles Clock Calibrate Fcyc FcycSpec Ftimer.

(** ** [USE_ITIMER] *)
Definition fsecs_itimer {S : Type} {T : Timers S} (f : M S unit) : M S double := ftimer_itimer f 10.

(** ** [USE_FCYC] *)

(** The static variable of fsecs.c and those of fcyc.c and clock.c. *)
Record cycle_timer (E : Type) := CycleTimer {
  Mhz : double;
  package : sampler E
}.
Arguments CycleTimer {E}.
Arguments Mhz {E}.
Arguments package {E}.

Section Fsecs.
Context {E : Type} {MA : Machine E} (host_malloc : Z → bool) (junk : nat → Z) (f : M E unit).

Definition on_package {A} (op : M (sampler E) A) : M (cycle_timer E) A := λ t,
  match op (package t) with
  | Ok (a, s) => Ok (a, CycleTimer (Mhz t) s)
  | Err x => Err x
  end.
Definition set_Mhz (m : double) (t : cycle_timer E) : cycle_timer E := CycleTimer m (package t).

Definition init_fsecs : M (cycle_timer E) unit :=
  modify (set_Mhz zero);;
  on_package (set_fcyc_maxsamples 20);;
  on_package (set_fcyc_clear_cache 1);;
  on_package (set_fcyc_compensate 1);;
  on_package (set_fcyc_epsilon (decimal 1 100));;
  on_package (set_fcyc_k 3);;
  m ← on_package (on_clock mhz);
  modify (set_Mhz m).

Definition fsecs_fcyc (ticks : nat) : M (cycle_timer E) double :=
  cycles ← on_package (fcyc host_malloc junk f ticks);
  m ← gets Mhz;
  mret (ddiv cycles (dmul m (of_Z 1000000))).

(** ** What they compute *)
Implicit Types (s : sampler E) (t : cycle_timer E).

Lemma wp_on_package {A} (op : M (sampler E) A) t (Q : A → cycle_timer E → Prop) :
  wp op (package t) (λ a s, Q a (CycleTimer (Mhz t) s)) → wp (on_package op) t Q.
Proof. unfold wp, on_package. by destruct (op (package t)) as [[a s]|]. Qed.

Context {now : E → Z} {user : Z → Z} {period gap limit : Z}.
Context (Hst : steady now user period gap limit).

(** The two seconds of [mhz] take at most [nap] cycles. *)
Definition naps (nap : Z) : Prop :=
  ∀ e, 0 ≤ now e → now e + nap < limit →
  ∃ e', sleep 2 e = Ok (tt, e') ∧ now e ≤ now e' ≤ now e + nap.

(** The clock rate when calibration starts in [e]: the cycles from there to
    the end of the sleep over two million. *)
Definition slept (e : E) (m : double) : Prop :=
  ∃ e1 e2, now e < now e1 ≤ now e + gap ∧ sleep 2 e1 = Ok (tt, e2) ∧
    m = ddiv (of_Z (now e2 - now e)) (dmul (of_Z 1000000) (of_Z 2)).

Lemma wp_mhz nap (c : clock E) :
  naps nap → 0 ≤ nap → nap + gap < P53 → 0 ≤ now (machine c) →
  now (machine c) + nap + 2 * gap < limit →
  wp mhz c (λ m c', slept (machine c) m ∧
    now (machine c) ≤ now (machine c') ≤ now (machine c) + nap + 2 * gap ∧
    cyc_per_tick c' = cyc_per_tick c).
Proof.
  intros Hnap H0 H53 Hn Hlim. destruct (sd_sizes _ _ _ _ _ Hst) as (_ & Hg & _).
  unfold mhz, mhz_full. wp_bind. apply (wp_start_counter Hst); [lia|lia|].
  intros c1 H1 Hh1 Es1 Ec1 _. wp_bind.
  destruct (Hnap (machine c1)) as (e' & Ee & He'); [lia|lia|].
  unfold wp at 1, outside_op. rewrite Ee. wp_bind.
  apply (wp_get_counter Hst); change (since (set_machine e' c1)) with (since c1);
    cbn [machine set_machine]; [done|lia..|].
  intros c2 H2 Hh2 _ Ec2 _. wp_pure. split.
  { exists (machine c1), e'. rewrite <- Es1. by split; [lia|]. }
  split; [lia|]. cbn in Ec2. congruence.
Qed.

(** The parameters [init_fsecs] sets. *)
Definition cycle_params s : Prop :=
  kbest s = 3 ∧ maxsamples s = 20 ∧ epsilon s = decimal 1 100 ∧ compensate s = 1 ∧ clear_cache s = 1.

(** The state in which the clock rate is estimated. *)
Definition set_up s : sampler E :=
  Sampler 3 20 (decimal 1 100) 1 1 (cache_bytes s) (cache_block s) (cache_buf s) (values s)
    (samplecount s) (sink s) (ticker s).

Lemma init_fsecs_steps t :
  init_fsecs t =
  (m ← on_package (on_clock mhz); modify (set_Mhz m)) (CycleTimer zero (set_up (package t))).
Proof. by destruct t as [m []]. Qed.

Lemma wp_init_fsecs nap k t :
  naps nap → 0 ≤ nap → nap + gap < P53 → 0 ≤ now (machine (ticker (package t))) →
  now (machine (ticker (package t))) + nap + 2 * gap < limit →
  clearable junk k (package t) →
  wp init_fsecs t (λ _ t', cycle_params (package t') ∧ clearable junk k (package t') ∧
    slept (machine (ticker (package t))) (Mhz t') ∧
    now (machine (ticker (package t))) ≤ now (machine (ticker (package t')))
      ≤ now (machine (ticker (package t))) + nap + 2 * gap ∧
    cyc_per_tick (ticker (package t')) = cyc_per_tick (ticker (package t))).
Proof.
  intros Hnap H0 H53 Hn Hlim [Hc1 Hc2 Hc3]. unfold wp. rewrite init_fsecs_steps.
  fold (wp (m ← on_package (on_clock mhz); modify (set_Mhz m)) (CycleTimer zero (set_up (package t)))).
  wp_bind. apply wp_on_package, wp_on_clock. cbn [package].
  eapply wp_mono; [by apply (wp_mhz nap)|]. cbv beta. intros m c (Hs & Hc & Ect).
  wp_pure. split; [done|]. split; [by split|]. split; [exact Hs|]. by split.
Qed.

(** The whole method: set up, then measure. *)
Context (work : Z).

Lemma wp_fsecs_fcyc ticks t :
  (∀ n, host_malloc n = true) → bounded_work f work (now := now) (limit := limit) → 0 ≤ work →
  round_budget (period := period) (gap := gap) work < P53 → enough (period := period) (gap := gap) ticks →
  cycle_params (package t) → clearable junk 20 (package t) →
  below 56 (cyc_per_tick (ticker (package t))) → 0 ≤ now (machine (ticker (package t))) →
  now (machine (ticker (package t))) + 20 * round_budget (period := period) (gap := gap) work < limit →
  wp (fsecs_fcyc ticks) t (λ r t', ∃ vs v s1,
    readings host_malloc junk f ticks (package t) vs s1 ∧ best (package t) vs v ∧
    package t' = with_cells None (Z.of_nat (length vs)) s1 ∧
    r = ddiv v (dmul (Mhz t) (of_Z 1000000)) ∧ Mhz t' = Mhz t ∧
    Forall (compensated_reading f (now := now) (user := user) (gap := gap)
              (cyc_per_tick (ticker (package t)))) vs).
Proof.
  intros Hm Hf Hw H53 Ht (Ek & Emx & Eeps & Eco & Ecc) Hc Hb H0 Hlim. unfold fsecs_fcyc.
  wp_bind. apply wp_on_package.
  eapply wp_mono; [apply (wp_fcyc host_malloc junk f ticks
    (compensated junk work (now := now) (user := user) (period := period) (gap := gap) (limit := limit)
       (cyc_per_tick (ticker (package t))))
    (compensated_reading f (now := now) (user := user) (gap := gap) (cyc_per_tick (ticker (package t)))))|].
  - intros k s l n. apply compensated_cells.
  - intros k s Hs. by apply (wp_measure_compensated host_malloc junk f ticks Hm work Hst (cyc_per_tick (ticker (package t)))).
  - exact Hm.
  - lia.
  - lia.
  - rewrite Emx. split; [lia|]. split; [right; exact Hc|]. split; [exact Hb|]. split; [by left|].
    change (Z.of_nat (Z.to_nat (most 20))) with 20. done.
  - cbv beta. intros v s' (vs & s1 & Hr & Hbest & -> & Hall). wp_pure. by exists vs, v, s1.
Qed.
End Fsecs.
