(* ===== verification/ErrorCount.v ===== *)
(** * Counting errors (src/mdriver.c)

    Which parts of the driver change the counter [errors]: only
    [malloc_error] does, [eval_mm_valid] reports exactly one error when it
    returns 0 and none when it returns 1, and the other interpreters report
    none.  No assumption about the allocator or the trace is needed. *)

From Stdlib Require Import ZArith Lia.
From stdpp Require Import base gmap numbers list.
From S2P Require Import Prelude Memory Memlib Contract Ranges Driver.

(** ** Quantities of the state that a run leaves alone *)

(** A quantity that calls into the allocator, changes of the range list and
    stores into the two arrays do not change. *)
Class Untouched {X} (f : dst → X) : Prop := {
  un_st d s : f (set_d_st s d) = f d;
  un_ranges d r : f (set_d_ranges r d) = f d;
  un_blocks d i v : f (set_d_blocks (<[i := v]> (d_blocks d)) d) = f d;
  un_sizes d i v : f (set_d_sizes (<[i := v]> (d_sizes d)) d) = f d
}.

#[export] Instance errors_untouched : Untouched d_errors.
Proof. done. Qed.

(** The lengths of the two arrays. *)
Definition lengths (d : dst) : nat * nat := (length (d_blocks d), length (d_sizes d)).

#[export] Instance lengths_untouched : Untouched lengths.
Proof. split; intros; unfold lengths; cbn; by rewrite ?length_insert. Qed.

Section Pres.
Context {X : Type} (f : dst → X) {HU : Untouched f}.

Lemma pres_lift {A} (c : M st A) : pres f (lift c).
Proof.
  intros d a d'. unfold lift. destruct (c (d_st d)) as [[x s]|]; [|done].
  intros [= <- <-]. apply un_st.
Qed.

Lemma pres_modify_ranges r : pres f (modify (set_d_ranges r)).
Proof. intros d a d' [= <- <-]. apply un_ranges. Qed.

Lemma pres_get_cell arr i : pres f (get_cell arr i).
Proof.
  intros d a d'. unfold get_cell. destruct (i <? 0); [done|].
  destruct (arr d !! Z.to_nat i) as [[v|]|]; [|done|done]. by intros [= <- <-].
Qed.

Lemma pres_set_blocks i v : pres f (set_cell d_blocks set_d_blocks i v).
Proof.
  intros d a d'. unfold set_cell. destruct (i <? 0); [done|].
  destruct (d_blocks d !! Z.to_nat i); [|done]. intros [= <- <-]. apply un_blocks.
Qed.

Lemma pres_set_sizes i v : pres f (set_cell d_sizes set_d_sizes i v).
Proof.
  intros d a d'. unfold set_cell. destruct (i <? 0); [done|].
  destruct (d_sizes d !! Z.to_nat i); [|done]. intros [= <- <-]. apply un_sizes.
Qed.

Lemma pres_remove_range lo : pres f (remove_range lo).
Proof. intros d a d' [= <- <-]. apply un_ranges. Qed.

Lemma pres_clear_ranges : pres f clear_ranges.
Proof. apply pres_modify_ranges. Qed.
End Pres.

(** ** The number of errors a run adds, which may depend on its result *)
Definition adds {A} (c : M dst A) (n : A → Z) : Prop :=
  ∀ d a d', c d = Ok (a, d') → d_errors d' = d_errors d + n a.

Lemma adds_ret {A} (a : A) n : n a = 0 → adds (mret a) n.
Proof. intros Hn d a' d' [= <- <-]. lia. Qed.

Lemma adds_bind {A B} (c : M dst A) (k : A → M dst B) n :
  pres d_errors c → (∀ a, adds (k a) n) → adds (c ≫= k) n.
Proof.
  intros Hc Hk d b d'. unfold mbind, M_bind. destruct (c d) as [[a d1]|e] eqn:E; [|done].
  intros E2. apply Hk in E2. apply Hc in E. lia.
Qed.

(** A computation whose result is known to the continuation. *)
Lemma adds_bind_res {A B} (c : M dst A) (k : A → M dst B) m n :
  adds c m → (∀ a, adds (k a) (λ b, n b - m a)) → adds (c ≫= k) n.
Proof.
  intros Hc Hk d b d'. unfold mbind, M_bind. destruct (c d) as [[a d1]|e] eqn:E; [|done].
  intros E2. apply Hk in E2. apply Hc in E. lia.
Qed.

Lemma adds_fail {A} e n : adds (fail (A := A) e) n.
Proof. done. Qed.

Lemma adds_malloc_error t i m : adds (malloc_error t i m) (λ _, 1).
Proof. intros d a d' [= <- <-]. done. Qed.

Create HintDb errors.
#[export] Hint Resolve pres_ret pres_bind pres_fail adds_fail pres_lift pres_gets pres_assert
  pres_int_result pres_modify_ranges pres_get_cell pres_set_blocks pres_set_sizes
  pres_remove_range pres_clear_ranges adds_malloc_error : errors.

(** One step: a call that changes nothing, then the rest. *)
Ltac keep :=
  lazymatch goal with
  | |- adds _ _ => apply adds_bind
  | |- pres _ _ => apply pres_bind
  end; [solve [eauto with errors typeclass_instances]|intros ?].
(** [malloc_error] and an early return. *)
Ltac reports :=
  eapply adds_bind_res; [apply adds_malloc_error|intros ?; by apply adds_ret].

Section Frames.
Context {X : Type} (f : dst → X) {HU : Untouched f}.
Context {L : Libc} {A : Allocator}.
Lemma pres_check_bytes n p j i : pres f (check_bytes n p j i).
Proof.
  revert j. induction n as [|n IH]; intros j; cbn [check_bytes]; [apply pres_ret|].
  keep. destruct (_ =? _); [apply IH|apply pres_ret].
Qed.

Lemma pres_util_ops l : ∀ total mx, pres f (util_ops l total mx).
Proof.
  induction l as [|op l IH]; intros total mx; cbn [util_ops]; [apply pres_ret|].
  destruct (op_type op); keep.
  - destruct (_ =? 0); [apply pres_fail|]. do 3 keep. apply IH.
  - do 3 keep. apply IH.
  - do 2 keep. destruct (_ =? 0); [apply pres_fail|]. do 4 keep. apply IH.
Qed.

Lemma pres_eval_mm_util tr : pres f (eval_mm_util tr).
Proof.
  unfold eval_mm_util. keep. keep. destruct (_ <? 0); [apply pres_fail|].
  apply pres_bind; [apply pres_util_ops|]. intros ?. keep. apply pres_ret.
Qed.

Lemma pres_plain_ops on_null l : pres f on_null → pres f (plain_ops on_null l).
Proof.
  intros Hn. induction l as [|op l IH]; cbn [plain_ops]; [apply pres_ret|].
  apply pres_bind; [|done]. destruct (op_type op).
  - keep. destruct (_ =? 0); [done|by apply pres_set_blocks].
  - keep. by apply pres_lift.
  - keep. keep. destruct (_ =? 0); [done|by apply pres_set_blocks].
Qed.

Lemma pres_eval_mm_speed tr : pres f (eval_mm_speed tr).
Proof.
  unfold eval_mm_speed. keep. keep.
  destruct (_ <? 0); [apply pres_fail|apply pres_plain_ops, pres_fail].
Qed.

Lemma pres_eval_libc_valid tr t : pres f (eval_libc_valid tr t).
Proof.
  unfold eval_libc_valid. apply pres_bind; [apply pres_plain_ops, pres_fail|intros; apply pres_ret].
Qed.

Lemma pres_eval_libc_speed tr : pres f (eval_libc_speed tr).
Proof. apply pres_plain_ops, pres_fail. Qed.
End Frames.

Section Count.
Context {L : Libc} {RA : RangeAlloc} {A : Allocator}.

Lemma adds_add_range lo size t i :
  adds (add_range lo size t i) (λ r, if r =? 0 then 1 else 0).
Proof.
  intros d a d'. rewrite add_range_run. destruct (size <=? 0); [done|].
  destruct (negb _); [intros [= <- <-]; done|]. destruct (outside_heap _ _ _); [intros [= <- <-]; done|].
  destruct (overlap_loop _ _ _); [intros [= <- <-]; done|].
  destruct (range_alloc _); [|done]. intros [= <- <-]. cbn. lia.
Qed.

Definition one_error (ok : bool) : Z := if ok then 0 else 1.

(** The end of a request: the checks of the new payload. *)
Lemma adds_checked lo size t i (k : M dst bool) :
  adds k one_error →
  adds (ok ← add_range lo size t i; if ok =? 0 then mret false else k) one_error.
Proof.
  intros Hk. eapply adds_bind_res; [apply adds_add_range|]. intros r. cbv beta.
  destruct (r =? 0).
  - by apply adds_ret.
  - intros d a d' H. apply Hk in H. lia.
Qed.

Lemma adds_valid_op t i op : adds (valid_op t i op) one_error.
Proof.
  unfold valid_op. destruct (op_type op).
  - keep. destruct (_ =? 0); [reports|]. apply adds_checked. do 3 keep. by apply adds_ret.
  - keep. keep. keep. by apply adds_ret.
  - keep. keep. destruct (_ =? 0); [reports|]. keep. apply adds_checked. keep.
    apply adds_bind; [apply (pres_check_bytes d_errors)|]. intros [].
    + do 3 keep. by apply adds_ret.
    + reports.
Qed.

Definition invalid (r : Z) : Z := if r =? 0 then 1 else 0.

Lemma adds_valid_ops t l : ∀ i, adds (valid_ops t i l) invalid.
Proof.
  induction l as [|op l IH]; intros i; cbn [valid_ops]; [by apply adds_ret|].
  eapply adds_bind_res; [apply adds_valid_op|]. intros [].
  - intros d a d' H. apply IH in H. cbn. lia.
  - by apply adds_ret.
Qed.

(** [eval_mm_valid] reports an error exactly when it returns 0. *)
Lemma adds_eval_mm_valid tr t : adds (eval_mm_valid tr t) invalid.
Proof.
  unfold eval_mm_valid. keep. keep. keep. destruct (_ <? 0); [reports|]. apply adds_valid_ops.
Qed.

Lemma valid_ops_result t l : ∀ i d r d', valid_ops t i l d = Ok (r, d') → r = 0 ∨ r = 1.
Proof.
  induction l as [|op l IH]; intros i d r d'; cbn [valid_ops]; [intros [= <- <-]; by right|].
  unfold mbind, M_bind. destruct (valid_op t i op d) as [[[] d1]|]; [apply IH| |done].
  intros [= <- <-]. by left.
Qed.

End Count.
