(* ===== verification/Stats.v ===== *)
(** * Statistics and the performance index (src/mdriver.c)

    [stats_t], the aggregation of [sumresults] and [printresults], and the
    performance index [main] computes from it.  The pointers [sumresults]
    is given are flags that say whether they are NULL; what the average
    throughput holds before is an argument, since [main] never sets it.  A
    printed table is the list of its rows. *)

From Stdlib Require Import ZArith Lia SpecFloat.
From stdpp Require Import base numbers list.
From S2P Require Import Prelude Doubles Ftimer.

Record stats_t := Stats {
  s_ops : double;
  s_valid : Z;
  s_secs : double;
  s_util : double
}.

(** [calloc] leaves zeros. *)
Definition no_stats : stats_t := Stats zero 0 zero zero.

(** [AVG_LIBC_THRUPUT] and [UTIL_WEIGHT] of config.h. *)
Definition AVG_LIBC_THRUPUT : double := of_Z 1000000.
Definition UTIL_WEIGHT : double := decimal 60 100.

Definition hundred : double := of_Z 100.
Definition valid (s : stats_t) : bool := negb (s_valid s =? 0).

(** ** [sumresults] *)

(** The loop: [secs], [ops], [util] and [*num_correct]. *)
Definition sum_step (acc : double * double * double * Z) (s : stats_t) : double * double * double * Z :=
  let '(secs, ops, util, n) := acc in
  (dadd secs (s_secs s), dadd ops (s_ops s), dadd util (s_util s), if valid s then n + 1 else n).

(** [num_correct], [avg_util] and [avg_tput] say which pointers are not
    NULL; [old_tput] is what [*avg_tput] held before.  The result is what
    the three point to afterwards. *)
Definition sumresults (stats : list stats_t) (num_correct avg_util avg_tput : bool)
    (old_tput : double) : res (Z * option double * option double) :=
  let n_stats := Z.of_nat (length stats) in
  let '(secs, ops, util, n) := foldl sum_step (zero, zero, zero, 0) stats in
  let util_avg := if avg_util then Some (ddiv util (of_Z n_stats)) else None in
  let tput :=
    if negb num_correct || (n =? n_stats)
    then (if avg_tput then ddiv ops secs else old_tput)
    else old_tput in
  if negb avg_tput || dlt zero tput
  then Ok (n, util_avg, if avg_tput then Some tput else None)
  else Err AssertFail.

(** ** [printresults] *)

(** A line of the table; the numbers are the arguments of [printf]. *)
Inductive row :=
  | Yes (i : Z) (util ops secs kops : double)
  | No (i : Z)
  | Total (util ops secs kops : double)
  | NoTotal.

Definition print_step (acc : list row * double * double * double * bool * Z) (s : stats_t) :
    list row * double * double * double * bool * Z :=
  let '(rows, secs, ops, util, got_error, i) := acc in
  if valid s then
    (rows ++ [Yes i (dmul (s_util s) hundred) (s_ops s) (s_secs s) (ddiv (ddiv (s_ops s) E3) (s_secs s))],
     dadd secs (s_secs s), dadd ops (s_ops s), dadd util (s_util s), got_error, i + 1)
  else (rows ++ [No i], secs, ops, util, true, i + 1).

Definition printresults (stats : list stats_t) : list row :=
  let n := Z.of_nat (length stats) in
  let '(rows, secs, ops, util, got_error, _) :=
    foldl print_step ([], zero, zero, zero, false, 0) stats in
  rows ++ [if got_error : bool then NoTotal
           else Total (dmul (ddiv util (of_Z n)) hundred) ops secs (ddiv (ddiv ops E3) secs)].

(** ** The performance index *)
Record perf := Perf {
  p1 : double;
  p2 : double;
  perfindex : double
}.

Definition perf_index (avg_mm_util avg_mm_throughput : double) : perf :=
  let p1 := dmul UTIL_WEIGHT avg_mm_util in
  let rest := dsub (of_Z 1) UTIL_WEIGHT in
  let p2 :=
    if dlt AVG_LIBC_THRUPUT avg_mm_throughput then rest
    else dmul rest (ddiv avg_mm_throughput AVG_LIBC_THRUPUT) in
  Perf p1 p2 (dmul (dadd p1 p2) hundred).

(** ** What they compute *)
Definition num_valid (stats : list stats_t) : nat := length (filter (λ s, valid s = true) stats).
Definition all_valid (stats : list stats_t) : bool := forallb valid stats.

(** The sum of a column, in the order of the traces. *)
Definition total (f : stats_t → double) (stats : list stats_t) : double :=
  foldl (λ a s, dadd a (f s)) zero stats.

Lemma sum_loop stats : ∀ a b c n,
  foldl sum_step (a, b, c, n) stats =
  (foldl (λ x s, dadd x (s_secs s)) a stats, foldl (λ x s, dadd x (s_ops s)) b stats,
   foldl (λ x s, dadd x (s_util s)) c stats, n + Z.of_nat (num_valid stats)).
Proof.
  unfold num_valid. induction stats as [|s stats IH]; intros a b c n; cbn [foldl sum_step].
  - cbn. by rewrite Z.add_0_r.
  - rewrite IH. f_equal. rewrite filter_cons. destruct (valid s).
    + rewrite decide_True by done. cbn [length]. lia.
    + rewrite decide_False by done. done.
Qed.

Lemma num_valid_le stats : (num_valid stats ≤ length stats)%nat.
Proof. apply length_filter. Qed.

Lemma num_valid_all stats : num_valid stats = length stats ↔ all_valid stats = true.
Proof.
  unfold num_valid, all_valid. induction stats as [|s stats IH]; [done|].
  rewrite filter_cons. cbn [forallb length]. pose proof (num_valid_le stats) as Hle. unfold num_valid in Hle.
  destruct (valid s).
  - rewrite decide_True by done. cbn [length andb]. rewrite <- IH. lia.
  - rewrite decide_False by done. cbn [andb]. split; [lia|done].
Qed.

(** The throughput the assertion compares for the allocator under test: that
    of the traces, or what the variable held before. *)
Definition throughput (stats : list stats_t) (old : double) : double :=
  if all_valid stats then ddiv (total s_ops stats) (total s_secs stats) else old.

(** [sumresults] as [main] calls it for the allocator under test. *)
Lemma sumresults_mm stats old :
  sumresults stats true true true old =
  if dlt zero (throughput stats old)
  then Ok (Z.of_nat (num_valid stats),
           Some (ddiv (total s_util stats) (of_Z (Z.of_nat (length stats)))),
           Some (throughput stats old))
  else Err AssertFail.
Proof.
  unfold sumresults, throughput, total. rewrite sum_loop. cbn [negb orb]. rewrite Z.add_0_l.
  pose proof (num_valid_all stats) as Hall.
  destruct (Z.eqb_spec (Z.of_nat (num_valid stats)) (Z.of_nat (length stats))) as [E|E].
  - rewrite (proj1 Hall) by lia. done.
  - destruct (all_valid stats); [|done]. destruct E. f_equal. by apply Hall.
Qed.

(** As [main] calls it for the C library's allocator. *)
Lemma sumresults_libc stats old :
  sumresults stats false false true old =
  let tput := ddiv (total s_ops stats) (total s_secs stats) in
  if dlt zero tput then Ok (Z.of_nat (num_valid stats), None, Some tput) else Err AssertFail.
Proof. unfold sumresults, total. by rewrite sum_loop. Qed.

(** The rows of the table. *)
Definition row_of (i : Z) (s : stats_t) : row :=
  if valid s
  then Yes i (dmul (s_util s) hundred) (s_ops s) (s_secs s) (ddiv (ddiv (s_ops s) E3) (s_secs s))
  else No i.

Lemma print_loop stats : ∀ rows a b c e i,
  ∃ a' b' c',
  foldl print_step (rows, a, b, c, e, i) stats =
  (rows ++ imap (λ k s, row_of (i + Z.of_nat k) s) stats, a', b', c',
   e || negb (all_valid stats), i + Z.of_nat (length stats)) ∧
  (all_valid stats = true →
   a' = foldl (λ x s, dadd x (s_secs s)) a stats ∧
   b' = foldl (λ x s, dadd x (s_ops s)) b stats ∧
   c' = foldl (λ x s, dadd x (s_util s)) c stats).
Proof.
  induction stats as [|s stats IH]; intros rows a b c e i.
  { exists a, b, c. cbn. by rewrite app_nil_r, orb_false_r, Z.add_0_r. }
  assert (Him : imap (λ k x, row_of (i + Z.of_nat k) x) (s :: stats) =
                row_of i s :: imap (λ k x, row_of (i + 1 + Z.of_nat k) x) stats).
  { cbn [imap]. rewrite Z.add_0_r. f_equal. apply imap_ext. intros k x _. unfold compose.
    by replace (i + Z.of_nat (S k)) with (i + 1 + Z.of_nat k) by lia. }
  rewrite Him. cbn [foldl print_step all_valid forallb length]. unfold row_of at 1.
  destruct (valid s); cbn [andb negb].
  - destruct (IH (rows ++ [Yes i (dmul (s_util s) hundred) (s_ops s) (s_secs s) (ddiv (ddiv (s_ops s) E3) (s_secs s))])
      (dadd a (s_secs s)) (dadd b (s_ops s)) (dadd c (s_util s)) e (i + 1)) as (a' & b' & c' & -> & H).
    exists a', b', c'. rewrite <- app_assoc. split; [|exact H].
    by replace (i + Z.of_nat (S (length stats))) with (i + 1 + Z.of_nat (length stats)) by lia.
  - destruct (IH (rows ++ [No i]) a b c true (i + 1)) as (a' & b' & c' & -> & H).
    exists a', b', c'. rewrite <- app_assoc. split; [|done].
    rewrite orb_true_r. cbn [orb app].
    by replace (i + Z.of_nat (S (length stats))) with (i + 1 + Z.of_nat (length stats)) by lia.
Qed.

Lemma printresults_rows stats :
  printresults stats =
  imap (λ k s, row_of (Z.of_nat k) s) stats ++
  [if all_valid stats
   then Total (dmul (ddiv (total s_util stats) (of_Z (Z.of_nat (length stats)))) hundred)
          (total s_ops stats) (total s_secs stats)
          (ddiv (ddiv (total s_ops stats) E3) (total s_secs stats))
   else NoTotal].
Proof.
  unfold printresults, total.
  destruct (print_loop stats [] zero zero zero false 0) as (a & b & c & -> & H). cbn [app orb].
  destruct (all_valid stats); cbn [negb]; [|done].
  by destruct H as (-> & -> & ->).
Qed.
