(* ===== verification/Options.v ===== *)
(** * Command line and team information (src/mdriver.c, [main])

    The loop over the options and the check of the team structure.  What
    [getopt] returns, call after call, is a list of options; the strings
    have no terminating zero, whose byte counts when a buffer is checked. *)

From Stdlib Require Import ZArith Lia Ascii String.
From stdpp Require Import base numbers list sets.
From S2P Require Import Prelude TraceFile.

(** The result of one call of [getopt] with ["f:t:hvVgal"]. *)
Inductive opt :=
  | Opt_g
  | Opt_f (optarg : input)
  | Opt_t (optarg : input)
  | Opt_a
  | Opt_l
  | Opt_v
  | Opt_V
  | Opt_h
  | Opt_other.

#[global] Instance opt_eq_dec : EqDecision opt.
Proof. solve_decision. Defined.

(** The variables the options set; [tracefiles] is [None] while it is NULL,
    and a name is [None] when [strdup] had no memory. *)
Record options := Options {
  tracedir : input;
  tracefiles : option (list (option input));
  num_tracefiles : Z;
  team_check : bool;
  run_libc : bool;
  autograder : bool;
  verbose : Z
}.

Definition TRACEDIR : input := list_ascii_of_string "traces/".
Definition default_options : options := Options TRACEDIR None 0 true false false 0.

Definition DEFAULT_TRACEFILES : list input := map list_ascii_of_string
  ["amptjp-bal.rep"; "cccp-bal.rep"; "cp-decl-bal.rep"; "expr-bal.rep"; "coalescing-bal.rep";
   "random-bal.rep"; "random2-bal.rep"; "binary-bal.rep"; "binary2-bal.rep";
   "realloc-bal.rep"; "realloc2-bal.rep"]%string.

Definition slash : ascii := "/"%char.
Definition bytes (s : input) : Z := Z.of_nat (length s) + 1.

(** ** The options *)
Section Options.
Context (host_malloc : Z → bool).

Definition option_step (o : opt) (s : options) : res options :=
  match o with
  | Opt_g => Ok (Options (tracedir s) (tracefiles s) (num_tracefiles s) (team_check s) (run_libc s) true (verbose s))
  | Opt_f optarg =>
      if host_malloc (2 * sizeof_ptr) then
        let name := if host_malloc (bytes optarg) then Some optarg else None in
        Ok (Options (list_ascii_of_string "./") (Some [name]) 1 (team_check s) (run_libc s) (autograder s) (verbose s))
      else Err (Exit 1)
  | Opt_t optarg =>
      if num_tracefiles s =? 1 then Ok s
      else if MAXLINE <? bytes optarg then Err UB
      else
        match last optarg with
        | None => Err UB
        | Some c =>
            if Ascii.eqb c slash then
              Ok (Options optarg (tracefiles s) (num_tracefiles s) (team_check s) (run_libc s) (autograder s) (verbose s))
            else if MAXLINE <? bytes optarg + 1 then Err UB
            else
              Ok (Options (optarg ++ [slash]) (tracefiles s) (num_tracefiles s) (team_check s) (run_libc s) (autograder s) (verbose s))
        end
  | Opt_a => Ok (Options (tracedir s) (tracefiles s) (num_tracefiles s) false (run_libc s) (autograder s) (verbose s))
  | Opt_l => Ok (Options (tracedir s) (tracefiles s) (num_tracefiles s) (team_check s) true (autograder s) (verbose s))
  | Opt_v => Ok (Options (tracedir s) (tracefiles s) (num_tracefiles s) (team_check s) (run_libc s) (autograder s) 1)
  | Opt_V => Ok (Options (tracedir s) (tracefiles s) (num_tracefiles s) (team_check s) (run_libc s) (autograder s) 2)
  | Opt_h => Err (Exit 0)
  | Opt_other => Err (Exit 1)
  end.

Fixpoint read_options (l : list opt) (s : options) : res options :=
  match l with
  | [] => Ok s
  | o :: l' =>
      match option_step o s with
      | Ok s' => read_options l' s'
      | Err e => Err e
      end
  end.

(** The names to use when no [-f] was given. *)
Definition default_files (s : options) : options :=
  match tracefiles s with
  | Some _ => s
  | None =>
      Options (tracedir s) (Some (map Some DEFAULT_TRACEFILES)) (Z.of_nat (length DEFAULT_TRACEFILES))
        (team_check s) (run_libc s) (autograder s) (verbose s)
  end.
End Options.

(** ** The team *)
Record team_t := Team {
  teamname : string;
  name1 : string;
  id1 : string;
  name2 : string;
  id2 : string
}.

Definition team : team_t :=
  Team "Anything-But-Java" "Michael Bartnett" "mrb402" "Nabil Hassein" "nah285".

Definition empty (s : string) : bool := String.eqb s "".

Definition check_team (t : team_t) : res unit :=
  if empty (teamname t) then Err (Exit 1)
  else if empty (name1 t) || empty (id1 t) then Err (Exit 1)
  else if (negb (empty (name2 t)) && empty (id2 t)) || (empty (name2 t) && negb (empty (id2 t)))
  then Err (Exit 1)
  else Ok tt.

(** ** What the options mean *)

(** The last [-f], and the last [-t] before any [-f]. *)
Definition is_f (o : opt) : bool :=
  match o with
  | Opt_f _ => true
  | _ => false
  end.
Definition last_f (l : list opt) : option input :=
  foldl (λ a o, match o with Opt_f x => Some x | _ => a end) None l.
Definition last_t (l : list opt) : option input :=
  foldl (λ a o, match o with Opt_t x => Some x | _ => a end) None l.

Definition last_verbose (l : list opt) : Z :=
  foldl (λ a o, match o with Opt_v => 1 | Opt_V => 2 | _ => a end) 0 l.

Definition with_slash (d : input) : input :=
  match last d with
  | Some c => if Ascii.eqb c slash then d else d ++ [slash]
  | None => d
  end.

(** The trace directory and the files after the options [l]. *)
Definition where_traces (l : list opt) : input * option (list (option input)) :=
  match last_f l with
  | Some x => (list_ascii_of_string "./", Some [Some x])
  | None => (match last_t l with Some d => with_slash d | None => TRACEDIR end, None)
  end.

(** The files that are evaluated. *)
Definition trace_names (l : list opt) : list input :=
  match last_f l with
  | Some x => [x]
  | None => DEFAULT_TRACEFILES
  end.

(** Which options stop the program. *)
Definition plain_opt (o : opt) : bool :=
  match o with
  | Opt_h | Opt_other => false
  | Opt_t d => negb (bool_decide (d = [])) && (bytes d + 1 <=? MAXLINE)
  | _ => true
  end.

Lemma last_f_snoc l o :
  last_f (l ++ [o]) = match o with Opt_f x => Some x | _ => last_f l end.
Proof. unfold last_f. by rewrite foldl_app. Qed.

Lemma last_t_snoc l o :
  last_t (l ++ [o]) = match o with Opt_t x => Some x | _ => last_t l end.
Proof. unfold last_t. by rewrite foldl_app. Qed.

Lemma last_verbose_snoc l o :
  last_verbose (l ++ [o]) = match o with Opt_v => 1 | Opt_V => 2 | _ => last_verbose l end.
Proof. unfold last_verbose. by rewrite foldl_app. Qed.

Lemma seen_snoc (x : opt) l o :
  bool_decide (x ∈ l ++ [o]) = bool_decide (x ∈ l) || bool_decide (x = o).
Proof.
  repeat case_bool_decide; cbn; try done; exfalso; set_solver.
Qed.

Lemma read_options_app hm l1 l2 s :
  read_options hm (l1 ++ l2) s =
  match read_options hm l1 s with
  | Ok s' => read_options hm l2 s'
  | Err e => Err e
  end.
Proof.
  revert s. induction l1 as [|o l1 IH]; intros s; [done|]. cbn [app read_options].
  by destruct (option_step hm o s).
Qed.

(** Each variable is what the last option that sets it says. *)
Record options_are (l : list opt) (s : options) : Prop := {
  oa_where : (tracedir s, tracefiles s) = where_traces l;
  oa_num : num_tracefiles s = if last_f l is Some _ then 1 else 0;
  oa_team : team_check s = negb (bool_decide (Opt_a ∈ l));
  oa_libc : run_libc s = bool_decide (Opt_l ∈ l);
  oa_auto : autograder s = bool_decide (Opt_g ∈ l);
  oa_verbose : verbose s = last_verbose l
}.

Lemma options_files l s :
  options_are l s → tracefiles (default_files s) = Some (map Some (trace_names l)).
Proof.
  intros Ho. pose proof (oa_where _ _ Ho) as Hw. unfold trace_names, where_traces in *.
  unfold default_files. destruct (last_f l); injection Hw as _ Hf; rewrite Hf; [exact Hf|done].
Qed.

Section Meaning.
Context (hm : Z → bool).
Hypothesis Hm : ∀ n, hm n = true.

Lemma option_step_are l o s :
  options_are l s → plain_opt o = true →
  ∃ s', option_step hm o s = Ok s' ∧ options_are (l ++ [o]) s'.
Proof.
  intros [Hw Hn Ht Hl Ha Hv] Hp. unfold where_traces in Hw.
  assert (Hgo : ∀ s', (tracedir s', tracefiles s') = where_traces (l ++ [o]) →
    num_tracefiles s' = (if last_f (l ++ [o]) is Some _ then 1 else 0) →
    team_check s' = negb (bool_decide (Opt_a ∈ l) || bool_decide (Opt_a = o)) →
    run_libc s' = bool_decide (Opt_l ∈ l) || bool_decide (Opt_l = o) →
    autograder s' = bool_decide (Opt_g ∈ l) || bool_decide (Opt_g = o) →
    verbose s' = last_verbose (l ++ [o]) →
    ∃ s1, Ok s' = Ok s1 ∧ options_are (l ++ [o]) s1).
  { intros s' ??????. exists s'. split; [done|]. split; rewrite ?seen_snoc; done. }
  unfold where_traces in Hgo. rewrite last_f_snoc, last_t_snoc, last_verbose_snoc in Hgo.
  destruct o as [|x|d| | | | | |]; cbn [option_step plain_opt] in *; try done;
    [|rewrite !Hm| | | | |].
  1-2, 4-7: apply Hgo; cbn [tracedir tracefiles num_tracefiles team_check run_libc autograder verbose];
    rewrite ?orb_false_r, ?orb_true_r; try done.
  rewrite Hn. destruct (last_f l) as [x|]; cbn [Z.eqb].
  { apply Hgo; rewrite ?orb_false_r; done. }
  apply andb_true_iff in Hp as [Hd Hb]. apply negb_true_iff, bool_decide_eq_false in Hd.
  destruct (Z.ltb_spec MAXLINE (bytes d)); [lia|]. unfold with_slash in Hgo.
  destruct (last d) as [c|] eqn:El; [|by apply last_None in El].
  destruct (Ascii.eqb c slash).
  - apply Hgo; cbn; rewrite ?orb_false_r; try done. by inversion Hw.
  - destruct (Z.ltb_spec MAXLINE (bytes d + 1)); [lia|].
    apply Hgo; cbn; rewrite ?orb_false_r; try done. by inversion Hw.
Qed.

Lemma read_options_are l :
  forallb plain_opt l = true → ∃ s, read_options hm l default_options = Ok s ∧ options_are l s.
Proof.
  induction l as [|o l IH] using rev_ind; intros Hp.
  { by exists default_options. }
  rewrite forallb_app in Hp. apply andb_true_iff in Hp as [Hp Ho]. cbn in Ho. rewrite andb_true_r in Ho.
  destruct (IH Hp) as (s & E & Hs). rewrite read_options_app, E. cbn [read_options].
  destruct (option_step_are l o s Hs Ho) as (s' & -> & Hs'). by exists s'.
Qed.
End Meaning.
