(* ===== verification/Main.v ===== *)
(** * The main program (src/mdriver.c, [main])

    Options, team check, the evaluation of every trace with the C library's
    allocator (on request) and with the allocator under test, the tables and
    the performance index, composed as in the code.  The state is that of
    the driver together with the clocks of the host; the file system, the
    memory of the host and what the uninitialised [avg_mm_throughput] holds
    ([stale]) are parameters. *)

From Stdlib Require Import ZArith Lia SpecFloat.
From stdpp Require Import base gmap numbers list.
From S2P Require Import Prelude Memory Memlib Contract Ranges Driver TraceFile.
From S2P Require Import DriverSpec DriverUtil ErrorCount Doubles Ftimer Stats Options.

(** The state of the driver and whatever the timers depend on. *)
Record proc (T : Type) := Proc {
  p_drv : dst;
  p_time : T
}.
Arguments Proc {T}.
Arguments p_drv {T}.
Arguments p_time {T}.

Section Embedding.
Context {T : Type}.

Definition on_drv {X} (c : M dst X) : M (proc T) X := λ p,
  match c (p_drv p) with
  | Ok (x, d) => Ok (x, Proc d (p_time p))
  | Err e => Err e
  end.
Definition on_time {X} (c : M T X) : M (proc T) X := λ p,
  match c (p_time p) with
  | Ok (x, t) => Ok (x, Proc (p_drv p) t)
  | Err e => Err e
  end.

#[global] Instance proc_timers {TM : Timers T} : Timers (proc T) := {
  gettimeofday := on_time gettimeofday;
  setitimer i v w := on_time (setitimer i v w);
  getitimer i := on_time (getitimer i)
}.

(** The result of a function that does not change the state. *)
Definition of_res {X} (r : res X) : M (proc T) X := λ p,
  match r with
  | Ok x => Ok (x, p)
  | Err e => Err e
  end.

Lemma wpx_on_drv {X} E (c : M dst X) p (Q : X → proc T → Prop) :
  wpx E c (p_drv p) (λ x d, Q x (Proc d (p_time p))) → wpx E (on_drv c) p Q.
Proof. unfold wpx, on_drv. by destruct (c (p_drv p)) as [[x d]|]. Qed.
End Embedding.

(** What is printed before [exit(0)]. *)
Inductive verdict :=
  | PerfIndex (p : perf)
  | Terminated (errors : Z).

Record outcome := Outcome {
  libc_table : option (list row);
  mm_table : option (list row);
  result : verdict;
  autograder_line : option (Z * double)
}.

Definition sizeof_stats_t : Z := 28.

Section Main.
Context {T : Type} {TM : Timers T} {L : Libc} {RA : RangeAlloc}.

(** The allocator under test and that of the C library; [stale] is what
    [avg_mm_throughput] holds, which [main] never initialises (nor does it
    [libc_tput], but that one is always set before it is read). *)
Context (A C : Allocator) (host_malloc : Z → bool) (fopen : input → option input) (stale : double).

Abbreviation P := (proc T).

(** [read_trace], which also allocates the two arrays, and [free_trace]. *)
Definition load (dir : input) (name : option input) : M P trace_t :=
  match name with
  | Some n =>
      trace ← of_res (read_trace host_malloc fopen dir n);
      on_drv (modify (load_trace trace));;
      mret trace
  | None => fail UB
  end.
Definition free_trace : M dst unit := modify (λ d, set_d_blocks [] (set_d_sizes [] d)).

(** One round of the two loops over the trace files. *)
Definition libc_trace (dir : input) (i : Z) (name : option input) : M P stats_t :=
  trace ← load dir name;
  v ← on_drv (eval_libc_valid (C := C) trace i);
  secs ← (if negb (v =? 0) then fsecs (on_drv (eval_libc_speed (C := C) trace)) else mret zero);
  on_drv free_trace;;
  mret (Stats (of_Z (num_ops trace)) v secs zero).

Definition mm_trace (dir : input) (i : Z) (name : option input) : M P stats_t :=
  trace ← load dir name;
  v ← on_drv (eval_mm_valid (A := A) trace i);
  '(util, secs) ← (if negb (v =? 0) then
                     '(hwm, size) ← on_drv (eval_mm_util (A := A) trace);
                     secs ← fsecs (on_drv (eval_mm_speed (A := A) trace));
                     mret (ddiv (of_Z hwm) (of_Z size), secs)
                   else mret (zero, zero));
  on_drv free_trace;;
  mret (Stats (of_Z (num_ops trace)) v secs util).

Fixpoint each_trace (round : Z → option input → M P stats_t) (i : Z) (names : list (option input)) :
    M P (list stats_t) :=
  match names with
  | [] => mret []
  | name :: names' =>
      s ← round i name;
      l ← each_trace round (i + 1) names';
      mret (s :: l)
  end.

(** Testing libc malloc. *)
Definition libc_part (o : options) (files : list (option input)) : M P (option (list row)) :=
  if run_libc o then
    if host_malloc (num_tracefiles o * sizeof_stats_t) then
      stats ← each_trace (libc_trace (tracedir o)) 0 files;
      of_res (sumresults stats false false true stale);;
      mret (Some (printresults stats))
    else fail (Exit 1)
  else mret None.

(** The statistics, the performance index and the last lines. *)
Definition finish (o : options) (libc : option (list row)) (stats : list stats_t) : M P outcome :=
  let table := if negb (verbose o =? 0) then Some (printresults stats) else None in
  '(numcorrect, avg_util, avg_tput) ← of_res (sumresults stats true true true stale);
  errors ← on_drv (gets d_errors);
  '(v, perfindex) ← (if errors =? 0 then
                       match avg_util, avg_tput with
                       | Some u, Some t => let p := perf_index u t in mret (PerfIndex p, perfindex p)
                       | _, _ => fail UB
                       end
                     else mret (Terminated errors, zero));
  mret (Outcome libc table v (if autograder o then Some (numcorrect, perfindex) else None)).

(** [main] up to the tables of the allocator under test. *)
Definition evaluate (args : list opt) : M P (options * option (list row) * list stats_t) :=
  o ← of_res (read_options host_malloc args default_options);
  of_res (if team_check o then check_team team else Ok tt);;
  let o := default_files o in
  files ← match tracefiles o with
          | Some l => mret l
          | None => fail UB
          end;
  libc ← libc_part o files;
  (if host_malloc (num_tracefiles o * sizeof_stats_t) then mret tt else fail (Exit 1));;
  on_drv (lift mem_init);;
  stats ← each_trace (mm_trace (tracedir o)) 0 files;
  mret (o, libc, stats).

Definition main (args : list opt) : M P outcome :=
  '(o, libc, stats) ← evaluate args;
  finish o libc stats.
End Main.
