(* ===== verification/MainSpec.v ===== *)
(** * What the main program does

    The evaluation of sound trace files with a lawful allocator, what it asks
    of the allocators, alone ([memory_run]), and the relation between the
    error counter and the validity of the traces, which holds for every
    allocator and every file. *)

From Stdlib Require Import ZArith Lia SpecFloat.
From stdpp Require Import base gmap numbers list.
From S2P Require Import Prelude Memory Memlib Contract Ranges Driver Replay TraceFile.
From S2P Require Import DriverSpec DriverUtil ErrorCount Doubles Ftimer Stats Options Main.

(** ** Counting errors *)
Section Count.
Context {T : Type} {TM : Timers T} {L : Libc} {RA : RangeAlloc}.
Context (A C : Allocator) (host_malloc : Z → bool) (fopen : input → option input) (stale : double).

Abbreviation P := (proc T).

(** The errors a run adds to the counter. *)
Definition padds {X} (c : M P X) (n : X → Z) : Prop :=
  ∀ p x p', c p = Ok (x, p') → d_errors (p_drv p') = d_errors (p_drv p) + n x.

Lemma padds_ret {X} (x : X) n : n x = 0 → padds (mret x) n.
Proof. intros Hn p x' p' [= <- <-]. lia. Qed.

Lemma padds_fail {X} e n : padds (fail (A := X) e) n.
Proof. done. Qed.

Lemma padds_bind {X Y} (c : M P X) (k : X → M P Y) m n :
  padds c m → (∀ x, padds (k x) (λ y, n y - m x)) → padds (c ≫= k) n.
Proof.
  intros Hc Hk p y p'. unfold mbind, M_bind. destruct (c p) as [[x p1]|e] eqn:E; [|done].
  intros E2. apply Hk in E2. apply Hc in E. lia.
Qed.

(** A call that adds no error. *)
Lemma padds_skip {X Y} (c : M P X) (k : X → M P Y) n :
  padds c (λ _, 0) → (∀ x, padds (k x) n) → padds (c ≫= k) n.
Proof.
  intros Hc Hk. eapply padds_bind; [exact Hc|]. intros x p y p' H. apply Hk in H. lia.
Qed.

Lemma padds_drv {X} (c : M dst X) n : adds c n → padds (on_drv c) n.
Proof.
  intros Hc p x p'. unfold on_drv. destruct (c (p_drv p)) as [[y d]|] eqn:E; [|done].
  intros [= <- <-]. by apply Hc in E.
Qed.

Lemma padds_quiet {X} (c : M dst X) : pres d_errors c → padds (on_drv c) (λ _, 0).
Proof.
  intros Hc. apply padds_drv. intros d a d' H. apply Hc in H. lia.
Qed.

Lemma padds_time {X} (c : M T X) : padds (on_time c) (λ _, 0).
Proof.
  intros p x p'. unfold on_time. destruct (c (p_time p)) as [[y t]|]; [|done].
  intros [= <- <-]. cbn. lia.
Qed.

Lemma padds_res {X} (r : res X) : padds (of_res r) (λ _, 0).
Proof. intros p x p'. unfold of_res. destruct r; [|done]. intros [= <- <-]. lia. Qed.

Lemma padds_int_result z : padds (int_result z) (λ _, 0).
Proof. unfold int_result. destruct (int_range z); [by apply padds_ret|apply padds_fail]. Qed.

Lemma padds_runs n (f : M P unit) : padds f (λ _, 0) → padds (runs n f) (λ _, 0).
Proof.
  intros Hf. induction n as [|n IH]; cbn [runs]; [by apply padds_ret|].
  apply padds_skip; [exact Hf|]. intros _. apply IH.
Qed.

Lemma padds_fsecs (f : M P unit) : padds f (λ _, 0) → padds (fsecs f) (λ _, 0).
Proof.
  intros Hf. unfold fsecs, ftimer_gettod.
  apply padds_skip; [apply padds_time|]. intros [a b].
  apply padds_skip; [by apply padds_runs|]. intros _.
  apply padds_skip; [apply padds_time|]. intros [a' b'].
  do 2 (apply padds_skip; [apply padds_int_result|intros ?]). by apply padds_ret.
Qed.

Lemma padds_load dir name : padds (load host_malloc fopen dir name) (λ _, 0).
Proof.
  destruct name as [n|]; [|apply padds_fail]. unfold load.
  apply padds_skip; [apply padds_res|]. intros tr.
  apply padds_skip; [|intros _; by apply padds_ret].
  apply padds_quiet. by intros d a d' [= <- <-].
Qed.

Lemma padds_free_trace : padds (on_drv free_trace) (λ _, 0).
Proof. apply padds_quiet. by intros d a d' [= <- <-]. Qed.

Definition invalid_trace (s : stats_t) : Z := if valid s then 0 else 1.
Definition invalid_traces (l : list stats_t) : Z := Z.of_nat (length l - num_valid l).

(** A round reports one error if its trace turns out not to be valid. *)
Lemma padds_mm_trace dir i name : padds (mm_trace A host_malloc fopen dir i name) invalid_trace.
Proof.
  unfold mm_trace. apply padds_skip; [apply padds_load|]. intros tr.
  eapply padds_bind; [apply padds_drv, adds_eval_mm_valid|]. intros v.
  apply padds_skip.
  - destruct (v =? 0); cbn [negb]; [by apply padds_ret|].
    apply padds_skip; [apply padds_quiet, pres_eval_mm_util, _|]. intros [hwm size].
    apply padds_skip; [apply padds_fsecs, padds_quiet, pres_eval_mm_speed, _|]. intros secs.
    by apply padds_ret.
  - intros [util secs]. apply padds_skip; [apply padds_free_trace|]. intros _. apply padds_ret.
    unfold invalid_trace, valid, invalid. cbn [s_valid]. destruct (v =? 0); done.
Qed.

Lemma padds_libc_trace dir i name : padds (libc_trace C host_malloc fopen dir i name) (λ _, 0).
Proof.
  unfold libc_trace. apply padds_skip; [apply padds_load|]. intros tr.
  apply padds_skip; [apply padds_quiet, pres_eval_libc_valid, _|]. intros v.
  apply padds_skip.
  - destruct (v =? 0); cbn [negb]; [by apply padds_ret|].
    apply padds_fsecs, padds_quiet, pres_eval_libc_speed, _.
  - intros secs. apply padds_skip; [apply padds_free_trace|]. intros _. by apply padds_ret.
Qed.

Lemma padds_each (round : Z → option input → M P stats_t) n :
  (∀ i name, padds (round i name) n) → ∀ names i,
  padds (each_trace round i names) (λ l, foldr (λ s a, n s + a) 0 l).
Proof.
  intros Hr. induction names as [|name names IH]; intros i; cbn [each_trace]; [by apply padds_ret|].
  eapply padds_bind; [apply Hr|]. intros s. eapply padds_bind; [apply IH|]. intros l.
  apply padds_ret. cbn. lia.
Qed.

Lemma invalid_sum l : foldr (λ s a, invalid_trace s + a) 0 l = invalid_traces l.
Proof.
  unfold invalid_traces, num_valid. induction l as [|s l IH]; [done|].
  pose proof (num_valid_le l) as Hle. unfold num_valid in Hle.
  cbn [foldr]. rewrite IH, filter_cons. unfold invalid_trace. destruct (valid s).
  - rewrite decide_True by done. cbn [length]. lia.
  - rewrite decide_False by done. cbn [length]. lia.
Qed.

(** The counter after all traces is the number of those that failed. *)
Lemma padds_mm_traces dir names i :
  padds (each_trace (mm_trace A host_malloc fopen dir) i names) invalid_traces.
Proof.
  intros p l p' H. apply (padds_each _ _ (padds_mm_trace dir)) in H. by rewrite invalid_sum in H.
Qed.

(** What [finish] does, given the statistics.  It returns only if the
    throughput is positive, or, if a trace is not valid, what is left in the
    variable of [main] is. *)
Definition summary (o : options) (libc : option (list row)) (stats : list stats_t) : res outcome :=
  let util := ddiv (total s_util stats) (of_Z (Z.of_nat (length stats))) in
  let p := perf_index util (throughput stats stale) in
  let good := all_valid stats in
  if dlt zero (throughput stats stale)
  then Ok (Outcome libc (if verbose o =? 0 then None else Some (printresults stats))
             (if good then PerfIndex p else Terminated (invalid_traces stats))
             (if autograder o
              then Some (Z.of_nat (num_valid stats), if good then perfindex p else zero) else None))
  else Err AssertFail.

Lemma invalid_none stats : (invalid_traces stats =? 0) = all_valid stats.
Proof.
  unfold invalid_traces. pose proof (num_valid_le stats) as Hle. pose proof (num_valid_all stats) as Hall.
  apply eq_bool_prop_intro. rewrite !Is_true_true, Z.eqb_eq, <- Hall. lia.
Qed.

Lemma finish_summary o libc stats (p : P) :
  d_errors (p_drv p) = invalid_traces stats →
  finish stale o libc stats p = of_res (summary o libc stats) p.
Proof.
  intros He. unfold finish, summary, mbind, M_bind, of_res. rewrite sumresults_mm. cbv zeta.
  destruct (dlt zero _); [|done].
  unfold on_drv, gets. cbn [p_drv]. rewrite He, invalid_none. destruct p as [dr t].
  unfold mret, M_ret. cbn [p_drv p_time].
  destruct (all_valid stats), (verbose o =? 0), (autograder o); done.
Qed.

(** The whole program. *)
Lemma padds_evaluate args : padds (evaluate A C host_malloc fopen stale args) (λ r, invalid_traces r.2).
Proof.
  unfold evaluate. apply padds_skip; [apply padds_res|]. intros o.
  apply padds_skip; [apply padds_res|]. intros _. cbv zeta. apply padds_skip.
  { destruct (tracefiles (default_files o)); [by apply padds_ret|apply padds_fail]. }
  intros files. apply padds_skip.
  { unfold libc_part. destruct (run_libc _); [|by apply padds_ret].
    destruct (host_malloc _); [|apply padds_fail].
    apply padds_skip; [|intros l; apply padds_skip; [apply padds_res|intros _; by apply padds_ret]].
    intros q l q' H. apply (padds_each _ _ (padds_libc_trace (tracedir (default_files o)))) in H.
    rewrite H. f_equal. clear. by induction l. }
  intros libc. apply padds_skip.
  { destruct (host_malloc _); [by apply padds_ret|apply padds_fail]. }
  intros _. apply padds_skip; [apply padds_quiet, pres_lift, _|]. intros _.
  eapply padds_bind; [apply padds_mm_traces|]. intros stats. apply padds_ret. cbn. lia.
Qed.

(** [main] returns what [summary] says of the statistics it gathered. *)
Lemma main_run args p :
  d_errors (p_drv p) = 0 →
  main A C host_malloc fopen stale args p =
  match evaluate A C host_malloc fopen stale args p with
  | Ok ((o, libc, stats), p') => of_res (summary o libc stats) p'
  | Err e => Err e
  end.
Proof.
  intros He. unfold main, mbind at 1, M_bind at 1.
  destruct (evaluate A C host_malloc fopen stale args p) as [[[[o libc] stats] p1]|] eqn:Hev; [|done].
  apply padds_evaluate in Hev. cbv beta in Hev. cbn [snd] in Hev. rewrite He, Z.add_0_l in Hev.
  by apply finish_summary.
Qed.
End Count.

(** ** The memory the program asks for *)

(** What the rounds of [main] ask of the allocators, and nothing else: the
    replays of [eval_mm_valid], [eval_mm_util] and of the timed runs, each on
    a fresh heap, and for the C library those of [eval_libc_valid] and the
    timed runs.  The result is the validity of the trace, or [None] if a NULL
    makes the driver leave. *)
Section Requests.
Context {L : Libc}.

Definition mm_round {A : Allocator} (tr : trace_t) : M st (option bool) :=
  v ← mm_replay pattern tr;
  match v with
  | Some _ => then_ (mm_replay idle tr) (then_ (repeated timed_runs (mm_replay idle tr)) (mret (Some true)))
  | None => mret (Some false)
  end.

Definition libc_round {C : Allocator} (tr : trace_t) : M st (option bool) :=
  let run := replay idle (ops tr) ∅ in
  then_ run (then_ (repeated timed_runs run) (mret (Some true))).

Fixpoint all_rounds (round : trace_t → M st (option bool)) (trs : list trace_t) :
    M st (option (list bool)) :=
  match trs with
  | [] => mret (Some [])
  | tr :: trs' =>
      v ← round tr;
      match v with
      | Some b => l ← all_rounds round trs'; mret (cons b <$> l)
      | None => mret None
      end
  end.

(** The whole program; the result is the validity of every trace. *)
Definition memory_run (A C : Allocator) (wanted : bool) (trs : list trace_t) : M st (option (list bool)) :=
  then_ (if wanted then all_rounds (libc_round (C := C)) trs else mret (Some []))
    (mem_init;; all_rounds (mm_round (A := A)) trs).

Lemma all_rounds_next round tr trs b s s' :
  round tr s = Ok (Some b, s') →
  all_rounds round (tr :: trs) s = (l ← all_rounds round trs; mret (cons b <$> l)) s'.
Proof. intros E. cbn [all_rounds]. unfold mbind at 1, M_bind at 1. by rewrite E. Qed.

Lemma all_rounds_stops round tr trs s e :
  gives_up (round tr s) e → gives_up (all_rounds round (tr :: trs) s) e.
Proof.
  intros [-> H]. split; [done|]. cbn [all_rounds]. unfold mbind at 1, M_bind at 1.
  destruct H as [->|[s' ->]]; [by left|right; by exists s'].
Qed.

Lemma all_rounds_later round tr trs b s s' e :
  round tr s = Ok (Some b, s') → gives_up (all_rounds round trs s') e →
  gives_up (all_rounds round (tr :: trs) s) e.
Proof.
  intros E [-> H]. split; [done|]. rewrite (all_rounds_next _ _ _ _ _ _ E). unfold mbind, M_bind.
  destruct H as [->|[s2 ->]]; [by left|right; by exists s2].
Qed.

(** The loop over the traces, given what holds of one round. *)
Lemma wpx_rounds {T} (round : trace_t → M st (option bool)) (step : Z → option input → M (proc T) stats_t)
    (R : trace_t → stats_t → Prop) (I : proc T → Prop) (ok : input → trace_t → Prop) names trs :
  (∀ i n tr p, ok n tr → I p → wpx (gives_up (round tr (d_st (p_drv p)))) (step i (Some n)) p
     (λ s q, R tr s ∧ I q ∧ round tr (d_st (p_drv p)) = Ok (Some (valid s), d_st (p_drv q)))) →
  Forall2 ok names trs → ∀ i p, I p →
  wpx (gives_up (all_rounds round trs (d_st (p_drv p)))) (each_trace step i (map Some names)) p
    (λ l q, Forall2 R trs l ∧ I q ∧
            all_rounds round trs (d_st (p_drv p)) = Ok (Some (map valid l), d_st (p_drv q))).
Proof.
  intros Hstep. induction 1 as [|n tr names trs Hok _ IH]; intros i p Hp; [by apply wpx_ret|].
  cbn [map each_trace]. apply wpx_bind. eapply wpx_more.
  - eapply wpx_mono; [by apply (Hstep i n tr)|]. cbv beta. intros s q (HR & Hq & E).
    apply wpx_bind. eapply wpx_more.
    + eapply wpx_mono; [by apply IH|]. cbv beta. intros l q' (Hl & Hq' & E').
      apply wpx_ret. split; [by constructor|]. split; [done|].
      rewrite (all_rounds_next _ _ _ _ _ _ E). unfold mbind, M_bind. by rewrite E'.
    + intros e He. by eapply all_rounds_later.
  - intros e. apply all_rounds_stops.
Qed.
End Requests.

(** ** Sound traces *)

(** A trace the interpreters can be held to. *)
Definition sound_trace (N : Z) (tr : trace_t) : Prop :=
  disciplined N (num_ids tr) ∅ (ops tr) = true ∧ low_ids (ops tr) = true.

(** What is known about the statistics of a sound trace. *)
Definition trace_result (tr : trace_t) (s : stats_t) : Prop :=
  s_ops s = of_Z (num_ops tr) ∧
  ((s_valid s = 1 ∧ ∃ size, 0 ≤ high_water ∅ (ops tr) ≤ size ∧
      s_util s = ddiv (of_Z (high_water ∅ (ops tr))) (of_Z size)) ∨
   (s_valid s = 0 ∧ s_util s = zero ∧ s_secs s = zero)).

Lemma wpx_pres {X A} (f : dst → X) E (c : M dst A) d (Q : A → dst → Prop) :
  pres f c → wpx E c d Q → wpx E c d (λ a d', Q a d' ∧ f d' = f d).
Proof.
  intros Hp. unfold wpx. destruct (c d) as [[a d']|] eqn:Ec; [|done]. intros HQ. split; [done|].
  by eapply Hp.
Qed.

(** Readings of the clock are times of day. *)
Definition clock_sane (T : Type) {TM : Timers T} : Prop :=
  ∀ t : T, wp gettimeofday t (λ r _, 0 ≤ r.1 < 2147483648 ∧ 0 ≤ r.2 < 1000000).

Lemma clock_sane_ok {T} {TM : Timers T} (I : dst → Prop) :
  clock_sane T → clock_ok (λ p : proc T, I (p_drv p)).
Proof.
  intros Hclock p Hp. specialize (Hclock (p_time p)). revert Hclock.
  unfold wp. cbn [gettimeofday proc_timers]. unfold on_time.
  destruct (gettimeofday (p_time p)) as [[r t]|]; [|done]. by split.
Qed.

(** Timed runs, of a call that is a replay to the allocator. *)
Lemma wpx_timed_runs {T} {TM : Timers T} (f : M dst unit) (run : M st (option (gmap Z Z)))
    (I : dst → Prop) (p : proc T) :
  clock_sane T →
  (∀ d, I d → wpx (gives_up (run (d_st d))) f d (λ _ d', I d' ∧ ∃ σ, run (d_st d) = Ok (Some σ, d_st d'))) →
  I (p_drv p) →
  let all := repeated timed_runs run (d_st (p_drv p)) in
  wpx (gives_up all) (fsecs (on_drv f)) p (λ _ q, I (p_drv q) ∧ all = Ok (Some tt, d_st (p_drv q))).
Proof.
  intros Hclock Hf Hp all.
  eapply wpx_mono; [apply (wpx_fsecs _ _ (λ k q, I (p_drv q) ∧ all = repeated k run (d_st (p_drv q))))|].
  - intros k. by apply (clock_sane_ok (λ d, I d ∧ all = repeated k run (d_st d))).
  - intros k q [Hq ->]. apply wpx_on_drv. cbn [repeated]. eapply wpx_more.
    + eapply wpx_mono; [by apply Hf|]. cbv beta. intros _ d (Hd & σ & E). cbn [p_drv].
      split; [done|]. by apply (then_run _ _ σ).
    + intros e. apply then_gives_up.
  - by split.
  - cbv beta. intros _ q [Hq E]. split; [done|]. by rewrite E.
Qed.

(** ** The C library's allocator *)
Section LibcTraces.
Context {T : Type} {TM : Timers T} {L : Libc} {RA : RangeAlloc}.
Context {C : Allocator} (CL : AllocatorLaws C) (host_malloc : Z → bool) (fopen : input → option input).
Context (stale : double).
Variable N : Z.
Hypothesis HN : N < 2147483648.
Hypothesis Hclock : clock_sane T.

(** It can be asked for payloads, whatever it handed out before. *)
Definition libc_ready (s : st) : Prop := (∃ μ, holds s μ) ∧ may_request s N.

Definition libc_result (tr : trace_t) (s : stats_t) : Prop :=
  s_ops s = of_Z (num_ops tr) ∧ s_valid s = 1 ∧ s_util s = zero.

(** In the middle of a trace. *)
Definition libc_running (tr : trace_t) (d : dst) : Prop :=
  libc_ready (d_st d) ∧ length (d_blocks d) = Z.to_nat (num_ids tr).

Lemma plain_running tr last run d : plain_outcome N (num_ids tr) last run d → libc_running tr d.
Proof.
  intros (o & μ & Hd & _). split; [split|apply (dv_blocks _ _ _ _ _ Hd)].
  - exists μ. apply (dv_holds _ _ _ _ _ Hd).
  - apply (dv_request _ _ _ _ _ Hd).
Qed.

Lemma wpx_libc_timed tr (p : proc T) :
  disciplined N (num_ids tr) ∅ (ops tr) = true → libc_running tr (p_drv p) →
  let all := repeated timed_runs (replay (A := C) idle (ops tr) ∅) (d_st (p_drv p)) in
  wpx (gives_up all) (fsecs (on_drv (eval_libc_speed (C := C) tr))) p
    (λ _ q, libc_running tr (p_drv q) ∧ all = Ok (Some tt, d_st (p_drv q))).
Proof.
  intros Hdis Hp. apply wpx_timed_runs; [done| |done]. intros d [[[μ Hh] Hm] Hb].
  eapply wpx_more; [|intros e; apply refused_gives_up].
  eapply wpx_mono; [by eapply (wp_eval_libc_speed N (num_ids tr) HN)|].
  cbv beta. intros _ d' Hd'. split; [by eapply plain_running|].
  destruct Hd' as (o & μ' & _ & _ & E). by eexists.
Qed.

Lemma wpx_libc_trace dir i n tr (p : proc T) :
  read_trace host_malloc fopen dir n = Ok tr → disciplined N (num_ids tr) ∅ (ops tr) = true →
  libc_ready (d_st (p_drv p)) →
  let run := libc_round (C := C) tr (d_st (p_drv p)) in
  wpx (gives_up run) (libc_trace C host_malloc fopen dir i (Some n)) p
    (λ s q, libc_result tr s ∧ libc_ready (d_st (p_drv q)) ∧ run = Ok (Some (valid s), d_st (p_drv q))).
Proof.
  intros Hread Hdis [[μ Hh] Hm] run.
  unfold libc_trace, load. apply wpx_bind, wpx_bind. unfold of_res at 1, wpx at 1. rewrite Hread.
  apply wpx_bind, wpx_on_drv. apply wp_wpx, wp_modify. apply wpx_ret.
  apply wpx_bind, wpx_on_drv. cbn [p_drv p_time]. eapply wpx_more.
  { eapply wpx_mono.
    { apply (wp_eval_libc_valid N (num_ids tr) HN _ μ); [exact Hh|exact Hm| |exact Hdis].
      cbn. by rewrite length_replicate. }
    cbv beta. intros v d [-> Hd]. cbn [Z.eqb negb]. pose proof (plain_running _ _ _ _ Hd) as Hrun.
    destruct Hd as (o & μ' & _ & _ & E).
    assert (Er : run = then_ (repeated timed_runs (replay idle (ops tr) ∅)) (mret (Some true)) (d_st d)).
    { by apply (then_run _ _ (fst <$> o)). }
    apply wpx_bind. eapply wpx_more.
    { eapply wpx_mono; [by apply (wpx_libc_timed tr)|]. cbv beta. intros secs q [[Hq _] Eq].
      apply wpx_bind, wpx_on_drv, wp_wpx, wp_modify. apply wpx_ret. split; [done|]. split; [done|].
      by rewrite Er, (then_run _ _ _ _ _ Eq). }
    rewrite Er. intros e. apply then_gives_up. }
  intros e He. by apply then_gives_up, refused_gives_up.
Qed.

(** What is known of the table for the C library's allocator. *)
Definition libc_table_ok (trs : list trace_t) (wanted : bool) (t : option (list row)) : Prop :=
  if wanted then ∃ stats, Forall2 libc_result trs stats ∧ t = Some (printresults stats) else t = None.

(** The assertion of [sumresults] stops the program if the throughput is
    not positive. *)
Definition libc_stops (trs : list trace_t) (wanted : bool) (e : err) : Prop :=
  wanted = true ∧ e = AssertFail ∧ ∃ stats, Forall2 libc_result trs stats ∧
  dlt zero (ddiv (total s_ops stats) (total s_secs stats)) = false.

Definition libc_run (wanted : bool) (trs : list trace_t) : M st (option (list bool)) :=
  if wanted then all_rounds (libc_round (C := C)) trs else mret (Some []).

Lemma wpx_libc_part o names trs (p : proc T) :
  (∀ n, host_malloc n = true) →
  Forall2 (λ n tr, read_trace host_malloc fopen (tracedir o) n = Ok tr ∧ sound_trace N tr) names trs →
  (run_libc o = true → libc_ready (d_st (p_drv p))) →
  let run := libc_run (run_libc o) trs (d_st (p_drv p)) in
  wpx (λ e, gives_up run e ∨ libc_stops trs (run_libc o) e)
    (libc_part C host_malloc fopen stale o (map Some names)) p
    (λ t q, libc_table_ok trs (run_libc o) t ∧ ∃ l, run = Ok (Some l, d_st (p_drv q))).
Proof.
  intros Hm Hf Hr. unfold libc_part, libc_run.
  destruct (run_libc o); [|apply wpx_ret; split; [done|by eexists]].
  rewrite Hm. apply wpx_bind. eapply wpx_more; [|by left].
  eapply wpx_mono.
  { apply (wpx_rounds libc_round (libc_trace C host_malloc fopen (tracedir o)) libc_result
             (λ q, libc_ready (d_st (p_drv q))) _ _ _
             (λ i n tr q H Hq, wpx_libc_trace _ i n tr q (proj1 H) (proj1 (proj2 H)) Hq) Hf).
    by apply Hr. }
  cbv beta. intros l q (Hl & _ & E).
  apply wpx_bind. unfold of_res, wpx. rewrite sumresults_libc. cbv zeta.
  destruct (dlt zero _) eqn:Et; [|right; split_and!; [done|done|by exists l]].
  split; [by exists l|by eexists].
Qed.
End LibcTraces.

Section Sound.
Context {T : Type} {TM : Timers T} {L : Libc} {RA : RangeAlloc}.
Context {A : Allocator} (AL : AllocatorLaws A) (host_malloc : Z → bool) (fopen : input → option input).
Context (stale : double).
Variable N : Z.
Hypothesis HN : N < 2147483648.
Hypothesis Hranges : ∀ l, range_alloc l = true.
Hypothesis Hstarts : ∀ s, starts N s.
Hypothesis Hclock : clock_sane T.

(** Timing the trace leaves the arrays in place. *)
Lemma wpx_timed tr (p : proc T) :
  sound_trace N tr → length (d_blocks (p_drv p)) = Z.to_nat (num_ids tr) →
  let all := repeated timed_runs (mm_replay (A := A) idle tr) (d_st (p_drv p)) in
  wpx (gives_up all) (fsecs (on_drv (eval_mm_speed (A := A) tr))) p
    (λ _ q, all = Ok (Some tt, d_st (p_drv q))).
Proof.
  intros [Hdis _] Hb all. eapply wpx_mono.
  - apply (wpx_timed_runs _ (mm_replay idle tr) (λ d, length (d_blocks d) = Z.to_nat (num_ids tr)));
      [done| |exact Hb].
    intros d Hd. eapply wpx_mono; [by apply (wp_eval_mm_speed N (num_ids tr) HN)|].
    cbv beta. intros _ d' (o & μ & Hd' & _ & E). split; [apply (dv_blocks _ _ _ _ _ Hd')|by eexists].
  - by intros _ q [_ ?].
Qed.

(** The utilisation and the time of a valid trace. *)
Definition measured (tr : trace_t) (u : double * double) : Prop :=
  ∃ size, 0 ≤ high_water ∅ (ops tr) ≤ size ∧ u.1 = ddiv (of_Z (high_water ∅ (ops tr))) (of_Z size).

Lemma wpx_measure tr (p : proc T) :
  sound_trace N tr → lengths (p_drv p) = (Z.to_nat (num_ids tr), Z.to_nat (num_ids tr)) →
  let run := then_ (mm_replay (A := A) idle tr) (repeated timed_runs (mm_replay idle tr)) (d_st (p_drv p)) in
  wpx (gives_up run)
    ('(hwm, size) ← on_drv (eval_mm_util (A := A) tr);
     secs ← fsecs (on_drv (eval_mm_speed (A := A) tr));
     mret (ddiv (of_Z hwm) (of_Z size), secs)) p
    (λ u q, measured tr u ∧ run = Ok (Some tt, d_st (p_drv q))).
Proof.
  intros Hsound Hlen run. pose proof Hsound as [Hdis _]. injection Hlen as Hb1 Hb2.
  apply wpx_bind, wpx_on_drv. eapply wpx_more; [|intros e; apply then_gives_up].
  eapply wpx_mono.
  { apply (wpx_pres lengths); [apply pres_eval_mm_util, _|].
    by apply (wp_eval_mm_util N (num_ids tr) HN). }
  cbv beta. intros [hwm size] d' [(Hr & Hle & σ & E) Hl]. cbn [fst snd] in *. injection Hr as -> ->.
  injection Hl as Hl1 _. subst run. rewrite (then_run _ _ _ _ _ E).
  apply wpx_bind. eapply wpx_mono; [apply (wpx_timed tr); [done|cbn; congruence]|].
  cbv beta. intros secs q Eq. apply wpx_ret. split; [by eexists|exact Eq].
Qed.

Lemma mm_round_valid tr s s' σ :
  mm_replay pattern tr s = Ok (Some σ, s') →
  mm_round (A := A) tr s =
    then_ (then_ (mm_replay idle tr) (repeated timed_runs (mm_replay idle tr))) (mret (Some true)) s'.
Proof.
  intros E. unfold mm_round, then_, mbind, M_bind. rewrite E.
  by destruct (mm_replay idle tr s') as [[[] s2]|].
Qed.

Lemma mm_round_null tr s s' :
  mm_replay pattern tr s = Ok (None, s') → mm_round (A := A) tr s = Ok (Some false, s').
Proof. intros E. unfold mm_round, mbind, M_bind. by rewrite E. Qed.

Lemma mm_round_starts tr s e :
  mm_replay pattern tr s = Err e → mm_round (A := A) tr s = Err e.
Proof. intros E. unfold mm_round, mbind, M_bind. by rewrite E. Qed.

(** The end of a round. *)
Lemma wpx_round_end tr util secs v (q : proc T) E (R : stats_t → Prop) s :
  R (Stats (of_Z (num_ops tr)) v secs util) → d_st (p_drv q) = s →
  wpx E (on_drv (T := T) free_trace;; mret (Stats (of_Z (num_ops tr)) v secs util)) q
    (λ st q', R st ∧ d_st (p_drv q') = s ∧ s_valid st = v).
Proof. intros HR Hs. apply wpx_bind, wpx_on_drv, wp_wpx, wp_modify. by apply wpx_ret. Qed.

Lemma wpx_mm_trace dir i n tr (p : proc T) :
  read_trace host_malloc fopen dir n = Ok tr → sound_trace N tr →
  let run := mm_round (A := A) tr (d_st (p_drv p)) in
  wpx (gives_up run) (mm_trace A host_malloc fopen dir i (Some n)) p
    (λ s q, trace_result tr s ∧ True ∧ run = Ok (Some (valid s), d_st (p_drv q))).
Proof.
  intros Hread Hsound run. pose proof Hsound as [Hdis Hlow].
  unfold mm_trace, load. apply wpx_bind, wpx_bind. unfold of_res at 1, wpx at 1. rewrite Hread.
  apply wpx_bind, wpx_on_drv. apply wp_wpx, wp_modify. apply wpx_ret.
  apply wpx_bind, wpx_on_drv. cbn [p_drv p_time].
  eapply wpx_more.
  - eapply wpx_mono.
    { apply (wpx_eval_mm_valid N (num_ids tr) HN Hranges _ tr i); [apply Hstarts| | |done|done];
        cbn; by rewrite length_replicate. }
    intros v d Hv. apply wpx_bind. destruct Hv as [(-> & _ & o & μ & Hvi & _ & E)|(-> & _ & E)]; cbn [Z.eqb negb];
      change (d_st (load_trace tr (p_drv p))) with (d_st (p_drv p)) in E.
    + assert (Er := mm_round_valid _ _ _ _ E). fold run in Er.
      assert (Hlen : lengths d = (Z.to_nat (num_ids tr), Z.to_nat (num_ids tr))).
      { unfold lengths. f_equal; [apply (dv_blocks _ _ _ _ _ (vi_dinv _ _ _ _ _ Hvi))|apply (vi_sizes _ _ _ _ _ Hvi)]. }
      eapply wpx_more.
      * eapply wpx_mono; [by apply (wpx_measure tr)|]. cbv beta. intros [util secs] q [Hu Eq].
        eapply wpx_mono; [apply (wpx_round_end tr util secs 1 q _ (trace_result tr)); [|done]|].
        { split; [done|]. by left. }
        cbv beta. intros s q' (Hs & Eqs & Ev). split; [done|]. split; [done|].
        rewrite Er, (then_run _ _ _ _ _ Eq), Eqs. unfold valid. by rewrite Ev.
      * rewrite Er. intros e. apply then_gives_up.
    + apply wpx_ret.
      eapply wpx_mono; [apply (wpx_round_end tr zero zero 0 _ _ (trace_result tr)); [|done]|].
      { split; [done|]. by right. }
      cbv beta. intros s q' (Hs & Eqs & Ev). split; [done|]. split; [done|].
      subst run. rewrite (mm_round_null _ _ _ E), Eqs. unfold valid. by rewrite Ev.
  - intros e [-> E]. split; [done|]. left. by apply mm_round_starts.
Qed.

(** All traces. *)
Lemma wpx_mm_traces dir names trs i (p : proc T) :
  Forall2 (λ n tr, read_trace host_malloc fopen dir n = Ok tr ∧ sound_trace N tr) names trs →
  let run := all_rounds (mm_round (A := A)) trs (d_st (p_drv p)) in
  wpx (gives_up run) (each_trace (mm_trace A host_malloc fopen dir) i (map Some names)) p
    (λ l q, Forall2 trace_result trs l ∧ run = Ok (Some (map valid l), d_st (p_drv q))).
Proof.
  intros Hf run. eapply wpx_mono.
  - apply (wpx_rounds mm_round (mm_trace A host_malloc fopen dir) trace_result (λ _, True) _ _ _
             (λ i n tr q H _, wpx_mm_trace _ i n tr q (proj1 H) (proj2 H)) Hf). done.
  - by intros l q (? & _ & ?).
Qed.

(** ** The program up to the summary *)
Lemma default_files_same o :
  run_libc (default_files o) = run_libc o ∧ tracedir (default_files o) = tracedir o.
Proof. unfold default_files. by destruct (tracefiles o). Qed.

(** From [mem_init] on. *)
Lemma wpx_mm_part dir names trs (p : proc T) :
  Forall2 (λ n tr, read_trace host_malloc fopen dir n = Ok tr ∧ sound_trace N tr) names trs →
  let run := (mem_init;; all_rounds (mm_round (A := A)) trs) (d_st (p_drv p)) in
  wpx (gives_up run)
    (on_drv (lift mem_init);; each_trace (mm_trace A host_malloc fopen dir) 0 (map Some names)) p
    (λ l q, Forall2 trace_result trs l ∧ run = Ok (Some (map valid l), d_st (p_drv q))).
Proof.
  intros Hf run. pose proof (wpx_mem_init (d_st (p_drv p)) (λ _ _, True) (λ _, I)) as H.
  unfold wpx, exits in H. apply wpx_bind, wpx_on_drv, wpx_lift.
  destruct (mem_init (d_st (p_drv p))) as [[[] s]|e] eqn:Ei.
  - assert (Er : run = all_rounds mm_round trs s) by (unfold run, mbind, M_bind; by rewrite Ei).
    unfold wpx at 1. rewrite Er, Ei.
    by apply (wpx_mm_traces dir names trs 0 (Proc (set_d_st s (p_drv p)) (p_time p))).
  - assert (Er : run = Err e) by (unfold run, mbind, M_bind; by rewrite Ei).
    unfold wpx at 1. rewrite Er, Ei, H. by split; [|left].
Qed.

(** Why the program stops before the summary: memory ran out, or the
    throughput of the C library's allocator is not positive. *)
Definition stops_early {C : Allocator} (trs : list trace_t) (wanted : bool) (s : st) (e : err) : Prop :=
  gives_up (memory_run A C wanted trs s) e ∨ libc_stops trs wanted e.

Lemma wpx_evaluate {C : Allocator} (CL : AllocatorLaws C) args trs (p : proc T) :
  (∀ n, host_malloc n = true) → forallb plain_opt args = true →
  Forall2 (λ n tr, read_trace host_malloc fopen (where_traces args).1 n = Ok tr ∧ sound_trace N tr)
    (trace_names args) trs →
  (Opt_l ∈ args → libc_ready CL N (d_st (p_drv p))) →
  let wanted := bool_decide (Opt_l ∈ args) in
  wpx (stops_early (C := C) trs wanted (d_st (p_drv p))) (evaluate A C host_malloc fopen stale args) p
    (λ r q, (∃ o, options_are args o ∧ r.1.1 = default_files o) ∧
            libc_table_ok trs wanted r.1.2 ∧ Forall2 trace_result trs r.2 ∧
            memory_run A C wanted trs (d_st (p_drv p)) = Ok (Some (map valid r.2), d_st (p_drv q))).
Proof.
  intros Hm Hp Hf Hc wanted. destruct (read_options_are host_malloc Hm args Hp) as (o & E & Ho).
  pose proof (options_files _ _ Ho) as Hfiles. destruct (default_files_same o) as [Hl Hd].
  rewrite (oa_libc _ _ Ho) in Hl. fold wanted in Hl. rewrite <- (oa_where _ _ Ho) in Hf.
  cbn [fst] in Hf. rewrite <- Hd in Hf.
  unfold evaluate. apply wpx_bind. unfold of_res at 1, wpx at 1. rewrite E.
  apply wpx_bind. assert (Ht : (if team_check o then check_team team else Ok tt) = Ok tt)
    by by destruct (team_check o).
  unfold of_res at 1, wpx at 1. rewrite Ht. cbv zeta. rewrite Hfiles.
  apply wpx_bind, wpx_ret, wpx_bind. rewrite <- Hl. eapply wpx_more.
  - eapply wpx_mono; [apply (wpx_libc_part CL host_malloc fopen stale N HN Hclock); [done|exact Hf|]|].
    { rewrite Hl. intros Hw. apply Hc. by apply bool_decide_eq_true in Hw. }
    cbv beta. intros t q [Ht' [l El]]. rewrite Hm. apply wpx_bind, wpx_ret.
    unfold stops_early. set (run := memory_run _ _ _ _ _).
    assert (Er : run = (mem_init;; all_rounds (mm_round (A := A)) trs) (d_st (p_drv q))).
    { by apply (then_run _ _ l). }
    pose proof (wpx_mm_part (tracedir (default_files o)) _ _ q Hf) as H.
    cbv zeta in H. rewrite <- Er in H. clearbody run. clear Er.
    eapply wpx_more; [|intros e He; by left].
    unfold wpx, mbind, M_bind in *. destruct (on_drv (lift mem_init) q) as [[[] q1]|]; [|exact H].
    destruct (each_trace _ _ _ q1) as [[st q2]|]; [|exact H].
    split; [by exists o|]. split; [done|]. exact H.
  - intros e [He|He]; [left|by right]. by apply then_gives_up.
Qed.
End Sound.
