(* ===== verification/MmTheorems.v ===== *)
(** * The properties of the allocator (src/mm.c and src/memlib.c)

    Total correctness of the entry points and of the routines under them on
    every branch, the safety of client programs, the arithmetic of sizes and
    tags, and the places where the code does not do what it means to; each
    property is followed by an instance at the states of [Demo]. *)

From Stdlib Require Import ZArith Lia.
From stdpp Require Import base gmap numbers list.
From S2P Require Import Prelude Memory Memlib Contract Sizes Blocks FreeList Heap HeapRules.
From S2P Require Import Coalesce Alloc Malloc MmCheck MmAllocator MmChecked Demo.

(** ** The entry points *)



(** C2. [mm_free] of a live payload returns, re-establishes the heap
    invariant and makes exactly that payload disappear from the live ones;
    the block becomes free and is joined with its free neighbours as far as
    the tags show them. *)
Theorem mm_free_correct {L : Libc} s h p d :
  rep s h → live_map h !! p = Some d →
  ∃ s' h', mm_free p s = Ok (tt, s') ∧ rep s' h' ∧ freed h p h' ∧ only_upd s s' ∧
           live_map h' = delete p (live_map h).
Proof.
  intros Hrep Hp. destruct (live_blocks _ _ _ _ Hrep Hp) as (b & Hb & <- & Hd & _).
  assert (H : wp (mm_free (b_addr b)) s (λ _ s', ∃ h', rep s' h' ∧ freed h (b_addr b) h' ∧
            only_upd s s' ∧ live_map h' = delete (b_addr b) (live_map h))).
  { eapply wp_mm_free; [done..|]. intros s' h' Hu Hrep' Hf. exists h'.
    split_and!; [done..|]. by eapply freed_live_map; [apply (rp_irep _ _ Hrep)|]. }
  apply wp_run in H as ([] & s' & E & h' & H). by exists s', h'.
Qed.

Lemma mm_free_correct_witness :
  ∃ h s' h', mm_free demo_p demo_st1 = Ok (tt, s') ∧ rep s' h' ∧ freed h demo_p h' ∧
    only_upd demo_st1 s' ∧ live_map h' = delete demo_p (live_map h).
Proof.
  destruct demo_malloc as (h & d & Hrep & El & _). exists h.
  apply (mm_free_correct demo_st1 h demo_p d Hrep). rewrite El. apply lookup_singleton_eq.
Defined.

(** C3. [mm_realloc] of a live payload returns: NULL leaves the old payload
    and every other one alone; otherwise the old payload is gone, the new
    one is fresh, aligned and large enough, it starts with the bytes of the
    old one up to the smaller of the two sizes, and all other payloads and
    the memory outside the heap are unchanged. *)
Theorem mm_realloc_correct {L : Libc} s h p d size :
  rep s h → live_map h !! p = Some d → 0 < size ≤ 4294967284 → no_wrap s size →
  ∃ q s', mm_realloc p size s = Ok (q, s') ∧
    ((q = 0 ∧ s' = set_errno ENOMEM s ∧ rep s' h) ∨
     (∃ h' e, rep s' h' ∧ grown s s' ∧ live_map h !! q = None ∧
        live_map h' = <[q := e]> (delete p (live_map h)) ∧
        (8 | q) ∧ size ≤ Z.of_nat (length e) ∧
        (let k := Z.to_nat size `min` length d in take k e = take k d)%nat)).
Proof.
  intros Hrep Hp Hs Hw. destruct (live_blocks _ _ _ _ Hrep Hp) as (b & Hb & <- & Hd & _).
  apply (wp_run _ _ (λ q s', _ ∨ _)).
  eapply wp_mm_realloc; [done..| |].
  - intros s' h' q e Hf Hrep' El Hn H8 Hlen _ _ k Hk. right. exists h', e. by split_and!.
  - intros _. left. split_and!; [done|done|by apply rep_errno].
Qed.

Lemma mm_realloc_correct_witness :
  ∃ h d q s', mm_realloc demo_p 40 demo_st1 = Ok (q, s') ∧
    ((q = 0 ∧ s' = set_errno ENOMEM demo_st1 ∧ rep s' h) ∨
     (∃ h' e, rep s' h' ∧ grown demo_st1 s' ∧ live_map h !! q = None ∧
        live_map h' = <[q := e]> (delete demo_p (live_map h)) ∧
        (8 | q) ∧ 40 ≤ Z.of_nat (length e) ∧
        (let k := Z.to_nat 40 `min` length d in take k e = take k d)%nat)).
Proof.
  destruct demo_malloc as (h & d & Hrep & El & _ & Hw). exists h, d.
  apply (mm_realloc_correct demo_st1 h demo_p d 40 Hrep); [|lia|exact Hw].
  rewrite El. apply lookup_singleton_eq.
Defined.

(** C4. [mm_init] obtains an arena from the C library and lays out an empty
    heap in it: the invariant holds with a single free block of the adjusted
    double page size, nothing is live, and it returns 0. *)
Theorem mm_init_correct {L : Libc} (HL : LibcOk L) s :
  libc_malloc (arenas s) MAX_HEAP ≠ 0 →
  let B := libc_malloc (arenas s) MAX_HEAP in
  let n := ADJUST_BYTESIZE (mul32 (u32 libc_getpagesize) 2) in
  ∃ s', mm_init s = Ok (0, s') ∧ rep s' (init_heap B n) ∧ live_map (init_heap B n) = ∅ ∧
        mem_start_brk s' = B ∧ mem_brk s' = B + n + 16 ∧ arenas s' = B :: arenas s.
Proof.
  intros HB B n.
  assert (H : wp mm_init s (λ r s', r = 0 ∧ rep s' (init_heap B n) ∧ mem_start_brk s' = B ∧
                              mem_brk s' = B + n + 16 ∧ arenas s' = B :: arenas s)).
  { apply (wp_mm_init HL); [done|]. intros s' Hrep H1 H2 _ H4 _ _. by split_and!. }
  apply wp_run in H as (r & s' & E & -> & Hrep & H1 & H2 & H3).
  exists s'. by split_and!.
Qed.

Lemma mm_init_correct_witness :
  let B := libc_malloc (arenas st0) MAX_HEAP in
  let n := ADJUST_BYTESIZE (mul32 (u32 libc_getpagesize) 2) in
  ∃ s', mm_init st0 = Ok (0, s') ∧ rep s' (init_heap B n) ∧ live_map (init_heap B n) = ∅ ∧
        mem_start_brk s' = B ∧ mem_brk s' = B + n + 16 ∧ arenas s' = B :: arenas st0.
Proof. apply (mm_init_correct demo_libc_ok st0). by vm_compute. Defined.

(** C5. A program that starts with [mm_init] and from then on only makes
    requests of 1 to [N] bytes, frees or reallocates pointers it holds and
    writes within what it asked for, is safe: each further such request runs
    to its end (no access outside the arenas, no failing assertion, no
    endless loop), and the pointers it holds are aligned, in the heap and
    pairwise disjoint over the sizes it asked for. *)
Theorem mm_client_safe {L : Libc} (HL : LibcOk L) N s0 s σ :
  mm_may_init s0 N → client_reach N s0 s σ →
  (∀ r, allowed N σ r → ∃ σ' s', perform r σ s = Ok (σ', s')) ∧
  (∀ p n, σ !! p = Some n →
     (8 | p) ∧ mem_start_brk s ≤ p ∧ p + n ≤ mem_brk s) ∧
  (∀ p n q m, σ !! p = Some n → σ !! q = Some m → p ≠ q → p + n ≤ q ∨ q + m ≤ p).
Proof.
  intros Hi Hreach.
  pose proof (client_reach_inv (AL := mm_allocator_laws HL) _ _ _ _ Hi Hreach) as Hinv.
  split_and!.
  - intros r Hr. pose proof (perform_ok _ _ _ _ Hinv Hr) as H.
    apply wp_run in H as (σ' & s' & E & _). eauto.
  - intros p n Hp. destruct Hinv as (_ & μ & Hh & Hb).
    destruct (backs_lookup _ _ _ _ Hb Hp) as (d & Hd & Hle).
    destruct (law_payload _ _ _ _ Hh Hd) as (Hal & Hlo & Hhi & _).
    split_and!; [exact Hal|done|lia].
  - intros p n q m Hp Hq Hne. destruct Hinv as (_ & μ & Hh & Hb).
    destruct (backs_lookup _ _ _ _ Hb Hp) as (d & Hd & Hle).
    destruct (backs_lookup _ _ _ _ Hb Hq) as (e & He & Hle').
    pose proof (law_apart _ _ _ _ _ _ Hh Hd He Hne) as H. unfold apart_payloads in H. lia.
Qed.

Lemma demo_may_init : mm_may_init st0 1048576.
Proof. unfold mm_may_init. destruct demo_env as [-> _]. rewrite MAX_HEAP_eq. done. Qed.

Lemma mm_client_safe_witness :
  (∀ r, allowed 1048576 ∅ r → ∃ σ' s', perform r ∅ demo_st = Ok (σ', s')) ∧
  (∀ p n, (∅ : gmap Z Z) !! p = Some n →
     (8 | p) ∧ mem_start_brk demo_st ≤ p ∧ p + n ≤ mem_brk demo_st) ∧
  (∀ p n q m, (∅ : gmap Z Z) !! p = Some n → (∅ : gmap Z Z) !! q = Some m → p ≠ q →
     p + n ≤ q ∨ q + m ≤ p).
Proof.
  apply (mm_client_safe demo_libc_ok 1048576 st0 demo_st ∅ demo_may_init).
  apply reach_init. apply demo_init.
Defined.

(** C10. The build with [DO_MM_CHECK] refines the default one, with or
    without the scan for overwritten memory.  Its [mm_init] succeeds; from
    then on, in every state a well-behaved client reaches, an allowed request
    does exactly what it does in the default build or stops at an assertion
    of [mm_check]; and it does not stop as long as the heap spans at most
    [MAX_BLOCK_ALLOCSIZE] bytes. *)
Theorem mm_checked_build {L : Libc} (HL : LibcOk L) overwrite N s0 :
  mm_may_init s0 N →
  (∃ s, mm_init_checked overwrite s0 = Ok (0, s)) ∧
  ∀ s σ r, client_reach (A := mm_allocator_checked overwrite) N s0 s σ → allowed N σ r →
    ∃ σ' s', perform (A := mm_allocator) r σ s = Ok (σ', s') ∧
      (perform (A := mm_allocator_checked overwrite) r σ s = Ok (σ', s') ∨
       perform (A := mm_allocator_checked overwrite) r σ s = Err AssertFail) ∧
      (mem_brk s' - mem_start_brk s' ≤ MAX_BLOCK_ALLOCSIZE →
       perform (A := mm_allocator_checked overwrite) r σ s = Ok (σ', s')).
Proof.
  intros Hi. split.
  - assert (H : wp (mm_init_checked overwrite) s0 (λ r _, r = 0)) by (by apply (wp_init_checked overwrite HL N)).
    apply wp_run in H as (r & s & E & ->). by exists s.
  - intros s σ r Hreach Ha. destruct (checked_reach_inv _ HL _ _ _ _ Hi Hreach) as [Hinv Hc].
    pose proof (perform_ok _ _ _ _ Hinv Ha) as H. apply wp_run in H as (σ' & s' & E & _).
    exists σ', s'. split; [done|]. destruct (perform_agrees overwrite HL _ _ _ _ Hinv Ha _ _ E) as [H1 H2].
    split; [done|]. intros Hs. by apply H2.
Qed.

Lemma mm_checked_build_witness :
  (∃ s, mm_init_checked true st0 = Ok (0, s)) ∧
  ∀ s σ r, client_reach (A := mm_allocator_checked true) 1048576 st0 s σ → allowed 1048576 σ r →
    ∃ σ' s', perform (A := mm_allocator) r σ s = Ok (σ', s') ∧
      (perform (A := mm_allocator_checked true) r σ s = Ok (σ', s') ∨
       perform (A := mm_allocator_checked true) r σ s = Err AssertFail) ∧
      (mem_brk s' - mem_start_brk s' ≤ MAX_BLOCK_ALLOCSIZE →
       perform (A := mm_allocator_checked true) r σ s = Ok (σ', s')).
Proof. exact (mm_checked_build demo_libc_ok true 1048576 st0 demo_may_init). Defined.

(** ** The routines under them *)

(** C12. [coalesce] on a block that is not allocated and not in a list joins
    it with the following block if that is free, and with the one before it
    if its PREVALLOC bit is clear, takes the joined blocks out of their
    lists, appends the result to the list of its size class, and returns the
    payload pointer of the joined block. *)
Theorem coalesce_correct {L : Libc} s l1 b l2 fls epi :
  irep s (Heap (l1 ++ b :: l2) fls epi) → b_state b = Loose →
  Forall (λ c, b_state c ≠ Loose) l1 → Forall (λ c, b_state c ≠ Loose) l2 →
  pflags false (l1 ++ b :: l2) epi →
  ∃ s' l1' b' l2' fls', coalesce (b_addr b) s = Ok (b_addr b', s') ∧ only_upd s s' ∧
    coalesced l1 b l2 fls l1' b' l2' fls' ∧
    rep s' (Heap (l1' ++ set_state Free b' :: l2') (enlist_blk b' fls') epi).
Proof.
  intros Hr Hb H1 H2 Hp.
  assert (H : wp (coalesce (b_addr b)) s (λ p s', ∃ l1' b' l2' fls', p = b_addr b' ∧ only_upd s s' ∧
    coalesced l1 b l2 fls l1' b' l2' fls' ∧
    rep s' (Heap (l1' ++ set_state Free b' :: l2') (enlist_blk b' fls') epi))).
  { apply (wp_coalesce s l1 b l2 fls epi); [done..|].
    intros s' l1' b' l2' fls' Hu Hc Hrep. exists l1', b', l2', fls'. by split_and!. }
  apply wp_run in H as (p & s' & E & l1' & b' & l2' & fls' & -> & H).
  exists s', l1', b', l2', fls'. by split.
Qed.

Lemma coalesce_correct_witness :
  ∃ s l1 b l2 fls epi s' l1' b' l2' fls', coalesce (b_addr b) s = Ok (b_addr b', s') ∧
    only_upd s s' ∧ coalesced l1 b l2 fls l1' b' l2' fls' ∧
    rep s' (Heap (l1' ++ set_state Free b' :: l2') (enlist_blk b' fls') epi).
Proof.
  set (b := Blk (demo_B + 16) demo_n Free true).
  set (fls := h_lists demo_heap).
  destruct (final_spec (remove_from_list (b_addr b) (calc_list_index (b_size b))) demo_st
    (λ _ s, irep s (Heap ([] ++ set_state Loose b :: []) (unlist_blk b fls) false))) as ([] & _ & Hr).
  { apply (wp_heap_remove demo_st [] b [] fls false); [apply (rp_irep _ _ demo_rep)|done|].
    intros m heads Hr _. exact Hr. }
  eexists _, [], (set_state Loose b), [], _, false.
  apply (coalesce_correct _ [] (set_state Loose b) [] _ false Hr); try done; by repeat split.
Defined.

(** C13. [allocate] uses a free block for a block of [n] bytes, a multiple
    of 8 that fits: the block is taken out of its list and marked allocated;
    a remainder of at least 16 bytes becomes a free block of its own, joined
    with a free block behind it; a smaller one stays part of the block, and
    the following tag records that its predecessor is allocated. *)
Theorem allocate_correct {L : Libc} s l1 b l2 fls epi n :
  rep s (Heap (l1 ++ b :: l2) fls epi) → b_state b = Free → (8 | n) → 16 ≤ n ≤ b_size b →
  ∃ s' data h', allocate (b_addr b) n s = Ok (tt, s') ∧ only_upd s s' ∧
    allocated l1 b l2 fls epi n data h' ∧ rep s' h'.
Proof.
  intros Hrep Hb H8 Hn.
  assert (H : wp (allocate (b_addr b) n) s (λ _ s', ∃ data h', only_upd s s' ∧
    allocated l1 b l2 fls epi n data h' ∧ rep s' h')).
  { apply (wp_allocate s l1 b l2 fls epi n); [done..|].
    intros s' data h' Hu Ha Hrep' _ _. by exists data, h'. }
  apply wp_run in H as ([] & s' & E & data & h' & H). by exists s', data, h'.
Qed.

Lemma allocate_correct_witness :
  let b := Blk (demo_B + 16) demo_n Free true in
  ∃ s' data h', allocate (b_addr b) 32 demo_st = Ok (tt, s') ∧ only_upd demo_st s' ∧
    allocated [] b [] (h_lists demo_heap) false 32 data h' ∧ rep s' h'.
Proof.
  intros b. apply (allocate_correct demo_st [] b [] (h_lists demo_heap) false 32 demo_rep);
    [done|by exists 4|unfold b, demo_n; cbn; lia].
Defined.

(** C14. [extend_heap] either adds a free block of [n] bytes at the end of
    the heap, joined with a free last block whose bit the epilogue has,
    moves the break and the epilogue, and returns the joined block; or
    returns NULL with nothing but [errno] changed, when [n] is not a
    positive [int] or the arena has no [n] bytes left. *)
Theorem extend_heap_correct {L : Libc} s bs fls epi n :
  rep s (Heap bs fls epi) → (8 | n) → 16 ≤ n < W32 →
  (n < 2147483648 → mem_brk s + n < W32) →
  ((2147483648 ≤ n ∨ mem_max_addr s < mem_brk s + n) ∧
   extend_heap n s = Ok (0, set_errno ENOMEM s)) ∨
  ((n < 2147483648 ∧ mem_brk s + n ≤ mem_max_addr s) ∧
   ∃ s' l1 b l2 fls', extend_heap n s = Ok (b_addr b, s') ∧
     only_upd (set_heap_end (mem_brk s + n - 1) (set_mem_brk (mem_brk s + n) s)) s' ∧
     coalesced bs (Blk (mem_brk s) n Loose epi) [] fls l1 b l2 fls' ∧
     rep s' (Heap (l1 ++ set_state Free b :: l2) (enlist_blk b fls') false)).
Proof.
  intros Hrep H8 Hn Hw.
  assert (H : wp (extend_heap n) s (λ p s',
    ((2147483648 ≤ n ∨ mem_max_addr s < mem_brk s + n) ∧ p = 0 ∧ s' = set_errno ENOMEM s) ∨
    ((n < 2147483648 ∧ mem_brk s + n ≤ mem_max_addr s) ∧
     ∃ l1 b l2 fls', p = b_addr b ∧
       only_upd (set_heap_end (mem_brk s + n - 1) (set_mem_brk (mem_brk s + n) s)) s' ∧
       coalesced bs (Blk (mem_brk s) n Loose epi) [] fls l1 b l2 fls' ∧
       rep s' (Heap (l1 ++ set_state Free b :: l2) (enlist_blk b fls') false)))).
  { apply (wp_extend_heap s bs fls epi n); [done..| |].
    - intros H1 H2 s' l1 b l2 fls' Hu Hc Hr. right. split; [done|].
      exists l1, b, l2, fls'. by split_and!.
    - intros Hc. left. by split_and!. }
  apply wp_run in H as (p & s' & E & [(Hc & -> & ->)|(Hc & l1 & b & l2 & fls' & -> & H)]).
  - by left.
  - right. split; [done|]. exists s', l1, b, l2, fls'. by split.
Qed.

Lemma extend_heap_correct_witness :
  ((2147483648 ≤ 8200 ∨ mem_max_addr demo_st < mem_brk demo_st + 8200) ∧
   extend_heap 8200 demo_st = Ok (0, set_errno ENOMEM demo_st)) ∨
  ((8200 < 2147483648 ∧ mem_brk demo_st + 8200 ≤ mem_max_addr demo_st) ∧
   ∃ s' l1 b l2 fls', extend_heap 8200 demo_st = Ok (b_addr b, s') ∧
     only_upd (set_heap_end (mem_brk demo_st + 8200 - 1)
                 (set_mem_brk (mem_brk demo_st + 8200) demo_st)) s' ∧
     coalesced (h_blocks demo_heap) (Blk (mem_brk demo_st) 8200 Loose false) []
       (h_lists demo_heap) l1 b l2 fls' ∧
     rep s' (Heap (l1 ++ set_state Free b :: l2) (enlist_blk b fls') false)).
Proof.
  apply (extend_heap_correct demo_st (h_blocks demo_heap) (h_lists demo_heap) false 8200 demo_rep).
  - by exists 1025.
  - unfold W32. lia.
  - intros _. destruct demo_init as (_ & _ & _ & -> & _). unfold demo_B, demo_n, W32. lia.
Defined.

(** C15. [find_fit] changes nothing and returns what a first-fit search over
    the heads of the size classes finds: a free block of at least [n] bytes
    that heads the list of its own class, with the index of that list; or
    NULL, in which case no list from the class of [n] on has a head of [n]
    bytes. *)
Theorem find_fit_correct {L : Libc} s h n :
  rep s h → 0 < n →
  ∃ r, find_fit n s = Ok (r, s) ∧
    r = first_fit (h_blocks h) n (drop (class_of n) (h_lists h)) (calc_list_index n) ∧
    match r with
    | Some (x, i) => ∃ b l, b ∈ h_blocks h ∧ b_addr b = x ∧ b_state b = Free ∧ n ≤ b_size b ∧
        i = calc_list_index (b_size b) ∧ h_lists h !! class_of (b_size b) = Some (x :: l)
    | None => ∀ k x l, (class_of n ≤ k)%nat → h_lists h !! k = Some (x :: l) →
        size_at (h_blocks h) x < n
    end.
Proof.
  intros Hrep Hn. pose proof (rp_irep _ _ Hrep) as Hr.
  assert (Hf : find_fit n s =
    Ok (first_fit (h_blocks h) n (drop (class_of n) (h_lists h)) (calc_list_index n), s)).
  { apply wp_reads. intros Q HQ. by apply (wp_find_fit s h n). }
  eexists. split; [exact Hf|]. split; [done|].
  destruct (first_fit _ _ _ _) as [[x i]|] eqn:E.
  - rewrite <- class_of_index in E by done. by eapply first_fit_Some.
  - intros k x l Hk Hl. eapply (first_fit_None _ _ _ _ E (k - class_of n)).
    rewrite lookup_drop. replace (class_of n + (k - class_of n))%nat with k by lia. done.
Qed.

Lemma find_fit_correct_witness :
  ∃ r, find_fit 32 demo_st = Ok (r, demo_st) ∧
    r = first_fit (h_blocks demo_heap) 32 (drop (class_of 32) (h_lists demo_heap))
          (calc_list_index 32) ∧
    match r with
    | Some (x, i) => ∃ b l, b ∈ h_blocks demo_heap ∧ b_addr b = x ∧ b_state b = Free ∧
        32 ≤ b_size b ∧ i = calc_list_index (b_size b) ∧
        h_lists demo_heap !! class_of (b_size b) = Some (x :: l)
    | None => ∀ k x l, (class_of 32 ≤ k)%nat → h_lists demo_heap !! k = Some (x :: l) →
        size_at (h_blocks demo_heap) x < 32
    end.
Proof. apply (find_fit_correct demo_st demo_heap 32 demo_rep). lia. Defined.

(** C16. [remove_from_list] on a node of list [i] changes only link words of
    its two neighbours and possibly the head of that list, and afterwards
    the lists are represented with exactly that node gone. *)
Theorem remove_from_list_correct {L : Libc} s fls i l1 x l2 :
  lists_ok (ram s) (free_lists s) fls → (∀ y, in_lists fls y → node_valid s y) →
  fls !! i = Some (l1 ++ x :: l2) →
  ∃ s', remove_from_list x (Z.of_nat i) s = Ok (tt, s') ∧ s' = upd (ram s') (free_lists s') s ∧
    ram s' = relink (ram s) (last_or 0 l1) (hd_or 0 l2) ∧
    lists_ok (ram s') (free_lists s') (<[i := l1 ++ l2]> fls).
Proof.
  intros Hok Hv Hi.
  assert (H : wp (remove_from_list x (Z.of_nat i)) s (λ _ s', s' = upd (ram s') (free_lists s') s ∧
    ram s' = relink (ram s) (last_or 0 l1) (hd_or 0 l2) ∧
    lists_ok (ram s') (free_lists s') (<[i := l1 ++ l2]> fls))).
  { eapply wp_remove_from_list; [done..|]. intros m hs Em Hok'.
    by split_and!; [destruct s|..]. }
  apply wp_run in H as ([] & s' & H). by exists s'.
Qed.

Lemma demo_lists :
  lists_ok (ram demo_st) (free_lists demo_st) (h_lists demo_heap) ∧
  (∀ y, in_lists (h_lists demo_heap) y → node_valid demo_st y) ∧
  h_lists demo_heap !! 13%nat = Some [demo_p].
Proof.
  pose proof (rp_irep _ _ demo_rep) as Hr. split_and!.
  - apply (ir_lists _ _ Hr).
  - intros y Hy. by apply (ir_lists_valid _ _ _ Hr).
  - by vm_compute.
Qed.

Lemma remove_from_list_correct_witness :
  ∃ s', remove_from_list demo_p (Z.of_nat 13) demo_st = Ok (tt, s') ∧ s' = upd (ram s') (free_lists s') demo_st ∧
    ram s' = relink (ram demo_st) (last_or 0 []) (hd_or 0 []) ∧
    lists_ok (ram s') (free_lists s') (<[13%nat := [] ++ []]> (h_lists demo_heap)).
Proof.
  destruct demo_lists as (H1 & H2 & H3).
  apply (remove_from_list_correct demo_st (h_lists demo_heap) 13 [] demo_p [] H1 H2 H3).
Defined.

(** C17. [add_to_list] appends a block that is in no list to the end of list
    [i] and leaves every other list alone; it writes only the link words of
    the block and of the former last node. *)
Theorem add_to_list_correct {L : Libc} s fls i l x :
  lists_ok (ram s) (free_lists s) fls → (∀ y, in_lists fls y → node_valid s y) →
  fls !! i = Some l → (length l < list_fuel s)%nat →
  node_valid s x → ¬ in_lists fls x → (∀ y, in_lists fls y → apart x y) →
  ∃ s', add_to_list x (Z.of_nat i) s = Ok (tt, s') ∧ s' = upd (ram s') (free_lists s') s ∧
    ram s' = appended (ram s) x (last_or 0 l) ∧
    lists_ok (ram s') (free_lists s') (<[i := l ++ [x]]> fls).
Proof.
  intros Hok Hv Hi Hf Hx Hni Ha.
  assert (H : wp (add_to_list x (Z.of_nat i)) s (λ _ s', s' = upd (ram s') (free_lists s') s ∧
    ram s' = appended (ram s) x (last_or 0 l) ∧
    lists_ok (ram s') (free_lists s') (<[i := l ++ [x]]> fls))).
  { eapply wp_add_to_list; [done..|]. intros m hs Em Hok'.
    by split_and!; [destruct s|..]. }
  apply wp_run in H as ([] & s' & H). by exists s'.
Qed.

Lemma list_fuel_pos s : (1 < list_fuel s)%nat.
Proof. unfold list_fuel. apply le_n_S, le_n_S, Nat.le_0_l. Qed.

Lemma demo_in_lists y : in_lists (h_lists demo_heap) y → y = demo_p.
Proof.
  intros Hy. destruct (in_lists_block _ _ y (rp_irep _ _ demo_rep) Hy) as (b & Hb & <- & _).
  cbn in Hb. apply list_elem_of_singleton in Hb as ->. done.
Qed.

Lemma add_to_list_correct_witness :
  ∃ s', add_to_list (demo_p + 64) (Z.of_nat 0) demo_st = Ok (tt, s') ∧ s' = upd (ram s') (free_lists s') demo_st ∧
    ram s' = appended (ram demo_st) (demo_p + 64) (last_or 0 []) ∧
    lists_ok (ram s') (free_lists s') (<[0%nat := [] ++ [demo_p + 64]]> (h_lists demo_heap)).
Proof.
  destruct demo_lists as (H1 & H2 & _).
  apply (add_to_list_correct demo_st (h_lists demo_heap) 0 [] (demo_p + 64) H1 H2).
  - by vm_compute.
  - apply (Nat.lt_trans _ 1); [constructor|apply list_fuel_pos].
  - unfold node_valid. by vm_compute.
  - by intros ?%demo_in_lists.
  - intros y ->%demo_in_lists. right. unfold demo_p, demo_B. lia.
Defined.

(** [find_end_of_list] returns the last node of a list, or NULL for an
    empty one, and changes nothing. *)
Theorem find_end_of_list_correct {L : Libc} s fls i l :
  lists_ok (ram s) (free_lists s) fls → (∀ y, in_lists fls y → node_valid s y) →
  fls !! i = Some l → (length l < list_fuel s)%nat →
  find_end_of_list (Z.of_nat i) s = Ok (last_or 0 l, s).
Proof.
  intros Hok Hv Hi Hf. apply wp_reads. intros Q HQ.
  eapply wp_find_end_of_list; [done..| |done|done].
  intros y Hy. apply Hv. by eapply in_lists_intro.
Qed.

Lemma find_end_of_list_correct_witness :
  find_end_of_list (Z.of_nat 13) demo_st = Ok (demo_p, demo_st).
Proof.
  destruct demo_lists as (H1 & H2 & H3).
  apply (find_end_of_list_correct demo_st (h_lists demo_heap) 13 [demo_p] H1 H2 H3).
  apply list_fuel_pos.
Defined.

(** C18. On a represented heap [mm_check] never faults.  It passes exactly
    if every block is smaller than [MAX_BLOCK_ALLOCSIZE] and, when it is
    compiled with the scan for overwritten memory, every byte behind the
    break is zero; it stops at an assertion otherwise. *)
Theorem mm_check_decides {L : Libc} overwrite s h :
  rep s h →
  mm_check overwrite s =
  if (negb overwrite || untouched s) && forallb small (h_blocks h)
  then Ok (tt, s) else Err AssertFail.
Proof. intros Hrep. apply (mm_check_run s h (rp_irep _ _ Hrep)). Qed.

Lemma mm_check_decides_witness :
  mm_check true demo_st =
  if (negb true || untouched demo_st) && forallb small (h_blocks demo_heap)
  then Ok (tt, demo_st) else Err AssertFail.
Proof. apply (mm_check_decides true demo_st demo_heap demo_rep). Defined.

(** ** Sizes, tags and the simulated break *)

(** C26. For every request up to 0xFFFFFFF4 bytes [ADJUST_BYTESIZE] is the
    least multiple of 8 that is at least 16 and has room for the request and
    a 4-byte header. *)
Theorem adjust_bytesize_least size :
  0 ≤ size ≤ 4294967284 →
  let r := ADJUST_BYTESIZE size in
  (8 | r) ∧ 16 ≤ r < W32 ∧ size + WSIZE ≤ r ∧
  ∀ m, (8 | m) → 16 ≤ m → size + WSIZE ≤ m → r ≤ m.
Proof.
  intros Hs r. destruct (ADJUST_BYTESIZE_bounds size Hs) as (H8 & H16 & Hsz & _ & HW).
  split_and!; [done|done|done|done|]. intros m [q ->] Hm1 Hm2. subst r.
  rewrite ADJUST_BYTESIZE_eq by done. unfold round_up_8, WSIZE in *.
  Z.to_euclidean_division_equations. lia.
Qed.

Lemma adjust_bytesize_least_witness :
  let r := ADJUST_BYTESIZE 100 in
  (8 | r) ∧ 16 ≤ r < W32 ∧ 100 + WSIZE ≤ r ∧
  ∀ m, (8 | m) → 16 ≤ m → 100 + WSIZE ≤ m → r ≤ m.
Proof. apply (adjust_bytesize_least 100). lia. Defined.

(** C27. The shift loop of [calc_list_index] computes the binary logarithm
    of the size, capped at the last list, so that it always indexes
    [free_lists]. *)
Theorem calc_list_index_log2 size :
  0 < size →
  calc_list_index size = Z.min (FREELIST_COUNT - 1) (Z.log2 size) ∧
  0 ≤ calc_list_index size < FREELIST_COUNT.
Proof.
  intros Hs. split; [by apply calc_list_index_eq|by apply calc_list_index_range].
Qed.

Lemma calc_list_index_log2_witness :
  calc_list_index 8200 = Z.min (FREELIST_COUNT - 1) (Z.log2 8200) ∧
  0 ≤ calc_list_index 8200 < FREELIST_COUNT.
Proof. apply (calc_list_index_log2 8200). lia. Defined.

(** C28. A header round trip: what [PUTW] of a [PACK]ed size and flags
    stores is read back by [GET_SIZE], [GET_ALLOC] and the [PREVALLOC] mask
    at any accessible address. *)
Theorem header_roundtrip {L : Libc} s p size this prev :
  valid s p 4 = true → (4 | size) → 0 ≤ size < W32 →
  ∃ s', PUTW p (PACK size (flags this prev)) s = Ok (tt, s') ∧
    GET_SIZE p s' = Ok (size, s') ∧ GET_ALLOC p s' = Ok (b2z this, s') ∧
    (w ← GETW p; mret (Z.land w PREVALLOC)) s' = Ok (2 * b2z prev, s').
Proof.
  intros Hv H4 Hs. fold (tag size this prev).
  exists (set_ram (wrw (ram s) p (tag size this prev)) s). set (s' := set_ram _ s).
  assert (Hw : rdw (ram s') p = tag size this prev) by (apply rdw_wrw_eq; by apply tag_range).
  split_and!.
  - unfold PUTW, store32. by rewrite Hv.
  - apply wp_reads. intros Q HQ. by eapply wp_GET_SIZE.
  - apply wp_reads. intros Q HQ. by eapply wp_GET_ALLOC.
  - apply wp_reads. intros Q HQ. unfold GETW. wp_bind. apply wp_load32; [done|].
    rewrite Hw, tag_prev by done. exact HQ.
Qed.

Lemma header_roundtrip_witness :
  ∃ s', PUTW demo_B (PACK 48 (flags true false)) demo_st = Ok (tt, s') ∧
    GET_SIZE demo_B s' = Ok (48, s') ∧ GET_ALLOC demo_B s' = Ok (b2z true, s') ∧
    (w ← GETW demo_B; mret (Z.land w PREVALLOC)) s' = Ok (2 * b2z false, s').
Proof.
  apply (header_roundtrip demo_st demo_B 48 true false); [by vm_compute|by exists 12|].
  unfold W32. lia.
Defined.

(** C29. [mem_sbrk], as long as the new break does not leave the address
    space: a request that fits moves the break up by exactly that much and
    returns the old break; a negative one or one that does not fit returns
    [(void * )-1] with [errno] set and leaves the break alone. *)
Theorem mem_sbrk_correct {L : Libc} s incr :
  memlib_ok s → mem_brk s + incr < W32 →
  if decide (0 ≤ incr ∧ mem_brk s + incr ≤ mem_max_addr s)
  then mem_sbrk incr s = Ok (mem_brk s, set_mem_brk (mem_brk s + incr) s) ∧
       memlib_ok (set_mem_brk (mem_brk s + incr) s)
  else mem_sbrk incr s = Ok (SBRK_FAILED, set_errno ENOMEM s).
Proof.
  intros Hm Hw.
  assert (H : wp (mem_sbrk incr) s (λ r s',
    (0 ≤ incr ∧ mem_brk s + incr ≤ mem_max_addr s ∧ r = mem_brk s ∧
     s' = set_mem_brk (mem_brk s + incr) s) ∨
    ((incr < 0 ∨ mem_max_addr s < mem_brk s + incr) ∧ r = SBRK_FAILED ∧ s' = set_errno ENOMEM s))).
  { apply wp_mem_sbrk; [done|done|intros; left|intros; right]; by split_and!. }
  apply wp_run in H as (r & s' & E & [(H1 & H2 & -> & ->)|(H1 & -> & ->)]).
  - rewrite decide_True by done. split; [done|]. apply memlib_ok_brk; [done|].
    pose proof (mo_brk _ Hm). lia.
  - rewrite decide_False by lia. done.
Qed.

Lemma mem_sbrk_correct_witness :
  if decide (0 ≤ 4096 ∧ mem_brk demo_st + 4096 ≤ mem_max_addr demo_st)
  then mem_sbrk 4096 demo_st = Ok (mem_brk demo_st, set_mem_brk (mem_brk demo_st + 4096) demo_st) ∧
       memlib_ok (set_mem_brk (mem_brk demo_st + 4096) demo_st)
  else mem_sbrk 4096 demo_st = Ok (SBRK_FAILED, set_errno ENOMEM demo_st).
Proof.
  apply (mem_sbrk_correct demo_st 4096 (ir_memlib _ _ (rp_irep _ _ demo_rep))).
  destruct demo_init as (_ & _ & _ & -> & _). unfold demo_B, demo_n, W32. lia.
Defined.

(** ** Where the code does not do what it means to *)

(** C30. [mem_sbrk] compares wrapped pointers: an increment that carries the
    break past the end of the address space is accepted and moves the break
    down, below the start of the heap or into it. *)
Theorem mem_sbrk_wraps {L : Libc} s incr :
  memlib_ok s → 0 ≤ incr < 2147483648 → W32 ≤ mem_brk s + incr →
  mem_sbrk incr s = Ok (mem_brk s, set_mem_brk (mem_brk s + incr - W32) s) ∧
  mem_brk s + incr - W32 < mem_brk s.
Proof.
  intros Hm Hi Hw. pose proof (mo_brk _ Hm). pose proof (mo_top _ Hm). pose proof (mo_start _ Hm).
  assert (E : add32 (mem_brk s) incr = mem_brk s + incr - W32).
  { unfold add32, u32. rewrite <- (Z.mod_add _ (-1) W32) by done.
    replace (mem_brk s + incr + -1 * W32) with (mem_brk s + incr - W32) by lia.
    apply Z.mod_small. unfold W32 in *. lia. }
  unfold mem_sbrk. unfold mbind, M_bind, gets. rewrite E.
  assert (Hdown : mem_brk s + incr - W32 < mem_brk s) by (unfold W32 in *; lia).
  destruct (Z.ltb_spec incr 0), (Z.ltb_spec (mem_max_addr s) (mem_brk s + incr - W32)); try lia.
  done.
Qed.

(** An arena at 0xF0000000, as [mmap] hands them out. *)
Definition high_st : st := St ∅ [4026531840] 0 4026531840 4026531840 4047503360 [] 0 0 0 0.

Lemma mem_sbrk_wraps_witness :
  mem_sbrk 536870912 high_st = Ok (mem_brk high_st, set_mem_brk (mem_brk high_st + 536870912 - W32) high_st) ∧
  mem_brk high_st + 536870912 - W32 < mem_brk high_st.
Proof.
  apply (mem_sbrk_wraps (L := demo_libc) high_st 536870912).
  - split; cbn; unfold W32; try lia; try done; [by left|by exists 503316480].
  - lia.
  - cbn. unfold W32. lia.
Defined.

(** The size adjustment overflows for the last eleven requests: from
    0xFFFFFFFD on [mm_malloc] behaves as for 12 bytes, so a caller that asks
    for almost 4 GiB is handed a 16-byte block instead of NULL. *)
Theorem mm_malloc_huge {L : Libc} s size :
  4294967293 ≤ size < W32 → mm_malloc size s = mm_malloc 12 s.
Proof.
  unfold W32. intros Hs.
  assert (size = 4294967293 ∨ size = 4294967294 ∨ size = 4294967295) as [->|[->| ->]] by lia;
    done.
Qed.

Lemma mm_malloc_huge_witness : mm_malloc 4294967295 demo_st = mm_malloc 12 demo_st.
Proof. apply (mm_malloc_huge demo_st 4294967295). unfold W32. lia. Defined.

Lemma mem_init_break {L : Libc} s :
  wpx (λ _, True) mem_init s (λ _ s', mem_brk s' ≠ 0).
Proof.
  unfold wpx, mem_init, mbind, M_bind, gets, modify. cbn beta iota.
  destruct (Z.eqb_spec (libc_malloc (arenas s) MAX_HEAP) 0); done.
Qed.

Lemma mem_sbrk_not_null {L : Libc} s incr :
  mem_brk s ≠ 0 → wpx (λ _, True) (mem_sbrk incr) s (λ p _, p ≠ 0).
Proof.
  intros Hb. unfold wpx, mem_sbrk, mbind, M_bind, gets, modify. cbn beta iota.
  by destruct (_ || _).
Qed.

(** C31. [mm_init] compares the result of [mem_sbrk] with NULL although
    failure is [(void * )-1]: it never returns its error code, whatever the
    C library does. *)
Theorem mm_init_never_fails {L : Libc} s s' : mm_init s ≠ Ok (-1, s').
Proof.
  assert (H : wpx (λ _, True) mm_init s (λ r _, r = 0)).
  { unfold mm_init. apply wpx_bind. eapply wpx_mono; [apply mem_init_break|].
    cbv beta. intros _ s1 H1. unfold mem_pagesize.
    apply wpx_bind_wp, wp_modify, wpx_bind_wp, wp_gets, wpx_bind_wp, wp_modify, wpx_bind_wp, wp_modify.
    match goal with |- wpx _ _ ?t _ => assert (H2 : mem_brk t ≠ 0) by exact H1; revert H2; generalize t end.
    intros s2 H2. apply wpx_bind_wp, wp_gets, wpx_bind.
    eapply wpx_mono; [by apply mem_sbrk_not_null|]. cbv beta. intros p s3 Hp.
    apply wpx_bind_wp, wp_modify. destruct (Z.eqb_spec p 0); [done|].
    repeat (apply wpx_bind, wpx_any; [done|intros]). by apply wpx_ret. }
  intros E. unfold wpx in H. by rewrite E in H.
Qed.

(** The arenas end before the address space does. *)
Definition arenas_fit (s : st) : Prop := Forall (λ a, 0 ≤ a ∧ a + MAX_HEAP < W32) (arenas s).

Lemma null_header {L : Libc} s : arenas_fit s → GET_THISSIZE 0 s = Err UB.
Proof.
  intros Hf. unfold GET_THISSIZE, GET_SIZE, GETW. change (GET_BLOCKHDR 0) with 4294967292.
  unfold mbind, M_bind, load32. replace (valid s 4294967292 4) with false; [done|].
  symmetry. unfold valid. apply not_true_is_false. intros (a & Ha & Hv)%existsb_exists.
  unfold arenas_fit in Hf. rewrite Forall_forall in Hf.
  apply list_elem_of_In in Ha. specialize (Hf _ Ha). unfold W32 in Hf. lia.
Qed.

(** C32. NULL is not accepted by [mm_free] and [mm_realloc], unlike the
    functions of the C library they stand for: both read a header in front
    of address 0, after [mm_realloc] has already allocated the new block. *)
Theorem null_pointer_undefined {L : Libc} s size p s' :
  arenas_fit s → mm_malloc size s = Ok (p, s') → p ≠ 0 → arenas s' = arenas s →
  mm_free 0 s = Err UB ∧ mm_realloc 0 size s = Err UB.
Proof.
  intros Hf Hm Hp Ha. split.
  - unfold mm_free, mbind, M_bind. by rewrite null_header.
  - unfold mm_realloc, mbind, M_bind. rewrite Hm. destruct (Z.eqb_spec p 0); [done|].
    rewrite null_header; [done|]. unfold arenas_fit. by rewrite Ha.
Qed.

Lemma null_pointer_undefined_witness :
  mm_free 0 demo_st = Err UB ∧ mm_realloc 0 24 demo_st = Err UB.
Proof.
  apply (null_pointer_undefined demo_st 24 demo_p demo_st1).
  - unfold arenas_fit. destruct demo_init as (_ & _ & _ & _ & _ & _ & ->).
    constructor; [|constructor]. rewrite MAX_HEAP_eq. unfold demo_B, W32. lia.
  - by vm_compute.
  - unfold demo_p, demo_B. lia.
  - by vm_compute.
Defined.

(** The address [get_node_listindex] compares with is 4 modulo 8. *)
Lemma misaligned_head {L : Libc} s h x j p :
  irep s h → in_lists (h_lists h) x → free_lists s !! j = Some p →
  p ≠ PAYLOAD_FROM_MEMHEADER (MEMHEADER_FROM_PAYLOAD x).
Proof.
  intros Hr Hx Hj.
  assert (Hal : ∀ y, in_lists (h_lists h) y → y mod 8 = 0).
  { intros y Hy. destruct (in_lists_block _ _ _ Hr Hy) as (b & Hb & <- & _).
    destruct (ir_block _ _ _ Hr Hb) as (_ & _ & _ & _ & [q ->] & _). apply Z.mod_mul. lia. }
  assert (Hp : p mod 8 = 0).
  { pose proof (ir_lists _ _ Hr) as Hok. rewrite (lo_heads _ _ _ Hok), list_lookup_fmap in Hj.
    destruct (h_lists h !! j) as [[|y l]|] eqn:E; cbn in Hj; simplify_eq; [done|].
    apply Hal. eapply in_lists_intro; [done|by left]. }
  intros E. revert Hp. rewrite E. destruct (ir_lists_valid _ _ _ Hr Hx) as (H4 & HW & _).
  apply Hal in Hx. unfold PAYLOAD_FROM_MEMHEADER, MEMHEADER_FROM_PAYLOAD, GET_BLOCKHDR, sizeof_mem_header, WSIZE.
  unfold W32 in HW. rewrite sub32_small by (unfold W32; lia). unfold add32, u32.
  unfold W32. Z.div_mod_to_equations. lia.
Qed.

(** C33. [get_node_listindex] never finds the list a node is in: after
    walking back to the head it compares the heads with an address 44 bytes
    past that head, because [PAYLOAD_FROM_MEMHEADER] steps over four whole
    headers instead of one word, and no payload has such an address; the
    result is -1 for every node of every free list. *)
Theorem get_node_listindex_misses {L : Libc} s h i l bp :
  rep s h → h_lists h !! i = Some l → bp ∈ l → get_node_listindex bp s = Ok (u32 (-1), s).
Proof.
  intros [Hr _ _] Hi Hbp. apply wp_reads. intros Q HQ. unfold get_node_listindex.
  apply wp_bind, wp_gets, wp_bind.
  pose proof (ir_lists _ _ Hr) as Hok. destruct l as [|x l]; [by apply elem_of_nil in Hbp|].
  assert (Hv : ∀ z, z ∈ x :: l → node_valid s z).
  { intros z Hz. eapply ir_lists_valid; [done|]. by eapply in_lists_intro. }
  assert (Hloop : wp (listindex_loop (Z.to_nat FREELIST_COUNT) (MEMHEADER_FROM_PAYLOAD x) 0) s Q).
  { apply (wp_listindex_loop _ _ _ 0); [|intros j p Hj|done].
    2: { eapply (misaligned_head s h); [done| |done]. eapply in_lists_intro; [done|by left]. }
    rewrite (lo_heads _ _ _ Hok), length_fmap, (lk_length _ _ (ir_links _ _ Hr)). done. }
  pose proof (ir_list_fuel _ _ _ _ Hr Hi) as Hf. cbn [length] in Hf.
  pose proof (wp_node_head_loop s x l
    (λ hd s, wp (listindex_loop (Z.to_nat FREELIST_COUNT) hd 0) s Q) (lo_dseg _ _ _ Hok _ _ Hi) Hv Hloop) as Hback.
  apply elem_of_cons in Hbp as [->|(l1 & l2 & ->)%list_elem_of_split].
  - eapply (Hback _ [] l); [done|cbn; lia].
  - rewrite length_app in Hf. cbn [length] in Hf. rewrite <- (last_or_snoc x l1 bp).
    eapply (Hback _ (l1 ++ [bp]) l2).
    + by rewrite <- app_assoc.
    + rewrite length_app. cbn. lia.
Qed.

Lemma get_node_listindex_misses_witness :
  get_node_listindex demo_p demo_st = Ok (u32 (-1), demo_st).
Proof.
  apply (get_node_listindex_misses demo_st demo_heap 13 [demo_p] demo_p demo_rep).
  - apply demo_lists.
  - by left.
Defined.

(** C34. Freeing a block does not clear the PREVALLOC bit of the block
    behind it, so two adjacent payloads freed in ascending order are not
    joined, whatever the heap is: if [q] is the block behind [p] and both are
    live, then after [mm_free(p)] and [mm_free(q)] there are two free blocks
    side by side, one that ends where the other one, [q], starts. *)
Theorem adjacent_free_blocks {L : Libc} s h p q d e :
  rep s h → live_map h !! p = Some d → live_map h !! q = Some e → GET_NEXTBLOCK p s = Ok (q, s) →
  ∃ s1 s2 h2 k1 x y k2,
    mm_free p s = Ok (tt, s1) ∧ mm_free q s1 = Ok (tt, s2) ∧ rep s2 h2 ∧
    h_blocks h2 = k1 ++ x :: y :: k2 ∧ b_state x = Free ∧ b_state y = Free ∧
    b_addr x ≤ p ∧ b_addr x + b_size x = q ∧ b_addr y = q ∧
    GET_THISALLOC (b_addr x) s2 = Ok (0, s2) ∧ GET_NEXTBLOCK (b_addr x) s2 = Ok (q, s2) ∧
    GET_THISALLOC q s2 = Ok (0, s2).
Proof.
  intros Hrep Hp Hq Hnext. destruct (live_blocks _ _ _ _ Hrep Hp) as (a & Ha & <- & Hda & _).
  destruct (live_blocks _ _ _ _ Hrep Hq) as (b & Hb & <- & Hdb & _). pose proof (rp_irep _ _ Hrep) as Hr.
  destruct (adjacent_split s h a b Hr Ha Hb) as (l1 & l2 & E).
  { assert (H : wp (GET_NEXTBLOCK (b_addr a)) s (λ r _, r = b_addr a + b_size a)) by by apply (wp_NEXTBLOCK s h).
    unfold wp in H. by rewrite Hnext in H. }
  assert (H1 : wp (mm_free (b_addr a)) s (λ _ s1, ∃ h1, rep s1 h1 ∧ freed h (b_addr a) h1 ∧
            live_map h1 = delete (b_addr a) (live_map h))).
  { eapply wp_mm_free; [done..|]. intros s' h' Hu Hrep' Hf. exists h'.
    split_and!; [done..|]. by eapply freed_live_map. }
  apply wp_run in H1 as ([] & s1 & E1 & h1 & Hrep1 & Hf1 & El).
  assert (Hq1 : live_map h1 !! b_addr b = Some e).
  { rewrite El, lookup_delete_ne; [done|]. pose proof (geo_NoDup _ _ _ (ir_geo _ _ Hr)) as Hn.
    intros Eab. pose proof (geo_inj _ _ _ _ _ (ir_geo _ _ Hr) Ha Hb Eab) as ->.
    rewrite E in Hn. apply NoDup_app in Hn as (_ & _ & Hn). apply NoDup_cons in Hn as [[] _]. by left. }
  destruct (live_blocks _ _ _ _ Hrep1 Hq1) as (b1 & Hb1 & Eb1 & Hdb1 & _).
  assert (H2 : wp (mm_free (b_addr b)) s1 (λ _ s2, ∃ h2, rep s2 h2 ∧ freed h1 (b_addr b) h2)).
  { rewrite <- Eb1. eapply wp_mm_free; [done..|]. intros s' h' Hu Hrep' Hf. by exists h'. }
  apply wp_run in H2 as ([] & s2 & E2 & h2 & Hrep2 & Hf2).
  assert (Hla : is_live a = true) by (unfold is_live; by rewrite Hda).
  assert (Hlb : is_live b = true) by (unfold is_live; by rewrite Hdb).
  destruct (freed_ascending s h l1 a b l2 s1 h1 h2) as (k1 & x & y & k2 & Ek & Hx & Hy & Hle & Hadj & Ey);
    [done..|].
  exists s1, s2, h2, k1, x, y, k2. do 9 (split; [done|]). rewrite <- Hadj, Hadj, <- Ey.
  assert (Hrun : ∀ z, z ∈ h_blocks h2 → b_state z = Free → GET_THISALLOC (b_addr z) s2 = Ok (0, s2)).
  { intros z Hz Hs. apply (wp_exact _ _ 0), (wp_THISALLOC s2 h2 z (rp_irep _ _ Hrep2) Hz).
    unfold is_live. by rewrite Hs. }
  split; [apply Hrun; [rewrite Ek; set_solver|done]|].
  split; [|apply Hrun; [rewrite Ek; set_solver|done]].
  apply (wp_exact _ _ (b_addr y)), (wp_NEXTBLOCK s2 h2 x (rp_irep _ _ Hrep2)); [rewrite Ek; set_solver|].
  split; [congruence|done].
Qed.

(** Two requests of 24 bytes: adjacent payloads, the second 32 bytes behind
    the first. *)
Lemma adjacent_free_blocks_witness :
  ∃ s1 s2 h2 k1 x y k2,
    mm_free demo_p demo_st2 = Ok (tt, s1) ∧ mm_free (demo_p + 32) s1 = Ok (tt, s2) ∧ rep s2 h2 ∧
    h_blocks h2 = k1 ++ x :: y :: k2 ∧ b_state x = Free ∧ b_state y = Free ∧
    b_addr x ≤ demo_p ∧ b_addr x + b_size x = demo_p + 32 ∧ b_addr y = demo_p + 32 ∧
    GET_THISALLOC (b_addr x) s2 = Ok (0, s2) ∧ GET_NEXTBLOCK (b_addr x) s2 = Ok (demo_p + 32, s2) ∧
    GET_THISALLOC (demo_p + 32) s2 = Ok (0, s2).
Proof.
  destruct demo_malloc2 as (h & d & e & Hrep & Hp & Hq).
  apply (adjacent_free_blocks demo_st2 h demo_p (demo_p + 32) d e Hrep Hp Hq). by vm_compute.
Defined.
