(* ===== verification/DriverTheorems.v ===== *)
(** * The properties of the driver (src/mdriver.c)

    The interpreters of traces against any allocator that satisfies the laws
    of [Contract], the reader of trace files, the range list, and the checks
    of the driver that are weaker or stronger than intended; each property
    is followed by an instance, with the allocator of src/mm.c in the
    process of [Demo]. *)

From Stdlib Require Import ZArith Lia Ascii String.
From stdpp Require Import base gmap numbers list.
From S2P Require Import Prelude Memory Memlib Contract Heap MmAllocator Ranges.
From S2P Require Import Driver Replay DriverSpec DriverUtil TraceFile Demo.

(** ** A concrete run *)

(** The driver in the process of [Demo]: records can always be allocated. *)
#[export] Instance demo_ranges : RangeAlloc := λ _, true.

Definition demo_trace : trace_t := Trace 20000 3 6 1
  [Op ALLOC 0 512; Op ALLOC 1 128; Op REALLOC 0 640; Op FREE 1 0; Op ALLOC 2 24; Op FREE 0 0].

Definition demo_dst : dst := load_trace demo_trace (Dst st0 [] [] [] 0 []).

Lemma demo_driver_init : mm_may_init (set_mem_brk (mem_start_brk st0) st0) 1048576.
Proof. unfold mm_may_init. destruct demo_env as [E _]. cbn [arenas set_mem_brk]. rewrite E, MAX_HEAP_eq. done. Qed.

(** ** Running traces *)

(** C6. [eval_mm_valid] has no false alarms and no undefined behaviour: on a
    disciplined trace, with an allocator that keeps the contract and indices
    that are not mistaken for negative [char]s, it runs to its end and
    either returns 1 without a report, every payload in its place, filled and
    recorded, or returns 0 with one report, that of a NULL.  Which of the two
    is up to the allocator alone: it returns 1 if the replay of the trace on
    the allocator goes through, with the same payloads and the same final
    state, and 0 if the replay meets a NULL. *)
Theorem eval_mm_valid_correct {L : Libc} {RA : RangeAlloc} {A : Allocator} (AL : AllocatorLaws A)
    N ids d tr t :
  N < 2147483648 → (∀ l, range_alloc l = true) →
  may_init (set_mem_brk (mem_start_brk (d_st d)) (d_st d)) N →
  length (d_blocks d) = Z.to_nat ids → length (d_sizes d) = Z.to_nat ids →
  disciplined N ids ∅ (ops tr) = true → low_ids (ops tr) = true →
  ∃ r d', eval_mm_valid tr t d = Ok (r, d') ∧
    ((r = 1 ∧ quiet d d' ∧
      ∃ o μ, vinv N ids d' o μ ∧ dom o = last_live ∅ (ops tr) ∧
             mm_replay pattern tr (d_st d) = Ok (Some (fst <$> o), d_st d')) ∨
     (r = 0 ∧ (∃ i d1, quiet d d1 ∧ null_reported t i d1 d') ∧
      mm_replay pattern tr (d_st d) = Ok (None, d_st d'))).
Proof.
  intros HN Hra Hi Hb Hs Hdis Hlow.
  exact (proj1 (wp_run _ _ _) (wp_eval_mm_valid N ids HN Hra d tr t Hi Hb Hs Hdis Hlow)).
Qed.

(** The replay goes through, so it is the first of the two. *)
Lemma eval_mm_valid_correct_witness :
  returned (mm_replay pattern demo_trace st0) = true ∧
  ∃ r d', eval_mm_valid demo_trace 0 demo_dst = Ok (r, d') ∧
    ((r = 1 ∧ quiet demo_dst d' ∧
      ∃ o μ, vinv (AL := mm_allocator_laws demo_libc_ok) 1048576 3 d' o μ ∧
             dom o = last_live ∅ (ops demo_trace) ∧
             mm_replay pattern demo_trace (d_st demo_dst) = Ok (Some (fst <$> o), d_st d')) ∨
     (r = 0 ∧ (∃ i d1, quiet demo_dst d1 ∧ null_reported 0 i d1 d') ∧
      mm_replay pattern demo_trace (d_st demo_dst) = Ok (None, d_st d'))).
Proof.
  split; [by vm_compute|].
  apply (eval_mm_valid_correct (mm_allocator_laws demo_libc_ok) 1048576 3);
    [lia|done|apply demo_driver_init|by vm_compute..].
Defined.

(** C7. On a disciplined trace [eval_mm_util] stops at an error exit exactly
    if the allocator returns NULL to one of the requests, as the replay of
    the trace on the allocator alone decides; otherwise it returns the
    largest number of requested bytes live at one time over the size of the
    heap; none of its [int] additions overflows and the ratio is at most
    one. *)
Theorem eval_mm_util_correct {L : Libc} {A : Allocator} (AL : AllocatorLaws A) N ids d tr :
  N < 2147483648 →
  may_init (set_mem_brk (mem_start_brk (d_st d)) (d_st d)) N →
  length (d_blocks d) = Z.to_nat ids → length (d_sizes d) = Z.to_nat ids →
  disciplined N ids ∅ (ops tr) = true →
  match eval_mm_util tr d with
  | Ok ((hwm, size), d') =>
      (∃ σ, mm_replay idle tr (d_st d) = Ok (Some σ, d_st d')) ∧
      hwm = high_water ∅ (ops tr) ∧ size = mem_brk (d_st d') - mem_start_brk (d_st d') ∧
      0 ≤ hwm ≤ size
  | Err e => e = Exit 1 ∧ ∃ s, mm_replay idle tr (d_st d) = Ok (None, s)
  end.
Proof.
  intros HN (s & E & Hh & Hm)%may_init_run Hb Hs Hdis.
  pose proof (wpx_util_run N ids HN d tr s E Hh Hm Hb Hs Hdis) as H. unfold wpx in H.
  destruct (eval_mm_util tr d) as [[[hwm size] d']|e]; [|exact H].
  destruct H as ([= -> ->] & Hle & Hrun). cbn [fst snd] in Hle. by split; [|split; [|split]].
Qed.

(** A trace that runs, and one that asks for more than the arena has. *)
Definition greedy_trace : trace_t := Trace 20000 2 2 1 [Op ALLOC 0 512; Op ALLOC 1 20971520].

Lemma greedy_util : eval_mm_util greedy_trace (load_trace greedy_trace (Dst st0 [] [] [] 0 [])) = Err (Exit 1).
Proof. by vm_compute. Qed.

Lemma eval_mm_util_correct_witness :
  returned (eval_mm_util demo_trace demo_dst) = true ∧
  match eval_mm_util demo_trace demo_dst with
  | Ok ((hwm, size), d') =>
      (∃ σ, mm_replay idle demo_trace (d_st demo_dst) = Ok (Some σ, d_st d')) ∧
      hwm = high_water ∅ (ops demo_trace) ∧
      size = mem_brk (d_st d') - mem_start_brk (d_st d') ∧ 0 ≤ hwm ≤ size
  | Err e => e = Exit 1 ∧ ∃ s, mm_replay idle demo_trace (d_st demo_dst) = Ok (None, s)
  end.
Proof.
  split; [by vm_compute|].
  apply (eval_mm_util_correct (mm_allocator_laws demo_libc_ok) 1048576 3);
    [lia|apply demo_driver_init|by vm_compute..].
Defined.

(** C9. Reading back a printed trace gives the trace, for every trace whose
    header agrees with its requests and whose numbers fit an [int]. *)
Theorem read_trace_roundtrip host_malloc fopen dir name tr :
  (∀ n, host_malloc n = true) → printable tr = true →
  Z.of_nat (length (dir ++ name)) < MAXLINE →
  fopen (dir ++ name) = Some (print_trace tr) →
  read_trace host_malloc fopen dir name = Ok tr.
Proof. intros Hm Hp Hl Hf. by apply read_trace_print. Qed.

Definition demo_name : input := list_ascii_of_string "short.rep".

Lemma read_trace_roundtrip_witness :
  read_trace (λ _, true) (λ _, Some (print_trace demo_trace)) [] demo_name = Ok demo_trace.
Proof. apply read_trace_roundtrip; by vm_compute. Defined.

(** C35. The reader ends on every file, and a trace it accepts agrees with
    its header: as many requests as announced and no allocated index beyond
    the last identifier. *)
Theorem read_trace_accepts host_malloc fopen dir name :
  match read_trace host_malloc fopen dir name with
  | Ok tr => u32 (num_ops tr) = Z.of_nat (length (ops tr)) ∧
             Forall (index_le (u32 (num_ids tr - 1))) (ops tr)
  | Err e => e ≠ OutOfFuel
  end.
Proof. apply (read_trace_sound host_malloc fopen dir name). Qed.

(** ** The range list *)

(** C36. For a payload that does not wrap around and a well-formed list
    [add_range] returns 1 exactly if the payload is aligned, lies in the
    heap, and every recorded range is disjoint from it or lies strictly
    inside it; it then records the payload, and otherwise reports one error
    and returns 0. *)
Theorem add_range_decides {L : Libc} {RA : RangeAlloc} d lo size t i :
  memlib_ok (d_st d) → mem_start_brk (d_st d) < mem_brk (d_st d) →
  0 ≤ lo → 0 < size → lo + size < W32 → range_alloc (d_ranges d) = true →
  Forall (λ r, r.1 ≤ r.2) (d_ranges d) →
  (range_good (d_st d) (d_ranges d) lo size ∧
   add_range lo size t i d = Ok (1, set_d_ranges ((lo, lo + size - 1) :: d_ranges d) d)) ∨
  (¬ range_good (d_st d) (d_ranges d) lo size ∧
   ∃ m, add_range lo size t i d = Ok (0, reported t i m d)).
Proof. intros. by apply add_range_cases. Qed.

(** The driver after [mm_init], with two payloads recorded. *)
Definition demo_range_dst : dst :=
  Dst demo_st [(demo_p + 64, demo_p + 87); (demo_p + 8, demo_p + 15)] [] [] 0 [].

Lemma demo_range_ok :
  memlib_ok (d_st demo_range_dst) ∧
  mem_start_brk (d_st demo_range_dst) < mem_brk (d_st demo_range_dst).
Proof.
  split; [apply (ir_memlib _ _ (rp_irep _ _ demo_rep))|].
  destruct demo_init as (_ & _ & E1 & E2 & _). cbn [d_st demo_range_dst]. rewrite E1, E2. done.
Qed.

Lemma demo_range_ends :
  0 ≤ demo_p ∧ demo_p + 128 < W32 ∧ range_alloc (d_ranges demo_range_dst) = true ∧
  Forall (λ r, r.1 ≤ r.2) (d_ranges demo_range_dst) ∧
  Forall (λ r, demo_p < r.1 ∧ r.1 ≤ r.2 ∧ r.2 < demo_p + 128 - 1) (d_ranges demo_range_dst).
Proof.
  split; [done|]. split; [done|]. split; [done|]. cbn [d_ranges demo_range_dst].
  split; repeat constructor; cbn [fst snd]; unfold demo_p, demo_B; lia.
Qed.

Lemma add_range_decides_witness :
  (range_good (d_st demo_range_dst) (d_ranges demo_range_dst) demo_p 24 ∧
   add_range demo_p 24 0 0 demo_range_dst =
     Ok (1, set_d_ranges ((demo_p, demo_p + 24 - 1) :: d_ranges demo_range_dst) demo_range_dst)) ∨
  (¬ range_good (d_st demo_range_dst) (d_ranges demo_range_dst) demo_p 24 ∧
   ∃ m, add_range demo_p 24 0 0 demo_range_dst = Ok (0, reported 0 0 m demo_range_dst)).
Proof.
  destruct demo_range_ok as [H1 H2].
  destruct demo_range_ends as (H3 & H4 & H5 & H6 & _).
  apply (add_range_decides demo_range_dst demo_p 24 0 0 H1 H2 H3); [lia|lia|exact H5|exact H6].
Defined.

(** The overlap test only looks at the end points of the new payload:
    an aligned payload in the heap that encloses every recorded range is
    accepted, although all of them overlap it. *)
Theorem add_range_misses_enclosed {L : Libc} {RA : RangeAlloc} d lo size t i :
  memlib_ok (d_st d) → mem_start_brk (d_st d) < mem_brk (d_st d) →
  0 ≤ lo → 0 < size → lo + size < W32 → range_alloc (d_ranges d) = true →
  (ALIGNMENT | lo) → range_in_heap (d_st d) lo size →
  Forall (λ r, lo < r.1 ∧ r.1 ≤ r.2 ∧ r.2 < lo + size - 1) (d_ranges d) →
  add_range lo size t i d = Ok (1, set_d_ranges ((lo, lo + size - 1) :: d_ranges d) d).
Proof.
  intros Hm Hb Hlo Hs HW Hra Hal Hin Hr.
  destruct (add_range_cases d lo size t i) as [[_ E]|[Hn _]]; [done..| |done|].
  - eapply Forall_impl; [exact Hr|]. intros r Hr'. cbv beta in *. lia.
  - destruct Hn. split_and!; [done|done|]. eapply Forall_impl; [exact Hr|].
    intros r Hr'. right. unfold strictly_inside. cbn [fst snd]. cbv beta in Hr'. lia.
Qed.

Lemma add_range_misses_enclosed_witness :
  add_range demo_p 128 0 0 demo_range_dst =
    Ok (1, set_d_ranges ((demo_p, demo_p + 128 - 1) :: d_ranges demo_range_dst) demo_range_dst).
Proof.
  destruct demo_range_ok as [H1 H2].
  destruct demo_range_ends as (H3 & H4 & H5 & _ & H6).
  apply (add_range_misses_enclosed demo_range_dst demo_p 128 0 0 H1 H2 H3);
    [lia|exact H4|exact H5|by exists (demo_p / 8)| |exact H6].
  destruct demo_init as (_ & _ & E1 & E2 & _). unfold range_in_heap. cbn [d_st demo_range_dst].
  rewrite E1, E2. unfold demo_p, demo_n. lia.
Defined.

(** When the recorded payloads start at different addresses
    [remove_range] removes the one that starts at [lo] and keeps the others,
    and they still start at different addresses. *)
Theorem remove_range_correct {L : Libc} d lo :
  NoDup (d_ranges d).*1 →
  ∃ ranges, remove_range lo d = Ok (tt, set_d_ranges ranges d) ∧ NoDup ranges.*1 ∧
    ∀ r, r ∈ ranges ↔ r ∈ d_ranges d ∧ r.1 ≠ lo.
Proof.
  intros Hnd. exists (remove_loop (d_ranges d) lo).
  split; [done|]. split; [by apply remove_loop_NoDup|]. intros r. by apply remove_loop_in.
Qed.

Lemma remove_range_correct_witness :
  ∃ ranges, remove_range (demo_p + 8) demo_range_dst = Ok (tt, set_d_ranges ranges demo_range_dst) ∧
    NoDup ranges.*1 ∧
    ∀ r, r ∈ ranges ↔ r ∈ d_ranges demo_range_dst ∧ r.1 ≠ demo_p + 8.
Proof.
  apply (remove_range_correct demo_range_dst (demo_p + 8)). by apply (bool_decide_unpack _), I.
Defined.

(** ** Timed runs, and the allocator of the C library *)

(** C37. On a disciplined trace [eval_mm_speed] stops at an error exit
    exactly if the allocator returns NULL to one of the requests, and
    otherwise carries out the whole trace: it then holds a payload for exactly
    the identifiers left, at the pointers the replay of the trace on the
    allocator alone ends with, and leaves the allocator in the same state. *)
Theorem eval_mm_speed_correct {L : Libc} {A : Allocator} (AL : AllocatorLaws A) N ids d tr :
  N < 2147483648 →
  may_init (set_mem_brk (mem_start_brk (d_st d)) (d_st d)) N →
  length (d_blocks d) = Z.to_nat ids → disciplined N ids ∅ (ops tr) = true →
  match eval_mm_speed tr d with
  | Ok (_, d') => ∃ o μ, dinv N ids d' o μ ∧ dom o = last_live ∅ (ops tr) ∧
                         mm_replay idle tr (d_st d) = Ok (Some (fst <$> o), d_st d')
  | Err e => e = Exit 1 ∧ ∃ s, mm_replay idle tr (d_st d) = Ok (None, s)
  end.
Proof.
  intros HN (s & E & Hh & Hm)%may_init_run Hb Hdis.
  pose proof (wpx_speed_run N ids HN d tr s E Hh Hm Hb Hdis) as H.
  unfold wpx in H. by destruct (eval_mm_speed tr d) as [[u d']|e].
Qed.

Lemma eval_mm_speed_correct_witness :
  returned (eval_mm_speed demo_trace demo_dst) = true ∧
  match eval_mm_speed demo_trace demo_dst with
  | Ok (_, d') => ∃ o μ, dinv (AL := mm_allocator_laws demo_libc_ok) 1048576 3 d' o μ ∧
                         dom o = last_live ∅ (ops demo_trace) ∧
                         mm_replay idle demo_trace (d_st demo_dst) = Ok (Some (fst <$> o), d_st d')
  | Err e => e = Exit 1 ∧ ∃ s, mm_replay idle demo_trace (d_st demo_dst) = Ok (None, s)
  end.
Proof.
  split; [by vm_compute|].
  apply (eval_mm_speed_correct (mm_allocator_laws demo_libc_ok) 1048576 3);
    [lia|apply demo_driver_init|by vm_compute..].
Defined.


Lemma demo_holds : mm_holds demo_st ∅ ∧ mm_may_request demo_st 1048576.
Proof.
  destruct demo_init as (_ & Hrep & _ & _ & E1 & E2 & _). split.
  - exists demo_heap. split; [exact Hrep|]. by vm_compute.
  - unfold mm_may_request. rewrite E1, E2, MAX_HEAP_eq. done.
Qed.


(** ** The comparison of reallocated bytes *)

(** C39. The comparison loop of [eval_mm_valid] accepts exactly the blocks
    whose bytes all are the low byte of the index, except that, as it
    compares [char]s, it rejects every non-empty block when that byte is 128
    or more. *)
Theorem check_bytes_decides {L : Libc} d newp index n :
  (∀ k, (k < n)%nat → valid (d_st d) (newp + Z.of_nat k) 1 = true) →
  0 ≤ newp → newp + Z.of_nat n < W32 →
  check_bytes n newp 0 index d =
    Ok (forallb (λ b, (b =? Z.land index 255) && (b <? 128))
          (rdbs (ram (d_st d)) newp n), d).
Proof.
  intros Hv H0 HW. rewrite check_bytes_run; [by rewrite Z.add_0_r| |lia..].
  intros k Hk. rewrite <- (Z2Nat.id k) by lia. apply Hv. lia.
Qed.

Lemma check_bytes_decides_witness :
  check_bytes 8 demo_p 0 200 demo_range_dst =
    Ok (forallb (λ b, (b =? Z.land 200 255) && (b <? 128))
          (rdbs (ram (d_st demo_range_dst)) demo_p 8), demo_range_dst).
Proof.
  apply (check_bytes_decides demo_range_dst demo_p 200 8); [|unfold demo_p, demo_B, W32; lia..].
  intros k Hk. apply memlib_ok_valid; [apply demo_range_ok|..];
    destruct demo_init as (_ & _ & E1 & _ & E2 & _); cbn [d_st demo_range_dst];
    rewrite ?E1, ?E2, ?MAX_HEAP_eq; unfold demo_p, demo_B; lia.
Defined.

(** A trace with one identifier, number 128. *)
Definition high_id_trace : trace_t :=
  Trace 20000 129 3 1 [Op ALLOC 128 24; Op REALLOC 128 40; Op FREE 128 0].

(** The consequence for a whole run: a correct allocator is reported
    for not preserving the data of identifier 128. *)
Theorem eval_mm_valid_false_alarm :
  ∃ d', eval_mm_valid high_id_trace 0 (load_trace high_id_trace (Dst st0 [] [] [] 0 [])) = Ok (0, d') ∧
        d_reports d' = [Report 0 6 DataNotPreserved].
Proof.
  set (c := eval_mm_valid _ _ _).
  exists (match c with Ok (_, d') => d' | Err _ => demo_dst end). by split; vm_compute.
Qed.
