(* ===== verification/TimingTheorems.v ===== *)
(** * The properties of the timing packages (src/clock.c, fcyc.c and fsecs.c)

    The cycle counter, its calibration and the K-best scheme, each followed by an instance
    with a machine whose counter advances by a thousand at every reading. *)

From Stdlib Require Import ZArith Lia SpecFloat Sorting.Sorted.
From stdpp Require Import base numbers list.
From S2P Require Import Prelude Doubles ExactDoubles Clock Counters Calibrate Fcyc FcycSpec Ftimer Fsecs.

(** ** A concrete machine *)
#[export] Instance demo_machine : Machine Z := {
  rdtsc e := Ok ((e / W32, e mod W32), e + 1000);
  tms_utime e := Ok (e / 1000000, e);
  sleep n e := Ok (tt, e + n * 1000000000)
}.
Definition demo_work : M Z unit := λ e, Ok (tt, e + 5000).
Definition demo_clock : clock Z := Clock 0 0 zero 0 4294966000.
Definition demo_sampler : sampler Z := fcyc_statics demo_clock.

(** ** The K-best scheme *)

(** C19. [add_sample] keeps the [kbest] smallest samples: if the first cells
    hold the smallest of the samples [vs] in ascending order, then after
    another sample they hold the smallest of all of them, in ascending
    order; nothing but the cells and the counter changes. *)
Theorem add_sample_kbest {E} {MA : Machine E} (s : sampler E) vs v :
  kb_inv vs s → is_nan v = false → Z.of_nat (length vs) + 1 < 2147483648 →
  ∃ l, add_sample v s = Ok (tt, sampled (S (length vs)) l s) ∧
    kb_inv (vs ++ [v]) (sampled (S (length vs)) l s) ∧
    take (S (length vs)) l = take (Z.to_nat (kbest s)) (sorted_of (vs ++ [v])) ∧
    sorted_of (vs ++ [v]) ≡ₚ vs ++ [v] ∧
    StronglySorted (λ x y, dle x y = true) (sorted_of (vs ++ [v])).
Proof.
  intros Hkb Hv Hn.
  assert (H : wp (add_sample v) s (λ _ s', ∃ l, s' = sampled (S (length vs)) l s ∧ kb_inv (vs ++ [v]) s')).
  { apply (wp_add_sample s vs); [done..|]. intros l Hl. by exists l. }
  apply wp_run in H as ([] & s' & E1 & l & -> & Hkb'). exists l. split; [done|]. split; [done|].
  pose proof Hkb' as [_ _ Hnan (l' & Hl' & _ & Ht)].
  change (values (sampled _ l s)) with (Some l) in Hl'. injection Hl' as <-.
  rewrite length_app, Nat.add_1_r in Ht.
  split; [exact Ht|]. split; [apply sorted_of_perm|by apply ascending_sorted].
Qed.

Lemma demo_kb : kb_inv [of_Z 7] (sampled 1 [of_Z 7; zero; zero] demo_sampler).
Proof.
  apply (kb_sampled [of_Z 7] demo_sampler); [done|by repeat constructor|done|by vm_compute].
Qed.

Lemma add_sample_kbest_witness :
  ∃ l, add_sample (of_Z 5) (sampled 1 [of_Z 7; zero; zero] demo_sampler) =
         Ok (tt, sampled 2 l (sampled 1 [of_Z 7; zero; zero] demo_sampler)) ∧
    kb_inv [of_Z 7; of_Z 5] (sampled 2 l (sampled 1 [of_Z 7; zero; zero] demo_sampler)) ∧
    take 2 l = take 3 (sorted_of [of_Z 7; of_Z 5]) ∧
    sorted_of [of_Z 7; of_Z 5] ≡ₚ [of_Z 7; of_Z 5] ∧
    StronglySorted (λ x y, dle x y = true) (sorted_of [of_Z 7; of_Z 5]).
Proof.
  apply (add_sample_kbest (sampled 1 [of_Z 7; zero; zero] demo_sampler) [of_Z 7] (of_Z 5) demo_kb);
    by vm_compute.
Defined.

(** C20. With the plain counter and with or without clearing the cache,
    [fcyc] ends and returns the smallest of the readings it took, at least
    one and at most [maxsamples] (one if that is not positive); it took fewer
    only if the [kbest] smallest were within epsilon of each other; the
    sample buffer is released. *)
Theorem fcyc_correct {E} {MA : Machine E} host_malloc junk (f : M E unit) ticks (s : sampler E) :
  (∀ n, host_malloc n = true) → total rdtsc → total f →
  0 < kbest s < 2147483648 → maxsamples s < 2147483647 →
  compensate s = 0 → cache_ok junk (Z.to_nat (most (maxsamples s))) s →
  ∃ r s' vs s1, fcyc host_malloc junk f ticks s = Ok (r, s') ∧
    readings host_malloc junk f ticks s vs s1 ∧ s' = with_cells None (Z.of_nat (length vs)) s1 ∧
    r ∈ vs ∧ Forall (λ v, dle r v = true) vs ∧
    (1 ≤ length vs)%nat ∧ Z.of_nat (length vs) ≤ Z.max 1 (maxsamples s) ∧
    (converged (kbest s) (epsilon s) vs = true ∨ Z.of_nat (length vs) = Z.max 1 (maxsamples s)).
Proof.
  intros Hm Htsc Hf Hk Hmax Hcomp Hc.
  pose proof (wp_fcyc host_malloc junk f ticks (plain junk) (λ _, True) (plain_cells junk)
    (λ k s, wp_measure_plain host_malloc junk f ticks Hm k s Htsc Hf) s Hm Hk Hmax (conj Hcomp Hc)) as H.
  apply wp_run in H as (r & s' & E1 & vs & s1 & Hr & Hb & Es & _). by exists r, s', vs, s1.
Qed.

(** Clearing the cache of the demonstration, with a buffer of 64 ones. *)
Definition demo_cached : sampler Z :=
  Sampler 3 20 EPSILON 0 1 256 32 None None 0 0 demo_clock.

Lemma fcyc_correct_witness :
  ∃ r s' vs s1, fcyc (λ _, true) (λ _, 1) demo_work 0 demo_cached = Ok (r, s') ∧
    readings (λ _, true) (λ _, 1) demo_work 0 demo_cached vs s1 ∧
    s' = with_cells None (Z.of_nat (length vs)) s1 ∧
    r ∈ vs ∧ Forall (λ v, dle r v = true) vs ∧
    (1 ≤ length vs)%nat ∧ Z.of_nat (length vs) ≤ Z.max 1 20 ∧
    (converged 3 EPSILON vs = true ∨ Z.of_nat (length vs) = Z.max 1 20).
Proof.
  apply (fcyc_correct (λ _, true) (λ _, 1) demo_work 0 demo_cached); try done.
  - intros e. by eexists _, _.
  - intros e. by eexists _, _.
  - right. by split; vm_compute.
Defined.

(** ** The cycle counter *)

(** C25. [get_counter] borrows correctly: the two halves it combines are
    those of the 64-bit difference between the reading now and the one of
    [start_counter], and the [double] it returns is exactly that difference
    as long as it is below 2^53. *)
Theorem get_counter_difference {E} {MA : Machine E} (c : clock E) hi lo e :
  0 ≤ cyc_hi c < W32 → 0 ≤ cyc_lo c < W32 → 0 ≤ hi < W32 → 0 ≤ lo < W32 →
  rdtsc (machine c) = Ok ((hi, lo), e) →
  let d := (hi * W32 + lo - (cyc_hi c * W32 + cyc_lo c)) mod (W32 * W32) in
  ∃ h l, get_counter c = Ok (cycles h l, set_machine e c) ∧ 0 ≤ h < W32 ∧ 0 ≤ l < W32 ∧
    h * W32 + l = d ∧ (d < 9007199254740992 → cycles h l = of_Z d).
Proof.
  intros H1 H2 H3 H4 Hr d. destruct (get_counter_halves c hi lo e H1 H2 H3 H4 Hr) as (h & l & Eg & Hh & Hl & Ed).
  exists h, l. split_and!; try done; try lia. intros H53. subst d. fold (elapsed c hi lo).
  rewrite <- Ed. apply cycles_exact; [done|done|]. rewrite Ed. exact H53.
Qed.

Lemma get_counter_difference_witness :
  let d := (0 * W32 + 4294966000 - (0 * W32 + 4294967000)) mod (W32 * W32) in
  ∃ h l, get_counter (set_cyc 0 4294967000 demo_clock) =
           Ok (cycles h l, set_machine 4294967000 (set_cyc 0 4294967000 demo_clock)) ∧
    0 ≤ h < W32 ∧ 0 ≤ l < W32 ∧ h * W32 + l = d ∧ (d < 9007199254740992 → cycles h l = of_Z d).
Proof.
  apply (get_counter_difference (set_cyc 0 4294967000 demo_clock) 0 4294966000 4294967000);
    try (unfold W32; cbn; lia). done.
Defined.


#[export] Instance demo_alpha : AlphaMachine Z := {
  counter e := Ok (e mod W32, e)
}.


(** ** Calibration and the cycle counter as a timing method *)


(** The machine of the demonstration is steady for 2^50 cycles. *)
Lemma demo_steady : steady (λ e : Z, e) (λ n, n / 1000000) 1000000 1000 1125899906842624.
Proof.
  split.
  - unfold W32. lia.
  - intros n Hn. split; [apply Z.div_pos; lia|apply Z.div_lt_upper_bound; lia].
  - intros n n' _ Hn _. apply Z.div_le_mono; lia.
  - intros n _ _. replace (n + 1000000) with (n + 1 * 1000000) by lia. rewrite Z.div_add by lia. lia.
  - intros e _ _. exists (e + 1000). split; [done|lia].
  - intros e _ _. exists e. split; [done|lia].
Qed.

Definition demo_fuel : nat := Z.to_nat 101707001.

Lemma demo_enough : enough (period := 1000000) (gap := 1000) demo_fuel.
Proof. unfold enough, demo_fuel. rewrite Z2Nat.id by lia. done. Qed.



Definition demo_timer : cycle_timer Z := CycleTimer zero demo_sampler.

