(* ===== verification/MainTheorems.v ===== *)
(** * The properties of the main program (src/mdriver.c, [main])

    The options, the statistics, the error counter and the program as a
    whole; each property is followed by an instance in the process of
    [Demo], with a clock that advances a millisecond at every reading. *)

From Stdlib Require Import ZArith Lia Ascii String SpecFloat.
From stdpp Require Import base gmap numbers list.
From S2P Require Import Prelude Memory Memlib Contract Sizes Heap Malloc MmAllocator Debug Demo.
From S2P Require Import Ranges Driver Replay DriverSpec TraceFile ErrorCount Doubles Ftimer Stats Options.
From S2P Require Import Main MainSpec DriverTheorems.

(** ** A concrete run *)
#[export] Instance demo_timers : Timers Z := {
  gettimeofday t := Ok ((t / 1000000 mod 2147483648, t mod 1000000), t + 1000);
  setitimer _ _ _ t := Ok (tt, t);
  getitimer _ t := Ok ((0, 0), t)
}.

Lemma demo_clock_sane : clock_sane Z.
Proof.
  intros t. unfold wp. cbn [gettimeofday demo_timers fst snd].
  split; apply Z.mod_pos_bound; done.
Qed.

Lemma demo_starts s : starts (AL := mm_allocator_laws demo_libc_ok) 1048576 s.
Proof.
  apply mm_starts; [done|]. intros l. pose proof (malloc_fits (LibcOk := demo_libc_ok) l) as Hf.
  cbn [libc_malloc demo_libc] in *. rewrite Z.leb_refl, andb_true_r in *.
  rewrite MAX_HEAP_eq in *. destruct (Z.ltb_spec (Z.of_nat (length l)) 16); unfold W32; lia.
Qed.

(** Every file is the trace of [DriverTheorems]. *)
Definition demo_fopen (path : input) : option input := Some (print_trace demo_trace).
Definition demo_args : list opt := [Opt_v; Opt_f demo_name; Opt_g].
Definition demo_proc : proc Z := Proc (Dst st0 [] [] [] 0 []) 0.

Lemma demo_files :
  Forall2 (λ n tr, read_trace (λ _, true) demo_fopen (where_traces demo_args).1 n = Ok tr ∧
                   sound_trace 1048576 tr) (trace_names demo_args) [demo_trace].
Proof. repeat constructor; by vm_compute. Qed.

(** ** The program *)



(** C11. Whatever the allocators, the files and the options are, the error
    counter grows by one for every trace that turns out not to be valid.  A
    program that starts with a zero counter and gets to its end prints the
    index exactly if all traces are valid, and otherwise the number of those
    that are not.  But it does not always get there: [sumresults] sets the
    throughput only if all traces are valid, and the assertion behind it
    compares it in any case, so after an invalid trace the program returns
    exactly if what was left in the variable of [main] is positive. *)
Theorem main_counts_errors {T} {TM : Timers T} {L : Libc} {RA : RangeAlloc} (A C : Allocator)
    host_malloc fopen stale args (p : proc T) o libc stats p' :
  evaluate A C host_malloc fopen stale args p = Ok ((o, libc, stats), p') →
  let bad := Z.of_nat (length stats - num_valid stats) in
  d_errors (p_drv p') = d_errors (p_drv p) + bad ∧
  (d_errors (p_drv p) = 0 →
   match main A C host_malloc fopen stale args p with
   | Ok (r, p2) =>
       p2 = p' ∧ dlt zero (throughput stats stale) = true ∧
       if bad =? 0
       then result r = PerfIndex (perf_index (ddiv (total s_util stats) (of_Z (Z.of_nat (length stats))))
                                    (ddiv (total s_ops stats) (total s_secs stats)))
       else result r = Terminated bad
   | Err e => e = AssertFail ∧ dlt zero (throughput stats stale) = false
   end).
Proof.
  intros Hev bad. split; [apply (padds_evaluate _ _ _ _ _ _ _ _ _ Hev)|].
  intros He. rewrite main_run, Hev by done. unfold of_res, summary, bad.
  fold (invalid_traces stats). rewrite invalid_none.
  destruct (dlt zero _) eqn:Et; [|done]. cbn [result].
  unfold throughput. by destruct (all_valid stats).
Qed.

(** The evaluation of a trace that asks for too much, and what it leaves. *)
Definition greedy_fopen (path : input) : option input := Some (print_trace greedy_trace).
Definition greedy_args : list opt := [Opt_v; Opt_f (list_ascii_of_string "greedy.rep"); Opt_g].

Definition greedy_stats : options * option (list row) * list stats_t :=
  match evaluate mm_allocator mm_allocator (λ _, true) greedy_fopen (of_Z 1) greedy_args demo_proc with
  | Ok (r, _) => r
  | Err _ => (default_options, None, [])
  end.
Definition greedy_end : proc Z :=
  match evaluate mm_allocator mm_allocator (λ _, true) greedy_fopen (of_Z 1) greedy_args demo_proc with
  | Ok (_, p) => p
  | Err _ => demo_proc
  end.

Lemma greedy_evaluated :
  evaluate mm_allocator mm_allocator (λ _, true) greedy_fopen (of_Z 1) greedy_args demo_proc =
  Ok ((greedy_stats.1.1, greedy_stats.1.2, greedy_stats.2), greedy_end).
Proof.
  assert (H : match evaluate mm_allocator mm_allocator (λ _, true) greedy_fopen (of_Z 1) greedy_args demo_proc with
              | Ok _ => true
              | Err _ => false
              end = true) by by vm_compute.
  unfold greedy_stats, greedy_end. revert H. by destruct (evaluate _ _ _ _ _ _) as [[[[o libc] stats] p]|].
Qed.

(** One trace is not valid; with a positive number in the variable the
    program returns. *)
Lemma main_counts_errors_witness :
  let bad := Z.of_nat (length greedy_stats.2 - num_valid greedy_stats.2) in
  bad = 1 ∧
  d_errors (p_drv greedy_end) = d_errors (p_drv demo_proc) + bad ∧
  (d_errors (p_drv demo_proc) = 0 →
   match main mm_allocator mm_allocator (λ _, true) greedy_fopen (of_Z 1) greedy_args demo_proc with
   | Ok (r, p2) =>
       p2 = greedy_end ∧ dlt zero (throughput greedy_stats.2 (of_Z 1)) = true ∧
       if bad =? 0
       then result r = PerfIndex (perf_index
              (ddiv (total s_util greedy_stats.2) (of_Z (Z.of_nat (length greedy_stats.2))))
              (ddiv (total s_ops greedy_stats.2) (total s_secs greedy_stats.2)))
       else result r = Terminated bad
   | Err e => e = AssertFail ∧ dlt zero (throughput greedy_stats.2 (of_Z 1)) = false
   end).
Proof.
  split; [by vm_compute|].
  apply (main_counts_errors mm_allocator mm_allocator (λ _, true) greedy_fopen (of_Z 1) greedy_args demo_proc
           greedy_stats.1.1 greedy_stats.1.2 greedy_stats.2 greedy_end).
  apply greedy_evaluated.
Defined.

(** The same run with a zero in the variable stops at the assertion, and
    without the greedy trace the program gets to the performance index. *)
Lemma greedy_stopped :
  main mm_allocator mm_allocator (λ _, true) greedy_fopen zero greedy_args demo_proc = Err AssertFail.
Proof. by vm_compute. Qed.

Lemma demo_main_index :
  match main mm_allocator mm_allocator (λ _, true) demo_fopen zero demo_args demo_proc with
  | Ok (r, _) => match result r with PerfIndex _ => true | Terminated _ => false end
  | Err _ => false
  end = true.
Proof. by vm_compute. Qed.

(** ** Statistics *)

(** C23. As [main] calls it, [sumresults] counts the valid traces, averages
    the utilisation over all of them and returns the throughput, operations
    over seconds, if all are valid; if one is not, the number the assertion
    compares, and [sumresults] leaves, is the one the caller never set.  The
    assertion stops the program when that number is not positive.
    [printresults] prints one row for each trace, and totals that are those
    of [sumresults] if all are valid. *)
Theorem statistics_correct stats stale :
  sumresults stats true true true stale =
    (let util := ddiv (total s_util stats) (of_Z (Z.of_nat (length stats))) in
     if all_valid stats then
       let tput := ddiv (total s_ops stats) (total s_secs stats) in
       if dlt zero tput
       then Ok (Z.of_nat (length stats), Some util, Some tput)
       else Err AssertFail
     else if dlt zero stale
     then Ok (Z.of_nat (num_valid stats), Some util, Some stale)
     else Err AssertFail) ∧
  printresults stats =
    imap (λ k s, row_of (Z.of_nat k) s) stats ++
    [if all_valid stats
     then Total (dmul (ddiv (total s_util stats) (of_Z (Z.of_nat (length stats)))) hundred)
            (total s_ops stats) (total s_secs stats)
            (ddiv (ddiv (total s_ops stats) E3) (total s_secs stats))
     else NoTotal].
Proof.
  split; [|apply printresults_rows]. rewrite sumresults_mm. unfold throughput. cbv zeta.
  destruct (all_valid stats) eqn:Ev; [|done]. by rewrite (proj2 (num_valid_all stats) Ev).
Qed.

(** ** Options *)

(** C24. Options that do not stop the program are all read, and each variable
    is what the last option that sets it says: the files are those of the
    last [-f], in the current directory, whatever [-t] says; without [-f]
    the directory is that of the last [-t], with a slash at its end. *)
Theorem read_options_correct host_malloc l :
  (∀ n, host_malloc n = true) → forallb plain_opt l = true →
  ∃ o, read_options host_malloc l default_options = Ok o ∧ options_are l o ∧
    tracefiles (default_files o) = Some (map Some (trace_names l)).
Proof.
  intros Hm Hp. destruct (read_options_are host_malloc Hm l Hp) as (o & E & Ho).
  exists o. split; [done|]. split; [done|]. by apply options_files.
Qed.

Definition demo_opts : list opt :=
  [Opt_t (list_ascii_of_string "here"); Opt_a; Opt_V; Opt_t (list_ascii_of_string "there"); Opt_l].

Lemma read_options_correct_witness :
  ∃ o, read_options (λ _, true) demo_opts default_options = Ok o ∧ options_are demo_opts o ∧
    tracefiles (default_files o) = Some (map Some (trace_names demo_opts)).
Proof. apply read_options_correct; done. Defined.

(** ** Debugging aids *)

(** On memory of the process [debuggable_memset] is [memset]. *)
Theorem debuggable_memset_correct {L : Libc} s addr value len :
  Memory.valid s addr len = true → 0 ≤ addr → 0 ≤ len → addr + len < W32 →
  debuggable_memset addr value len s = memset addr value len s.
Proof. apply debuggable_memset_run. Qed.

Lemma debuggable_memset_correct_witness :
  debuggable_memset demo_p 7 100 demo_st = memset demo_p 7 100 demo_st.
Proof.
  apply (debuggable_memset_correct demo_st demo_p 7 100);
    [by vm_compute|unfold demo_p, demo_B, W32; lia..].
Defined.
